(* ===== verification/_CoqProject ===== *)
-Q . S2P
Prelude.v
SipHash.v
DictTable.v
Dictionary.v
DictInv.v
DictReloc.v
DictWf.v
DictOps.v
DictCheck.v
DictSpec.v
DictProps.v
DictIter.v
DictFindings.v
DictRobust.v
Time.v
Doubles.v
HeapTheory.v
PQElement.v
PriorityQueue.v
PQUnrolled.v
PQTheory.v
PQSpec.v
TimerQueue.v
PQVect.v
PrioQueue.v
PrioAddress.v
PrioVector.v
PrioGrow.v
PrioSpec.v
PrioProps.v
PrioThrow.v
QueueInstances.v
QueueMain.v
QueueMainProps.v
ZeekList.v
ListSpec.v
ListProps.v
Base64.v
SshKey.v
HashKey.v
DictDebug.v
ListMemory.v
DictKeys.v
PDict.v
Vxlan.v
VxlanProps.v
FifoMap.v
FifoProps.v
Glob.v
GlobProps.v
Windows.v
Sockets.v
SocketsProps.v
EventLog.v
EventLogProps.v
Processes.v
Wmi.v
WmiProps.v
Ttl.v
ConnID.v
Containers.v
DictMain.v
DictMainProps.v
Ares.v
AresProps.v
AresKqueue.v
Demos.v
Ioloop.v
ConsoleApp.v
KqueueFifos.v
