(* ===== verification/Prelude.v ===== *)
(** * zeek-snippets: a verification development

    The repository collects experiments made for the Zeek network monitor.  Those that
    carry logic of their own are modelled: the hash table of [src/dict], with the hash
    functions and the growing array it is built on; the timer queues of [src/queue];
    [fifo_map]; the key fingerprints of [sha256-ssh-key-hashing.cc]; the packet rewriter
    [pcap2vxlan]; the programs of [ConsoleApplication1], which ask Windows for sockets,
    processes, users, log entries and files; and the programs that try the resolver
    c-ares, event loops and kernel queues.

    ** The parts

    - The dictionary, [dict/OpenDict.h] and [OpenDict.cc]: an open-addressing table with
      clustered hashing, resized incrementally.  [DictTable] has the entries, the state
      (the record [Dictionary], a field per member) and the cluster arithmetic;
      [Dictionary] has the methods, one definition each, [LookupIndex] and [Remap]
      calling each other as they do there.  [DictInv] and [DictReloc] say what the
      relocating loops do to a table, [DictWf] and [DictOps] what searching, remapping
      and growing do to the invariant [core], [DictCheck] decides it on concrete tables.
      [DictSpec] refines [Insert], [Remove] and [Lookup] to a finite map from key and hash;
      [DictProps] has the other operations, [DictIter] the client's plain iteration and
      [DictRobust] the one that survives removals, [DictFindings] the runs that go wrong.
      [DictKeys] adds the memory of the keys: what an entry owns, takes, copies and frees.
      [DictDebug] has the checks ([AssertValid]), the measuring and the dumps.
    - The keys, [dict/Hash.h], [Hash.cc], [util.h], [util.cc]: [HashKey] models the
      constructors, who owns the bytes, and [HashBytes]; [PDict] composes it with the
      dictionary and its key memory into the map from C strings that a client uses.
    - SipHash, [dict/siphash24.cc] and the three copies under [src/hashing]: [SipHash].
    - [List], [dict/List.h]: [ZeekList] is the model, [ListSpec] the representation of a
      sequence, [ListProps] the refinement and [sortedinsert], [ListMemory] the arrays that
      lists own in the heap, through copies, assignments and the destructor.
    - [fifo_map], [dict/fifo_map.hpp]: [FifoMap] and [FifoProps].  Maps live in a store,
      because a comparison object points at the keys of some map.
    - The programs of [dict/test.cc]: [DictMain], proved in [DictMainProps] against the
      class [Container] of [Containers], of which [std::map], [std::unordered_map] and
      [fifo_map] are instances.
    - The timer queues, [queue/PriorityQueue.*], [PriorityQueueUnrolled.*] and
      [PriorityQueueVect.*]: [PriorityQueue], [PQUnrolled], [PQVect] over a store of
      elements ([PQElement]) ordered by a [double] ([Time]); [PQTheory] and [PQSpec] say
      what the heap promises.
    - The B-heap, [queue/prio_queue.hpp]: [PrioQueue] is the model, [skip_vector] with its
      raw memory and moved-from values included; [PrioAddress] is the index arithmetic,
      [PrioVector] and [PrioGrow] the vector, [PrioSpec] and [PrioProps] the queue;
      [PrioThrow] runs the vector with allocations and constructors that throw.
    - [HeapTheory] proves the sifting of both heaps once, for any layout: the client
      chooses the cells, the root and the parent function.  The class [TimeOrder] of
      [Time] is what it asks of the keys.
    - The class [TimerQueue] states what all four queues promise a client, with elements
      that a [world] allocates and deletes; [QueueInstances] shows that each keeps it.
      [Doubles] is what [double] makes of an [int].  [QueueMain] has the programs of
      [queue/main.cc], [benchmark], [quick_test] and [ordering], proved against the class
      in [QueueMainProps].
    - [Base64]: [b64_pton] and [b64_ntop] of [sha256-ssh-key-hashing.cc]; [SshKey]: its
      [main], from the bytes of a key file to the line printed.
    - [Vxlan] and [VxlanProps]: [pcap2vxlan/pcap2vxlan.c], from the configuration file to
      the bytes of the capture written.
    - [Glob] and [GlobProps]: [ConsoleApplication1/Glob.cpp], [glob] over the file search
      of Windows, with the buffer it writes the names to.
    - [Windows] is the state the other programs of [ConsoleApplication1] act on: the arrays
      and handles they hold, and an environment that answers their calls.  [Sockets] and
      [SocketsProps] are [Sockets.cpp] and the sorting in [ConsoleApplication1.cpp],
      [EventLog] and [EventLogProps] are [EventLogManager.cpp], [Processes] is
      [Processes.cpp], [Wmi] and [WmiProps] are [WMIManager.cpp].  [ConsoleApp] composes
      them into the programs of [ConsoleApplication1.cpp].
    - [Ttl]: [get_ttl] of [c-ares/cares_ttl.c] on the bytes of a message.  [Ares] has the
      nine programs of [c-ares] that wait with [select]: callbacks, [wait_ares] and [main];
      [AresProps] proves what they print and give back.  [AresKqueue] is the tenth.
    - [Ioloop]: the programs of [ioloop] that read a capture, a file or an interface from
      libuv, libevent, asio, [poll], kqueue and epoll.  [KqueueFifos]: [kqueue-fifos.cc],
      a thread, a fifo and [main] as interleaved steps.
    - [ConnID]: the key of [ordered_map.cpp]; [Demos]: that program, [dirname.cc],
      [bytestring_to_doublefloat.cc] and [unordered_map_std_hash.cpp].

    ** How code becomes definitions

    A method takes the state and returns its results with the new state, in the result
    type [res] below when it can fail an assertion ([Abort]) or do what the language
    leaves undefined ([UB]).  Pointers are numbers and a store maps the live ones to
    what they point at, wherever sharing matters: queue elements and their [offset],
    cookies of the dictionary, key memory, the comparison of a [fifo_map].  Integers are
    [Z] with [u8] to [u64], [i16] and [i32] written where the code has a type of that
    width; bytes are numbers below 256.  What the standard library does is written out
    ([std::lower_bound], [std::map], [memmove], [realloc]); OpenSSL's MD5, [ether_aton],
    [inet_pton], [ares_expand_name], [std::shuffle], [gettimeofday], [absl::btree_set] and
    every call of Windows, of c-ares, of libpcap and of the kernel are parameters; an event
    loop is the list of the wakeups it gives.  Code that calls Windows is in the monad [io] of
    [Windows], over the state [sys]: what is allocated or open, and an environment of any
    type that a call may change; [wp] and the rules for it carry the proofs.

    ** What the theorems show

    - Refinement: an unordered dictionary that is not iterated over is a finite map anywhere
      in its incremental resizing, as long as one resize at most is pending and the last
      slot is free ([Insert_refines], [Remove_refines], [Lookup_refines]; with two
      [lookup_loses_key], on an ordered one [ordered_insert_records_displaced]), a [PDict]
      one of strings, a [List] a sequence, a [fifo_map] a list in order of insertion; a robust
      iteration implements the abstract one, in which each entry that stays is given once
      ([robust_refines], [expire_visits_all]), under the removals it asks for.
    - Invariants: remapping and growing keep that of the dictionary; a plain iteration
      returns every entry once and ends; both searches agree.
    - The queues give back a least element ([Remove_correct], [pop_correct]), the unrolled
      class computes the same; all four queues give the same times in the same order
      ([queues_agree]), and [benchmark] runs through, deletes what it deletes and leaks
      what it leaks ([benchmark_correct]); the B-heap's [push], [pop] and [reschedule_top] act
      on its items through every case of growing, and its destructor destroys what was
      constructed and nothing else.
    - Exceptions: [push_back] of the B-heap's vector either does its work, or throws and
      leaves the vector unchanged, but for one case ([push_back_exceptions]); an allocator
      that uses the size it is given back makes a throw after a growth undefined.
    - [AssertValid] passes exactly on well-formed tables, when the slot it leaves out and the
      debug fields are right ([AssertValid_decides], [AssertValid_misses_first]); dumped
      keys read back ([DumpKeys_readable]).
    - Agreement and round trips: the four SipHash implementations compute one function and their self
      tests pass; base64 decodes what it encodes and stays inside its buffer;
      [parent_of] undoes [child_of]; [pcap2vxlan] writes headers with right checksums
      around packets that come back unchanged.
    - Memory: the block [glob] returns holds the names found, each in the place its
      pointer says, and nothing is written outside it; a [HashKey] hands its bytes over
      once.
    - The memory of the keys: in every run of a client that keeps the dictionary fit for
      searches, it frees each long key once and nothing else ([dictionary_frees_its_keys]).
    - The benchmarks of the dictionary find and visit what they inserted, in every map
      ([programs_find_their_ints]), and print what [main_prints] says; [dict_fills] asks
      that the dictionary stays fit for the next insertion, which a million entries do
      not promise.
    - Lists free each array they own once, whatever is assigned to what
      ([lists_own_their_arrays]).
    - The c-ares programs end, run the callback of each request once and give everything
      back, on a library of which each call does what is documented of it
      ([programs_answer_once]); the kqueue program keeps the kernel's registrations in step
      with its sets ([sock_changes_mirror]); the capture programs print every packet of a sound capture
      once ([captures_printed]) and never end on a damaged one ([damaged_capture_loops]);
      with a thread beside it [main] of [kqueue-fifos.cc] loses no byte and never blocks,
      and is terminated in the end, for the thread can still be joined ([fifos_run]).
    - The Windows programs: [sockets()] sorts by a strict weak order, the readers return
      well-formed sockets and free their tables whatever Windows answers; the loops over
      events, processes and log records end, with the handles closed and the memory
      freed, or the theorem says which is not: [GetUserData_leaks],
      [GetLogEntries_seeks_forever], [WMIManager_connection_fails].  [wmi_logs_balanced] and
      [logs_ends] say it of whole programs, from the manager's constructor to its destructor,
      with all they print; the first where no connection or query fails, the second
      whatever the registry has, undefined behaviour included.
    - Runs that go wrong, each on a concrete input or stated in general: the dictionary
      loses a key when two resizes are pending, its assertion after a remap fails,
      ordered dictionaries record a displaced entry, robust iterations miss insertions
      and, when an entry given earlier is removed, an entry that stays, and read
      [table[-1]] when one is removed before the first [NextEntry]; the vector queue misses
      queued elements, a heap element added to a second queue cannot be removed, [swap] breaks a [fifo_map], [glob] stops at a hidden file,
      [get_ttl] reads past the message, a snapshot prints uninitialised names, a failed
      query or [Next] makes the client use a pointer without a value.

    ** Bounds and fuel

    - A [for] loop over a table is [scan] with the table's length as fuel, enough by
      [scan_spec]; relocating loops take the length too, and the theorems say that they
      return.  [LookupIndex] recurs through the assertion in it: [LOOKUP_FUEL] levels,
      of which a valid dictionary takes two.
    - [MAX_ENTRIES], 65534: the distance of an entry is stored in 16 bits, and
      [TOO_FAR_TO_REACH] is taken.  [MAX_LOG2], 30: [1 << log2_buckets] is an
      [int], and [SizeUp] beyond it is undefined behaviour.  A dictionary that is [ready]
      keeps four doublings below it, for an insertion may grow the table more than once.
    - [bubble_fuel], [walk_fuel]: the size of the heap, above the length of any path.  The
      bins of the pointer queues and their doubled size are [int]s ([int_of]): [Add] asks
      for a free bin or fewer than 2^29 elements.  The counters of [b64_ntop] and
      [b64_pton] are [int]s too; the round trip asks for a text that one counts.
    - The theorems about [prio_queue.hpp] ask for fewer than 2^31 cells where [grow] uses
      an [int] ([grow_truncates] says what happens beyond), those about [List] for sizes
      that stay an [int] when grown, those about [fifo_map] for fewer than 2^64 - 1
      operations.
    - [CAPACITY], 2^29 elements: all four queues take that many.  The loops that empty a
      queue take one round more than it has elements; those of the Windows programs one
      more than there are events, processes or records, by a measure of the environment
      that each theorem asks for.

    - [wait_loop] of the c-ares programs takes two rounds more than the time a request is
      given: every round takes time, and what is due is given up; [run_loop] stops after the wakeups it is given, so
      that its theorems ask for enough of them.

    ** What depends on the implementation

    Where the code leaves the language but an implementation goes on, the model has a
    parameter for what that does, and undefined behaviour is one of its values:

    - [delete] of a key that comes from [new char[]]: the class [Implementation] of
      [HashKey] says whether it releases the array; if it does not [delete_mismatch] makes
      every such [delete] undefined.  The theorems about key memory ask for it, [DictMain]
      assumes it ([releasing]).
    - the six bytes [pcap2vxlan] reads beyond [eth_hdr]: [read_eth_hdr] gets what the stack
      has there for each packet, or nothing ([over_read_undefined]).
    - an [fread] of less than one element, which leaves the element indeterminate: the
      class [Fread] of [SshKey]; [stored] keeps the bytes that were there.
    - an allocator that is given back another size than it was asked for ([sized] of
      [PrioThrow]).

    ** Not modelled

    - [pcap2gre.c]: the text is damaged, with tokens missing, and does not compile.
    - [dict/zeek-config.h], [dict/digest.h], [dict/siphash24.h]: configuration, prototypes
      and wrappers of OpenSSL.
    - [chrono_perf_test.cc], [variadic.cc], [test-rvo.cpp], [is_convertible.cpp],
      [sqlite-conflict.c]: a page each, that prints what a language feature, a clock or a
      database gives; [ioloop/setsignal.c], [ioloop/wakeup.cc]: registration of handlers.
    - The scripts and patches: not C or C++, or code of other repositories.
    - Of the modelled parts: how [printf] writes a number ([line] is the format and its
      arguments; wide output counts as the narrow), the debugging output of the pointer queues, exceptions thrown by moves
      and assignments while a B-heap sifts, and what a thread does to a dictionary: nothing
      in it is shared between threads. *)

From stdpp Require Export prelude list sorting.
From Stdlib Require Export ZArith Lia.
#[export] Set Default Goal Selector "!".

#[global] Open Scope Z_scope.

(** ** Results of C++ code

    [Ok a] is a normal return, [Abort] a failed [assert] or a call of [abort()],
    [UB] a step the C++ standard gives no meaning; a loop whose recursion is not
    structural takes fuel and ends in [NoFuel] when it is exhausted. *)
Inductive res (A : Type) : Type :=
| Ok (a : A)
| Abort
| UB
| NoFuel.
Arguments Ok {A} a.
Arguments Abort {A}.
Arguments UB {A}.
Arguments NoFuel {A}.

Definition res_bind {A B : Type} (m : res A) (f : A -> res B) : res B :=
  match m with
  | Ok a => f a
  | Abort => Abort
  | UB => UB
  | NoFuel => NoFuel
  end.

(** [ASSERT(b)]. *)
Definition ASSERT (b : bool) : res unit := if b then Ok tt else Abort.

Declare Scope res_scope.
Delimit Scope res_scope with res.
Notation "'let!' x ':=' m 'in' k" := (res_bind m (fun x => k))
  (at level 10, x pattern, m at level 200, k at level 200,
   format "'[v' 'let!'  x  ':='  m  'in' '/' k ']'") : res_scope.
Notation "'assert!' b 'in' k" := (res_bind (ASSERT b) (fun _ => k))
  (at level 10, b at level 200, k at level 200,
   format "'[v' 'assert!'  b  'in' '/' k ']'") : res_scope.
#[global] Open Scope res_scope.

Lemma res_bind_Ok {A B} (m : res A) (f : A -> res B) b :
  res_bind m f = Ok b <-> exists a, m = Ok a /\ f a = Ok b.
Proof. destruct m; simpl; naive_solver. Qed.

Lemma ASSERT_true b : b = true -> ASSERT b = Ok tt.
Proof. intros ->. reflexivity. Qed.

(** Run one successful step of a computation in the goal. *)
Ltac step_ok H := rewrite H; cbn [res_bind].
(** Discharge the assertion at the head of the goal. *)
Ltac step_assert := rewrite ASSERT_true; [cbn [res_bind]|].

(** [for (i = lo; p(i); i++);] with [fuel] iterations allowed: the index at which
    the loop stops. *)
Fixpoint scan (p : Z -> bool) (fuel : nat) (i : Z) : Z :=
  match fuel with
  | O => i
  | S n => if p i then scan p n (i + 1) else i
  end.

(** The fuel [hi - i] is enough when the condition fails from [hi] on. *)
Lemma scan_spec (p : Z -> bool) (hi : Z) (fuel : nat) (i : Z) :
  (forall k, hi <= k -> p k = false) -> (Z.to_nat (hi - i) <= fuel)%nat ->
  let j := scan p fuel i in
  i <= j /\ j <= Z.max i hi /\ p j = false /\ (forall k, i <= k < j -> p k = true).
Proof.
  intros Hhi. revert i. induction fuel as [|n IH]; intros i Hf; cbn [scan].
  - split_and!; [lia|lia|apply Hhi; lia|lia].
  - destruct (p i) eqn:E.
    + assert (i < hi) by (destruct (decide (hi <= i)) as [H|]; [rewrite (Hhi i H) in E; done|lia]).
      destruct (IH (i + 1)) as (H1 & H2 & H3 & H4); [lia|].
      split_and!; [lia|lia|done|]. intros k Hk.
      destruct (decide (k = i)) as [->|]; [done|]. apply H4. lia.
    + split_and!; [lia|lia|done|lia].
Qed.

(** [lia] with [/] and [mod]. *)
Ltac dlia := Z.div_mod_to_equations; lia.

(** ** Machine integers: values in [Z], the wrap-around written out *)
Definition u8 (z : Z) : Z := z mod 2 ^ 8.
Definition u16 (z : Z) : Z := z mod 2 ^ 16.
Definition u32 (z : Z) : Z := z mod 2 ^ 32.
Definition u64 (z : Z) : Z := z mod 2 ^ 64.
(** Two's complement reading of the low [w] bits. *)
Definition swrap (w z : Z) : Z :=
  let m := z mod 2 ^ w in if m <? 2 ^ (w - 1) then m else m - 2 ^ w.
Definition i16 (z : Z) : Z := swrap 16 z.
Definition i32 (z : Z) : Z := swrap 32 z.

Lemma u8_range z : 0 <= u8 z < 2 ^ 8.
Proof. apply Z.mod_pos_bound. reflexivity. Qed.
Lemma u16_range z : 0 <= u16 z < 2 ^ 16.
Proof. apply Z.mod_pos_bound. reflexivity. Qed.
Lemma u32_range z : 0 <= u32 z < 2 ^ 32.
Proof. apply Z.mod_pos_bound. reflexivity. Qed.
Lemma u64_range z : 0 <= u64 z < 2 ^ 64.
Proof. apply Z.mod_pos_bound. reflexivity. Qed.
Lemma u16_small z : 0 <= z < 2 ^ 16 -> u16 z = z.
Proof. apply Z.mod_small. Qed.
Lemma u32_small z : 0 <= z < 2 ^ 32 -> u32 z = z.
Proof. apply Z.mod_small. Qed.
Lemma u64_small z : 0 <= z < 2 ^ 64 -> u64 z = z.
Proof. apply Z.mod_small. Qed.
Lemma u8_small z : 0 <= z < 2 ^ 8 -> u8 z = z.
Proof. apply Z.mod_small. Qed.

Lemma i32_small z : 0 <= z < 2 ^ 31 -> i32 z = z.
Proof.
  intros Hz. unfold i32, swrap. rewrite Z.mod_small by lia.
  destruct (Z.ltb_spec z (2 ^ (32 - 1))); lia.
Qed.

(** The result of an [int] operation: its overflow is undefined. *)
Definition int_of (z : Z) : res Z :=
  if (- 2 ^ 31 <=? z) && (z <? 2 ^ 31) then Ok z else UB.

Lemma int_of_ok z : - 2 ^ 31 <= z < 2 ^ 31 -> int_of z = Ok z.
Proof.
  intros Hz. unfold int_of. destruct (Z.leb_spec (- 2 ^ 31) z); [|lia].
  destruct (Z.ltb_spec z (2 ^ 31)); [done|lia].
Qed.

Lemma int_of_inv z n : int_of z = Ok n -> n = z.
Proof. unfold int_of. by destruct (_ && _); intros [= <-]. Qed.

(** An [int] passed through [int16_t] into a [uint16_t] field. *)
Lemma u16_i16 z : u16 (i16 z) = u16 z.
Proof.
  unfold u16, i16, swrap. case_match.
  - apply Z.mod_mod. lia.
  - replace (z mod 2 ^ 16 - 2 ^ 16) with (z mod 2 ^ 16 + (-1) * 2 ^ 16) by lia.
    rewrite Z.mod_add by lia. apply Z.mod_mod. lia.
Qed.

(** Disjoint bits add up. *)
Lemma lor_low x t w : 0 <= w -> x mod 2 ^ w = 0 -> 0 <= t < 2 ^ w -> Z.lor x t = x + t.
Proof.
  intros Hw Hx Ht. rewrite <- Z.lxor_lor, <- Z.add_nocarry_lxor; [done|..];
    apply Z.bits_inj'; intros i Hi; rewrite Z.land_spec, Z.bits_0;
    (destruct (decide (i < w));
      [rewrite <- (Z.mod_pow2_bits_low x w i), Hx, Z.bits_0 by lia; done|
       rewrite <- (Z.mod_small t (2 ^ w)), Z.mod_pow2_bits_high by lia; apply andb_false_r]).
Qed.

Create HintDb words.
#[export] Hint Resolve u8_range u16_range u32_range u64_range : words.

(** Bytes are [Z]s in [0, 256). *)
Definition byte_ok (b : Z) : Prop := 0 <= b < 2 ^ 8.
Definition bytes_ok (bs : list Z) : Prop := Forall byte_ok bs.

Lemma lookup_total_byte_ok (bs : list Z) i : bytes_ok bs -> byte_ok (bs !!! i).
Proof.
  intros H. destruct (bs !! i) as [b|] eqn:E.
  - rewrite (list_lookup_total_correct _ _ _ E). eapply Forall_lookup_1; eauto.
  - rewrite list_lookup_total_alt, E. cbn. split; [done|reflexivity].
Qed.
