(* ===== verification/SipHash.v ===== *)
(** * SipHash-2-4: the four implementations of the repository

    [dict/siphash24.cc] (the reference C code), [hashing/stock/siphash24.cc] (a copy of
    it, translated from its own lines), [hashing/floodyberry/siphash.c] and
    [hashing/siphash-bench/siphash24.cc].  A pointer into a buffer is the list
    of the bytes from that address on; a 64-bit load is little-endian, as on
    the hosts the last two were written for (their [*(const uint64_t * )p] and
    [_le64toh]). *)

From S2P Require Import Prelude.

(** ** The reference code: [dict/siphash24.cc] *)

Record sip := Sip { v0 : Z; v1 : Z; v2 : Z; v3 : Z }.

Definition cROUNDS : nat := 2.
Definition dROUNDS : nat := 4.

Definition ROTL (x b : Z) : Z :=
  u64 (Z.lor (u64 (Z.shiftl x b)) (Z.shiftr x (64 - b))).

Definition U32TO8_LE (v : Z) : list Z :=
  [u8 v; u8 (Z.shiftr v 8); u8 (Z.shiftr v 16); u8 (Z.shiftr v 24)].

Definition U64TO8_LE (v : Z) : list Z :=
  U32TO8_LE (u32 v) ++ U32TO8_LE (u32 (Z.shiftr v 32)).

Definition U8TO64_LE (p : list Z) : Z :=
  Z.lor (Z.lor (Z.lor (Z.lor (Z.lor (Z.lor (Z.lor
    (p !!! 0%nat) (Z.shiftl (p !!! 1%nat) 8))
    (Z.shiftl (p !!! 2%nat) 16)) (Z.shiftl (p !!! 3%nat) 24))
    (Z.shiftl (p !!! 4%nat) 32)) (Z.shiftl (p !!! 5%nat) 40))
    (Z.shiftl (p !!! 6%nat) 48)) (Z.shiftl (p !!! 7%nat) 56).

Definition SIPROUND (s : sip) : sip :=
  let '(Sip v0 v1 v2 v3) := s in
  let v0 := u64 (v0 + v1) in
  let v1 := ROTL v1 13 in
  let v1 := Z.lxor v1 v0 in
  let v0 := ROTL v0 32 in
  let v2 := u64 (v2 + v3) in
  let v3 := ROTL v3 16 in
  let v3 := Z.lxor v3 v2 in
  let v0 := u64 (v0 + v3) in
  let v3 := ROTL v3 21 in
  let v3 := Z.lxor v3 v0 in
  let v2 := u64 (v2 + v1) in
  let v1 := ROTL v1 17 in
  let v1 := Z.lxor v1 v2 in
  let v2 := ROTL v2 32 in
  Sip v0 v1 v2 v3.

Definition xor_v0 (m : Z) (s : sip) : sip := Sip (Z.lxor (v0 s) m) (v1 s) (v2 s) (v3 s).
Definition xor_v2 (m : Z) (s : sip) : sip := Sip (v0 s) (v1 s) (Z.lxor (v2 s) m) (v3 s).
Definition xor_v3 (m : Z) (s : sip) : sip := Sip (v0 s) (v1 s) (v2 s) (Z.lxor (v3 s) m).

(** [for (; in != end; in += 8)]: [n] is [(end - in) / 8]; the loop also
    leaves [in] behind for the tail. *)
Fixpoint sip_blocks (n : nat) (inp : list Z) (s : sip) : list Z * sip :=
  match n with
  | O => (inp, s)
  | S n' =>
      let m := U8TO64_LE inp in
      sip_blocks n' (drop 8 inp) (xor_v0 m (Nat.iter cROUNDS SIPROUND (xor_v3 m s)))
  end.

(** The [switch (left)] whose cases all fall through: case [k] is executed
    when [left >= k]. *)
Definition sip_tail (left : Z) (inp : list Z) (b : Z) : Z :=
  let b := if 7 <=? left then Z.lor b (Z.shiftl (inp !!! 6%nat) 48) else b in
  let b := if 6 <=? left then Z.lor b (Z.shiftl (inp !!! 5%nat) 40) else b in
  let b := if 5 <=? left then Z.lor b (Z.shiftl (inp !!! 4%nat) 32) else b in
  let b := if 4 <=? left then Z.lor b (Z.shiftl (inp !!! 3%nat) 24) else b in
  let b := if 3 <=? left then Z.lor b (Z.shiftl (inp !!! 2%nat) 16) else b in
  let b := if 2 <=? left then Z.lor b (Z.shiftl (inp !!! 1%nat) 8) else b in
  if 1 <=? left then Z.lor b (inp !!! 0%nat) else b.

(** [_siphash(out, in, inlen, k)]: the bytes it stores in [out]. *)
Definition _siphash (inp : list Z) (inlen : Z) (k : list Z) : list Z :=
  let k0 := U8TO64_LE k in
  let k1 := U8TO64_LE (drop 8 k) in
  let s := Sip (Z.lxor 0x736f6d6570736575 k0) (Z.lxor 0x646f72616e646f6d k1)
               (Z.lxor 0x6c7967656e657261 k0) (Z.lxor 0x7465646279746573 k1) in
  let left := Z.land inlen 7 in
  let b := u64 (Z.shiftl inlen 56) in
  let '(inp, s) := sip_blocks (Z.to_nat ((inlen - inlen mod 8) / 8)) inp s in
  let b := sip_tail left inp b in
  let s := xor_v0 b (Nat.iter cROUNDS SIPROUND (xor_v3 b s)) in
  let s := Nat.iter dROUNDS SIPROUND (xor_v2 0xff s) in
  U64TO8_LE (Z.lxor (Z.lxor (Z.lxor (v0 s) (v1 s)) (v2 s)) (v3 s)).

(** The wrapper of [dict/siphash24.cc]: [out] is the [uint64_t] at [digest],
    read back by the little-endian host. *)
Definition siphash (inp : list Z) (inlen : Z) (key : list Z) : Z :=
  U8TO64_LE (_siphash inp inlen key).

(** ** [hashing/stock/siphash24.cc] *)

(** The macros and [_siphash] of that file; the prefix [stock_] tells them from those
    above. *)
Definition stock_cROUNDS : nat := 2.
Definition stock_dROUNDS : nat := 4.

Definition stock_ROTL (x b : Z) : Z :=
  u64 (Z.lor (u64 (Z.shiftl x b)) (Z.shiftr x (64 - b))).

Definition stock_U32TO8_LE (v : Z) : list Z :=
  [u8 v; u8 (Z.shiftr v 8); u8 (Z.shiftr v 16); u8 (Z.shiftr v 24)].

Definition stock_U64TO8_LE (v : Z) : list Z :=
  stock_U32TO8_LE (u32 v) ++ stock_U32TO8_LE (u32 (Z.shiftr v 32)).

Definition stock_U8TO64_LE (p : list Z) : Z :=
  Z.lor (Z.lor (Z.lor (Z.lor (Z.lor (Z.lor (Z.lor
    (p !!! 0%nat) (Z.shiftl (p !!! 1%nat) 8))
    (Z.shiftl (p !!! 2%nat) 16)) (Z.shiftl (p !!! 3%nat) 24))
    (Z.shiftl (p !!! 4%nat) 32)) (Z.shiftl (p !!! 5%nat) 40))
    (Z.shiftl (p !!! 6%nat) 48)) (Z.shiftl (p !!! 7%nat) 56).

Definition stock_SIPROUND (s : sip) : sip :=
  let '(Sip v0 v1 v2 v3) := s in
  let v0 := u64 (v0 + v1) in
  let v1 := stock_ROTL v1 13 in
  let v1 := Z.lxor v1 v0 in
  let v0 := stock_ROTL v0 32 in
  let v2 := u64 (v2 + v3) in
  let v3 := stock_ROTL v3 16 in
  let v3 := Z.lxor v3 v2 in
  let v0 := u64 (v0 + v3) in
  let v3 := stock_ROTL v3 21 in
  let v3 := Z.lxor v3 v0 in
  let v2 := u64 (v2 + v1) in
  let v1 := stock_ROTL v1 17 in
  let v1 := Z.lxor v1 v2 in
  let v2 := stock_ROTL v2 32 in
  Sip v0 v1 v2 v3.

(** [for (; in != end; in += 8)]; [n] rounds are left. *)
Fixpoint stock_blocks (n : nat) (inp : list Z) (s : sip) : list Z * sip :=
  match n with
  | O => (inp, s)
  | S n' =>
      let m := stock_U8TO64_LE inp in
      let s := xor_v3 m s in
      let s := Nat.iter stock_cROUNDS stock_SIPROUND s in
      let s := xor_v0 m s in
      stock_blocks n' (drop 8 inp) s
  end.

(** The [switch (left)]. *)
Definition stock_tail (left : Z) (inp : list Z) (b : Z) : Z :=
  let b := if 7 <=? left then Z.lor b (Z.shiftl (inp !!! 6%nat) 48) else b in
  let b := if 6 <=? left then Z.lor b (Z.shiftl (inp !!! 5%nat) 40) else b in
  let b := if 5 <=? left then Z.lor b (Z.shiftl (inp !!! 4%nat) 32) else b in
  let b := if 4 <=? left then Z.lor b (Z.shiftl (inp !!! 3%nat) 24) else b in
  let b := if 3 <=? left then Z.lor b (Z.shiftl (inp !!! 2%nat) 16) else b in
  let b := if 2 <=? left then Z.lor b (Z.shiftl (inp !!! 1%nat) 8) else b in
  if 1 <=? left then Z.lor b (inp !!! 0%nat) else b.

Definition stock_siphash (inp : list Z) (inlen : Z) (k : list Z) : list Z :=
  let s := Sip 0x736f6d6570736575 0x646f72616e646f6d 0x6c7967656e657261 0x7465646279746573 in
  let k0 := stock_U8TO64_LE k in
  let k1 := stock_U8TO64_LE (drop 8 k) in
  let left := Z.land inlen 7 in
  let b := u64 (Z.shiftl inlen 56) in
  let s := Sip (Z.lxor (v0 s) k0) (Z.lxor (v1 s) k1) (Z.lxor (v2 s) k0) (Z.lxor (v3 s) k1) in
  let '(inp, s) := stock_blocks (Z.to_nat ((inlen - inlen mod 8) / 8)) inp s in
  let b := stock_tail left inp b in
  let s := xor_v3 b s in
  let s := Nat.iter stock_cROUNDS stock_SIPROUND s in
  let s := xor_v0 b s in
  let s := xor_v2 0xff s in
  let s := Nat.iter stock_dROUNDS stock_SIPROUND s in
  let b := Z.lxor (Z.lxor (Z.lxor (v0 s) (v1 s)) (v2 s)) (v3 s) in
  stock_U64TO8_LE b.

(** ** [hashing/floodyberry/siphash.c] *)

Definition ROTL64 (a b : Z) : Z :=
  Z.lor (u64 (Z.shiftl a b)) (Z.shiftr a (64 - b)).

(** [U8TO64_LE] of that file: one 8-byte load. *)
Definition load64 (p : list Z) : Z :=
  foldr (fun b acc => b + 256 * acc) 0 (take 8 p).

Definition sipcompress (s : sip) : sip :=
  let '(Sip v0 v1 v2 v3) := s in
  let v0 := u64 (v0 + v1) in let v2 := u64 (v2 + v3) in
  let v1 := ROTL64 v1 13 in let v3 := ROTL64 v3 16 in
  let v1 := Z.lxor v1 v0 in let v3 := Z.lxor v3 v2 in
  let v0 := ROTL64 v0 32 in
  let v2 := u64 (v2 + v1) in let v0 := u64 (v0 + v3) in
  let v1 := ROTL64 v1 17 in let v3 := ROTL64 v3 21 in
  let v1 := Z.lxor v1 v2 in let v3 := Z.lxor v3 v0 in
  let v2 := ROTL64 v2 32 in
  Sip v0 v1 v2 v3.

(** [for (i = 0; i < blocks; i += 8)], [n] iterations left. *)
Fixpoint fb_blocks (n : nat) (i : Z) (m : list Z) (s : sip) : Z * sip :=
  match n with
  | O => (i, s)
  | S n' =>
      let mi := load64 (drop (Z.to_nat i) m) in
      let s := xor_v3 mi s in
      let s := sipcompress s in
      let s := sipcompress s in
      fb_blocks n' (i + 8) m (xor_v0 mi s)
  end.

Definition fb_last7 (rem i : Z) (m : list Z) (last7 : Z) : Z :=
  let m k := m !!! Z.to_nat (i + k) in
  let last7 := if 7 <=? rem then Z.lor last7 (Z.shiftl (m 6) 48) else last7 in
  let last7 := if 6 <=? rem then Z.lor last7 (Z.shiftl (m 5) 40) else last7 in
  let last7 := if 5 <=? rem then Z.lor last7 (Z.shiftl (m 4) 32) else last7 in
  let last7 := if 4 <=? rem then Z.lor last7 (Z.shiftl (m 3) 24) else last7 in
  let last7 := if 3 <=? rem then Z.lor last7 (Z.shiftl (m 2) 16) else last7 in
  let last7 := if 2 <=? rem then Z.lor last7 (Z.shiftl (m 1) 8) else last7 in
  if 1 <=? rem then Z.lor last7 (m 0) else last7.

Definition fb_siphash (key m : list Z) (len : Z) : Z :=
  let k0 := load64 key in
  let k1 := load64 (drop 8 key) in
  let s := Sip (Z.lxor k0 0x736f6d6570736575) (Z.lxor k1 0x646f72616e646f6d)
               (Z.lxor k0 0x6c7967656e657261) (Z.lxor k1 0x7465646279746573) in
  let last7 := u64 (Z.shiftl (Z.land len 0xff) 56) in
  let blocks := Z.land len (Z.lnot 7) in
  let '(i, s) := fb_blocks (Z.to_nat (blocks / 8)) 0 m s in
  let last7 := fb_last7 (len - blocks) i m last7 in
  let s := xor_v3 last7 s in
  let s := sipcompress s in
  let s := sipcompress s in
  let s := xor_v2 0xff (xor_v0 last7 s) in
  let s := sipcompress s in
  let s := sipcompress s in
  let s := sipcompress s in
  let s := sipcompress s in
  Z.lxor (Z.lxor (Z.lxor (v0 s) (v1 s)) (v2 s)) (v3 s).

(** ** [hashing/siphash-bench/siphash24.cc] *)

Definition ROTATE (x b : Z) : Z :=
  u64 (Z.lor (u64 (Z.shiftl x b)) (Z.shiftr x (64 - b))).

(** [HALF_ROUND(a,b,c,d,s,t)], the four values it leaves in [a], [b], [c], [d]. *)
Definition HALF_ROUND (a b c d s t : Z) : Z * Z * Z * Z :=
  let a := u64 (a + b) in let c := u64 (c + d) in
  let b := Z.lxor (ROTATE b s) a in
  let d := Z.lxor (ROTATE d t) c in
  let a := ROTATE a 32 in
  (a, b, c, d).

Definition DOUBLE_ROUND (s : sip) : sip :=
  let '(Sip v0 v1 v2 v3) := s in
  let '(v0, v1, v2, v3) := HALF_ROUND v0 v1 v2 v3 13 16 in
  let '(v2, v1, v0, v3) := HALF_ROUND v2 v1 v0 v3 17 21 in
  let '(v0, v1, v2, v3) := HALF_ROUND v0 v1 v2 v3 13 16 in
  let '(v2, v1, v0, v3) := HALF_ROUND v2 v1 v0 v3 17 21 in
  Sip v0 v1 v2 v3.

(** [while (src_sz >= 8)]: [n] bounds the iterations. *)
Fixpoint bench_blocks (n : nat) (inp : list Z) (src_sz : Z) (s : sip) : list Z * Z * sip :=
  match n with
  | O => (inp, src_sz, s)
  | S n' =>
      if 8 <=? src_sz then
        let mi := load64 inp in
        bench_blocks n' (drop 8 inp) (src_sz - 8) (xor_v0 mi (DOUBLE_ROUND (xor_v3 mi s)))
      else (inp, src_sz, s)
  end.

(** The bytes of [t] after the [switch (src_sz)]; case 4 copies the first four
    bytes at once and breaks. *)
Definition bench_tail (src_sz : Z) (m : list Z) : list Z :=
  let pt := replicate 8 0 in
  let pt := if src_sz =? 7 then <[6%nat := m !!! 6%nat]> pt else pt in
  let pt := if (6 <=? src_sz) && (src_sz <=? 7) then <[5%nat := m !!! 5%nat]> pt else pt in
  let pt := if (5 <=? src_sz) && (src_sz <=? 7) then <[4%nat := m !!! 4%nat]> pt else pt in
  if (4 <=? src_sz) && (src_sz <=? 7) then
    <[0%nat := m !!! 0%nat]> (<[1%nat := m !!! 1%nat]>
      (<[2%nat := m !!! 2%nat]> (<[3%nat := m !!! 3%nat]> pt)))
  else
    let pt := if src_sz =? 3 then <[2%nat := m !!! 2%nat]> pt else pt in
    let pt := if (2 <=? src_sz) && (src_sz <=? 3) then <[1%nat := m !!! 1%nat]> pt else pt in
    if (1 <=? src_sz) && (src_sz <=? 3) then <[0%nat := m !!! 0%nat]> pt else pt.

Definition siphash24 (src : list Z) (src_sz : Z) (key : list Z) : Z :=
  let k0 := load64 key in
  let k1 := load64 (drop 8 key) in
  let b := u64 (Z.shiftl src_sz 56) in
  let s := Sip (Z.lxor k0 0x736f6d6570736575) (Z.lxor k1 0x646f72616e646f6d)
               (Z.lxor k0 0x6c7967656e657261) (Z.lxor k1 0x7465646279746573) in
  let '(inp, src_sz, s) := bench_blocks (Z.to_nat src_sz) src src_sz s in
  let t := load64 (bench_tail src_sz inp) in
  let b := Z.lor b t in
  let s := xor_v0 b (DOUBLE_ROUND (xor_v3 b s)) in
  let s := DOUBLE_ROUND (DOUBLE_ROUND (xor_v2 0xff s)) in
  Z.lxor (Z.lxor (v0 s) (v1 s)) (Z.lxor (v2 s) (v3 s)).

(** ** The self-test [verify] of the three programs *)

Definition kSipHashOutput : list Z :=
  [0x726FDB47DD0E0E31; 0x74F839C593DC67FD; 0x0D6C8009D9A94F5A;
   0x85676696D7FB7E2D; 0xCF2794E0277187B7; 0x18765564CD99A68D;
   0xCBC9466E58FEE3CE; 0xAB0200F58B01D137; 0x93F5F5799A932462;
   0x9E0082DF0BA9E4B0; 0x7A5DBBC594DDB9F3; 0xF4B32F46226BADA7;
   0x751E8FBC860EE5FB; 0x14EA5627C0843D90; 0xF723CA908E7AF2EE;
   0xA129CA6149BE45E5; 0x3F2ACC7F57C29BDB; 0x699AE9F52CBE4794;
   0x4BC1B3F0968DD39C; 0xBB6DC91DA77961BD; 0xBED65CF21AA2EE98;
   0xD0F2CBB02E3B67C7; 0x93536795E3A33E88; 0xA80C038CCD5CCEC8;
   0xB8AD50C6F649AF94; 0xBCE192DE8A85B8EA; 0x17D835B85BBB15F3;
   0x2F2E6163076BCFAD; 0xDE4DAAACA71DC9A5; 0xA6A2506687956571;
   0xAD87A3535C49EF28; 0x32D892FAD841C342; 0x7127512F72F27CCE;
   0xA7F32346F95978E3; 0x12E0B01ABB051238; 0x15E034D40FA197AE;
   0x314DFFBE0815A3B4; 0x027990F029623981; 0xCADCD4E59EF40C4D;
   0x9ABFD8766A33735C; 0x0E3EA96B5304A7D0; 0xAD0C42D6FC585992;
   0x187306C89BC215A9; 0xD4A60ABCF3792B95; 0xF935451DE4F21DF2;
   0xA9538F0419755787; 0xDB9ACDDFF56CA510; 0xD06C98CD5C0975EB;
   0xE612A3CB9ECBA951; 0xC766E62CFCADAF96; 0xEE64435A9752FE72;
   0xA192D576B245165A; 0x0A8787BF8ECB74B2; 0x81B3E73D20B49B6F;
   0x7FA8220BA3B2ECEA; 0x245731C13CA42499; 0xB78DBFAF3A8D83BD;
   0xEA1AD565322A1A0B; 0x60E61C23A3795013; 0x6606D7E446282B93;
   0x6CA4ECB15C5F91E1; 0x9F626DA15C9625F3; 0xE51B38608EF25F57;
   0x958A324CEB064572].

(** [for (size = 0; size < kMaxSize; ++size)]: [in[size] = size], then hash the
    first [size] bytes; the first mismatch returns [false]. *)
Fixpoint verify_loop (hash : list Z -> Z -> Z) (n : nat) (size : Z) (inp : list Z) : bool :=
  match n with
  | O => true
  | S n' =>
      let inp := <[Z.to_nat size := u8 size]> inp in
      if hash inp size =? kSipHashOutput !!! Z.to_nat size
      then verify_loop hash n' (size + 1) inp
      else false
  end.

Definition stock_verify (key : list Z) : bool :=
  verify_loop (fun inp size => stock_U8TO64_LE (stock_siphash inp size key)) 64 0 (replicate 64 0).
Definition fb_verify (key : list Z) : bool :=
  verify_loop (fun inp size => fb_siphash key inp size) 64 0 (replicate 64 0).
Definition bench_verify (key : list Z) : bool :=
  verify_loop (fun inp size => siphash24 inp size key) 64 0 (replicate 64 0).

(** The key of the three [main]s: [{0x0706050403020100, 0x0F0E0D0C0B0A0908}]. *)
Definition main_key : list Z :=
  U64TO8_LE 0x0706050403020100 ++ U64TO8_LE 0x0F0E0D0C0B0A0908.

(** ** Words and bytes *)

Lemma lor_shiftl_add a b n :
  0 <= n -> 0 <= a < 2 ^ n -> Z.lor a (Z.shiftl b n) = a + 2 ^ n * b.
Proof.
  intros Hn Ha.
  assert (Z.land a (Z.shiftl b n) = 0) as H0.
  { apply Z.bits_inj'. intros i Hi. rewrite Z.land_spec, Z.shiftl_spec, Z.bits_0 by lia.
    destruct (decide (i < n)).
    - rewrite (Z.testbit_neg_r b (i - n)) by lia. apply andb_false_r.
    - replace a with (a mod 2 ^ n) by (apply Z.mod_small; lia).
      rewrite Z.mod_pow2_bits_high by lia. reflexivity. }
  rewrite <- Z.lxor_lor, <- Z.add_nocarry_lxor by done.
  rewrite Z.shiftl_mul_pow2 by lia. lia.
Qed.

(** The bytes at [p .. p+7], most significant last. *)
Lemma U8TO64_LE_sum p :
  bytes_ok p ->
  U8TO64_LE p =
    p !!! 0%nat + 2 ^ 8 * (p !!! 1%nat) + 2 ^ 16 * (p !!! 2%nat) + 2 ^ 24 * (p !!! 3%nat)
    + 2 ^ 32 * (p !!! 4%nat) + 2 ^ 40 * (p !!! 5%nat) + 2 ^ 48 * (p !!! 6%nat)
    + 2 ^ 56 * (p !!! 7%nat).
Proof.
  intros Hp. unfold U8TO64_LE.
  assert (forall i, 0 <= p !!! i < 2 ^ 8) as B by (intros; by apply lookup_total_byte_ok).
  pose proof (B 0%nat). pose proof (B 1%nat). pose proof (B 2%nat). pose proof (B 3%nat).
  pose proof (B 4%nat). pose proof (B 5%nat). pose proof (B 6%nat). pose proof (B 7%nat).
  rewrite (lor_shiftl_add (p !!! 0%nat)) by lia.
  do 6 (rewrite (lor_shiftl_add (_ + _)) by lia). lia.
Qed.

Lemma load64_U8TO64_LE p : (8 <= length p)%nat -> bytes_ok p -> load64 p = U8TO64_LE p.
Proof.
  intros Hl Hp. rewrite U8TO64_LE_sum by done. unfold load64.
  do 8 (destruct p as [|? p]; [cbn in Hl; lia|]).
  simpl foldr. rewrite ?list_lookup_total_alt. simpl. lia.
Qed.

Lemma U64TO8_LE_bytes v : bytes_ok (U64TO8_LE v).
Proof. unfold U64TO8_LE, U32TO8_LE. repeat constructor; apply u8_range. Qed.

(** Byte [j] of the low or high half of [v], as repeated division. *)
Lemma u8_shiftr_u32 v j :
  0 <= j -> j + 8 <= 32 -> u8 (Z.shiftr (u32 v) j) = u8 (Z.shiftr v j).
Proof.
  intros Hj Hj'. unfold u8, u32. rewrite <- !Z.land_ones by lia.
  apply Z.bits_inj'. intros i Hi. rewrite !Z.land_spec, !Z.shiftr_spec, Z.land_spec by lia.
  destruct (decide (i < 8)).
  - rewrite (Z.ones_spec_low 32) by lia. by rewrite andb_true_r.
  - by rewrite (Z.ones_spec_high 8), !andb_false_r by lia.
Qed.

Lemma le_bytes_step v n m :
  0 <= n -> m = n + 8 -> Z.shiftr v n = u8 (Z.shiftr v n) + 2 ^ 8 * Z.shiftr v m.
Proof.
  intros Hn ->. rewrite <- Z.shiftr_shiftr by lia. unfold u8.
  rewrite (Z.shiftr_div_pow2 (Z.shiftr v n)) by lia.
  pose proof (Z.div_mod (Z.shiftr v n) (2 ^ 8)). lia.
Qed.

Lemma U8TO64_LE_U64TO8_LE v : 0 <= v < 2 ^ 64 -> U8TO64_LE (U64TO8_LE v) = v.
Proof.
  intros Hv. rewrite U8TO64_LE_sum by apply U64TO8_LE_bytes.
  unfold U64TO8_LE, U32TO8_LE. cbn [app lookup_total list_lookup_total].
  rewrite <- (Z.shiftr_0_r (u32 v)) at 1. rewrite <- (Z.shiftr_0_r (u32 (Z.shiftr v 32))) at 1.
  rewrite !u8_shiftr_u32 by lia. rewrite !Z.shiftr_shiftr, Z.shiftr_0_r by lia.
  pose proof (le_bytes_step v 0 8). pose proof (le_bytes_step v 8 16).
  pose proof (le_bytes_step v 16 24). pose proof (le_bytes_step v 24 32).
  pose proof (le_bytes_step v 32 40). pose proof (le_bytes_step v 40 48).
  pose proof (le_bytes_step v 48 56). pose proof (le_bytes_step v 56 64).
  assert (Z.shiftr v 64 = 0) by (rewrite Z.shiftr_div_pow2; [apply Z.div_small|]; lia).
  change (32 + 0) with 32; change (32 + 8) with 40; change (32 + 16) with 48;
    change (32 + 24) with 56.
  rewrite Z.shiftr_0_r in *. lia.
Qed.

Lemma le_sum_inj p : forall q,
  length p = length q -> bytes_ok p -> bytes_ok q ->
  foldr (fun b acc => b + 256 * acc) 0 p = foldr (fun b acc => b + 256 * acc) 0 q -> p = q.
Proof.
  induction p as [|x p IH]; intros [|y q] Hl Hp Hq; try discriminate; [done|].
  apply Forall_cons in Hp as [Hx Hp], Hq as [Hy Hq]. cbn [foldr]. unfold byte_ok in *.
  intros E. f_equal; [lia|]. apply IH; auto; lia.
Qed.

Lemma U8TO64_LE_inj p q :
  length p = 8%nat -> length q = 8%nat -> bytes_ok p -> bytes_ok q ->
  U8TO64_LE p = U8TO64_LE q -> p = q.
Proof.
  intros Hp Hq Bp Bq. rewrite <- !load64_U8TO64_LE by (done || lia). unfold load64.
  rewrite !take_ge by lia. apply le_sum_inj; auto; lia.
Qed.

Lemma lxor_u64_range a b : 0 <= a < 2 ^ 64 -> 0 <= b < 2 ^ 64 -> 0 <= Z.lxor a b < 2 ^ 64.
Proof.
  intros Ha Hb. replace (Z.lxor a b) with (u64 (Z.lxor a b)); [apply u64_range|].
  unfold u64. rewrite <- (Z.mod_small a (2 ^ 64)), <- (Z.mod_small b (2 ^ 64)) by lia.
  rewrite <- !Z.land_ones by lia.
  apply Z.bits_inj'. intros i Hi. rewrite ?Z.land_spec, ?Z.lxor_spec, ?Z.land_spec.
  repeat destruct (Z.testbit _ _); reflexivity.
Qed.

Lemma lor_u64_range a b : 0 <= a < 2 ^ 64 -> 0 <= b < 2 ^ 64 -> 0 <= Z.lor a b < 2 ^ 64.
Proof.
  intros Ha Hb. replace (Z.lor a b) with (u64 (Z.lor a b)); [apply u64_range|].
  unfold u64. rewrite <- (Z.mod_small a (2 ^ 64)), <- (Z.mod_small b (2 ^ 64)) by lia.
  rewrite <- !Z.land_ones by lia.
  apply Z.bits_inj'. intros i Hi. rewrite ?Z.land_spec, ?Z.lor_spec, ?Z.land_spec.
  repeat destruct (Z.testbit _ _); reflexivity.
Qed.
#[export] Hint Resolve lxor_u64_range lor_u64_range : words.

(** ** The state stays in 64-bit range *)

Definition sip_ok (s : sip) : Prop :=
  0 <= v0 s < 2 ^ 64 /\ 0 <= v1 s < 2 ^ 64 /\ 0 <= v2 s < 2 ^ 64 /\ 0 <= v3 s < 2 ^ 64.

Lemma ROTL_range x b : 0 <= ROTL x b < 2 ^ 64.
Proof. apply u64_range. Qed.
#[export] Hint Resolve ROTL_range : words.

Lemma shiftr_u64_range x n : 0 <= n -> 0 <= x < 2 ^ 64 -> 0 <= Z.shiftr x n < 2 ^ 64.
Proof.
  intros Hn Hx. rewrite Z.shiftr_div_pow2 by lia.
  split; [apply Z.div_pos; lia|]. apply Z.div_lt_upper_bound; [lia|].
  assert (1 <= 2 ^ n) by (apply (Z.pow_le_mono_r 2 0); lia). nia.
Qed.

Lemma ROTL64_ROTL x b : 0 <= b <= 64 -> 0 <= x < 2 ^ 64 -> ROTL64 x b = ROTL x b.
Proof.
  intros Hb Hx. unfold ROTL64, ROTL. symmetry. apply u64_small.
  apply lor_u64_range; [apply u64_range|]. apply shiftr_u64_range; lia.
Qed.

Lemma SIPROUND_ok s : sip_ok s -> sip_ok (SIPROUND s).
Proof.
  destruct s. unfold sip_ok, SIPROUND. cbn [v0 v1 v2 v3].
  intros. refine (conj _ (conj _ (conj _ _))); auto 6 with words.
Qed.

Lemma xor_v0_ok m s : 0 <= m < 2 ^ 64 -> sip_ok s -> sip_ok (xor_v0 m s).
Proof. intros Hm (?&?&?&?). refine (conj _ (conj _ (conj _ _))); cbn; auto with words. Qed.
Lemma xor_v2_ok m s : 0 <= m < 2 ^ 64 -> sip_ok s -> sip_ok (xor_v2 m s).
Proof. intros Hm (?&?&?&?). refine (conj _ (conj _ (conj _ _))); cbn; auto with words. Qed.
Lemma xor_v3_ok m s : 0 <= m < 2 ^ 64 -> sip_ok s -> sip_ok (xor_v3 m s).
Proof. intros Hm (?&?&?&?). refine (conj _ (conj _ (conj _ _))); cbn; auto with words. Qed.
#[export] Hint Resolve xor_v0_ok xor_v2_ok xor_v3_ok : words.

Lemma sipcompress_SIPROUND s : sip_ok s -> sipcompress s = SIPROUND s.
Proof.
  destruct s as [a b c d]. unfold sip_ok. cbn [v0 v1 v2 v3]. intros (?&?&?&?).
  unfold sipcompress, SIPROUND.
  rewrite (ROTL64_ROTL b), (ROTL64_ROTL d) by lia.
  rewrite !ROTL64_ROTL; auto 6 with words; lia.
Qed.

(** Two half rounds make one round; rounds are composed without unfolding. *)
Lemma HALF_ROUNDs_SIPROUND a b c d a1 b1 c1 d1 a2 b2 c2 d2 :
  HALF_ROUND a b c d 13 16 = (a1, b1, c1, d1) ->
  HALF_ROUND c1 b1 a1 d1 17 21 = (c2, b2, a2, d2) ->
  SIPROUND (Sip a b c d) = Sip a2 b2 c2 d2.
Proof. intros [= <- <- <- <-] [= <- <- <- <-]. reflexivity. Qed.

Lemma DOUBLE_ROUND_SIPROUND s : DOUBLE_ROUND s = Nat.iter 2 SIPROUND s.
Proof.
  destruct s as [a b c d]. unfold DOUBLE_ROUND. cbn [Nat.iter nat_rect].
  destruct (HALF_ROUND a b c d 13 16) as [[[? ?] ?] ?] eqn:E1.
  destruct (HALF_ROUND _ _ _ _ 17 21) as [[[? ?] ?] ?] eqn:E2.
  rewrite (HALF_ROUNDs_SIPROUND _ _ _ _ _ _ _ _ _ _ _ _ E1 E2). clear E1 E2.
  destruct (HALF_ROUND _ _ _ _ 13 16) as [[[? ?] ?] ?] eqn:E3.
  destruct (HALF_ROUND _ _ _ _ 17 21) as [[[? ?] ?] ?] eqn:E4.
  by rewrite (HALF_ROUNDs_SIPROUND _ _ _ _ _ _ _ _ _ _ _ _ E3 E4).
Qed.

(** ** The copy *)

Lemma stock_SIPROUND_same s : stock_SIPROUND s = SIPROUND s.
Proof. destruct s as [a b c d]. reflexivity. Qed.

Lemma stock_rounds_same n s : Nat.iter n stock_SIPROUND s = Nat.iter n SIPROUND s.
Proof. induction n as [|n IH]; [done|]. by rewrite !Nat.iter_succ, IH, stock_SIPROUND_same. Qed.

Lemma stock_blocks_same n inp s : stock_blocks n inp s = sip_blocks n inp s.
Proof.
  revert inp s. induction n as [|n IH]; intros inp s; [done|]. cbn [stock_blocks sip_blocks]. cbv zeta.
  by rewrite stock_rounds_same, IH.
Qed.

Lemma stock_tail_same left inp b : stock_tail left inp b = sip_tail left inp b.
Proof. reflexivity. Qed.

Lemma stock_load_same p : stock_U8TO64_LE p = U8TO64_LE p.
Proof. reflexivity. Qed.

Lemma stock_store_same v : stock_U64TO8_LE v = U64TO8_LE v.
Proof. reflexivity. Qed.

(** From the loop on. *)
Lemma stock_finish_same left inp b s :
  (let b := stock_tail left inp b in
   let s := xor_v3 b s in
   let s := Nat.iter stock_cROUNDS stock_SIPROUND s in
   let s := xor_v0 b s in
   let s := xor_v2 0xff s in
   let s := Nat.iter stock_dROUNDS stock_SIPROUND s in
   let b := Z.lxor (Z.lxor (Z.lxor (v0 s) (v1 s)) (v2 s)) (v3 s) in
   stock_U64TO8_LE b) =
  (let b := sip_tail left inp b in
   let s := xor_v0 b (Nat.iter cROUNDS SIPROUND (xor_v3 b s)) in
   let s := Nat.iter dROUNDS SIPROUND (xor_v2 0xff s) in
   U64TO8_LE (Z.lxor (Z.lxor (Z.lxor (v0 s) (v1 s)) (v2 s)) (v3 s))).
Proof.
  rewrite stock_tail_same. generalize (sip_tail left inp b). clear b. intros b. cbv zeta.
  rewrite (stock_rounds_same stock_cROUNDS), (stock_rounds_same stock_dROUNDS). apply stock_store_same.
Qed.

Lemma stock_siphash_same inp inlen k : stock_siphash inp inlen k = _siphash inp inlen k.
Proof.
  unfold stock_siphash, _siphash. cbn [v0 v1 v2 v3]. rewrite !stock_load_same, stock_blocks_same.
  destruct (sip_blocks _ _ _) as [inp' s]. apply stock_finish_same.
Qed.

Lemma U8TO64_LE_range p : bytes_ok p -> 0 <= U8TO64_LE p < 2 ^ 64.
Proof.
  intros Hp. rewrite U8TO64_LE_sum by done.
  assert (forall i, 0 <= p !!! i < 2 ^ 8) as B by (intros; by apply lookup_total_byte_ok).
  pose proof (B 0%nat). pose proof (B 1%nat). pose proof (B 2%nat). pose proof (B 3%nat).
  pose proof (B 4%nat). pose proof (B 5%nat). pose proof (B 6%nat). pose proof (B 7%nat).
  lia.
Qed.

Lemma bytes_ok_drop n p : bytes_ok p -> bytes_ok (drop n p).
Proof. apply Forall_drop. Qed.
#[export] Hint Resolve bytes_ok_drop U8TO64_LE_range SIPROUND_ok : words.

(** ** The block loops *)

#[local] Opaque SIPROUND sipcompress DOUBLE_ROUND sip_ok xor_v0 xor_v2 xor_v3 U8TO64_LE load64.

Lemma rounds_ok n s : sip_ok s -> sip_ok (Nat.iter n SIPROUND s).
Proof. intros Hs. induction n; cbn; auto with words. Qed.

(** One message word: [v3 ^= m], two rounds, [v0 ^= m]. *)
Lemma sip_word_ok m s : 0 <= m < 2 ^ 64 -> sip_ok s ->
  sip_ok (xor_v0 m (Nat.iter cROUNDS SIPROUND (xor_v3 m s))).
Proof. intros. apply xor_v0_ok; [done|]. apply rounds_ok. auto with words. Qed.
#[export] Hint Resolve rounds_ok sip_word_ok : words.

Lemma sipcompress2 s : sip_ok s -> sipcompress (sipcompress s) = Nat.iter 2 SIPROUND s.
Proof.
  intros. rewrite (sipcompress_SIPROUND s) by done.
  by rewrite sipcompress_SIPROUND by auto with words.
Qed.

Lemma sip_blocks_ok n : forall inp s,
  bytes_ok inp -> sip_ok s ->
  fst (sip_blocks n inp s) = drop (8 * n) inp /\ sip_ok (snd (sip_blocks n inp s)).
Proof.
  induction n as [|n IH]; intros inp s Hb Hs; cbn [sip_blocks]; [done|].
  destruct (IH (drop 8 inp)
    (xor_v0 (U8TO64_LE inp) (Nat.iter cROUNDS SIPROUND (xor_v3 (U8TO64_LE inp) s))))
    as [-> Hok]; [auto with words..|].
  split; [|apply Hok]. rewrite drop_drop. f_equal. lia.
Qed.

Lemma fb_blocks_sip n : forall i m s,
  bytes_ok m -> sip_ok s -> 0 <= i -> (Z.to_nat i + 8 * n <= length m)%nat ->
  fb_blocks n i m s = (i + 8 * Z.of_nat n, snd (sip_blocks n (drop (Z.to_nat i) m) s)).
Proof.
  induction n as [|n IH]; intros i m s Hb Hs Hi Hlen; cbn [fb_blocks sip_blocks snd].
  { f_equal; lia. }
  rewrite load64_U8TO64_LE; [|rewrite length_drop; lia|by apply bytes_ok_drop].
  rewrite sipcompress2 by auto with words.
  rewrite IH; [|auto with words|auto with words|lia|lia].
  f_equal; [lia|]. rewrite drop_drop.
  replace (Z.to_nat (i + 8)) with (Z.to_nat i + 8)%nat by lia. reflexivity.
Qed.

Lemma bench_blocks_sip n : forall inp sz s,
  bytes_ok inp -> sip_ok s -> 0 <= sz -> Z.to_nat sz = length inp -> (Z.to_nat sz <= n)%nat ->
  bench_blocks n inp sz s =
    (let '(inp', s') := sip_blocks (Z.to_nat (sz / 8)) inp s in (inp', sz mod 8, s')).
Proof.
  induction n as [|n IH]; intros inp sz s Hb Hs Hsz Hl Hn; cbn [bench_blocks].
  { assert (sz = 0) as -> by lia. reflexivity. }
  destruct (8 <=? sz) eqn:E.
  - apply Z.leb_le in E.
    replace (Z.to_nat (sz / 8)) with (S (Z.to_nat ((sz - 8) / 8))) by dlia.
    cbn [sip_blocks]. rewrite load64_U8TO64_LE by (done || lia).
    rewrite DOUBLE_ROUND_SIPROUND, IH; [|auto with words|auto with words|lia| |lia].
    + replace ((sz - 8) mod 8) with (sz mod 8) by dlia. reflexivity.
    + rewrite length_drop. lia.
  - apply Z.leb_gt in E. rewrite (Z.div_small sz), (Z.mod_small sz) by lia. reflexivity.
Qed.

(** ** The tails *)

Lemma fb_last7_tail rem i m b :
  0 <= i -> fb_last7 rem i m b = sip_tail rem (drop (Z.to_nat i) m) b.
Proof.
  intros Hi. unfold fb_last7, sip_tail.
  assert (forall k, 0 <= k ->
    m !!! Z.to_nat (i + k) = drop (Z.to_nat i) m !!! Z.to_nat k) as E.
  { intros k Hk. rewrite lookup_total_drop. f_equal. lia. }
  rewrite !E by lia. reflexivity.
Qed.

#[local] Transparent U8TO64_LE.

(** The bytes the switch stores in [t], or-ed into [b] at once. *)
Lemma bench_tail_sip left m b :
  0 <= left < 8 -> Z.to_nat left = length m -> bytes_ok m ->
  Z.lor b (load64 (bench_tail left m)) = sip_tail left m b.
Proof.
  intros Hl Hlen Hm.
  assert (bytes_ok (bench_tail left m) /\ length (bench_tail left m) = 8%nat) as [Hok Hlen8].
  { unfold bench_tail, bytes_ok.
    split; [|by repeat (case_match; rewrite ?length_insert)].
    repeat case_match; repeat apply Forall_insert; try apply lookup_total_byte_ok; try done;
      by apply Forall_replicate. }
  rewrite load64_U8TO64_LE by (done || lia).
  assert (left = 0 \/ left = 1 \/ left = 2 \/ left = 3 \/ left = 4 \/ left = 5 \/ left = 6
    \/ left = 7) as Hc by lia.
  destruct_or! Hc; subst left; unfold U8TO64_LE, bench_tail, sip_tail; cbn [length] in *;
    do 8 (try (destruct m as [|? m]; [discriminate|])); try discriminate;
    cbn -[Z.shiftl Z.lor]; rewrite ?Z.shiftl_0_l, ?Z.lor_0_l, ?Z.lor_0_r;
    apply Z.bits_inj'; intros n Hn; rewrite ?Z.lor_spec;
    repeat destruct (Z.testbit _ _); reflexivity.
Qed.

#[local] Opaque U8TO64_LE.

Lemma sip_tail_range left m b :
  bytes_ok m -> 0 <= b < 2 ^ 64 -> 0 <= sip_tail left m b < 2 ^ 64.
Proof.
  intros Hm Hb. unfold sip_tail.
  assert (forall k, 0 <= m !!! k < 2 ^ 8) as B by (intros; by apply lookup_total_byte_ok).
  assert (forall k j, 0 <= j <= 56 -> 0 <= Z.shiftl (m !!! k) j < 2 ^ 64) as B'.
  { intros k j Hj. rewrite Z.shiftl_mul_pow2 by lia. pose proof (B k).
    assert (0 < 2 ^ j <= 2 ^ 56) by (split; [lia|apply Z.pow_le_mono_r; lia]). nia. }
  pose proof (B 0%nat).
  repeat case_match; repeat (apply lor_u64_range); try apply B'; lia.
Qed.

(** The state before the first block. *)
Lemma sip_init_ok k0 k1 : 0 <= k0 < 2 ^ 64 -> 0 <= k1 < 2 ^ 64 ->
  sip_ok (Sip (Z.lxor 0x736f6d6570736575 k0) (Z.lxor 0x646f72616e646f6d k1)
              (Z.lxor 0x6c7967656e657261 k0) (Z.lxor 0x7465646279746573 k1)).
Proof.
  intros. with_strategy transparent [sip_ok] unfold sip_ok.
  refine (conj _ (conj _ (conj _ _))); cbn; apply lxor_u64_range; lia.
Qed.

Lemma sip_fold_range s : sip_ok s ->
  0 <= Z.lxor (Z.lxor (Z.lxor (v0 s) (v1 s)) (v2 s)) (v3 s) < 2 ^ 64.
Proof.
  with_strategy transparent [sip_ok] unfold sip_ok. intros (?&?&?&?). auto with words.
Qed.

(** What follows the blocks is the same code. *)
Definition sip_finish (b : Z) (s : sip) : Z :=
  let s := Nat.iter dROUNDS SIPROUND
             (xor_v2 0xff (xor_v0 b (Nat.iter cROUNDS SIPROUND (xor_v3 b s)))) in
  Z.lxor (Z.lxor (Z.lxor (v0 s) (v1 s)) (v2 s)) (v3 s).

Definition sip_start (key : list Z) : sip :=
  let k0 := U8TO64_LE key in let k1 := U8TO64_LE (drop 8 key) in
  Sip (Z.lxor 0x736f6d6570736575 k0) (Z.lxor 0x646f72616e646f6d k1)
      (Z.lxor 0x6c7967656e657261 k0) (Z.lxor 0x7465646279746573 k1).

(** SipHash as one function, to which each implementation is reduced. *)
Definition sip_spec (key m : list Z) : Z :=
  let len := Z.of_nat (length m) in
  let '(inp, s) := sip_blocks (Z.to_nat (len / 8)) m (sip_start key) in
  sip_finish (sip_tail (len mod 8) inp (u64 (Z.shiftl len 56))) s.

Section Agree.
Context (key m : list Z).
Hypothesis Hkey : bytes_ok key.
Hypothesis Hklen : length key = 16%nat.
Hypothesis Hm : bytes_ok m.
Let len := Z.of_nat (length m).

Lemma sip_start_ok : sip_ok (sip_start key).
Proof. apply sip_init_ok; auto with words. Qed.

Lemma sip_blocks_m :
  exists s, sip_blocks (Z.to_nat (len / 8)) m (sip_start key) =
    (drop (8 * Z.to_nat (len / 8)) m, s) /\ sip_ok s.
Proof.
  destruct (sip_blocks_ok (Z.to_nat (len / 8)) m (sip_start key) Hm sip_start_ok) as [E Hs].
  destruct (sip_blocks _ _ _) as [i s]. cbn in *. subst i. eauto.
Qed.

Lemma sip_b_range inp : bytes_ok inp ->
  0 <= sip_tail (len mod 8) inp (u64 (Z.shiftl len 56)) < 2 ^ 64.
Proof. intros. apply sip_tail_range; [done|apply u64_range]. Qed.

Lemma sip_finish_ok inp s : bytes_ok inp -> sip_ok s ->
  0 <= sip_finish (sip_tail (len mod 8) inp (u64 (Z.shiftl len 56))) s < 2 ^ 64.
Proof.
  intros Hi Hs. pose proof (sip_b_range inp Hi). apply sip_fold_range, rounds_ok.
  apply xor_v2_ok; [lia|]. auto with words.
Qed.

Lemma siphash_spec : siphash m len key = sip_spec key m.
Proof.
  unfold siphash, _siphash, sip_spec. fold len. fold (sip_start key).
  replace ((len - len mod 8) / 8) with (len / 8) by dlia.
  replace (Z.land len 7) with (len mod 8)
    by (symmetry; apply (Z.land_ones len 3); lia).
  destruct sip_blocks_m as (s & E & Hs). rewrite E.
  set (b := sip_tail _ _ _).
  change (U8TO64_LE (U64TO8_LE (sip_finish b s)) = sip_finish b s).
  apply U8TO64_LE_U64TO8_LE. apply sip_finish_ok; auto with words.
Qed.

Lemma sip_start_comm : sip_start key =
  Sip (Z.lxor (load64 key) 0x736f6d6570736575) (Z.lxor (load64 (drop 8 key)) 0x646f72616e646f6d)
      (Z.lxor (load64 key) 0x6c7967656e657261) (Z.lxor (load64 (drop 8 key)) 0x7465646279746573).
Proof.
  rewrite !load64_U8TO64_LE by (rewrite ?length_drop; auto with words; lia).
  unfold sip_start. f_equal; apply Z.lxor_comm.
Qed.

Lemma fb_siphash_spec : fb_siphash key m len = sip_spec key m.
Proof.
  unfold fb_siphash, sip_spec. fold len. rewrite <- sip_start_comm.
  replace (Z.land len (Z.lnot 7)) with (8 * (len / 8)).
  2:{ rewrite <- Z.ldiff_land. change 7 with (Z.ones 3). rewrite Z.ldiff_ones_r by lia.
      rewrite Z.shiftl_mul_pow2, Z.shiftr_div_pow2 by lia. change (2 ^ 3) with 8. lia. }
  replace (8 * (len / 8) / 8) with (len / 8) by dlia.
  rewrite fb_blocks_sip; [|done|apply sip_start_ok|lia|subst len; dlia].
  rewrite drop_0. destruct sip_blocks_m as (s & E & Hs). rewrite E. cbn [snd].
  rewrite fb_last7_tail by lia.
  replace (Z.to_nat (0 + 8 * Z.of_nat (Z.to_nat (len / 8)))) with (8 * Z.to_nat (len / 8))%nat
    by lia.
  replace (len - 8 * (len / 8)) with (len mod 8) by dlia.
  replace (u64 (Z.shiftl (Z.land len 255) 56)) with (u64 (Z.shiftl len 56)).
  2:{ unfold u64. change 255 with (Z.ones 8). rewrite Z.land_ones, !Z.shiftl_mul_pow2 by lia.
      change (2 ^ 64) with (2 ^ 8 * 2 ^ 56). rewrite !Z.mul_mod_distr_r by lia.
      by rewrite Z.mod_mod by lia. }
  set (b := sip_tail _ _ _).
  assert (0 <= b < 2 ^ 64) by (apply sip_b_range; auto with words).
  rewrite (sipcompress2 (xor_v3 b s)) by auto with words.
  set (s1 := xor_v2 _ _).
  assert (sip_ok s1).
  { apply xor_v2_ok; [lia|]. apply xor_v0_ok; [done|]. auto with words. }
  rewrite (sipcompress2 s1), sipcompress2 by auto with words. reflexivity.
Qed.

Lemma siphash24_spec : siphash24 m len key = sip_spec key m.
Proof.
  unfold siphash24, sip_spec. fold len. rewrite <- sip_start_comm.
  rewrite bench_blocks_sip; [|done|apply sip_start_ok|subst len; lia..].
  destruct sip_blocks_m as (s & E & Hs). rewrite E.
  rewrite bench_tail_sip; [|dlia|rewrite length_drop; subst len; dlia|auto with words].
  set (b := sip_tail _ _ _). rewrite !DOUBLE_ROUND_SIPROUND.
  rewrite <- Z.lxor_assoc. reflexivity.
Qed.
End Agree.

(** C39: the four implementations - the reference code in [dict/], its copy in
    [hashing/stock/], the floodyberry and the benchmark one - compute the same 64-bit value
    on every message and every 16-byte key; the first two store its bytes, little-endian,
    and the digest is read back from them. *)
Theorem siphash_implementations_agree (key m : list Z) :
  bytes_ok key -> length key = 16%nat -> bytes_ok m ->
  let len := Z.of_nat (length m) in
  siphash m len key = fb_siphash key m len /\ siphash24 m len key = fb_siphash key m len /\
  stock_U8TO64_LE (stock_siphash m len key) = fb_siphash key m len /\ stock_siphash m len key = _siphash m len key.
Proof.
  intros Hk Hl Hm len. subst len. rewrite stock_siphash_same.
  change (stock_U8TO64_LE (_siphash m (Z.of_nat (length m)) key)) with (siphash m (Z.of_nat (length m)) key).
  by rewrite siphash_spec, fb_siphash_spec, siphash24_spec.
Qed.

Lemma siphash_implementations_agree_witness :
  let m := [1; 2; 3; 255; 5; 6; 7; 8; 9; 0; 11] in
  siphash m 11 main_key = fb_siphash main_key m 11 /\
  siphash24 m 11 main_key = fb_siphash main_key m 11 /\
  stock_U8TO64_LE (stock_siphash m 11 main_key) = fb_siphash main_key m 11 /\
  stock_siphash m 11 main_key = _siphash m 11 main_key.
Proof.
  apply (siphash_implementations_agree main_key [1; 2; 3; 255; 5; 6; 7; 8; 9; 0; 11]).
  - repeat constructor; vm_compute; congruence.
  - reflexivity.
  - repeat constructor; vm_compute; congruence.
Defined.

(** the self-test of each of the three programs passes: the 64 published
    SipHash-2-4 outputs are reproduced. *)
Theorem siphash_verify_passes :
  stock_verify main_key = true /\ fb_verify main_key = true /\ bench_verify main_key = true.
Proof. vm_compute. done. Qed.

(** What [U64TO8_LE] stores, [U8TO64_LE] reads back, and conversely. *)
Theorem U64_LE_roundtrip (v : Z) (p : list Z) :
  0 <= v < 2 ^ 64 -> length p = 8%nat -> bytes_ok p ->
  U8TO64_LE (U64TO8_LE v) = v /\ U64TO8_LE (U8TO64_LE p) = p.
Proof.
  intros Hv Hl Hp. split; [by apply U8TO64_LE_U64TO8_LE|].
  apply U8TO64_LE_inj; auto using U64TO8_LE_bytes.
  apply U8TO64_LE_U64TO8_LE. auto with words.
Qed.

Lemma U64_LE_roundtrip_witness :
  U8TO64_LE (U64TO8_LE 0x0706050403020100) = 0x0706050403020100 /\
  U64TO8_LE (U8TO64_LE [8; 7; 6; 5; 4; 3; 2; 255]) = [8; 7; 6; 5; 4; 3; 2; 255].
Proof.
  apply U64_LE_roundtrip; [lia|reflexivity|].
  repeat constructor; vm_compute; congruence.
Defined.
