(* ===== verification/DictTable.v ===== *)
(** * The dictionary of [dict/OpenDict.h]: entries, state and cluster arithmetic

    Clustered hashing: an entry sits at or after its bucket, [distance] cells
    away; the entries of a bucket form a contiguous cluster and clusters are
    ordered by bucket. *)

From stdpp Require Export gmap.
From S2P Require Export Prelude.

Definition HASH_MASK : Z := 0xFFFFffff.
Definition DICT_REMAP_ENTRIES : nat := 16.
Definition DICT_LOAD_FACTOR_BITS : Z := 2.
Definition DICT_THRESHOLD_BITS : Z := 3.
Definition TOO_FAR_TO_REACH : Z := 0xFFFF.

(** ** [DictEntry]

    [distance] and [key_size] are [uint16_t], [hash] is [uint32_t]; a value is a
    pointer, 0 for [NULL].  [key_bytes] are the bytes the [union] holds or points
    to; [DictKeys] has the block itself. *)
Record DictEntry := mkEntry {
  distance : Z;
  key_size : Z;
  hash : Z;
  value : Z;
  key_bytes : list Z
}.

#[export] Instance DictEntry_eq_dec : EqDecision DictEntry.
Proof. solve_decision. Defined.

(** [DictEntry(arg_key, key_size, hash, value, d, copy_key)]: [d] is an [int16_t]. *)
Definition new_DictEntry (arg_key : list Z) (arg_size h v d : Z) : DictEntry :=
  mkEntry (u16 (i16 d)) (u16 arg_size) (u32 h) v (take (Z.to_nat arg_size) arg_key).

Definition Empty (e : DictEntry) : bool := distance e =? TOO_FAR_TO_REACH.
Definition set_distance (d : Z) (e : DictEntry) : DictEntry :=
  mkEntry d (key_size e) (hash e) (value e) (key_bytes e).
Definition set_value (v : Z) (e : DictEntry) : DictEntry :=
  mkEntry (distance e) (key_size e) (hash e) v (key_bytes e).
Definition SetEmpty (e : DictEntry) : DictEntry := set_distance TOO_FAR_TO_REACH e.
(** [Clear] also frees a key of more than 8 bytes. *)
Definition Clear_entry (e : DictEntry) : DictEntry := SetEmpty e.
Definition GetKey (e : DictEntry) : list Z := key_bytes e.

(** Hash compared on 32 bits, then the size, then [memcmp] on [key_size] bytes. *)
Definition Equal (e : DictEntry) (arg_key : list Z) (arg_key_size arg_hash : Z) : bool :=
  (0 =? Z.land (Z.lxor (hash e) arg_hash) HASH_MASK)
  && (key_size e =? arg_key_size)
  && bool_decide (take (Z.to_nat (key_size e)) (GetKey e) =
                  take (Z.to_nat (key_size e)) arg_key).
(** [operator==] *)
Definition entry_eqb (e r : DictEntry) : bool := Equal e (GetKey r) (key_size r) (hash r).

#[export] Instance DictEntry_inhabited : Inhabited DictEntry :=
  populate (mkEntry TOO_FAR_TO_REACH 0 0 0 []).

(** ** [IterCookie] and [Dictionary]

    Cookies live on the heap, shared by the client that iterates and by the
    dictionary's [cookies] vector: the state holds the store of the live ones,
    a pointer to a cookie is its number. *)
Record IterCookie := mkCookie {
  robust : bool;
  next : Z;
  inserted : option (list DictEntry);
  visited : option (list DictEntry)
}.

Record Dictionary := mkDict {
  remaps : Z;
  log2_buckets : Z;
  num_iterators : Z;
  remap_end : Z;
  num_entries : Z;
  max_entries : Z;
  cum_entries : Z;
  delete_func : bool;
  table : option (list DictEntry);
  cookies : option (list nat);
  order : option (list DictEntry);
  cookie_heap : gmap nat IterCookie;
  next_cookie : nat
}.

Definition set_table (t : option (list DictEntry)) (d : Dictionary) : Dictionary :=
  mkDict (remaps d) (log2_buckets d) (num_iterators d) (remap_end d) (num_entries d)
    (max_entries d) (cum_entries d) (delete_func d) t (cookies d) (order d)
    (cookie_heap d) (next_cookie d).
Definition set_remap_end (r : Z) (d : Dictionary) : Dictionary :=
  mkDict (remaps d) (log2_buckets d) (num_iterators d) r (num_entries d)
    (max_entries d) (cum_entries d) (delete_func d) (table d) (cookies d) (order d)
    (cookie_heap d) (next_cookie d).
Definition set_remaps (r : Z) (d : Dictionary) : Dictionary :=
  mkDict r (log2_buckets d) (num_iterators d) (remap_end d) (num_entries d)
    (max_entries d) (cum_entries d) (delete_func d) (table d) (cookies d) (order d)
    (cookie_heap d) (next_cookie d).
Definition set_log2_buckets (b : Z) (d : Dictionary) : Dictionary :=
  mkDict (remaps d) b (num_iterators d) (remap_end d) (num_entries d)
    (max_entries d) (cum_entries d) (delete_func d) (table d) (cookies d) (order d)
    (cookie_heap d) (next_cookie d).
Definition set_num_iterators (n : Z) (d : Dictionary) : Dictionary :=
  mkDict (remaps d) (log2_buckets d) n (remap_end d) (num_entries d)
    (max_entries d) (cum_entries d) (delete_func d) (table d) (cookies d) (order d)
    (cookie_heap d) (next_cookie d).
Definition set_counts (n m c : Z) (d : Dictionary) : Dictionary :=
  mkDict (remaps d) (log2_buckets d) (num_iterators d) (remap_end d) n m c
    (delete_func d) (table d) (cookies d) (order d) (cookie_heap d) (next_cookie d).
Definition set_order (o : option (list DictEntry)) (d : Dictionary) : Dictionary :=
  mkDict (remaps d) (log2_buckets d) (num_iterators d) (remap_end d) (num_entries d)
    (max_entries d) (cum_entries d) (delete_func d) (table d) (cookies d) o
    (cookie_heap d) (next_cookie d).
Definition set_cookies (c : option (list nat)) (d : Dictionary) : Dictionary :=
  mkDict (remaps d) (log2_buckets d) (num_iterators d) (remap_end d) (num_entries d)
    (max_entries d) (cum_entries d) (delete_func d) (table d) c (order d)
    (cookie_heap d) (next_cookie d).
Definition set_cookie_heap (h : gmap nat IterCookie) (n : nat) (d : Dictionary) : Dictionary :=
  mkDict (remaps d) (log2_buckets d) (num_iterators d) (remap_end d) (num_entries d)
    (max_entries d) (cum_entries d) (delete_func d) (table d) (cookies d) (order d) h n.

(** [table[i]] and [table[i] = e]. *)
Definition tget (t : list DictEntry) (i : Z) : DictEntry := t !!! Z.to_nat i.
Definition tset (t : list DictEntry) (i : Z) (e : DictEntry) : list DictEntry :=
  <[Z.to_nat i := e]> t.
Definition tbl (d : Dictionary) (i : Z) : DictEntry :=
  match table d with Some t => tget t i | None => inhabitant end.
Definition set_tbl (i : Z) (e : DictEntry) (d : Dictionary) : Dictionary :=
  set_table ((fun t => tset t i e) <$> table d) d.

Definition has_table (d : Dictionary) : bool :=
  match table d with Some _ => true | None => false end.

(** ** Bucket math

    The sizes are [int]s: [1 << log2_buckets] is one up to 30; the definitions wrap
    beyond, where the source has no defined value and [SizeUp] does not go. *)

Definition MAX_LOG2 : Z := 30.

(** [while(num>>=1) i++]: an [int] has at most 31 value bits. *)
Fixpoint Log2_loop (fuel : nat) (num i : Z) : Z :=
  match fuel with
  | O => i
  | S n => let num := Z.shiftr num 1 in if num =? 0 then i else Log2_loop n num (i + 1)
  end.
Definition Log2 (num : Z) : Z := Log2_loop 31 num 0.

Definition Buckets (d : Dictionary) (expected : bool) : Z :=
  let buckets := i32 (Z.shiftl 1 (log2_buckets d)) in
  if expected then buckets else if has_table d then buckets else 0.

Definition Capacity (d : Dictionary) (expected : bool) : Z :=
  let capacity := i32 (i32 (Z.shiftl 1 (log2_buckets d)) + (log2_buckets d + 0)) in
  if expected then capacity else if has_table d then capacity else 0.

Definition ThresholdEntries (d : Dictionary) : Z :=
  let capacity := Capacity d false in
  if log2_buckets d <=? DICT_THRESHOLD_BITS then capacity
  else i32 (capacity - Z.shiftr capacity DICT_LOAD_FACTOR_BITS).

Definition FibHash (h : Z) : Z :=
  let h := Z.land h HASH_MASK in
  u64 (h * 11400714819323198485).

(** The result passes through [hash_t] and is returned as an [int]; the shift
    pair keeps the low [log2_table_size] bits. *)
Definition BucketByHash (h log2_table_size : Z) : Z :=
  if log2_table_size =? 0 then 0
  else
    let m := 64 - log2_table_size in
    let hash := FibHash h in
    let hash := u64 (Z.shiftl hash m) in
    i32 (Z.shiftr hash m).

(** The assertion of [BucketByPosition] ([table[position]] is in range and not
    empty) is the guard in front of each of its calls. *)
Definition BucketByPosition (d : Dictionary) (position : Z) : Z :=
  position - distance (tbl d position).

(** ** Cluster math *)

Definition in_table (d : Dictionary) (i : Z) : bool :=
  (0 <=? i) && (i <? Capacity d false) && negb (Empty (tbl d i)).
Definition bucket_ok (d : Dictionary) (bucket : Z) : bool :=
  (0 <=? bucket) && (bucket <? Buckets d false).
(** Loops over positions stop at the latest at the end of the table. *)
Definition steps_to (d : Dictionary) (i : Z) : nat := Z.to_nat (Capacity d false - i).

Definition occupied (d : Dictionary) (i : Z) : bool :=
  (i <? Capacity d false) && negb (Empty (tbl d i)).

Fixpoint HeadOfClusterByBucket_loop (d : Dictionary) (bucket : Z) (fuel : nat) (i : Z) : Z :=
  match fuel with
  | O => -1
  | S n =>
      if occupied d i && (BucketByPosition d i <? bucket) then
        if BucketByPosition d i =? bucket then i
        else HeadOfClusterByBucket_loop d bucket n (i + 1)
      else -1
  end.
Definition HeadOfClusterByBucket (d : Dictionary) (bucket : Z) : res Z :=
  assert! bucket_ok d bucket in
  Ok (HeadOfClusterByBucket_loop d bucket (S (steps_to d bucket)) bucket).

Definition EndOfClusterByBucket (d : Dictionary) (bucket : Z) : res Z :=
  assert! bucket_ok d bucket in
  Ok (scan (fun i => occupied d i && (BucketByPosition d i <=? bucket))
        (steps_to d bucket) bucket).

Definition TailOfClusterByBucket (d : Dictionary) (bucket : Z) : res Z :=
  let! e := EndOfClusterByBucket d bucket in
  if (0 <=? e - 1) && negb (Empty (tbl d (e - 1))) && (BucketByPosition d (e - 1) =? bucket)
  then Ok (e - 1) else Ok (-1).

(** [while( i >= bucket && BucketByPosition(i) == bucket ) i--]: here the
    assertion of [BucketByPosition] is not implied by the guard. *)
Fixpoint HeadOfClusterByPosition_loop (d : Dictionary) (bucket : Z) (fuel : nat) (i : Z) : res Z :=
  match fuel with
  | O => NoFuel
  | S n =>
      if bucket <=? i then
        assert! in_table d i in
        if BucketByPosition d i =? bucket
        then HeadOfClusterByPosition_loop d bucket n (i - 1)
        else Ok i
      else Ok i
  end.
Definition HeadOfClusterByPosition (d : Dictionary) (position : Z) : res Z :=
  assert! in_table d position in
  let bucket := BucketByPosition d position in
  let! i := HeadOfClusterByPosition_loop d bucket (S (S (Z.to_nat (position - bucket)))) position in
  Ok (if i =? bucket then i else i + 1).

Definition TailOfClusterByPosition (d : Dictionary) (position : Z) : res Z :=
  assert! in_table d position in
  let bucket := BucketByPosition d position in
  let i := scan (fun i => occupied d i && (BucketByPosition d i =? bucket))
             (steps_to d position) position in
  Ok (i - 1).

Definition EndOfClusterByPosition (d : Dictionary) (position : Z) : res Z :=
  let! tail := TailOfClusterByPosition d position in Ok (tail + 1).

Definition OffsetInClusterByPosition (d : Dictionary) (position : Z) : res Z :=
  assert! in_table d position in
  let! head := HeadOfClusterByPosition d position in Ok (position - head).

(** [do position++ while (position < Capacity() && table[position].Empty())] *)
Definition Next (d : Dictionary) (position : Z) : res Z :=
  assert! has_table d && (-1 <=? position)
          && (position <? Capacity d false) in
  Ok (scan (fun i => (i <? Capacity d false) && Empty (tbl d i))
        (steps_to d (position + 1)) (position + 1)).

Definition Remapping (d : Dictionary) : bool := 0 <=? remap_end d.

(** ** Sizes *)

Lemma Log2_loop_spec fuel num i :
  0 < num < 2 ^ (Z.of_nat fuel) -> Log2_loop fuel num i = i + Z.log2 num.
Proof.
  revert num i. induction fuel as [|fuel IH]; intros num i Hn; [cbn in Hn; lia|].
  cbn [Log2_loop]. rewrite Z.shiftr_div_pow2, Z.pow_1_r by lia.
  destruct (Z.eqb_spec (num / 2) 0) as [Hz|Hz].
  - assert (num = 1) as -> by dlia. change (Z.log2 1) with 0. lia.
  - replace (Z.of_nat (S fuel)) with (1 + Z.of_nat fuel) in Hn by lia.
    rewrite Z.pow_add_r in Hn by lia. change (2 ^ 1) with 2 in Hn.
    rewrite IH by dlia.
    enough (Z.log2 num = Z.log2 (num / 2) + 1) by lia.
    assert (num = 2 * (num / 2) \/ num = 2 * (num / 2) + 1) as [E|E] by dlia.
    + rewrite E at 1. rewrite Z.log2_double by dlia. lia.
    + rewrite E at 1. rewrite Z.log2_succ_double by dlia. lia.
Qed.

(** [Log2] is the binary logarithm, rounded down, of every positive [int]. *)
Theorem Log2_log2 num : 0 < num < 2 ^ 31 -> Log2 num = Z.log2 num.
Proof. intros H. unfold Log2. rewrite Log2_loop_spec; [lia|]. exact H. Qed.

Lemma Log2_log2_witness : 0 < 1000 < 2 ^ 31 /\ Log2 1000 = 9.
Proof.
  assert (0 < 1000 < 2 ^ 31) as H by lia. split; [exact H|]. rewrite (Log2_log2 1000 H). reflexivity.
Defined.

(** ** A cluster search that finds nothing *)

Lemma HeadOfClusterByBucket_loop_none d b fuel i : HeadOfClusterByBucket_loop d b fuel i = -1.
Proof.
  revert i. induction fuel as [|fuel IH]; intros i; [done|]. cbn [HeadOfClusterByBucket_loop].
  destruct (occupied d i && (BucketByPosition d i <? b)) eqn:E; [|done].
  apply andb_true_iff in E as [_ E]. apply Z.ltb_lt in E.
  destruct (Z.eqb_spec (BucketByPosition d i) b); [lia|apply IH].
Qed.

(** [HeadOfClusterByBucket] never finds a cluster: its loop runs while the
    position's bucket is smaller and tests in its body for equality. *)
Theorem HeadOfClusterByBucket_none d bucket :
  HeadOfClusterByBucket d bucket = if bucket_ok d bucket then Ok (-1) else Abort.
Proof.
  unfold HeadOfClusterByBucket. rewrite HeadOfClusterByBucket_loop_none.
  by destruct (bucket_ok d bucket).
Qed.
