(* ===== verification/Dictionary.v ===== *)
(** * The operations of [Dictionary] ([dict/OpenDict.cc])

    Each method takes the dictionary and returns its results with the new
    dictionary.  The [ASSERT]s are plain [assert]s; the checks of [DEBUG] builds are in
    [DictDebug]. *)

From S2P Require Import Prelude DictTable.

(** ** Initialization *)

Definition Init (d : Dictionary) : res Dictionary :=
  assert! negb (has_table d) in
  Ok (set_table (Some (replicate (Z.to_nat (Capacity d true)) inhabitant)) d).

Inductive dict_order := ORDERED | UNORDERED.

(** [Dictionary::Dictionary(ordering, initial_size)]. *)
Definition new_Dictionary (ordering : dict_order) (initial_size : Z) : res Dictionary :=
  let d := mkDict 0 0 0 (-1) 0 0 0 false None None None ∅ 0 in
  let! d := (if 0 <? initial_size then Init (set_log2_buckets (u8 (Log2 initial_size)) d)
             else Ok d) in
  Ok (match ordering with ORDERED => set_order (Some []) d | UNORDERED => d end).

(** [Clear]: the values handed to [delete_func], in the order of the calls. *)
Definition Clear (d : Dictionary) : list Z * Dictionary :=
  let deleted :=
    match table d with
    | Some t => if delete_func d
                then value <$> reverse (filter (fun e => Empty e = false) t) else []
    | None => []
    end in
  (deleted,
   mkDict 0 0 0 (-1) 0 0 (cum_entries d) (delete_func d) None None None
     (cookie_heap d) (next_cookie d)).

(** ** Growing

    [1 << 31] overflows the [int] of [Capacity]. *)

Definition SizeUp (d : Dictionary) : res Dictionary :=
  let prev_capacity := Capacity d false in
  let d := set_log2_buckets (u8 (log2_buckets d + 1)) d in
  if MAX_LOG2 <? log2_buckets d then UB else
  let capacity := Capacity d false in
  let d := set_table ((fun t => take (Z.to_nat capacity) t
             ++ replicate (Z.to_nat (capacity - prev_capacity)) inhabitant) <$> table d) d in
  let d := set_remap_end prev_capacity d in
  let d := set_remaps (u8 (remaps d + 1)) d in
  assert! (remaps d <=? log2_buckets d) in
  Ok d.

(** ** Insertion of an entry at a position

    [entry] is passed by reference: the first result is what it holds on
    return, which is the entry displaced last when others were moved.  The
    second is [*last_affected_position]. *)
Fixpoint InsertAndRelocate_loop (fuel : nat) (d : Dictionary) (entry : DictEntry)
    (insert_position : Z) : res (DictEntry * Z * Dictionary) :=
  match fuel with
  | O => NoFuel
  | S fuel =>
      if Capacity d false <=? insert_position then
        assert! (insert_position =? Capacity d false) in
        let! d := SizeUp d in
        Ok (entry, insert_position, set_tbl insert_position entry d)
      else if Empty (tbl d insert_position) then
        Ok (entry, insert_position, set_tbl insert_position entry d)
      else
        let t := tbl d insert_position in
        let! next := EndOfClusterByPosition d insert_position in
        let t := set_distance (u16 (distance t + (next - insert_position))) t in
        InsertAndRelocate_loop fuel (set_tbl insert_position entry d) t next
  end.
Definition InsertAndRelocate (d : Dictionary) (entry : DictEntry) (insert_position : Z)
    : res (DictEntry * Z * Dictionary) :=
  InsertAndRelocate_loop (S (steps_to d insert_position)) d entry insert_position.

(** Read and write a live cookie; a dangling pointer is undefined behaviour. *)
Definition get_cookie (d : Dictionary) (c : nat) : res IterCookie :=
  match cookie_heap d !! c with Some k => Ok k | None => UB end.
Definition put_cookie (d : Dictionary) (c : nat) (k : IterCookie) : Dictionary :=
  set_cookie_heap (<[c := k]> (cookie_heap d)) (next_cookie d) d.
(** [c->inserted], [c->visited] dereferenced. *)
Definition deref {A} (o : option A) : res A :=
  match o with Some a => Ok a | None => UB end.

Definition AdjustOnInsert (d : Dictionary) (c : nat) (entry : DictEntry)
    (insert_position last_affected_position : Z) : res Dictionary :=
  let! k := get_cookie d c in
  let! k := (if insert_position <? next k then
               let! ins := deref (inserted k) in
               Ok (mkCookie (robust k) (next k) (Some (ins ++ [entry])) (visited k))
             else Ok k) in
  let! k := (if (insert_position <? next k) && (next k <=? last_affected_position) then
               let! tail := TailOfClusterByPosition d (next k) in
               assert! (0 <=? tail) && (tail <? Capacity d false) in
               let! vis := deref (visited k) in
               Ok (mkCookie (robust k) (next k) (inserted k) (Some (vis ++ [tbl d tail])))
             else Ok k) in
  Ok (put_cookie d c k).

(** [if(cookies && !cookies->empty()) for(auto c: *cookies) f(c)] *)
Fixpoint for_cookies (f : Dictionary -> nat -> res Dictionary) (cs : list nat) (d : Dictionary)
    : res Dictionary :=
  match cs with
  | [] => Ok d
  | c :: cs => let! d := f d c in for_cookies f cs d
  end.
Definition for_all_cookies (f : Dictionary -> nat -> res Dictionary) (d : Dictionary)
    : res Dictionary :=
  for_cookies f (default [] (cookies d)) d.

Definition InsertRelocateAndAdjust (d : Dictionary) (entry : DictEntry) (insert_position : Z)
    : res (DictEntry * Dictionary) :=
  let! (entry, last_affected_position, d) := InsertAndRelocate d entry insert_position in
  let d :=
    if Remapping d && (insert_position <=? remap_end d) && (remap_end d <? last_affected_position)
    then set_remap_end last_affected_position d else d in
  let! d := for_all_cookies (fun d c =>
              AdjustOnInsert d c entry insert_position last_affected_position) d in
  Ok (entry, d).

(** ** Removal of the entry at a position *)

Fixpoint RemoveAndRelocate_loop (fuel : nat) (d : Dictionary) (position : Z)
    : res (Z * Dictionary) :=
  match fuel with
  | O => NoFuel
  | S fuel =>
      if (position =? Capacity d false - 1) || Empty (tbl d (position + 1))
         || (distance (tbl d (position + 1)) =? 0)
      then Ok (position, set_tbl position (SetEmpty (tbl d position)) d)
      else
        let! next := TailOfClusterByPosition d (position + 1) in
        let e := tbl d next in
        let e := set_distance (u16 (distance e - (next - position))) e in
        RemoveAndRelocate_loop fuel (set_tbl position e d) next
  end.
(** The removed entry, [*last_affected_position] and the dictionary. *)
Definition RemoveAndRelocate (d : Dictionary) (position : Z)
    : res (DictEntry * Z * Dictionary) :=
  assert! in_table d position in
  let entry := tbl d position in
  let! (last, d) := RemoveAndRelocate_loop (S (steps_to d position)) d position in
  Ok (entry, last, d).

(** [erase(std::remove(b, e, x), e)] keeps the elements different from [x]. *)
Definition remove_all (x : DictEntry) (l : list DictEntry) : list DictEntry :=
  filter (fun y => entry_eqb y x = false) l.

(** [table[c->next]] is read in front of the table when the iteration has not begun. *)
Definition AdjustOnRemove (d : Dictionary) (c : nat) (entry : DictEntry)
    (position last_affected_position : Z) : res Dictionary :=
  let! k := get_cookie d c in
  let! ins := deref (inserted k) in
  let ins := remove_all entry ins in
  let! ins := (if (position <? next k) && (next k <=? last_affected_position) then
                 let! moved := HeadOfClusterByPosition d (next k - 1) in
                 let moved := if moved <? position then position else moved in
                 Ok (ins ++ [tbl d moved])
               else Ok ins) in
  let! nx := (if next k <? Capacity d false then
                if next k <? 0 then UB
                else if Empty (tbl d (next k)) then Next d (next k) else Ok (next k)
              else Ok (next k)) in
  Ok (put_cookie d c (mkCookie (robust k) nx (Some ins) (visited k))).

Definition RemoveRelocateAndAdjust (d : Dictionary) (position : Z)
    : res (DictEntry * Dictionary) :=
  let! (entry, last_affected_position, d) := RemoveAndRelocate d position in
  let! d := for_all_cookies (fun d c =>
              AdjustOnRemove d c entry position last_affected_position) d in
  Ok (entry, d).

(** ** Remapping *)

(** [Remap(position, &new_position)]: whether the entry was moved, and where. *)
Definition Remap_at (d : Dictionary) (position : Z) : res (option Z * Dictionary) :=
  assert! (match cookies d with Some (_ :: _) => false | _ => true end) in
  assert! in_table d position in
  let current := BucketByPosition d position in
  let expected := BucketByHash (hash (tbl d position)) (log2_buckets d) in
  if current =? expected then Ok (None, d)
  else
    let! (entry, _, d) := RemoveAndRelocate d position in
    let! insert_position := EndOfClusterByBucket d expected in
    let entry := set_distance (u16 (insert_position - expected)) entry in
    let! (_, _, d) := InsertAndRelocate d entry insert_position in
    Ok (Some insert_position, d).

(** The loop [while (remap_end >= 0 && left > 0)]: [Remap_scan n] is the loop
    with [n = remap_end + 1], which runs until an entry is moved; each move
    starts it again with one less [left]. *)
Fixpoint Remap_loop (left_ : nat) (d : Dictionary) : res Dictionary :=
  match left_ with
  | O => Ok d
  | S left_ =>
      (fix Remap_scan (n : nat) (d : Dictionary) : res Dictionary :=
         match n with
         | O => Ok d
         | S n =>
             let! (moved, d') :=
               (if negb (Empty (tbl d (remap_end d))) then Remap_at d (remap_end d)
                else Ok (None, d)) in
             match moved with
             | Some _ => Remap_loop left_ d'
             | None => Remap_scan n (set_remap_end (remap_end d' - 1) d')
             end
         end) (Z.to_nat (remap_end d + 1)) d
  end.

Definition Remap (d : Dictionary) : res Dictionary :=
  if negb (num_iterators d =? 0) then Ok d
  else
    let! d := Remap_loop DICT_REMAP_ENTRIES d in
    Ok (if remap_end d <? 0 then set_remaps 0 d else d).

(** ** Lookup *)

Fixpoint LinearLookupIndex_loop (d : Dictionary) (key : list Z) (ks h : Z) (fuel : nat) (i : Z) : Z :=
  match fuel with
  | O => -1
  | S n =>
      if i <? Capacity d false then
        if negb (Empty (tbl d i)) && Equal (tbl d i) key ks h then i
        else LinearLookupIndex_loop d key ks h n (i + 1)
      else -1
  end.
(** "for verification purposes" *)
Definition LinearLookupIndex (d : Dictionary) (key : list Z) (ks h : Z) : Z :=
  LinearLookupIndex_loop d key ks h (S (steps_to d 0)) 0.

Definition probing (d : Dictionary) (bucket e : Z) (i : Z) : bool :=
  (i <? e) && negb (Empty (tbl d i)) && (BucketByPosition d i <=? bucket).

(** The position found, or -1, and the [i] the loop ends with. *)
Fixpoint LookupIndex_loop (d : Dictionary) (key : list Z) (ks h bucket e : Z) (fuel : nat) (i : Z)
    : Z * Z :=
  match fuel with
  | O => (-1, i)
  | S n =>
      if probing d bucket e i then
        if (BucketByPosition d i =? bucket) && Equal (tbl d i) key ks h then (i, i)
        else LookupIndex_loop d key ks h bucket e n (i + 1)
      else (-1, i)
  end.
(** [LookupIndex(key, key_size, hash, bucket, end, &insert_position, &insert_distance)]:
    on failure [insert_position] is the second result and [insert_distance] is
    [insert_position - bucket]. *)
Definition LookupIndex_in (d : Dictionary) (key : list Z) (ks h bucket e : Z) : res (Z * Z) :=
  assert! bucket_ok d bucket in
  Ok (LookupIndex_loop d key ks h bucket e (S (Z.to_nat (e - bucket))) bucket).

(** [for(int i=1; i<=remaps; i++)], [n] levels left: the first position found. *)
Fixpoint LookupIndex_prev (d : Dictionary) (key : list Z) (ks h : Z) (n : nat) (i : Z) : res Z :=
  match n with
  | O => Ok (-1)
  | S n =>
      assert! (0 <=? log2_buckets d - i) in
      let prev_bucket := BucketByHash h (log2_buckets d - i) in
      if prev_bucket <=? remap_end d then
        let! (position, _) := LookupIndex_in d key ks h prev_bucket (remap_end d + 1) in
        if 0 <=? position then Ok position else LookupIndex_prev d key ks h n (i + 1)
      else LookupIndex_prev d key ks h n (i + 1)
  end.

(** [LookupIndex(key, key_size, hash, &insert_position, &insert_distance)]: the
    position, the output parameters when they are set, and the dictionary, in
    which an entry found at the place of an older table size has been remapped.
    The assertion after the remap runs [LookupIndex] again: [fuel] bounds that
    recursion. *)
Fixpoint LookupIndex (fuel : nat) (d : Dictionary) (key : list Z) (ks h : Z)
    : res (Z * option (Z * Z) * Dictionary) :=
  match fuel with
  | O => NoFuel
  | S fuel =>
      let bucket := BucketByHash h (log2_buckets d) in
      if negb (has_table d) then Ok (-1, None, d)
      else
        let! (position, i) := LookupIndex_in d key ks h bucket (Capacity d false) in
        if 0 <=? position then Ok (position, None, d)
        else
          let out := Some (i, i - bucket) in
          let! position := LookupIndex_prev d key ks h (Z.to_nat (remaps d)) 1 in
          if 0 <=? position then
            if num_iterators d =? 0 then
              let! (moved, d) := Remap_at d position in
              let position := default position moved in
              let! (again, _, d) := LookupIndex fuel d key ks h in
              assert! (position =? again) in
              Ok (position, out, d)
            else Ok (position, out, d)
          else Ok (-1, out, d)
  end.
(** The remapped entry is found by the second search, unless remapping it has
    grown the table. *)
Definition LOOKUP_FUEL : nat := 4.

Definition Lookup (d : Dictionary) (key : list Z) (ks h : Z) : res (Z * Dictionary) :=
  let! (position, _, d) := LookupIndex LOOKUP_FUEL d key ks h in
  Ok (if 0 <=? position then value (tbl d position) else 0, d).

(** ** Insert *)

(** [num_iterators == 0 || (cookies && cookies->size() == num_iterators)] *)
Definition only_robust_iterators (d : Dictionary) : bool :=
  (num_iterators d =? 0)
  || match cookies d with
     | Some cs => Z.of_nat (length cs) =? num_iterators d
     | None => false
     end.

(** [std::find] and the assignment of [value]; [None] when it finds nothing. *)
Fixpoint find_set_value (x : DictEntry) (v : Z) (l : list DictEntry) : option (list DictEntry) :=
  match l with
  | [] => None
  | y :: l => if entry_eqb y x then Some (set_value v y :: l)
              else (y ::.) <$> find_set_value x v l
  end.

Definition set_cookie_value (x : DictEntry) (v : Z) (d : Dictionary) (c : nat) : res Dictionary :=
  let! k := get_cookie d c in
  let! ins := deref (inserted k) in
  Ok (put_cookie d c (mkCookie (robust k) (next k)
        (Some (default ins (find_set_value x v ins))) (visited k))).

(** [num_entries++; cum_entries++;] and the new maximum. *)
Definition count_entry (d : Dictionary) : Dictionary :=
  let n := num_entries d + 1 in
  set_counts n (if max_entries d <? n then n else max_entries d) (u64 (cum_entries d + 1)) d.

Definition Insert (d : Dictionary) (key : list Z) (ks h val : Z) : res (Z * Dictionary) :=
  assert! only_robust_iterators d in
  let! d := (if has_table d then Ok d else Init d) in
  let! (position, out, d) := LookupIndex LOOKUP_FUEL d key ks h in
  let '(insert_position, insert_distance) := default (-1, -1) out in
  let! (v, d) :=
    (if 0 <=? position then
       let v := value (tbl d position) in
       let d := set_tbl position (set_value val (tbl d position)) d in
       let! d := match order d with
                 | None => Ok d
                 | Some o =>
                     match find_set_value (tbl d position) val o with
                     | None => Abort
                     | Some o => Ok (set_order (Some o) d)
                     end
                 end in
       let! d := for_all_cookies (set_cookie_value (tbl d position) val) d in
       Ok (v, d)
     else
       let entry := new_DictEntry key ks h val insert_distance in
       let! (entry, d) := InsertRelocateAndAdjust d entry insert_position in
       let d := match order d with
                | None => d
                | Some o => set_order (Some (o ++ [entry])) d
                end in
       let d := count_entry d in
       let! d := (if ThresholdEntries d <? num_entries d then SizeUp d else Ok d) in
       Ok (0, d)) in
  let! d := (if Remapping d then Remap d else Ok d) in
  Ok (v, d).

(** ** Remove *)

(** [order->erase(std::remove(begin, end, entry))]: [std::remove] shifts the
    kept elements to the front and leaves the rest as it was; the one-argument
    [erase] drops the single element it points at, and is undefined at [end]. *)
Definition order_erase (entry : DictEntry) (o : list DictEntry) : res (list DictEntry) :=
  let kept := remove_all entry o in
  if bool_decide (length kept = length o) then UB
  else Ok (kept ++ drop (S (length kept)) o).

Definition Remove (d : Dictionary) (key : list Z) (ks h : Z) (dont_delete : bool)
    : res (Z * Dictionary) :=
  assert! only_robust_iterators d in
  assert! negb dont_delete in
  let! (position, _, d) := LookupIndex LOOKUP_FUEL d key ks h in
  if position <? 0 then Ok (0, d)
  else
    let! (entry, d) := RemoveRelocateAndAdjust d position in
    let d := set_counts (num_entries d - 1) (max_entries d) (cum_entries d) d in
    assert! (0 <=? num_entries d) in
    let! d := match order d with
              | None => Ok d
              | Some o => let! o := order_erase entry o in Ok (set_order (Some o) d)
              end in
    Ok (value entry, d).

(** ** Iteration *)

(** [NthEntry(n, key, key_size)]: value, key and size. *)
Definition NthEntry (d : Dictionary) (n : Z) : Z * option (list Z * Z) :=
  match order d with
  | Some o =>
      if (n <? 0) || (num_entries d <=? n) then (0, None)
      else let entry := o !!! Z.to_nat n in
           (value entry, Some (GetKey entry, key_size entry))
  | None => (0, None)
  end.

Definition InitForIteration (d : Dictionary) : nat * Dictionary :=
  let c := next_cookie d in
  let d := set_num_iterators (u16 (num_iterators d + 1)) d in
  (c, set_cookie_heap (<[c := mkCookie false (-1) None None]> (cookie_heap d)) (S c) d).

Definition MakeRobustCookie (d : Dictionary) (c : nat) : res Dictionary :=
  let cs := default [] (cookies d) in
  let! k := get_cookie d c in
  assert! (next k <? 0) in
  let d := put_cookie d c (mkCookie true (next k) (Some []) (Some [])) in
  Ok (set_cookies (Some (cs ++ [c])) d).

(** [delete c]: the destructor unregisters a robust cookie. *)
Definition delete_cookie (d : Dictionary) (c : nat) : res Dictionary :=
  let! k := get_cookie d c in
  let! d := (if robust k then
               let! cs := deref (cookies d) in
               let kept := filter (fun x => x <> c) cs in
               if bool_decide (length kept = length cs) then UB
               else Ok (set_cookies (Some (kept ++ drop (S (length kept)) cs)) d)
             else Ok d) in
  Ok (set_cookie_heap (delete c (cookie_heap d)) (next_cookie d) d).

Definition StopIteration (d : Dictionary) (c : nat) : res Dictionary :=
  assert! (0 <? num_iterators d) in
  delete_cookie (if 0 <? num_iterators d then set_num_iterators (num_iterators d - 1) d else d) c.

(** End of the iteration: the cookie is deleted. *)
Definition end_iteration (d : Dictionary) (c : nat) : res Dictionary :=
  delete_cookie (if 0 <? num_iterators d then set_num_iterators (num_iterators d - 1) d else d) c.

(** [std::find] in [visited], [erase] of what it finds. *)
Fixpoint find_erase (x : DictEntry) (l : list DictEntry) : option (list DictEntry) :=
  match l with
  | [] => None
  | y :: l => if entry_eqb y x then Some l else (y ::.) <$> find_erase x l
  end.

(** [while(c->next < capacity)] over the entries already visited. *)
Fixpoint skip_visited (d : Dictionary) (fuel : nat) (nx : Z) (vis : list DictEntry)
    : res (Z * list DictEntry) :=
  match fuel with
  | O => NoFuel
  | S n =>
      if nx <? Capacity d false then
        assert! negb (Empty (tbl d nx)) in
        match find_erase (tbl d nx) vis with
        | None => Ok (nx, vis)
        | Some vis => let! nx := Next d nx in skip_visited d n nx vis
        end
      else Ok (nx, vis)
  end.

(** [NextEntry(h, cookie, return_hash)]: the value, the [HashKey] made when
    [return_hash] is set, whether [cookie] is still valid (not set to [NULL]). *)
Definition NextEntry (d : Dictionary) (c : nat) (return_hash : bool)
    : res (Z * option (list Z * Z * Z) * bool * Dictionary) :=
  match table d with
  | None => let! d := end_iteration d c in Ok (0, None, false, d)
  | Some _ =>
      let! k := get_cookie d c in
      let hashkey e := if return_hash then Some (GetKey e, key_size e, hash e) else None in
      match inserted k with
      | Some (e0 :: l) =>
          let ins := e0 :: l in
          let e := List.last ins e0 in
          Ok (value e, hashkey e, true,
              put_cookie d c (mkCookie (robust k) (next k) (Some (removelast ins)) (visited k)))
      | _ =>
          let! nx := (if next k <? 0 then Next d (-1) else Ok (next k)) in
          let capacity := Capacity d false in
          assert! negb ((nx <? capacity) && Empty (tbl d nx)) in
          let! (nx, vis) :=
            match visited k with
            | Some (v0 :: vs) =>
                let! (nx, vis) := skip_visited d (S (steps_to d nx)) nx (v0 :: vs) in
                Ok (nx, Some vis)
            | vis => Ok (nx, vis)
            end in
          if capacity <=? nx then
            let! d := end_iteration d c in Ok (0, None, false, d)
          else
            assert! negb (Empty (tbl d nx)) in
            let e := tbl d nx in
            let! nx := Next d nx in
            Ok (value e, hashkey e, true,
                put_cookie d c (mkCookie (robust k) nx (inserted k) vis))
      end
  end.

(** ** Statistics *)

Fixpoint DistanceStats_loop (d : Dictionary) (num_distances : Z) (fuel : nat) (i max_distance : Z)
    (distances : list Z) : Z * list Z :=
  match fuel with
  | O => (max_distance, distances)
  | S n =>
      if i <? Capacity d false then
        if Empty (tbl d i) then DistanceStats_loop d num_distances n (i + 1) max_distance distances
        else
          let di := distance (tbl d i) in
          let max_distance := if max_distance <? di then di else max_distance in
          if num_distances <=? 0
          then DistanceStats_loop d num_distances n (i + 1) max_distance distances
          else
            let slot := if num_distances - 1 <=? di then num_distances - 1 else di in
            DistanceStats_loop d num_distances n (i + 1) max_distance
              (alter (Z.add 1) (Z.to_nat slot) distances)
      else (max_distance, distances)
  end.
(** [DistanceStats(max_distance, distances, num_distances)]. *)
Definition DistanceStats (d : Dictionary) (num_distances : Z) : Z * list Z :=
  DistanceStats_loop d num_distances (S (steps_to d 0)) 0 0
    (replicate (Z.to_nat num_distances) 0).
