(* ===== verification/DictInv.v ===== *)
(** * Tables as clustered hashing keeps them

    The table invariant of [Dictionary::AssertValid], stated on the array, and
    what the insertion and removal loops do to it. *)

From S2P Require Import Prelude DictTable Dictionary.

(** ** Arrays indexed by [Z] *)

Definition len (t : list DictEntry) : Z := Z.of_nat (length t).

Lemma len_tset t i e : len (tset t i e) = len t.
Proof. unfold len, tset. by rewrite length_insert. Qed.

Lemma tget_tset_eq t i e : 0 <= i < len t -> tget (tset t i e) i = e.
Proof. intros H. unfold tget, tset. apply list_lookup_total_insert_eq. unfold len in H. lia. Qed.

Lemma tget_tset_ne t i j e : 0 <= i -> 0 <= j -> i <> j -> tget (tset t i e) j = tget t j.
Proof. intros. unfold tget, tset. apply list_lookup_total_insert_ne. lia. Qed.

(** Slot [i] of [t] is in the table and in use; its bucket. *)
Definition occ (t : list DictEntry) (i : Z) : Prop :=
  0 <= i < len t /\ Empty (tget t i) = false.
Definition bkt (t : list DictEntry) (i : Z) : Z := i - distance (tget t i).

Lemma occ_tset_eq t i e : 0 <= i < len t -> occ (tset t i e) i <-> Empty e = false.
Proof. intros H. unfold occ. rewrite len_tset, tget_tset_eq by done. naive_solver. Qed.

Lemma occ_tset_ne t i j e : 0 <= i -> i <> j -> occ (tset t i e) j <-> occ t j.
Proof.
  intros Hi Hij. unfold occ. rewrite len_tset.
  destruct (decide (0 <= j)) as [Hj|Hj]; [by rewrite tget_tset_ne|]. intuition lia.
Qed.

Lemma bkt_tset_eq t i e : 0 <= i < len t -> bkt (tset t i e) i = i - distance e.
Proof. intros. unfold bkt. by rewrite tget_tset_eq. Qed.

Lemma bkt_tset_ne t i j e : 0 <= i -> 0 <= j -> i <> j -> bkt (tset t i e) j = bkt t j.
Proof. intros. unfold bkt. by rewrite tget_tset_ne. Qed.

Lemma occ_dec t i : {occ t i} + {~ occ t i}.
Proof.
  unfold occ. destruct (decide (0 <= i < len t)); [|right; tauto].
  destruct (Empty (tget t i)); [right; naive_solver|left; done].
Qed.

(** ** The cluster invariant

    An entry is in its bucket's slot, or its left neighbour is in use and of the
    same or a smaller bucket. *)
Definition clustered (t : list DictEntry) : Prop :=
  forall i, occ t i ->
    0 <= distance (tget t i) /\
    (distance (tget t i) = 0 \/ occ t (i - 1) /\ bkt t (i - 1) <= bkt t i).

(** Every slot from the bucket up to the entry is in use, by smaller or equal
    buckets. *)
Lemma clustered_run t i j :
  clustered t -> occ t i -> bkt t i <= j <= i -> occ t j /\ bkt t j <= bkt t i.
Proof.
  intros Hc Hi Hj. remember (Z.to_nat (i - j)) as n eqn:Hn.
  revert i Hi Hj Hn. induction n as [|n IH]; intros i Hi Hj Hn.
  { assert (i = j) as -> by lia. split; [done|lia]. }
  destruct (Hc i Hi) as [Hd [H0|[Hp Hb]]].
  { unfold bkt in Hj. lia. }
  destruct (IH (i - 1)) as [Ho Hb']; [done|lia|lia|]. split; [done|lia].
Qed.

Lemma clustered_bkt_nonneg t i : clustered t -> occ t i -> 0 <= bkt t i.
Proof.
  intros Hc Hi. destruct (decide (0 <= bkt t i)) as [|Hn]; [done|exfalso].
  destruct (Hc i Hi) as [Hd _].
  destruct (clustered_run t i (-1) Hc Hi) as [[Ho _] _]; [|lia].
  destruct Hi. lia.
Qed.

Lemma clustered_bkt_le t i : clustered t -> occ t i -> bkt t i <= i.
Proof. intros Hc Hi. destruct (Hc i Hi). unfold bkt. lia. Qed.

(** Buckets do not decrease along a run of used slots. *)
Lemma clustered_mono t i j :
  clustered t -> i <= j -> (forall k, i <= k <= j -> occ t k) -> bkt t i <= bkt t j.
Proof.
  intros Hc Hij Ho. remember (Z.to_nat (j - i)) as n eqn:Hn.
  revert j Hij Ho Hn. induction n as [|n IH]; intros j Hij Ho Hn.
  { assert (i = j) as -> by lia. lia. }
  assert (bkt t i <= bkt t (j - 1)) as H1.
  { apply IH; [lia| |lia]. intros; apply Ho; lia. }
  destruct (Hc j) as [Hd [H0|[Hp Hb]]]; [apply Ho; lia| |lia].
  pose proof (clustered_bkt_le t (j - 1) Hc ltac:(apply Ho; lia)). unfold bkt in *. lia.
Qed.

(** ** What a table holds: its entries without their positions *)

Definition contents (t : list DictEntry) : list DictEntry :=
  set_distance 0 <$> filter (fun e => Empty e = false) t.

(** The entry of a slot, if it is in use. *)
Definition slot (e : DictEntry) : list DictEntry :=
  if Empty e then [] else [set_distance 0 e].

Lemma contents_app t1 t2 : contents (t1 ++ t2) = contents t1 ++ contents t2.
Proof. unfold contents. by rewrite filter_app, fmap_app. Qed.

Lemma contents_cons e t : contents (e :: t) = slot e ++ contents t.
Proof.
  unfold contents, slot. rewrite filter_cons. case_decide as H.
  - by rewrite H.
  - by destruct (Empty e).
Qed.

Lemma contents_empties n : contents (replicate n inhabitant) = [].
Proof. induction n as [|n IH]; [done|]. cbn [replicate]. by rewrite contents_cons, IH. Qed.

Lemma contents_tset t i e :
  0 <= i < len t -> slot (tget t i) ++ contents (tset t i e) ≡ₚ slot e ++ contents t.
Proof.
  intros Hi. unfold len in Hi.
  destruct (lookup_lt_is_Some_2 t (Z.to_nat i)) as [x Hx]; [lia|].
  assert (tget t i = x) as -> by (unfold tget; by apply list_lookup_total_correct).
  assert (contents t = contents (take (Z.to_nat i) t) ++ slot x
            ++ contents (drop (S (Z.to_nat i)) t)) as E.
  { rewrite <- contents_cons, <- contents_app. by rewrite take_drop_middle. }
  rewrite E. unfold tset. rewrite insert_take_drop by lia.
  rewrite contents_app, contents_cons.
  rewrite !(Permutation_app_swap_app _ (contents (take (Z.to_nat i) t))).
  apply Permutation_app_head. apply Permutation_app_swap_app.
Qed.

Lemma slot_empty e : Empty e = true -> slot e = [].
Proof. unfold slot. by intros ->. Qed.
Lemma slot_used e : Empty e = false -> slot e = [set_distance 0 e].
Proof. unfold slot. by intros ->. Qed.

Lemma elem_of_contents t c :
  c ∈ contents t <-> exists i, occ t i /\ c = set_distance 0 (tget t i).
Proof.
  unfold contents. rewrite list_elem_of_fmap. split.
  - intros (e & -> & He). apply list_elem_of_filter in He as [Hne He].
    apply list_elem_of_lookup in He as [n Hn].
    exists (Z.of_nat n). unfold occ, tget, len. rewrite Nat2Z.id.
    rewrite (list_lookup_total_correct _ _ _ Hn). apply lookup_lt_Some in Hn.
    split; [|done]. split; [lia|done].
  - intros (i & [Hi Ho] & ->). exists (tget t i). split; [done|].
    apply list_elem_of_filter. split; [done|]. unfold tget, len in *.
    apply list_elem_of_lookup_2 with (Z.to_nat i). apply list_lookup_lookup_total_lt. lia.
Qed.

Lemma contents_full m :
  Forall (fun e => Empty e = false) m -> length (contents m) = length m.
Proof.
  induction 1 as [|e m He _ IH]; [done|].
  rewrite contents_cons, length_app, IH. unfold slot. by rewrite He.
Qed.

(** A run of used slots is no longer than the contents. *)
Lemma run_le_contents t a b :
  (forall j, a <= j < b -> occ t j) -> b - a <= Z.of_nat (length (contents t)).
Proof.
  intros H. destruct (decide (a < b)) as [Hab|]; [|lia].
  assert (0 <= a < len t) as Ha by (apply H; lia).
  assert (0 <= b - 1 < len t) as Hb by (apply H; lia). unfold len in *.
  set (m := take (Z.to_nat (b - a)) (drop (Z.to_nat a) t)).
  assert (t = take (Z.to_nat a) t ++ m ++ drop (Z.to_nat (b - a)) (drop (Z.to_nat a) t)) as E.
  { subst m. by rewrite (take_drop (Z.to_nat (b - a))), take_drop. }
  rewrite E, !contents_app, !length_app.
  assert (length (contents m) = Z.to_nat (b - a)); [|lia].
  rewrite contents_full.
  - subst m. rewrite length_take, length_drop. lia.
  - apply Forall_forall. intros x Hx. subst m. apply list_elem_of_lookup in Hx as [k Hk].
    apply lookup_take_Some in Hk as [Hk Hlt]. rewrite lookup_drop in Hk.
    destruct (H (a + Z.of_nat k)) as [_ Ho]; [lia|].
    unfold tget in Ho. replace (Z.to_nat (a + Z.of_nat k)) with (Z.to_nat a + k)%nat in Ho by lia.
    by rewrite (list_lookup_total_correct _ _ _ Hk) in Ho.
Qed.

Lemma distance_le_contents t i :
  clustered t -> occ t i -> distance (tget t i) < Z.of_nat (length (contents t)).
Proof.
  intros Hc Hi. pose proof (run_le_contents t (bkt t i) (i + 1)) as H.
  unfold bkt in *. enough (i + 1 - (i - distance (tget t i)) <= Z.of_nat (length (contents t)))
    by lia.
  apply H. intros j Hj. apply (clustered_run t i j Hc Hi). unfold bkt. lia.
Qed.

(** ** Dictionaries over such a table *)

Record view (d : Dictionary) (t : list DictEntry) : Prop := mkView {
  view_table : table d = Some t;
  view_len : len t = Capacity d true;
  view_log : 0 <= log2_buckets d <= MAX_LOG2
}.

Lemma view_tbl d t i : view d t -> tbl d i = tget t i.
Proof. intros H. unfold tbl. by rewrite (view_table _ _ H). Qed.

Lemma view_has d t : view d t -> has_table d = true.
Proof. intros H. unfold has_table. by rewrite (view_table _ _ H). Qed.

Lemma view_cap d t : view d t -> Capacity d false = len t.
Proof. intros H. rewrite (view_len _ _ H). unfold Capacity. by rewrite (view_has _ _ H). Qed.

Lemma shift_pow l : 0 <= l <= MAX_LOG2 -> i32 (Z.shiftl 1 l) = 2 ^ l /\ 1 <= 2 ^ l <= 2 ^ 30.
Proof.
  intros H. unfold MAX_LOG2 in H. rewrite Z.shiftl_mul_pow2, Z.mul_1_l by lia.
  assert (2 ^ 0 <= 2 ^ l <= 2 ^ 30) as Hp by (split; apply Z.pow_le_mono_r; lia).
  split; [apply i32_small; lia|lia].
Qed.

Lemma view_bkt d t i : view d t -> BucketByPosition d i = bkt t i.
Proof. intros H. unfold BucketByPosition, bkt. by rewrite (view_tbl _ _ _ H). Qed.

Lemma view_set_tbl d t i e : view d t -> view (set_tbl i e d) (tset t i e).
Proof.
  intros [H1 H2 H3]. split; [|by rewrite len_tset|done].
  unfold set_tbl. cbn. by rewrite H1.
Qed.

Lemma view_set_table d t t' : view d t -> len t' = len t -> view (set_table (Some t') d) t'.
Proof. intros [H1 H2 H3] E. split; [done|by rewrite E|done]. Qed.

Lemma set_tbl_view d t i e : view d t -> set_tbl i e d = set_table (Some (tset t i e)) d.
Proof. intros H. unfold set_tbl. by rewrite (view_table _ _ H). Qed.

Lemma view_buckets d t : view d t -> Buckets d false = 2 ^ log2_buckets d.
Proof.
  intros H. unfold Buckets. rewrite (view_has _ _ H).
  apply shift_pow, H.
Qed.

Lemma capacity_pow d : 0 <= log2_buckets d <= MAX_LOG2 ->
  Capacity d true = 2 ^ log2_buckets d + log2_buckets d.
Proof.
  intros H. unfold Capacity. destruct (shift_pow _ H) as [-> Hp]. unfold MAX_LOG2 in H.
  rewrite i32_small; lia.
Qed.

Lemma buckets_le_len d t : view d t -> 0 < 2 ^ log2_buckets d <= len t.
Proof.
  intros H. rewrite (view_len _ _ H), capacity_pow by apply H.
  pose proof (view_log _ _ H). lia.
Qed.

Lemma occupied_occ d t i : view d t -> 0 <= i -> occupied d i = true <-> occ t i.
Proof.
  intros H Hi. unfold occupied, occ.
  rewrite (view_cap _ _ H), (view_tbl _ _ _ H), andb_true_iff, negb_true_iff, Z.ltb_lt.
  intuition lia.
Qed.

Lemma in_table_occ d t i : view d t -> in_table d i = true <-> occ t i.
Proof.
  intros H. unfold in_table, occ.
  rewrite (view_cap _ _ H), (view_tbl _ _ _ H), !andb_true_iff, negb_true_iff, Z.ltb_lt, Z.leb_le.
  tauto.
Qed.

(** The end of the cluster that begins at or contains [p]. *)
Definition cluster_end (t : list DictEntry) (p n : Z) : Prop :=
  p < n <= len t /\ (forall j, p <= j < n -> occ t j /\ bkt t j = bkt t p) /\
  (occ t n -> bkt t n <> bkt t p).

Lemma TailOfClusterByPosition_spec d t p :
  view d t -> occ t p ->
  exists n, cluster_end t p n /\ TailOfClusterByPosition d p = Ok (n - 1).
Proof.
  intros Hv Hp. unfold TailOfClusterByPosition.
  step_assert; [|by apply (in_table_occ _ _ _ Hv)].
  pose proof (scan_spec (fun i => occupied d i && (BucketByPosition d i =? BucketByPosition d p))
                (len t) (steps_to d p) p) as H. cbn zeta in H.
  destruct H as (H1 & H2 & H3 & H4).
  { intros k Hk. unfold occupied. rewrite (view_cap _ _ Hv).
    destruct (Z.ltb_spec k (len t)); [lia|done]. }
  { unfold steps_to. by rewrite (view_cap _ _ Hv). }
  set (n := scan _ _ _) in *. exists n. destruct Hp as [Hpr Hpo].
  assert (forall k, p <= k -> occupied d k && (BucketByPosition d k =? BucketByPosition d p) = true
            <-> occ t k /\ bkt t k = bkt t p) as Hk.
  { intros k Hk. rewrite andb_true_iff, (occupied_occ _ _ _ Hv), Z.eqb_eq, !(view_bkt _ _ _ Hv); [done|lia]. }
  assert (n <> p). { intros E. rewrite E in H3. apply not_true_iff_false in H3. apply H3, Hk; [lia|done]. }
  split; [|done]. split_and!; [lia|lia| |].
  - intros j Hj. apply Hk; [lia|auto].
  - intros Ho Hb. apply not_true_iff_false in H3. apply H3, Hk; [lia|done].
Qed.

Lemma EndOfClusterByPosition_spec d t p :
  view d t -> occ t p ->
  exists n, cluster_end t p n /\ EndOfClusterByPosition d p = Ok n.
Proof.
  intros Hv Hp. destruct (TailOfClusterByPosition_spec d t p Hv Hp) as (n & Hn & E).
  exists n. split; [done|]. unfold EndOfClusterByPosition. rewrite E. cbn. f_equal. lia.
Qed.

(** Where an entry of bucket [b] that is not in the table goes. *)
Definition ip (t : list DictEntry) (b p : Z) : Prop :=
  0 <= b <= p /\ p <= len t /\ (forall j, b <= j < p -> occ t j /\ bkt t j <= b) /\
  (occ t p -> b < bkt t p).

Lemma EndOfClusterByBucket_spec d t b :
  view d t -> 0 <= b < 2 ^ log2_buckets d ->
  exists p, ip t b p /\ EndOfClusterByBucket d b = Ok p.
Proof.
  intros Hv Hb. unfold EndOfClusterByBucket. pose proof (buckets_le_len _ _ Hv).
  step_assert.
  2:{ unfold bucket_ok. rewrite (view_buckets _ _ Hv), andb_true_iff, Z.leb_le, Z.ltb_lt. lia. }
  pose proof (scan_spec (fun i => occupied d i && (BucketByPosition d i <=? b))
                (len t) (steps_to d b) b) as H0. cbn zeta in H0.
  destruct H0 as (H1 & H2 & H3 & H4).
  { intros k Hk. unfold occupied. rewrite (view_cap _ _ Hv).
    destruct (Z.ltb_spec k (len t)); [lia|done]. }
  { unfold steps_to. by rewrite (view_cap _ _ Hv). }
  set (n := scan _ _ _) in *. exists n.
  assert (forall k, b <= k -> occupied d k && (BucketByPosition d k <=? b) = true
            <-> occ t k /\ bkt t k <= b) as Hk.
  { intros k Hk. rewrite andb_true_iff, (occupied_occ _ _ _ Hv), Z.leb_le, !(view_bkt _ _ _ Hv); [done|lia]. }
  split; [|done]. split_and!; [lia|lia|lia| |].
  - intros j Hj. apply Hk; [lia|auto].
  - intros Ho. destruct (decide (b < bkt t n)) as [|Hn]; [done|exfalso].
    apply not_true_iff_false in H3. apply H3, Hk; [lia|]. split; [done|lia].
Qed.
