(* ===== verification/DictReloc.v ===== *)
(** * Relocation: what [InsertAndRelocate] and [RemoveAndRelocate] do to a table

    Both loops keep the cluster order and change the contents by one entry; the
    specifications also say which entries move, and where to. *)

From S2P Require Import Prelude DictTable Dictionary DictInv.

(** [distance] is a [uint16_t] whose largest value marks empty slots: the
    relocation of at most this many entries cannot overflow it. *)
Definition MAX_ENTRIES : Z := 65534.

(** Two slots hold the same entry, of the same bucket. *)
Definition same_entry (t t' : list DictEntry) (j i : Z) : Prop :=
  set_distance 0 (tget t' i) = set_distance 0 (tget t j) /\ bkt t' i = bkt t j.

Lemma same_entry_trans t t' t'' i j k :
  same_entry t t' i j -> same_entry t' t'' j k -> same_entry t t'' i k.
Proof. intros [H1 H2] [H3 H4]. split; congruence. Qed.

Lemma same_entry_tset t p e i : 0 <= p -> 0 <= i -> p <> i -> same_entry t (tset t p e) i i.
Proof. intros. split; [by rewrite tget_tset_ne|by rewrite bkt_tset_ne]. Qed.

(** ** Growing the array *)

Definition grow (t : list DictEntry) (n : nat) : list DictEntry := t ++ replicate n inhabitant.

Lemma len_grow t n : len (grow t n) = len t + Z.of_nat n.
Proof. unfold len, grow. rewrite length_app, length_replicate. lia. Qed.

Lemma tget_grow t n i : 0 <= i < len t -> tget (grow t n) i = tget t i.
Proof. intros H. unfold len in H. unfold tget, grow. apply lookup_total_app_l. lia. Qed.

Lemma tget_grow_new t n i :
  len t <= i < len t + Z.of_nat n -> Empty (tget (grow t n) i) = true.
Proof.
  intros H. unfold len in H. unfold tget, grow. rewrite lookup_total_app_r by lia.
  rewrite lookup_total_replicate_2 by lia. done.
Qed.

Lemma occ_grow t n i : occ (grow t n) i <-> occ t i.
Proof.
  unfold occ. rewrite len_grow. split.
  - intros [H1 H2]. destruct (decide (i < len t)).
    + rewrite tget_grow in H2 by lia. split; [lia|done].
    + rewrite tget_grow_new in H2; [done|lia].
  - intros [H1 H2]. rewrite tget_grow by lia. split; [lia|done].
Qed.

Lemma bkt_grow t n i : occ t i -> bkt (grow t n) i = bkt t i.
Proof. intros [H _]. unfold bkt. by rewrite tget_grow. Qed.

Lemma clustered_grow t n : clustered t -> clustered (grow t n).
Proof.
  intros Hc i Hi. pose proof (proj1 (occ_grow t n i) Hi) as Ho.
  rewrite tget_grow by exact (proj1 Ho).
  destruct (Hc i Ho) as [H1 [H2|[H2 H3]]]; (split; [done|]); [by left|right].
  rewrite occ_grow, !bkt_grow by done. done.
Qed.

Lemma contents_grow t n : contents (grow t n) = contents t.
Proof. unfold grow. by rewrite contents_app, contents_empties, app_nil_r. Qed.

(** The fields [SizeUp], the relocations and [Remap] leave alone. *)
Record frame (d d' : Dictionary) : Prop := mkFrame {
  frame_iter : num_iterators d' = num_iterators d;
  frame_num : num_entries d' = num_entries d;
  frame_max : max_entries d' = max_entries d;
  frame_cum : cum_entries d' = cum_entries d;
  frame_del : delete_func d' = delete_func d;
  frame_cookies : cookies d' = cookies d;
  frame_order : order d' = order d;
  frame_heap : cookie_heap d' = cookie_heap d;
  frame_next : next_cookie d' = next_cookie d
}.

Lemma frame_refl d : frame d d.
Proof. by split. Qed.
Lemma frame_trans d1 d2 d3 : frame d1 d2 -> frame d2 d3 -> frame d1 d3.
Proof. intros [] []. split; congruence. Qed.
Lemma frame_set_table d t : frame d (set_table t d).
Proof. by split. Qed.
#[export] Hint Resolve frame_refl frame_set_table : core.

(** Growing is possible: the doubled size is an [int], and no more remaps are
    pending than the table has doubled. *)
Definition growable (d : Dictionary) : Prop :=
  0 <= remaps d <= log2_buckets d /\ log2_buckets d < MAX_LOG2.

Record sized_up (d : Dictionary) (t : list DictEntry) (d' : Dictionary) : Prop := mkSizedUp {
  su_frame : frame d d';
  su_log : log2_buckets d' = log2_buckets d + 1;
  su_remaps : remaps d' = remaps d + 1;
  su_remap_end : remap_end d' = len t
}.

Lemma SizeUp_spec d t :
  view d t -> growable d ->
  exists d' k, SizeUp d = Ok d' /\ (0 < k)%nat /\ view d' (grow t k) /\ sized_up d t d'.
Proof.
  intros Hv [Hr Hl]. unfold SizeUp. rewrite (view_cap _ _ Hv). cbv zeta.
  assert (u8 (log2_buckets d + 1) = log2_buckets d + 1) as El
    by (apply u8_small; unfold MAX_LOG2 in Hl; lia).
  assert (u8 (remaps d + 1) = remaps d + 1) as Er by (apply u8_small; unfold MAX_LOG2 in Hl; lia).
  pose proof (view_log _ _ Hv) as Hlog.
  set (d0 := set_log2_buckets _ d).
  destruct (Z.ltb_spec MAX_LOG2 (log2_buckets d0)) as [Hbig|_]; [cbn in Hbig; lia|].
  step_assert; [|cbn; rewrite El, Er; apply Z.leb_le; lia].
  assert (Capacity d0 false = 2 ^ (log2_buckets d + 1) + (log2_buckets d + 1)) as Ec.
  { rewrite <- El. change (u8 (log2_buckets d + 1)) with (log2_buckets d0). unfold Capacity.
    change (has_table d0) with (has_table d). rewrite (view_has _ _ Hv).
    apply (capacity_pow d0). cbn. lia. }
  assert (log2_buckets d0 = log2_buckets d + 1) as Elog by exact El.
  assert (len t < Capacity d0 false) as Hlt.
  { rewrite Ec, (view_len _ _ Hv), capacity_pow, Z.pow_add_r by lia.
    pose proof (Z.pow_pos_nonneg 2 (log2_buckets d)). lia. }
  eexists _, (Z.to_nat (Capacity d0 false - len t)). split; [reflexivity|].
  split; [lia|]. split.
  - split.
    + cbn [table set_remaps set_remap_end set_table].
      change (table d0) with (table d). rewrite (view_table _ _ Hv).
      cbn [fmap option_fmap option_map]. unfold grow. rewrite take_ge; [done|].
      unfold len in Hlt. lia.
    + rewrite len_grow, capacity_pow; cbn -[Capacity d0 u8 Z.pow]; rewrite Elog; lia.
    + change (0 <= log2_buckets d0 <= MAX_LOG2). lia.
  - split; cbn; [by split|done|done|done].
Qed.

(** ** Insertion *)

Lemma place_clustered t b p e :
  clustered t -> ip t b p -> p < len t -> Empty e = false -> distance e = p - b ->
  clustered (tset t p e).
Proof.
  intros Hc (Hb & Hlen & Hrun & Hp) Hlt He Hd i Hi.
  destruct (decide (i = p)) as [->|Hip].
  - rewrite tget_tset_eq by lia. split; [lia|].
    destruct (decide (p = b)) as [->|]; [left; lia|right].
    destruct (Hrun (p - 1)) as [Ho Hle]; [lia|].
    rewrite occ_tset_ne, bkt_tset_ne, bkt_tset_eq by lia. split; [done|lia].
  - apply occ_tset_ne in Hi; [|lia|lia]. pose proof (proj1 Hi) as Hir.
    rewrite tget_tset_ne by lia. destruct (Hc i Hi) as [H1 [H2|[H2 H3]]]; (split; [done|]); [by left|].
    right. destruct (decide (i - 1 = p)) as [Hp'|].
    + rewrite Hp' in *. rewrite occ_tset_eq, bkt_tset_eq, bkt_tset_ne by lia.
      specialize (Hp H2). split; [done|lia].
    + pose proof (proj1 H2). rewrite occ_tset_ne, !bkt_tset_ne by lia. done.
Qed.

(** The entry found at the insertion point goes to the end of its own cluster. *)
Lemma displaced_ip t b p n e :
  clustered t -> ip t b p -> occ t p -> cluster_end t p n ->
  Empty e = false -> distance e = p - b ->
  ip (tset t p e) (bkt t p) n.
Proof.
  intros Hc (Hb & Hlen & Hrun & Hp) Ho (Hn & Hcl & Hend) He Hd. specialize (Hp Ho).
  pose proof (clustered_bkt_le t p Hc Ho). pose proof (proj1 Ho).
  split_and!; [lia|lia|by rewrite len_tset; lia| |].
  - intros j Hj. destruct (decide (j = p)) as [->|].
    + rewrite occ_tset_eq, bkt_tset_eq by lia. split; [done|lia].
    + rewrite occ_tset_ne, bkt_tset_ne by lia. destruct (decide (j < p)).
      * apply (clustered_run t p j Hc Ho). lia.
      * destruct (Hcl j) as [H1 H2]; [lia|]. split; [done|lia].
  - rewrite occ_tset_ne, bkt_tset_ne by lia. intros Hno. specialize (Hend Hno).
    destruct (Hcl (n - 1)) as [H1 H2]; [lia|].
    enough (bkt t (n - 1) <= bkt t n) by lia.
    apply clustered_mono; [done|lia|]. intros k Hk.
    assert (k = n - 1 \/ k = n) as [-> | ->] by lia; done.
Qed.

(** [t'] is [t] with [e] inserted at [p] and the entries from [p] on relocated up
    to [last]. *)
Record inserted_at (t : list DictEntry) (e : DictEntry) (b p last : Z) (t' : list DictEntry)
    : Prop := mkInserted {
  ins_clustered : clustered t';
  ins_contents : contents t' ≡ₚ set_distance 0 e :: contents t;
  ins_last : p <= last <= len t;
  ins_end : ~ occ t last;
  ins_run : forall j, p <= j < last -> occ t j;
  ins_below : forall i, 0 <= i < p -> tget t' i = tget t i;
  ins_at : occ t' p /\ tget t' p = e;
  ins_moved : forall i, occ t' i ->
    i = p \/ exists j, occ t j /\ same_entry t t' j i /\
                       (i = j \/ (p <= j < i /\ i <= last /\ b < bkt t j))
}.

(** Writing the entry into a free slot. *)
Lemma inserted_free t b p e :
  clustered t -> ip t b p -> p < len t -> ~ occ t p -> Empty e = false -> distance e = p - b ->
  inserted_at t e b p p (tset t p e).
Proof.
  intros Hc Hip Hlt Hno He Hd. pose proof Hip as (Hb & _).
  assert (Empty (tget t p) = true) as Hem.
  { destruct (Empty (tget t p)) eqn:E; [done|]. exfalso. apply Hno. split; [lia|done]. }
  split; try done; try lia.
  - by eapply place_clustered.
  - pose proof (contents_tset t p e) as H. rewrite (slot_empty _ Hem), (slot_used _ He) in H.
    apply H. lia.
  - intros i Hi. rewrite tget_tset_ne; [done|lia..].
  - rewrite occ_tset_eq, tget_tset_eq by lia. done.
  - intros i Hi. destruct (decide (i = p)) as [|Hne]; [by left|right].
    pose proof (proj1 Hi) as Hr. rewrite len_tset in Hr. apply occ_tset_ne in Hi; [|lia|lia].
    exists i. split; [done|]. split; [by apply same_entry_tset; lia|by left].
Qed.

(** Replacing the entry at [p] and inserting the displaced one at [n]. *)
Lemma inserted_step t b p n e dd last t' :
  ip t b p -> clustered t -> occ t p -> cluster_end t p n -> Empty e = false ->
  inserted_at (tset t p e) (set_distance dd (tget t p)) (bkt t p) n last t' ->
  (occ t' n -> bkt t' n = bkt t p) ->
  inserted_at t e b p last t'.
Proof.
  intros Hip Hc Ho (Hn & Hcl & Hend) He [I1 I2 I3 I4 I5 I6 I7 I8] Hbn.
  pose proof (proj1 Ho) as Hr. rewrite len_tset in I3.
  destruct Hip as (Hb & _ & _ & Hbp). specialize (Hbp Ho).
  assert (forall j, p < j -> occ (tset t p e) j <-> occ t j) as Hoj.
  { intros j Hj. apply occ_tset_ne; lia. }
  split.
  - done.
  - rewrite I2. pose proof (contents_tset t p e ltac:(lia)) as H.
    rewrite (slot_used _ (proj2 Ho)), (slot_used _ He) in H. exact H.
  - lia.
  - rewrite <- Hoj by lia. done.
  - intros j Hj. destruct (decide (j < n)); [apply Hcl; lia|].
    apply Hoj; [lia|]. apply I5. lia.
  - intros i Hi. rewrite I6 by lia. apply tget_tset_ne; lia.
  - rewrite I6 by lia. rewrite tget_tset_eq by lia. split; [|done]. split.
    + destruct I7 as [[I7 _] _]. lia.
    + rewrite I6, tget_tset_eq by lia. done.
  - intros i Hi. destruct (I8 i Hi) as [->|(j & Hj & Hs & Hm)].
    + right. exists p. split; [done|]. split; [|right; lia]. split; [|by apply Hbn].
      by rewrite (proj2 I7).
    + destruct (decide (j = p)) as [->|Hne].
      { left. lia. }
      right. pose proof (proj1 Hj) as Hjr. rewrite len_tset in Hjr.
      apply occ_tset_ne in Hj; [|lia|lia].
      exists j. split; [done|]. split.
      * apply same_entry_trans with (tset t p e) j; [apply same_entry_tset; lia|done].
      * rewrite bkt_tset_ne in Hm by lia. lia.
Qed.

(** What [InsertAndRelocate] does to the dictionary: nothing but a new table, or
    a new table in the dictionary grown by [SizeUp]. *)
Definition relocated (d : Dictionary) (t : list DictEntry) (last : Z) (d' : Dictionary)
    (t' : list DictEntry) : Prop :=
  view d' t' /\
  ((last < len t /\ len t' = len t /\ d' = set_table (Some t') d) \/
   (last = len t /\ len t < len t' /\ sized_up d t d')).

Lemma inserted_grow t b k e :
  clustered t -> ip t b (len t) -> (0 < k)%nat -> Empty e = false -> distance e = len t - b ->
  inserted_at t e b (len t) (len t) (tset (grow t k) (len t) e).
Proof.
  intros Hc (Hb & _ & Hrun & _) Hk He Hd.
  assert (~ occ t (len t)) as Hno by (intros [? _]; lia).
  assert (inserted_at (grow t k) e b (len t) (len t) (tset (grow t k) (len t) e)) as I.
  { apply inserted_free; try done.
    - by apply clustered_grow.
    - split_and!; [lia|lia|rewrite len_grow; lia| |].
      + intros j Hj. destruct (Hrun j Hj). by rewrite occ_grow, bkt_grow.
      + by rewrite occ_grow.
    - rewrite len_grow. lia.
    - by rewrite occ_grow. }
  destruct I as [I1 I2 I3 I4 I5 I6 I7 I8]. split; try done.
  - by rewrite contents_grow in I2.
  - intros j Hj. lia.
  - intros i Hi. rewrite I6 by done. by apply tget_grow.
  - intros i Hi. destruct (I8 i Hi) as [|(j & Hj & Hs & Hm)]; [by left|right].
    apply (occ_grow t k) in Hj. exists j. split; [done|].
    rewrite bkt_grow in Hm by done. split; [|done].
    destruct Hs as [Hs1 Hs2]. rewrite tget_grow in Hs1 by exact (proj1 Hj).
    rewrite bkt_grow in Hs2 by done. done.
Qed.

Lemma InsertAndRelocate_loop_spec fuel d t e b p :
  view d t -> growable d -> clustered t -> ip t b p -> Empty e = false -> distance e = p - b ->
  Z.of_nat (length (contents t)) <= MAX_ENTRIES -> (Z.to_nat (len t - p) < fuel)%nat ->
  exists e' last d' t', InsertAndRelocate_loop fuel d e p = Ok (e', last, d') /\
    inserted_at t e b p last t' /\ relocated d t last d' t'.
Proof.
  revert d t e b p. induction fuel as [|fuel IH]; intros d t e b p Hv Hg Hc Hip He Hd Hm Hf; [lia|].
  pose proof Hip as (Hb & Hlen & _ & Hbp).
  cbn [InsertAndRelocate_loop]. rewrite (view_cap _ _ Hv), (view_tbl _ _ _ Hv).
  destruct (Z.leb_spec (len t) p) as [Hle|Hlt].
  { assert (p = len t) as -> by lia. step_assert; [|by apply Z.eqb_eq].
    destruct (SizeUp_spec d t Hv Hg) as (d1 & k & E & Hk & Hv1 & Hs). step_ok E.
    exists e, (len t), (set_tbl (len t) e d1), (tset (grow t k) (len t) e).
    split; [done|]. split; [by apply inserted_grow|].
    split; [by apply view_set_tbl|]. right. rewrite len_tset, len_grow.
    split_and!; [done|lia|]. destruct Hs as [Hs1 Hs2 Hs3 Hs4].
    split; try done. eapply frame_trans; [done|]. apply frame_set_table. }
  destruct (Empty (tget t p)) eqn:Hem.
  { exists e, p, (set_tbl p e d), (tset t p e). split; [done|]. split.
    - apply inserted_free; try done. intros [_ Ho]. congruence.
    - split; [by apply view_set_tbl|]. left. rewrite len_tset. by rewrite (set_tbl_view _ _ _ _ Hv). }
  assert (occ t p) as Ho by (split; [lia|done]). specialize (Hbp Ho).
  destruct (EndOfClusterByPosition_spec d t p Hv Ho) as (n & Hn & E). step_ok E.
  pose proof (displaced_ip t b p n e Hc Hip Ho Hn He Hd) as Hip1.
  pose proof (clustered_bkt_le t p Hc Ho) as Hble.
  assert (length (contents (tset t p e)) = length (contents t)) as Hl.
  { pose proof (Permutation_length (contents_tset t p e ltac:(lia))) as H1.
    rewrite (slot_used _ Hem), (slot_used _ He) in H1. cbn in H1. lia. }
  assert (n - bkt t p <= Z.of_nat (length (contents t))) as Hdist.
  { rewrite <- Hl. apply run_le_contents. intros j Hj. by apply Hip1. }
  destruct Hn as (Hn & Hcl & Hend).
  assert (u16 (distance (tget t p) + (n - p)) = n - bkt t p) as Hu.
  { unfold bkt. rewrite u16_small; [lia|]. unfold bkt, MAX_ENTRIES in *. lia. }
  rewrite Hu.
  destruct (IH (set_tbl p e d) (tset t p e) (set_distance (n - bkt t p) (tget t p)) (bkt t p) n)
    as (e' & last & d' & t' & E' & I & R).
  - by apply view_set_tbl.
  - done.
  - by apply place_clustered with b.
  - done.
  - unfold Empty, TOO_FAR_TO_REACH, MAX_ENTRIES in *. cbn. apply Z.eqb_neq. lia.
  - done.
  - by rewrite Hl.
  - rewrite len_tset. lia.
  - exists e', last, d', t'. split; [done|]. split.
    + eapply inserted_step; try done. intros Hno. unfold bkt at 1.
      rewrite (proj2 (ins_at _ _ _ _ _ _ I)). cbn. lia.
    + destruct R as [R1 R2]. split; [done|]. rewrite len_tset in R2.
      rewrite (set_tbl_view _ _ _ _ Hv) in R2. destruct R2 as [R2|(R2 & R3 & [])]; [by left|right].
      split_and!; [done|done|]. split; try done; [|by rewrite len_tset in su_remap_end0].
      eapply frame_trans; [|done]. apply frame_set_table.
Qed.

Lemma InsertAndRelocate_spec d t e b p :
  view d t -> growable d -> clustered t -> ip t b p -> Empty e = false -> distance e = p - b ->
  Z.of_nat (length (contents t)) <= MAX_ENTRIES ->
  exists e' last d' t', InsertAndRelocate d e p = Ok (e', last, d') /\
    inserted_at t e b p last t' /\ relocated d t last d' t'.
Proof.
  intros Hv. intros. apply InsertAndRelocate_loop_spec; try done.
  unfold steps_to. rewrite (view_cap _ _ Hv). lia.
Qed.

(** ** Removal *)

(** [t'] is [t] without the entry at [p], the clusters after it moved up to fill
    the holes down to [last]. *)
Record removed_at (t : list DictEntry) (p last : Z) (t' : list DictEntry) : Prop := mkRemoved {
  rem_clustered : clustered t';
  rem_contents : set_distance 0 (tget t p) :: contents t' ≡ₚ contents t;
  rem_len : len t' = len t;
  rem_last : p <= last < len t;
  rem_end : ~ occ t' last;
  rem_run : forall j, p <= j < last -> occ t' j;
  rem_was : forall j, p <= j <= last -> occ t j;
  rem_below : forall i, 0 <= i < p -> tget t' i = tget t i;
  rem_moved : forall i, occ t' i ->
    exists j, occ t j /\ j <> p /\ same_entry t t' j i /\ (i = j \/ (p <= i < j /\ j <= last))
}.

Lemma removed_last t p :
  clustered t -> occ t p -> (occ t (p + 1) -> distance (tget t (p + 1)) = 0) ->
  removed_at t p p (tset t p (SetEmpty (tget t p))).
Proof.
  intros Hc Ho Hnext. pose proof (proj1 Ho) as Hr.
  assert (forall i, occ (tset t p (SetEmpty (tget t p))) i -> i <> p) as Hne.
  { intros i Hi ->. apply occ_tset_eq in Hi; [done|lia]. }
  split; try lia.
  - intros i Hi. pose proof (Hne i Hi). pose proof (proj1 Hi) as Hir. rewrite len_tset in Hir.
    apply occ_tset_ne in Hi; [|lia|lia]. rewrite tget_tset_ne by lia.
    destruct (Hc i Hi) as [H1 [H2|[H2 H3]]]; (split; [done|]); [by left|].
    pose proof (proj1 H2). destruct (decide (i - 1 = p)) as [Hp|].
    + left. assert (i = p + 1) as -> by lia. auto.
    + right. rewrite occ_tset_ne, !bkt_tset_ne by lia. done.
  - pose proof (contents_tset t p (SetEmpty (tget t p)) Hr) as H.
    by rewrite (slot_used _ (proj2 Ho)) in H.
  - by rewrite len_tset.
  - intros Hp. by apply Hne in Hp.
  - intros j Hj. by assert (j = p) as -> by lia.
  - intros i Hi. apply tget_tset_ne; lia.
  - intros i Hi. pose proof (Hne i Hi). pose proof (proj1 Hi) as Hir. rewrite len_tset in Hir.
    apply occ_tset_ne in Hi; [|lia|lia]. exists i. split_and!; [done|done| |by left].
    apply same_entry_tset; lia.
Qed.

(** The tail of the next cluster fills the hole; its slot is the new hole. *)
Definition fill_hole (t : list DictEntry) (p next : Z) : list DictEntry :=
  tset t p (set_distance (p - bkt t next) (tget t next)).

Lemma fill_hole_clustered t p n :
  clustered t -> occ t p -> occ t (p + 1) -> distance (tget t (p + 1)) <> 0 ->
  cluster_end t (p + 1) n -> p - bkt t (n - 1) < TOO_FAR_TO_REACH ->
  clustered (fill_hole t p (n - 1)) /\ 0 <= p - bkt t (n - 1).
Proof.
  intros Hc Ho Ho1 Hd (Hn & Hcl & Hend) Hfar. destruct (Hcl (n - 1)) as [Hon Hbn]; [lia|].
  destruct (Hc _ Ho1) as [Hd1 [|[_ Hb1]]]; [done|].
  replace (p + 1 - 1) with p in Hb1 by lia.
  assert (bkt t (p + 1) <= p) as Hle by (unfold bkt; lia).
  pose proof (proj1 Ho) as Hr. split; [|lia].
  intros i Hi. unfold fill_hole in *. destruct (decide (i = p)) as [->|Hne].
  - rewrite tget_tset_eq by lia. cbn. split; [lia|]. rewrite Hbn.
    destruct (Hc _ Ho) as [Hd0 [H0|[H1 H2]]].
    + left. unfold bkt in *. lia.
    + right. pose proof (proj1 H1). rewrite occ_tset_ne, bkt_tset_ne, bkt_tset_eq by lia.
      cbn. split; [done|]. lia.
  - pose proof (proj1 Hi) as Hir. rewrite len_tset in Hir.
    apply occ_tset_ne in Hi; [|lia|lia]. rewrite tget_tset_ne by lia.
    destruct (Hc i Hi) as [H1 [H2|[H2 H3]]]; (split; [done|]); [by left|].
    pose proof (proj1 H2). right. destruct (decide (i - 1 = p)) as [Hp|].
    + assert (i = p + 1) as -> by lia. replace (p + 1 - 1) with p by lia.
      rewrite occ_tset_eq, bkt_tset_eq, bkt_tset_ne by lia. cbn. split; [|lia].
      unfold Empty. cbn. apply Z.eqb_neq. lia.
    + rewrite occ_tset_ne, !bkt_tset_ne by lia. done.
Qed.

Lemma removed_step t p n last t' :
  occ t p -> cluster_end t (p + 1) n -> p - bkt t (n - 1) < TOO_FAR_TO_REACH ->
  removed_at (fill_hole t p (n - 1)) (n - 1) last t' ->
  removed_at t p last t'.
Proof.
  intros Ho (Hn & Hcl & Hend) Hfar [R1 R2 R3 R4 R5 R6 Rw R7 R8].
  pose proof (proj1 Ho) as Hr. unfold fill_hole in *. rewrite len_tset in *.
  destruct (Hcl (n - 1)) as [Hon Hbn]; [lia|]. pose proof (proj1 Hon).
  set (e := set_distance (p - _) _) in *.
  assert (Empty e = false) as He by (subst e; unfold Empty; cbn; apply Z.eqb_neq; lia).
  assert (occ t' p) as Hp.
  { split; [lia|]. rewrite R7, tget_tset_eq by lia. done. }
  split; try done; try lia.
  - pose proof (contents_tset t p e Hr) as H1.
    rewrite (slot_used _ He), (slot_used _ (proj2 Ho)) in H1.
    rewrite <- R2, tget_tset_ne in H1 by lia. cbn [app] in H1.
    change (set_distance 0 e) with (set_distance 0 (tget t (n - 1))) in H1.
    rewrite Permutation_swap in H1. by apply Permutation_cons_inv in H1.
  - intros j Hj. destruct (decide (j = p)) as [->|]; [done|].
    destruct (decide (j < n - 1)); [|apply R6; lia].
    destruct (Hcl j) as [Hoj _]; [lia|]. split; [lia|].
    rewrite R7, tget_tset_ne by lia. apply Hoj.
  - intros j Hj. destruct (decide (j < n - 1)).
    + destruct (decide (j = p)) as [->|]; [done|apply Hcl; lia].
    + rewrite <- (occ_tset_ne t p j e) by lia. apply Rw. lia.
  - intros i Hi. rewrite R7 by lia. apply tget_tset_ne; lia.
  - intros i Hi. destruct (R8 i Hi) as (j & Hj & Hne & Hs & Hm).
    pose proof (proj1 Hj) as Hjr. rewrite len_tset in Hjr.
    destruct (decide (j = p)) as [->|Hjp].
    + assert (i = p) as -> by lia. exists (n - 1). split_and!; [done|lia| |lia].
      destruct Hs as [Hs1 Hs2]. rewrite tget_tset_eq in Hs1 by lia.
      rewrite bkt_tset_eq in Hs2 by lia. split; [done|]. rewrite Hs2. cbn. lia.
    + apply occ_tset_ne in Hj; [|lia|lia]. exists j. split_and!; [done|done| |lia].
      apply same_entry_trans with (tset t p e) j; [apply same_entry_tset; lia|done].
Qed.

Lemma RemoveAndRelocate_loop_spec fuel d t p :
  view d t -> clustered t -> occ t p ->
  Z.of_nat (length (contents t)) <= MAX_ENTRIES -> (Z.to_nat (len t - p) < fuel)%nat ->
  exists last t', RemoveAndRelocate_loop fuel d p = Ok (last, set_table (Some t') d) /\
    removed_at t p last t'.
Proof.
  revert d t p. induction fuel as [|fuel IH]; intros d t p Hv Hc Ho Hm Hf; [lia|].
  pose proof (proj1 Ho) as Hr.
  cbn [RemoveAndRelocate_loop]. rewrite (view_cap _ _ Hv), !(view_tbl _ _ _ Hv).
  destruct (_ || _ || _) eqn:Hstop.
  { exists p, (tset t p (SetEmpty (tget t p))). rewrite (set_tbl_view _ _ _ _ Hv). split; [done|].
    apply removed_last; [done|done|]. intros [Hr1 Ho1].
    apply orb_true_iff in Hstop as [Hstop|Hstop]; [|by apply Z.eqb_eq].
    rewrite Ho1, orb_false_r, Z.eqb_eq in Hstop. lia. }
  apply orb_false_iff in Hstop as [Hstop Hd]. apply orb_false_iff in Hstop as [Hend Hem].
  apply Z.eqb_neq in Hd, Hend.
  assert (occ t (p + 1)) as Ho1 by (split; [lia|done]).
  destruct (TailOfClusterByPosition_spec d t (p + 1) Hv Ho1) as (n & Hn & E). step_ok E.
  rewrite !(view_tbl _ _ _ Hv).
  pose proof Hn as (Hlt & Hcl & _). destruct (Hcl (n - 1)) as [Hon Hbn]; [lia|].
  pose proof (distance_le_contents t (n - 1) Hc Hon) as Hdc. unfold MAX_ENTRIES in Hm.
  assert (p - bkt t (n - 1) < TOO_FAR_TO_REACH) as Hfar by (unfold bkt, TOO_FAR_TO_REACH in *; lia).
  destruct (fill_hole_clustered t p n) as [Hc1 Hge]; try done.
  assert (u16 (distance (tget t (n - 1)) - (n - 1 - p)) = p - bkt t (n - 1)) as Hu.
  { unfold bkt in *. rewrite u16_small; lia. }
  rewrite Hu. fold (fill_hole t p (n - 1)).
  assert (occ (fill_hole t p (n - 1)) (n - 1)) as Hon1.
  { unfold fill_hole. destruct (decide (n - 1 = p)) as [Heq|]; [lia|]. apply occ_tset_ne; [lia|lia|done]. }
  destruct (IH (set_tbl p (set_distance (p - bkt t (n - 1)) (tget t (n - 1))) d)
              (fill_hole t p (n - 1)) (n - 1)) as (last & t' & E' & R).
  - by apply view_set_tbl.
  - done.
  - done.
  - pose proof (Permutation_length (contents_tset t p
        (set_distance (p - bkt t (n - 1)) (tget t (n - 1))) Hr)) as Hl.
    rewrite (slot_used _ (proj2 Ho)), slot_used in Hl.
    + cbn [app length] in Hl. unfold fill_hole, MAX_ENTRIES. lia.
    + unfold Empty. cbn. apply Z.eqb_neq. lia.
  - unfold fill_hole. rewrite len_tset. lia.
  - exists last, t'. rewrite E'. rewrite (set_tbl_view _ _ _ _ Hv). split; [done|].
    by apply removed_step with n.
Qed.

Lemma RemoveAndRelocate_spec d t p :
  view d t -> clustered t -> occ t p -> Z.of_nat (length (contents t)) <= MAX_ENTRIES ->
  exists last t', RemoveAndRelocate d p = Ok (tget t p, last, set_table (Some t') d) /\
    removed_at t p last t'.
Proof.
  intros Hv Hc Ho Hm. unfold RemoveAndRelocate. step_assert; [|by apply (in_table_occ _ _ _ Hv)].
  destruct (RemoveAndRelocate_loop_spec (S (steps_to d p)) d t p) as (last & t' & E & R); try done.
  { unfold steps_to. rewrite (view_cap _ _ Hv). lia. }
  exists last, t'. step_ok E. by rewrite (view_tbl _ _ _ Hv).
Qed.
