(* ===== verification/DictWf.v ===== *)
(** * The dictionary's invariant, searching and remapping

    [core d t]: the table [t] of [d] is clustered, every entry is where a search
    looks for it, and keys are unique.  [Remap], [LookupIndex] keep it. *)

From S2P Require Import Prelude DictTable Dictionary DictInv DictReloc.

(** ** Hashing *)

Lemma land_hash_mask h : Z.land h HASH_MASK = u32 h.
Proof. change HASH_MASK with (Z.ones 32). by rewrite Z.land_ones. Qed.

Lemma FibHash_u32 h : FibHash (u32 h) = FibHash h.
Proof. unfold FibHash. rewrite !land_hash_mask. unfold u32. by rewrite Z.mod_mod. Qed.

(** The shift pair keeps the low bits of the Fibonacci hash. *)
Lemma BucketByHash_mod h l : 0 <= l <= MAX_LOG2 -> BucketByHash h l = FibHash h mod 2 ^ l.
Proof.
  intros Hl. pose proof (shift_pow l Hl) as [_ Hp]. unfold MAX_LOG2 in Hl.
  unfold BucketByHash. destruct (Z.eqb_spec l 0) as [->|Hne].
  { by rewrite Z.mod_1_r. }
  pose proof (Z.mod_pos_bound (FibHash h) (2 ^ l) ltac:(lia)).
  rewrite <- (i32_small (_ mod _)) by lia. f_equal.
  rewrite Z.shiftr_div_pow2, Z.shiftl_mul_pow2 by lia. unfold u64.
  replace (2 ^ 64) with (2 ^ l * 2 ^ (64 - l)) by (rewrite <- Z.pow_add_r by lia; f_equal; lia).
  rewrite Z.mul_mod_distr_r by (apply Z.pow_nonzero; lia).
  apply Z.div_mul, Z.pow_nonzero; lia.
Qed.

Lemma BucketByHash_range h l : 0 <= l <= MAX_LOG2 -> 0 <= BucketByHash h l < 2 ^ l.
Proof. intros Hl. rewrite BucketByHash_mod by done. apply Z.mod_pos_bound. lia. Qed.

Lemma BucketByHash_u32 h l : BucketByHash (u32 h) l = BucketByHash h l.
Proof. unfold BucketByHash. by rewrite FibHash_u32. Qed.

(** The bucket of an older, smaller table is the bucket's remainder. *)
Lemma BucketByHash_prev h l k :
  0 <= k <= l -> l <= MAX_LOG2 -> BucketByHash h (l - k) = BucketByHash h l mod 2 ^ (l - k).
Proof.
  intros Hk Hl. rewrite !BucketByHash_mod by lia.
  apply Znumtheory.Zmod_div_mod; [lia|lia|].
  exists (2 ^ k). rewrite <- Z.pow_add_r by lia. f_equal. lia.
Qed.

Lemma BucketByHash_prev_le h l k :
  0 <= k <= l -> l <= MAX_LOG2 -> BucketByHash h (l - k) <= BucketByHash h l.
Proof.
  intros. rewrite BucketByHash_prev by done.
  apply Z.mod_le; [|lia]. by apply BucketByHash_range; lia.
Qed.

(** ** Keys *)

Definition ekey (e : DictEntry) : list Z * Z := (key_bytes e, hash e).

Definition entry_ok (e : DictEntry) : Prop :=
  key_size e = Z.of_nat (length (key_bytes e)) /\ 0 <= hash e < 2 ^ 32.

Lemma lxor_land_ones a b n : 0 <= n ->
  Z.land (Z.lxor a b) (Z.ones n) = Z.lxor (a mod 2 ^ n) (b mod 2 ^ n).
Proof.
  intros Hn. rewrite <- !Z.land_ones by done. apply Z.bits_inj'. intros i Hi.
  rewrite !Z.lxor_spec, !Z.land_spec, Z.lxor_spec.
  by destruct (Z.testbit a i), (Z.testbit b i), (Z.testbit (Z.ones n) i).
Qed.

Lemma lxor_mask_0 a b : 0 <= a < 2 ^ 32 ->
  (0 =? Z.land (Z.lxor a b) HASH_MASK) = true <-> a = u32 b.
Proof.
  intros Ha. rewrite Z.eqb_eq. change HASH_MASK with (Z.ones 32).
  rewrite lxor_land_ones by done.
  rewrite (Z.mod_small a) by done. fold (u32 b). split.
  - intros H. symmetry in H. by apply Z.lxor_eq in H.
  - intros ->. by rewrite Z.lxor_nilpotent.
Qed.

Lemma Equal_spec e key h :
  entry_ok e -> Equal e key (Z.of_nat (length key)) h = true <-> ekey e = (key, u32 h).
Proof.
  intros [Hks Hh]. unfold Equal, GetKey, ekey.
  rewrite !andb_true_iff, lxor_mask_0 by done. rewrite Z.eqb_eq, bool_decide_eq_true, Hks, Nat2Z.id.
  rewrite take_ge by lia. split.
  - intros [[H1 H2] H3]. rewrite take_ge in H3 by lia. congruence.
  - intros [= H1 H2]. rewrite H1, H2. split_and!; [done|done|]. by rewrite take_ge by lia.
Qed.

(** Slot [i] holds the entry of a key. *)
Definition holds (t : list DictEntry) (k : list Z * Z) (i : Z) : Prop :=
  occ t i /\ ekey (tget t i) = k.

Definition keys (t : list DictEntry) : list (list Z * Z) := ekey <$> contents t.

Lemma elem_of_keys t k : k ∈ keys t <-> exists i, holds t k i.
Proof.
  unfold keys. rewrite list_elem_of_fmap. split.
  - intros (c & -> & Hc). apply elem_of_contents in Hc as (i & Hi & ->). by exists i.
  - intros (i & Hi & <-). exists (set_distance 0 (tget t i)). split; [done|].
    apply elem_of_contents. by exists i.
Qed.

Lemma NoDup_fmap_filter_inj {A B} (f : A -> B) (P : A -> Prop) `{forall x, Decision (P x)}
    (l : list A) i j x y :
  NoDup (f <$> filter P l) -> l !! i = Some x -> l !! j = Some y -> P x -> P y -> f x = f y -> i = j.
Proof.
  revert i j. induction l as [|a l IH]; intros i j Hnd Hi Hj Hx Hy E; [done|].
  rewrite filter_cons in Hnd.
  assert (forall n z, l !! n = Some z -> P z -> P a -> f z = f a -> False) as Hhd.
  { intros n z Hn Hz Ha Ez. rewrite decide_True in Hnd by done. cbn in Hnd.
    apply NoDup_cons in Hnd as [Hnin _]. apply Hnin. rewrite <- Ez.
    apply list_elem_of_fmap_2, list_elem_of_filter. split; [done|].
    by apply list_elem_of_lookup_2 with n. }
  assert (NoDup (f <$> filter P l)) as Hnd'.
  { case_decide; [|done]. cbn in Hnd. by apply NoDup_cons in Hnd as [_ ?]. }
  destruct i as [|i], j as [|j]; cbn in Hi, Hj; [done| | |f_equal; eauto].
  - injection Hi as ->. exfalso. by apply (Hhd j y).
  - injection Hj as ->. exfalso. by apply (Hhd i x).
Qed.

(** Unique keys are in one slot. *)
Lemma holds_unique t k i j : NoDup (keys t) -> holds t k i -> holds t k j -> i = j.
Proof.
  intros Hnd [[Hi Hei] Eki] [[Hj Hej] Ekj]. unfold len in *.
  enough (Z.to_nat i = Z.to_nat j) by lia.
  eapply (NoDup_fmap_filter_inj (ekey ∘ set_distance 0) (fun e => Empty e = false) t).
  - unfold keys, contents in Hnd. by rewrite <- list_fmap_compose in Hnd.
  - apply list_lookup_lookup_total_lt. lia.
  - apply list_lookup_lookup_total_lt. lia.
  - exact Hei.
  - exact Hej.
  - unfold tget in *. cbn. unfold ekey in *. cbn. congruence.
Qed.

(** ** The invariant *)

(** The bucket of slot [i] is its hash's at [l] bits, or, up to position [m], at
    one of the [r] previous sizes. *)
Definition placed (l r m : Z) (t : list DictEntry) (i : Z) : Prop :=
  bkt t i = BucketByHash (hash (tget t i)) l \/
  (i <= m /\ exists k, 1 <= k <= r /\ bkt t i = BucketByHash (hash (tget t i)) (l - k)).

Definition all_placed (l r m : Z) (t : list DictEntry) : Prop :=
  forall i, occ t i -> placed l r m t i.

Record core (d : Dictionary) (t : list DictEntry) : Prop := mkCore {
  core_view : view d t;
  core_log : log2_buckets d <= MAX_LOG2;
  core_remaps : 0 <= remaps d <= log2_buckets d;
  core_remap_end : -1 <= remap_end d < len t;
  core_clustered : clustered t;
  core_placed : all_placed (log2_buckets d) (remaps d) (remap_end d) t;
  core_keys : NoDup (keys t);
  core_ok : Forall entry_ok (contents t)
}.

Lemma core_entry_ok d t i : core d t -> occ t i -> entry_ok (tget t i).
Proof.
  intros H Hi. change (entry_ok (set_distance 0 (tget t i))).
  eapply Forall_forall; [apply H|]. apply elem_of_contents. by exists i.
Qed.

Lemma same_entry_hash t t' j i : same_entry t t' j i -> hash (tget t' i) = hash (tget t j).
Proof. intros [H _]. by apply (f_equal hash) in H. Qed.

Lemma same_entry_ekey t t' j i : same_entry t t' j i -> ekey (tget t' i) = ekey (tget t j).
Proof. intros [H _]. by apply (f_equal ekey) in H. Qed.

Lemma placed_moved l r m m' t t' j i :
  placed l r m t j -> same_entry t t' j i ->
  (i <= m' \/ m < j \/ bkt t j = BucketByHash (hash (tget t j)) l) -> m <= m' ->
  placed l r m' t' i.
Proof.
  intros [Hp|(Hj & k & Hk & Hp)] Hs Hor Hm; unfold placed;
    rewrite (same_entry_hash _ _ _ _ Hs), (proj2 Hs); [by left|].
  destruct Hor as [Hi|[Hjm|Hb]]; [right|lia|by left].
  split; [done|]. by exists k.
Qed.

Lemma inserted_placed l r m m' t e b p last t' :
  all_placed l r m t -> inserted_at t e b p last t' ->
  b = BucketByHash (hash e) l -> distance e = p - b -> m <= m' ->
  (forall i j, occ t j -> p <= j <= m -> j < i <= last -> b < bkt t j ->
     i <= m' \/ bkt t j = BucketByHash (hash (tget t j)) l) ->
  all_placed l r m' t'.
Proof.
  intros Hp I Hb Hd Hm Hdis i Hi. destruct (ins_moved _ _ _ _ _ _ I i Hi) as [->|(j & Hj & Hs & Hij)].
  - left. unfold bkt. rewrite (proj2 (ins_at _ _ _ _ _ _ I)). lia.
  - apply placed_moved with m t j; [by apply Hp|done| |done].
    destruct Hij as [->|(H1 & H2 & H3)].
    + destruct (decide (m < j)); [by right; left|left; lia].
    + destruct (decide (m < j)); [by right; left|].
      destruct (Hdis i j) as [?|?]; [done|lia|lia|done|by left|by right; right].
Qed.

(** In a table that has just grown every position is below [remap_end]. *)
Lemma inserted_placed_up l r m t e b p t' :
  0 <= r -> all_placed l r m t -> inserted_at t e b p (len t) t' ->
  b = BucketByHash (hash e) l -> distance e = p - b ->
  all_placed (l + 1) (r + 1) (len t) t'.
Proof.
  intros Hr Hp I Hb Hd i Hi. right.
  destruct (ins_moved _ _ _ _ _ _ I i Hi) as [->|(j & Hj & Hs & Hij)].
  - pose proof (ins_last _ _ _ _ _ _ I). split; [lia|]. exists 1. split; [lia|].
    unfold bkt. rewrite (proj2 (ins_at _ _ _ _ _ _ I)). replace (l + 1 - 1) with l by lia. lia.
  - pose proof (proj1 Hj). split; [destruct Hij as [->|?]; lia|].
    rewrite (same_entry_hash _ _ _ _ Hs), (proj2 Hs).
    destruct (Hp j Hj) as [E|(_ & k & Hk & E)].
    + exists 1. split; [lia|]. by replace (l + 1 - 1) with l by lia.
    + exists (k + 1). split; [lia|]. by replace (l + 1 - (k + 1)) with (l - k) by lia.
Qed.

Lemma removed_placed l r m t p last t' :
  all_placed l r m t -> removed_at t p last t' -> all_placed l r m t'.
Proof.
  intros Hp R i Hi. destruct (rem_moved _ _ _ _ R i Hi) as (j & Hj & _ & Hs & Hij).
  apply placed_moved with m t j; [by apply Hp|done| |done].
  destruct (decide (m < j)); [by right; left|left; lia].
Qed.

Lemma keys_perm t t' : contents t ≡ₚ contents t' -> keys t ≡ₚ keys t'.
Proof. intros H. unfold keys. by rewrite H. Qed.

Lemma keys_inserted t e b p last t' :
  inserted_at t e b p last t' -> keys t' ≡ₚ ekey e :: keys t.
Proof. intros I. unfold keys. by rewrite (ins_contents _ _ _ _ _ _ I). Qed.

Lemma keys_removed t p last t' :
  removed_at t p last t' -> ekey (tget t p) :: keys t' ≡ₚ keys t.
Proof. intros R. unfold keys. by rewrite <- (rem_contents _ _ _ _ R). Qed.

(** Removing keeps the invariant. *)
Lemma removed_core d t p last t' :
  core d t -> removed_at t p last t' -> core (set_table (Some t') d) t'.
Proof.
  intros [C1 C2 C3 C4 C5 C6 C7 C8] R. split; try done.
  - apply view_set_table with t; [done|]. apply R.
  - change (remap_end (set_table (Some t') d)) with (remap_end d). by rewrite (rem_len _ _ _ _ R).
  - apply R.
  - by apply removed_placed with t p last.
  - pose proof (keys_removed _ _ _ _ R) as H. rewrite <- H in C7. by apply NoDup_cons in C7 as [_ ?].
  - pose proof (rem_contents _ _ _ _ R) as H. rewrite <- H in C8. by apply Forall_cons in C8 as [_ ?].
Qed.

(** ** Searching *)

Lemma view_bucket_ok d t b : view d t -> bucket_ok d b = true <-> 0 <= b < 2 ^ log2_buckets d.
Proof.
  intros Hv. unfold bucket_ok. by rewrite (view_buckets _ _ Hv), andb_true_iff, Z.leb_le, Z.ltb_lt.
Qed.

Lemma Equal_slot d t i key h :
  core d t -> occ t i ->
  Equal (tbl d i) key (Z.of_nat (length key)) h = true <-> holds t (key, u32 h) i.
Proof.
  intros C Hi. rewrite (view_tbl _ _ _ (core_view _ _ C)), Equal_spec.
  - unfold holds. naive_solver.
  - by apply core_entry_ok with d.
Qed.

Lemma LookupIndex_loop_spec d t key h b e fuel i :
  core d t -> 0 <= b <= i -> i <= e <= len t -> (Z.to_nat (e - i) < fuel)%nat ->
  let k := (key, u32 h) in
  exists pos j, LookupIndex_loop d key (Z.of_nat (length key)) h b e fuel i = (pos, j) /\
    i <= j <= e /\
    (forall x, i <= x < j -> occ t x /\ bkt t x <= b /\ ~ (bkt t x = b /\ holds t k x)) /\
    ((pos = j /\ j < e /\ bkt t j = b /\ holds t k j) \/
     (pos = -1 /\ (j < e -> occ t j -> b < bkt t j))).
Proof.
  intros C Hb He Hf k. pose proof (core_view _ _ C) as Hv.
  revert i Hb He Hf. induction fuel as [|fuel IH]; intros i Hb He Hf; [lia|].
  cbn [LookupIndex_loop]. unfold probing. rewrite (view_tbl _ _ i Hv), (view_bkt _ _ _ Hv).
  destruct ((i <? e) && negb (Empty (tget t i)) && (bkt t i <=? b)) eqn:Hpr.
  - rewrite !andb_true_iff, negb_true_iff, Z.ltb_lt, Z.leb_le in Hpr.
    destruct Hpr as [[Hie Hem] Hbk].
    assert (occ t i) as Ho by (split; [lia|done]).
    rewrite <- (view_tbl _ _ i Hv).
    destruct ((bkt t i =? b) && Equal (tbl d i) key (Z.of_nat (length key)) h) eqn:Hm.
    + rewrite andb_true_iff, Z.eqb_eq, (Equal_slot _ _ _ _ _ C Ho) in Hm.
      exists i, i. split_and!; [done|lia|lia|intros; lia|]. left. split_and!; [done|lia|by destruct Hm..].
    + destruct (IH (i + 1)) as (pos & j & E & Hj & Hrun & Hres); [lia|lia|lia|].
      exists pos, j. split_and!; [done|lia|lia| |done].
      intros x Hx. destruct (decide (x = i)) as [->|]; [|apply Hrun; lia].
      split_and!; [done|done|]. intros [H1 H2]. apply not_true_iff_false in Hm. apply Hm.
      by rewrite andb_true_iff, Z.eqb_eq, (Equal_slot _ _ _ _ _ C Ho).
  - exists (-1), i. split_and!; [done|lia|lia|intros; lia|]. right. split; [done|].
    intros Hie Ho. apply not_true_iff_false in Hpr. destruct (decide (b < bkt t i)) as [|Hn]; [done|].
    exfalso. apply Hpr. rewrite !andb_true_iff, negb_true_iff, Z.ltb_lt, Z.leb_le.
    split_and!; [done|apply Ho|lia].
Qed.

(** A search from bucket [b] up to [e] that fails: no slot of that bucket before
    [e] has the key. *)
Lemma LookupIndex_in_spec d t key h b e :
  core d t -> 0 <= b < 2 ^ log2_buckets d -> b <= e <= len t ->
  let k := (key, u32 h) in
  exists pos j, LookupIndex_in d key (Z.of_nat (length key)) h b e = Ok (pos, j) /\
    ((0 <= pos < e /\ bkt t pos = b /\ holds t k pos) \/
     (pos = -1 /\ (forall i, i < e -> holds t k i -> bkt t i <> b) /\
      (e = len t -> ip t b j))).
Proof.
  intros C Hb He k. unfold LookupIndex_in.
  step_assert; [|by apply (view_bucket_ok _ _ _ (core_view _ _ C))].
  destruct (LookupIndex_loop_spec d t key h b e (S (Z.to_nat (e - b))) b)
    as (pos & j & E & Hj & Hrun & Hres); [done|lia|lia|lia|].
  exists pos, j. split; [by rewrite E|]. destruct Hres as [(-> & Hlt & Hbk & Hh)|(-> & Hstop)].
  { left. split_and!; [lia|lia|done|done]. }
  right. split; [done|]. split.
  - intros i Hi Hh Hbi. pose proof (proj1 Hh) as Ho.
    pose proof (clustered_bkt_le t i (core_clustered _ _ C) Ho) as Hle.
    destruct (decide (i < j)).
    + destruct (Hrun i) as (_ & _ & Hn); [lia|]. by apply Hn.
    + destruct (clustered_run t i j (core_clustered _ _ C) Ho) as [Hoj Hbj]; [lia|].
      specialize (Hstop ltac:(lia) Hoj). lia.
  - intros ->. split_and!; [lia|lia|lia| |].
    + intros x Hx. destruct (Hrun x Hx) as (? & ? & _). done.
    + intros Ho. apply Hstop; [apply Ho|done].
Qed.

Lemma LookupIndex_prev_spec d t key h n i :
  core d t -> 1 <= i -> i + Z.of_nat n <= remaps d + 1 ->
  let k := (key, u32 h) in
  exists pos, LookupIndex_prev d key (Z.of_nat (length key)) h n i = Ok pos /\
    ((0 <= pos <= remap_end d /\ holds t k pos) \/
     (pos = -1 /\ forall x j, holds t k x -> x <= remap_end d -> i <= j < i + Z.of_nat n ->
        bkt t x <> BucketByHash h (log2_buckets d - j))).
Proof.
  intros C Hi Hn k. pose proof (core_remaps _ _ C) as Hr. pose proof (core_log _ _ C) as Hl.
  pose proof (core_remap_end _ _ C) as Hre.
  revert i Hi Hn. induction n as [|n IH]; intros i Hi Hn; cbn [LookupIndex_prev].
  { exists (-1). split; [done|]. right. split; [done|]. intros. lia. }
  step_assert; [|apply Z.leb_le; lia].
  destruct (IH (i + 1)) as (pos & E & Hpos); [lia|lia|].
  pose proof (BucketByHash_range h (log2_buckets d - i) ltac:(lia)) as Hb.
  assert (2 ^ (log2_buckets d - i) <= 2 ^ log2_buckets d) by (apply Z.pow_le_mono_r; lia).
  assert (forall x, holds t k x -> x <= remap_end d ->
            bkt t x = BucketByHash h (log2_buckets d - i) ->
            BucketByHash h (log2_buckets d - i) <= remap_end d) as Hle.
  { intros x Hx Hxr <-. pose proof (clustered_bkt_le t x (core_clustered _ _ C) (proj1 Hx)). lia. }
  destruct (Z.leb_spec (BucketByHash h (log2_buckets d - i)) (remap_end d)) as [Hbr|Hbr].
  - destruct (LookupIndex_in_spec d t key h (BucketByHash h (log2_buckets d - i)) (remap_end d + 1))
      as (p1 & j1 & E1 & Hp1); [done|lia|lia|]. step_ok E1.
    destruct Hp1 as [(Hp1 & _ & Hh)|(-> & Hno & _)].
    + destruct (Z.leb_spec 0 p1); [|lia]. exists p1. split; [done|]. left. split; [lia|done].
    + exists pos. split; [done|]. destruct Hpos as [?|[-> Hno']]; [by left|right].
      split; [done|]. intros x j Hx Hxr Hj. destruct (decide (j = i)) as [->|].
      * apply Hno; [lia|done].
      * apply Hno'; [done|done|lia].
  - exists pos. split; [done|]. destruct Hpos as [?|[-> Hno']]; [by left|right].
    split; [done|]. intros x j Hx Hxr Hj. destruct (decide (j = i)) as [->|].
    + intros Hbx. specialize (Hle x Hx Hxr Hbx). lia.
    + apply Hno'; [done|done|lia].
Qed.

(** ** Remapping one entry *)

Definition no_cookies (d : Dictionary) : Prop := cookies d = None \/ cookies d = Some [].

Lemma core_bucket_range d h :
  0 <= log2_buckets d <= MAX_LOG2 -> 0 <= BucketByHash h (log2_buckets d) < 2 ^ log2_buckets d.
Proof. apply BucketByHash_range. Qed.

(** The core invariant after an insertion that did not grow the table; [m'] is the
    new [remap_end]. *)
Lemma inserted_core d t e p last t' m' :
  core d t -> inserted_at t e (BucketByHash (hash e) (log2_buckets d)) p last t' ->
  distance e = p - BucketByHash (hash e) (log2_buckets d) -> len t' = len t ->
  entry_ok e -> ekey e ∉ keys t -> remap_end d <= m' < len t ->
  (forall i j, occ t j -> p <= j <= remap_end d -> j < i <= last ->
     BucketByHash (hash e) (log2_buckets d) < bkt t j ->
     i <= m' \/ bkt t j = BucketByHash (hash (tget t j)) (log2_buckets d)) ->
  core (set_remap_end m' (set_table (Some t') d)) t'.
Proof.
  intros [C1 C2 C3 C4 C5 C6 C7 C8] I Hd Hlen Hok Hk Hm Hdis. split; try done.
  - by destruct (view_set_table d t t' C1 Hlen).
  - cbn. lia.
  - apply I.
  - change (all_placed (log2_buckets d) (remaps d) m' t').
    by eapply inserted_placed; [exact C6|exact I|done|done|lia|].
  - rewrite (keys_inserted _ _ _ _ _ _ I). by apply NoDup_cons.
  - rewrite (ins_contents _ _ _ _ _ _ I). by apply Forall_cons.
Qed.

(** The core invariant after an insertion that did. *)
Lemma inserted_core_up d t e p t' d' :
  core d t -> log2_buckets d < MAX_LOG2 ->
  inserted_at t e (BucketByHash (hash e) (log2_buckets d)) p (len t) t' ->
  distance e = p - BucketByHash (hash e) (log2_buckets d) ->
  view d' t' -> len t < len t' -> sized_up d t d' ->
  entry_ok e -> ekey e ∉ keys t ->
  core d' t'.
Proof.
  intros [C1 C2 C3 C4 C5 C6 C7 C8] Hl I Hd Hv Hlen [S1 S2 S3 S4] Hok Hk. split; try done.
  - rewrite S2. lia.
  - rewrite S2, S3. lia.
  - rewrite S4. lia.
  - apply I.
  - rewrite S2, S3, S4. by eapply inserted_placed_up; [lia|exact C6|exact I|..].
  - rewrite (keys_inserted _ _ _ _ _ _ I). by apply NoDup_cons.
  - rewrite (ins_contents _ _ _ _ _ _ I). by apply Forall_cons.
Qed.

Lemma core_growable d t : core d t -> log2_buckets d < MAX_LOG2 -> growable d.
Proof.
  intros C Hl. pose proof (core_remaps _ _ C). by split.
Qed.

(** A removed entry goes back as itself at its new distance. *)
Lemma removed_key_fresh d t p last t' e :
  core d t -> removed_at t p last t' -> ekey e = ekey (tget t p) -> ekey e ∉ keys t'.
Proof.
  intros C R E. pose proof (core_keys _ _ C) as H.
  rewrite <- (keys_removed _ _ _ _ R), <- E in H. by apply NoDup_cons in H as [? _].
Qed.

(** After the entry at [p] is gone, the entries of larger buckets that an
    insertion pushes beyond [remap_end] are in their current bucket already, when
    [p] is [remap_end] itself, or when at most one resize is pending. *)
Lemma remap_displaced d t p last1 t1 b ins last2 t2 e :
  core d t -> occ t p -> p <= remap_end d -> (p = remap_end d \/ remaps d <= 1) ->
  removed_at t p last1 t1 -> inserted_at t1 e b ins last2 t2 ->
  bkt t p < b -> (remaps d <= 1 -> 0 < log2_buckets d -> 2 ^ (log2_buckets d - 1) <= b) ->
  forall i j, occ t1 j -> ins <= j <= remap_end d -> j < i <= last2 -> b < bkt t1 j ->
    i <= remap_end d \/ bkt t1 j = BucketByHash (hash (tget t1 j)) (log2_buckets d).
Proof.
  intros C Hp Hpr Hcase R I Hb Hhalf i j Hj Hjr Hij Hbj.
  destruct (decide (i <= remap_end d)) as [|Hi]; [by left|right].
  destruct (rem_moved _ _ _ _ R j Hj) as (j0 & Hj0 & Hne & Hs & Hm).
  rewrite (proj2 Hs), (same_entry_hash _ _ _ _ Hs). rewrite (proj2 Hs) in Hbj.
  destruct (core_placed _ _ C j0 Hj0) as [|(Hj0r & k & Hk & E)]; [done|exfalso].
  pose proof (core_remaps _ _ C). pose proof (core_log _ _ C).
  destruct Hcase as [->|Hone].
  - destruct Hm as [->|[Hm1 Hm2]].
    + assert (bkt t j0 <= bkt t (remap_end d)); [|lia].
      apply clustered_mono; [apply C|lia|]. intros x Hx.
      destruct (decide (x = remap_end d)) as [->|]; [done|].
      assert (occ t1 x) as Hx1 by (apply (ins_run _ _ _ _ _ _ I); lia).
      destruct Hx1 as [Hx1 Hx2]. pose proof (proj1 Hj0). rewrite (rem_len _ _ _ _ R) in Hx1.
      rewrite (rem_below _ _ _ _ R) in Hx2 by lia. by split.
    + lia.
  - assert (k = 1) as -> by lia. pose proof (BucketByHash_range (hash (tget t j0))
      (log2_buckets d - 1) ltac:(lia)). specialize (Hhalf Hone ltac:(lia)). lia.
Qed.

(** The bucket an entry leaves is a remainder of the one it goes to. *)
Lemma remap_expected d t p :
  core d t -> occ t p ->
  let expected := BucketByHash (hash (tget t p)) (log2_buckets d) in
  bkt t p <> expected ->
  bkt t p < expected /\
  (remaps d <= 1 -> 0 < log2_buckets d -> 2 ^ (log2_buckets d - 1) <= expected).
Proof.
  intros C Hp expected Hne. pose proof (core_remaps _ _ C). pose proof (core_log _ _ C).
  destruct (core_placed _ _ C p Hp) as [|(_ & k & Hk & E)]; [done|].
  fold expected in E. rewrite E in *.
  pose proof (BucketByHash_prev_le (hash (tget t p)) (log2_buckets d) k ltac:(lia) ltac:(lia)) as Hle.
  fold expected in Hle. split; [lia|]. intros Hone Hlog. assert (k = 1) as -> by lia.
  rewrite BucketByHash_prev in Hne by lia. fold expected in Hne.
  destruct (decide (2 ^ (log2_buckets d - 1) <= expected)) as [|Hlt]; [done|].
  exfalso. apply Hne, Z.mod_small. pose proof (BucketByHash_range (hash (tget t p))
    (log2_buckets d) ltac:(lia)). lia.
Qed.

(** The table did not grow. *)
Definition same_size (d d' : Dictionary) : Prop :=
  log2_buckets d' = log2_buckets d /\ remaps d' = remaps d /\ remap_end d' = remap_end d.

(** The slots a move uses: one more at most, and after a growth none beyond the
    first new one. *)
Lemma moved_slots t p last1 t1 e b ins last t' :
  removed_at t p last1 t1 -> inserted_at t1 e b ins last t' ->
  forall i, occ t' i -> occ t i \/ i = last.
Proof.
  intros R I i Hi. assert (forall j, occ t1 j -> occ t j) as Hsub.
  { intros j Hj. destruct (rem_moved _ _ _ _ R j Hj) as (k & Hk & _ & _ & [->|Hm]); [done|].
    apply (rem_was _ _ _ _ R). lia. }
  destruct (decide (i = last)) as [|Hne]; [by right|left]. apply Hsub.
  destruct (ins_moved _ _ _ _ _ _ I i Hi) as [->|(j & Hj & _ & [->|Hm])]; [|done|].
  - apply (ins_run _ _ _ _ _ _ I). pose proof (ins_last _ _ _ _ _ _ I). lia.
  - apply (ins_run _ _ _ _ _ _ I). lia.
Qed.

Lemma Remap_at_spec d t p :
  core d t -> no_cookies d -> log2_buckets d < MAX_LOG2 ->
  Z.of_nat (length (contents t)) <= MAX_ENTRIES ->
  occ t p -> p <= remap_end d -> (p = remap_end d \/ remaps d <= 1) ->
  (Remap_at d p = Ok (None, d) /\
   bkt t p = BucketByHash (hash (tget t p)) (log2_buckets d)) \/
  exists ins d' t', Remap_at d p = Ok (Some ins, d') /\ core d' t' /\ frame d d' /\
    contents t' ≡ₚ contents t /\
    (same_size d d' /\ holds t' (ekey (tget t p)) ins /\
       bkt t' ins = BucketByHash (hash (tget t p)) (log2_buckets d) /\
       (exists last, forall i, occ t' i -> occ t i \/ i = last)
     \/ occ t (len t - 1) /\ log2_buckets d' = log2_buckets d + 1 /\
       (forall i, occ t' i -> i <= len t)).
Proof.
  intros C Hck Hlog Hmax Hp Hpr Hcase. unfold Remap_at. pose proof (core_view _ _ C) as Hv.
  step_assert; [|by destruct Hck as [-> | ->]].
  step_assert; [|by apply (in_table_occ _ _ _ Hv)].
  rewrite (view_bkt _ _ _ Hv), (view_tbl _ _ _ Hv).
  set (expected := BucketByHash (hash (tget t p)) (log2_buckets d)).
  destruct (Z.eqb_spec (bkt t p) expected) as [|Hne]; [by left|right].
  destruct (remap_expected d t p C Hp Hne) as [Hlt Hhalf]. fold expected in Hlt, Hhalf.
  destruct (RemoveAndRelocate_spec d t p Hv (core_clustered _ _ C) Hp Hmax)
    as (last1 & t1 & E1 & R). step_ok E1.
  pose proof (removed_core _ _ _ _ _ C R) as C1. set (d1 := set_table (Some t1) d) in *.
  pose proof (core_view _ _ C1) as Hv1.
  assert (0 <= expected < 2 ^ log2_buckets d1) as Hexp.
  { apply (core_bucket_range d). pose proof (view_log _ _ Hv). cbn. lia. }
  destruct (EndOfClusterByBucket_spec d1 t1 expected Hv1 Hexp) as (ins & Hip & E2). step_ok E2.
  pose proof (Permutation_length (rem_contents _ _ _ _ R)) as Hlen. cbn in Hlen.
  assert (ins - expected <= Z.of_nat (length (contents t1))) as Hrun.
  { apply run_le_contents. intros j Hj. by apply Hip. }
  pose proof Hip as (Hip1 & Hip2 & Hip3 & _).
  assert (u16 (ins - expected) = ins - expected) as Hu.
  { apply u16_small. unfold MAX_ENTRIES in Hmax. lia. }
  rewrite Hu. set (e := set_distance (ins - expected) (tget t p)).
  assert (Empty e = false) as He.
  { unfold Empty, TOO_FAR_TO_REACH, MAX_ENTRIES in *. subst e. cbn. apply Z.eqb_neq. lia. }
  assert (growable d1) as Hg by (by apply (core_growable d1 t1)).
  destruct (InsertAndRelocate_spec d1 t1 e expected ins) as (e' & last & d' & t' & E3 & I & Hv' & Hrel);
    [done|done|apply C1|done|done|done|lia|]. step_ok E3.
  assert (ekey e ∉ keys t1) as Hfresh by (exact (removed_key_fresh d t p last1 t1 e C R eq_refl)).
  assert (entry_ok e) as Hok by (exact (core_entry_ok d t p C Hp)).
  exists ins, d', t'. split; [done|].
  assert (contents t' ≡ₚ contents t) as Hperm.
  { rewrite (ins_contents _ _ _ _ _ _ I). apply R. }
  destruct Hrel as [(Hl1 & Hl2 & ->)|(-> & Hl2 & Hs)].
  - split.
    { change (set_table (Some t') d1) with (set_remap_end (remap_end d1) (set_table (Some t') d1)).
      apply (inserted_core d1 t1 e ins last t' (remap_end d1)); try done.
      - pose proof (core_remap_end _ _ C1). lia.
      - exact (remap_displaced d t p last1 t1 expected ins last t' e C Hp Hpr Hcase R I Hlt Hhalf). }
    split; [done|]. split; [done|]. left. split; [done|].
    destruct (ins_at _ _ _ _ _ _ I) as [Hoi Hei]. split; [split; [done|by rewrite Hei]|].
    split; [unfold bkt; rewrite Hei; cbn; lia|]. exists last.
    by apply (moved_slots t p last1 t1 e expected ins).
  - split; [by apply (inserted_core_up d1 t1 e ins)|]. split; [eapply frame_trans; [|apply Hs]; done|].
    split; [done|]. right. split; [|split; [apply Hs|]].
    2:{ intros i Hi. pose proof (rem_len _ _ _ _ R).
        destruct (moved_slots t p last1 t1 e expected ins _ t' R I i Hi) as [[Hi' _]| ->]; lia. }
    assert (occ t1 (len t1 - 1)) as Hlast.
    { destruct (decide (ins = len t1)) as [->|].
      - apply Hip3. pose proof (buckets_le_len _ _ Hv1). lia.
      - apply (ins_run _ _ _ _ _ _ I). lia. }
    destruct (rem_moved _ _ _ _ R _ Hlast) as (j & Hj & _ & _ & Hm).
    rewrite (rem_len _ _ _ _ R) in *. pose proof (proj1 Hj).
    assert (j = len t - 1) as -> by lia. done.
Qed.
