(* ===== verification/DictOps.v ===== *)
(** * The operations of the dictionary keep its invariant

    Bulk remapping, [LookupIndex] with the remapping it triggers, and growing. *)

From S2P Require Import Prelude DictTable Dictionary DictInv DictReloc DictWf.

(** ** Growing *)

Lemma SizeUp_core d t :
  core d t -> log2_buckets d < MAX_LOG2 ->
  exists d' k, SizeUp d = Ok d' /\ core d' (grow t k) /\ sized_up d t d'.
Proof.
  intros C Hl. pose proof C as [C1 C2 C3 C4 C5 C6 C7 C8].
  destruct (SizeUp_spec d t C1 (core_growable _ _ C Hl)) as (d' & k & E & Hk & Hv & S).
  exists d', k. split; [done|]. split; [|done]. pose proof S as [S1 S2 S3 S4].
  split; rewrite ?S2, ?S3, ?S4; try done; try lia.
  - rewrite len_grow. unfold len. lia.
  - by apply clustered_grow.
  - intros i Hi. apply (occ_grow t k) in Hi. right. split; [destruct Hi; lia|].
    rewrite bkt_grow, tget_grow by (done || exact (proj1 Hi)).
    destruct (C6 i Hi) as [E1|(_ & x & Hx & E1)].
    + exists 1. split; [lia|]. by replace (log2_buckets d + 1 - 1) with (log2_buckets d) by lia.
    + exists (x + 1). split; [lia|].
      by replace (log2_buckets d + 1 - (x + 1)) with (log2_buckets d - x) by lia.
  - unfold keys. by rewrite contents_grow.
  - by rewrite contents_grow.
Qed.

(** ** Bulk remapping *)

Lemma core_remap_down d t :
  core d t -> 0 <= remap_end d ->
  (occ t (remap_end d) ->
   bkt t (remap_end d) = BucketByHash (hash (tget t (remap_end d))) (log2_buckets d)) ->
  core (set_remap_end (remap_end d - 1) d) t.
Proof.
  intros [C1 C2 C3 C4 C5 C6 C7 C8] Hr Hcur. split; try done.
  - by destruct C1.
  - cbn. lia.
  - intros i Hi. cbn. destruct (C6 i Hi) as [|(Hir & k & Hk & E)]; [by left|].
    destruct (decide (i = remap_end d)) as [->|]; [left; by apply Hcur|].
    right. split; [lia|]. by exists k.
Qed.

Lemma core_remaps_done d t : core d t -> remap_end d < 0 -> core (set_remaps 0 d) t.
Proof.
  intros [C1 C2 C3 C4 C5 C6 C7 C8] Hr. split; try done.
  - by destruct C1.
  - cbn. lia.
  - intros i Hi. destruct (C6 i Hi) as [|(Hir & _)]; [by left|]. destruct Hi. lia.
Qed.

(** What remapping does: entries move, nothing else changes; every entry moved may
    grow the table. *)
Definition remapped (d : Dictionary) (t : list DictEntry) (grows : Z) (d' : Dictionary)
    (t' : list DictEntry) : Prop :=
  core d' t' /\ frame d d' /\ contents t' ≡ₚ contents t /\
  log2_buckets d <= log2_buckets d' <= log2_buckets d + grows.

Lemma frame_set_remap_end d r : frame d (set_remap_end r d).
Proof. by split. Qed.
Lemma frame_no_cookies d d' : frame d d' -> no_cookies d -> no_cookies d'.
Proof. intros F. unfold no_cookies. by rewrite (frame_cookies _ _ F). Qed.

(** A move can grow the table only when every slot from the last bucket on is in
    use, and takes one free slot at most: there is room for [n] more moves when the
    sizes suffice for a growth each, when [n] of those slots are free, or when the
    next growth makes enough of them. *)
Definition spare (n : nat) (d : Dictionary) (t : list DictEntry) : Prop :=
  exists X : gset Z, (n <= size X)%nat /\
    forall i, i ∈ X -> 2 ^ log2_buckets d - 1 <= i < len t /\ ~ occ t i.

Definition room (n : nat) (d : Dictionary) (t : list DictEntry) : Prop :=
  log2_buckets d + Z.of_nat n <= MAX_LOG2 \/
  (log2_buckets d < MAX_LOG2 /\ spare n d t) \/
  (15 <= log2_buckets d /\ log2_buckets d + 1 < MAX_LOG2 /\ (n <= 16)%nat).

Lemma room_16 d t : log2_buckets d + 2 <= MAX_LOG2 -> room 16 d t.
Proof.
  intros H. unfold room. destruct (decide (log2_buckets d <= 14)); [|right; right; lia].
  left. unfold MAX_LOG2. lia.
Qed.

Lemma room_log n d t : room (S n) d t -> log2_buckets d < MAX_LOG2.
Proof. intros [H|[[H _]|[_ [H _]]]]; lia. Qed.

Lemma room_kept n d t d' t' :
  log2_buckets d' = log2_buckets d -> len t' = len t ->
  (exists last, forall i, occ t' i -> occ t i \/ i = last) -> room (S n) d t -> room n d' t'.
Proof.
  intros El Et [last Ho] [H|[[Hl (X & HX & Hfree)]|H]]; unfold room; rewrite El;
    [left; lia|right; left|right; right; lia].
  split; [done|]. exists (X ∖ {[last]}). split.
  - assert (size X <= size (X ∖ {[last]} ∪ {[last]}))%nat as Hs.
    { apply subseteq_size. intros x Hx. destruct (decide (x = last)); set_solver. }
    rewrite size_union, size_singleton in Hs by set_solver. lia.
  - intros i Hi. apply elem_of_difference in Hi as [Hi Hne]. rewrite El, Et.
    destruct (Hfree i Hi) as [Hr Hn]. split; [done|]. intros Ho'.
    destruct (Ho i Ho') as [| ->]; [done|]. set_solver.
Qed.

Lemma full_end d t i :
  core d t -> occ t (len t - 1) -> 2 ^ log2_buckets d - 1 <= i < len t -> occ t i.
Proof.
  intros C Ho Hi. pose proof (core_log _ _ C). pose proof (core_remaps _ _ C).
  assert (bkt t (len t - 1) < 2 ^ log2_buckets d) as Hb.
  { destruct (core_placed _ _ C _ Ho) as [->|(_ & k & Hk & ->)].
    - apply BucketByHash_range. lia.
    - pose proof (BucketByHash_range (hash (tget t (len t - 1))) (log2_buckets d - k) ltac:(lia)).
      assert (2 ^ (log2_buckets d - k) <= 2 ^ log2_buckets d) by (apply Z.pow_le_mono_r; lia). lia. }
  destruct (decide (i = len t - 1)) as [->|]; [done|].
  apply (clustered_run t (len t - 1) i (core_clustered _ _ C) Ho). lia.
Qed.

Lemma room_grown n d t d' t' :
  core d t -> core d' t' -> occ t (len t - 1) -> log2_buckets d' = log2_buckets d + 1 ->
  (forall i, occ t' i -> i <= len t) -> room (S n) d t -> room n d' t'.
Proof.
  intros C C' Ho El Hnew [H|[[Hl (X & HX & Hfree)]|(H15 & Hl & Hn)]].
  - left. lia.
  - exfalso. destruct (set_choose X) as [x Hx]; [intros E; rewrite E, size_empty in HX; lia|].
    destruct (Hfree x Hx) as [Hr Hno]. apply Hno. by apply (full_end d).
  - right. left. split; [lia|]. pose proof (core_view _ _ C) as Hv. pose proof (core_view _ _ C') as Hv'.
    assert (len t < 2 ^ log2_buckets d' - 1 /\ len t' = 2 ^ log2_buckets d' + log2_buckets d') as [H1 H2].
    { rewrite (view_len _ _ Hv), (view_len _ _ Hv'), !capacity_pow by (apply Hv || apply Hv').
      pose proof (Z.pow_gt_lin_r 2 (log2_buckets d - 1) ltac:(lia) ltac:(lia)).
      replace (2 ^ log2_buckets d) with (2 ^ (log2_buckets d - 1) * 2 ^ 1)
        by (rewrite <- Z.pow_add_r by lia; f_equal; lia).
      rewrite El. replace (log2_buckets d + 1) with (log2_buckets d - 1 + 2) by lia.
      rewrite Z.pow_add_r by lia. lia. }
    exists (list_to_set (seqZ (2 ^ log2_buckets d' - 1) 17)). split.
    + rewrite size_list_to_set by apply NoDup_seqZ. rewrite length_seqZ. lia.
    + intros i Hi. apply elem_of_list_to_set, elem_of_seqZ in Hi. split; [lia|].
      intros Ho'. specialize (Hnew i Ho'). lia.
Qed.

Lemma Remap_loop_spec n d t :
  core d t -> no_cookies d -> room n d t ->
  Z.of_nat (length (contents t)) <= MAX_ENTRIES ->
  exists d' t', Remap_loop n d = Ok d' /\ remapped d t (Z.of_nat n) d' t'.
Proof.
  revert d t. induction n as [|n IHn]; intros d t C Hck Hlog Hmax.
  { exists d, t. split; [done|]. split_and!; [done|done|done|lia|lia]. }
  cbn [Remap_loop].
  pose proof (core_remap_end _ _ C) as Hre.
  remember (Z.to_nat (remap_end d + 1)) as m eqn:Hm.
  revert d C Hck Hlog Hre Hm. induction m as [|m IHm]; intros d C Hck Hlog Hre Hm.
  { exists d, t. split; [done|]. split_and!; [done|done|done|lia|lia]. }
  rewrite (view_tbl _ _ _ (core_view _ _ C)).
  (* one step down, when the slot needs no move *)
  assert ((occ t (remap_end d) -> bkt t (remap_end d) =
             BucketByHash (hash (tget t (remap_end d))) (log2_buckets d)) ->
          exists d' t', (fix Remap_scan (n0 : nat) (d : Dictionary) : res Dictionary :=
         match n0 with
         | O => Ok d
         | S n0 =>
             let! (moved, d') :=
               (if negb (Empty (tbl d (remap_end d))) then Remap_at d (remap_end d)
                else Ok (None, d)) in
             match moved with
             | Some _ => Remap_loop n d'
             | None => Remap_scan n0 (set_remap_end (remap_end d' - 1) d')
             end
         end) m (set_remap_end (remap_end d - 1) d) = Ok d' /\
          remapped d t (Z.of_nat (S n)) d' t') as Hdown.
  { intros Hcur. assert (core (set_remap_end (remap_end d - 1) d) t) as C'.
    { apply core_remap_down; [done|lia|done]. }
    destruct (IHm _ C') as (d' & t' & E & H1 & H2 & H3 & H4);
      [done|done|cbn; lia|cbn; lia|].
    exists d', t'. split; [done|]. split_and!; [done| |done|apply H4|apply H4].
    eapply frame_trans; [|done]. apply frame_set_remap_end. }
  destruct (Empty (tget t (remap_end d))) eqn:Hem; cbn [negb].
  { apply Hdown. intros [_ Ho]. congruence. }
  assert (occ t (remap_end d)) as Ho by (split; [lia|done]).
  destruct (Remap_at_spec d t (remap_end d)) as [[E Hb]|(ins & d1 & t1 & E & C1 & F1 & P1 & S1)];
    try done; [by eapply room_log|by left| |].
  { step_ok E. by apply Hdown. }
  step_ok E. assert (log2_buckets d <= log2_buckets d1 <= log2_buckets d + 1 /\ room n d1 t1) as [Hl1 Hroom].
  { destruct S1 as [([El _] & _ & _ & Hlast)|(Hocc & El & Hnew)]; (split; [lia|]).
    - apply (room_kept n d t); [done| |done|done].
      rewrite (view_len _ _ (core_view _ _ C)), (view_len _ _ (core_view _ _ C1)).
      unfold Capacity. by rewrite El.
    - by apply (room_grown n d t). }
  destruct (IHn d1 t1 C1) as (d' & t' & E' & H1 & H2 & H3 & H4).
  { by eapply frame_no_cookies. }
  { done. }
  { by rewrite P1. }
  exists d', t'. split; [done|]. split_and!; [done|by eapply frame_trans|by rewrite H3|lia|lia].
Qed.

(** [Remap()] terminates, keeps the entries and the invariant; when it reaches the
    front of the table no resize is pending. *)
Lemma Remap_spec d t :
  core d t -> (num_iterators d = 0 -> no_cookies d) ->
  log2_buckets d + 2 <= MAX_LOG2 ->
  Z.of_nat (length (contents t)) <= MAX_ENTRIES ->
  exists d' t', Remap d = Ok d' /\ remapped d t (Z.of_nat DICT_REMAP_ENTRIES) d' t'.
Proof.
  intros C Hck Hlog Hmax. unfold Remap. destruct (Z.eqb_spec (num_iterators d) 0) as [H0|H0]; cbn [negb].
  - destruct (Remap_loop_spec DICT_REMAP_ENTRIES d t C (Hck H0) (room_16 d t Hlog) Hmax)
      as (d' & t' & E & H1 & H2 & H3 & H4). step_ok E.
    destruct (Z.ltb_spec (remap_end d') 0); [|by exists d', t'].
    exists (set_remaps 0 d'), t'. split; [done|]. split_and!; [|by destruct H2|done|apply H4|apply H4].
    by apply core_remaps_done.
  - exists d, t. split; [done|]. split_and!; [done|done|done|lia|unfold DICT_REMAP_ENTRIES; lia].
Qed.

(** ** Searching with remapping *)

(** No lookup will remap an entry in a way that loses another one, or grow the
    table under its own assertion. *)
Definition lookup_safe (d : Dictionary) (t : list DictEntry) : Prop :=
  remaps d = 0 \/ num_iterators d <> 0 \/
  (remaps d <= 1 /\ no_cookies d /\ ~ occ t (len t - 1)).

(** The first search, in the bucket of the current size. *)
Lemma lookup_current d t key h :
  core d t ->
  let b := BucketByHash h (log2_buckets d) in
  exists pos j, LookupIndex_in d key (Z.of_nat (length key)) h b (Capacity d false) = Ok (pos, j) /\
    ((0 <= pos /\ bkt t pos = b /\ holds t (key, u32 h) pos) \/
     (pos = -1 /\ (forall i, holds t (key, u32 h) i -> bkt t i <> b) /\ ip t b j)).
Proof.
  intros C b. pose proof (core_view _ _ C) as Hv. pose proof (buckets_le_len _ _ Hv) as Hbl.
  assert (0 <= b < 2 ^ log2_buckets d) as Hb.
  { apply (core_bucket_range d). pose proof (view_log _ _ Hv). pose proof (core_log _ _ C). lia. }
  rewrite (view_cap _ _ Hv).
  destruct (LookupIndex_in_spec d t key h b (len t) C Hb ltac:(lia)) as (pos & j & E & H).
  exists pos, j. split; [done|]. destruct H as [(H1 & H2 & H3)|(H1 & H2 & H3)].
  - left. split_and!; [lia|done|done].
  - right. split_and!; [done| |by apply H3]. intros i Hi. apply H2; [|done]. apply (proj1 Hi).
Qed.

(** Where an entry of the key can be. *)
Lemma holds_placed d t key h i :
  core d t -> holds t (key, u32 h) i ->
  bkt t i = BucketByHash h (log2_buckets d) \/
  (i <= remap_end d /\ exists k, 1 <= k <= remaps d /\ bkt t i = BucketByHash h (log2_buckets d - k)).
Proof.
  intros C [Ho Hk]. pose proof (core_placed _ _ C i Ho) as Hp. unfold placed in Hp.
  assert (hash (tget t i) = u32 h) as E by (by apply (f_equal snd) in Hk).
  rewrite E, BucketByHash_u32 in Hp. destruct Hp as [|(Hi & k & Hkr & Hb)]; [by left|right].
  split; [done|]. exists k. split; [done|]. by rewrite BucketByHash_u32 in Hb.
Qed.

(** What a search returns. *)
Definition looked_up (d : Dictionary) (t : list DictEntry) (k : list Z * Z) (h : Z)
    (pos : Z) (out : option (Z * Z)) (d' : Dictionary) (t' : list DictEntry) : Prop :=
  core d' t' /\ frame d d' /\ same_size d d' /\ contents t' ≡ₚ contents t /\
  ((0 <= pos /\ holds t' k pos) \/
   (pos = -1 /\ d' = d /\ t' = t /\ k ∉ keys t /\
    exists j, out = Some (j, j - BucketByHash h (log2_buckets d)) /\
              ip t (BucketByHash h (log2_buckets d)) j)).

Lemma same_size_refl d : same_size d d.
Proof. by split_and!. Qed.

Lemma LookupIndex_spec d t key h :
  core d t -> log2_buckets d < MAX_LOG2 -> Z.of_nat (length (contents t)) <= MAX_ENTRIES ->
  lookup_safe d t ->
  exists pos out d' t',
    LookupIndex LOOKUP_FUEL d key (Z.of_nat (length key)) h = Ok (pos, out, d') /\
    looked_up d t (key, u32 h) h pos out d' t'.
Proof.
  intros C Hlog Hmax Hsafe. cbn [LookupIndex LOOKUP_FUEL].
  rewrite (view_has _ _ (core_view _ _ C)). cbn [negb].
  destruct (lookup_current d t key h C) as (pos & j & E & Hpos). step_ok E.
  destruct Hpos as [(Hp & Hb & Hh)|(-> & Hno & Hip)].
  { destruct (Z.leb_spec 0 pos); [|lia]. exists pos, None, d, t. split; [done|].
    split_and!; [done|done|apply same_size_refl|done|]. left. by split. }
  cbn [Z.leb Z.compare]. pose proof (core_remaps _ _ C) as Hr.
  destruct (LookupIndex_prev_spec d t key h (Z.to_nat (remaps d)) 1 C) as (p1 & E1 & Hp1); [lia|lia|].
  step_ok E1. destruct Hp1 as [(Hp1 & Hh)|(-> & Hno1)].
  2:{ exists (-1), (Some (j, j - BucketByHash h (log2_buckets d))), d, t. split; [done|].
      split_and!; [done|done|apply same_size_refl|done|]. right. split_and!; [done|done|done| |by exists j].
      intros Hk. apply elem_of_keys in Hk as [i Hi].
      destruct (holds_placed d t key h i C Hi) as [Hb|(Hi1 & k & Hk & Hb)]; [by apply (Hno i)|].
      apply (Hno1 i k); [done|done|lia|done]. }
  destruct (Z.leb_spec 0 p1); [|lia].
  destruct (Z.eqb_spec (num_iterators d) 0) as [Hit|Hit].
  2:{ exists p1, (Some (j, j - BucketByHash h (log2_buckets d))), d, t. split; [done|].
      split_and!; [done|done|apply same_size_refl|done|]. left. by split. }
  assert (bkt t p1 <> BucketByHash h (log2_buckets d)) as Hne by (by apply Hno).
  destruct (holds_placed d t key h p1 C Hh) as [|(_ & k & Hk & _)]; [done|].
  destruct Hsafe as [Hs|[Hs|(Hs & Hck & Hlast)]]; [lia|done|].
  assert (hash (tget t p1) = u32 h) as Eh by (by exact (f_equal snd (proj2 Hh))).
  destruct (Remap_at_spec d t p1) as [[_ Hb]|(ins & d1 & t1 & E2 & C1 & F1 & P1 & S1)]; try done;
    [by apply Hh|lia|by right| |].
  { rewrite Eh, BucketByHash_u32 in Hb. done. }
  destruct S1 as [(Hsz & Hins & Hbins & _)|[Hocc _]]; [|done]. step_ok E2. cbn [default from_option].
  rewrite (view_has _ _ (core_view _ _ C1)). cbn [negb].
  destruct (lookup_current d1 t1 key h C1) as (pos & j' & E3 & Hpos). step_ok E3.
  rewrite (proj2 Hh) in Hins. destruct Hpos as [(Hp & Hb & Hh')|(-> & Hno' & _)].
  2:{ exfalso. apply (Hno' ins Hins). destruct Hsz as [-> _].
      by rewrite Hbins, Eh, BucketByHash_u32. }
  assert (pos = ins) as -> by (by apply (holds_unique t1 (key, u32 h)); [apply C1|..]).
  destruct (Z.leb_spec 0 ins); [|lia]. cbn [res_bind]. step_assert; [|by apply Z.eqb_eq].
  exists ins, (Some (j, j - BucketByHash h (log2_buckets d))), d1, t1. split; [done|].
  split_and!; try done. left. by split.
Qed.
