(* ===== verification/DictCheck.v ===== *)
(** * Deciding the dictionary's invariant

    A boolean check of [core], with which concrete dictionaries, produced by
    running the operations, are shown to satisfy it. *)

From S2P Require Import Prelude DictTable Dictionary DictInv DictReloc DictWf DictOps.

Definition occb (t : list DictEntry) (i : Z) : bool :=
  (0 <=? i) && (i <? len t) && negb (Empty (tget t i)).

Lemma occb_spec t i : occb t i = true <-> occ t i.
Proof.
  unfold occb, occ. rewrite !andb_true_iff, negb_true_iff, Z.leb_le, Z.ltb_lt. tauto.
Qed.

(** A property of all slots in use. *)
Definition all_slots (f : Z -> bool) (t : list DictEntry) : bool :=
  forallb (fun i => implb (occb t i) (f i)) (seqZ 0 (len t)).

Lemma all_slots_spec f t : all_slots f t = true -> forall i, occ t i -> f i = true.
Proof.
  unfold all_slots. rewrite forallb_forall. intros H i Hi.
  specialize (H i). rewrite (proj2 (occb_spec t i) Hi) in H. apply H.
  apply list_elem_of_In, elem_of_seqZ. destruct Hi. lia.
Qed.

Definition clustered_at (t : list DictEntry) (i : Z) : bool :=
  (0 <=? distance (tget t i)) &&
  ((distance (tget t i) =? 0) || (occb t (i - 1) && (bkt t (i - 1) <=? bkt t i))).

Definition placed_at (l r m : Z) (t : list DictEntry) (i : Z) : bool :=
  (bkt t i =? BucketByHash (hash (tget t i)) l) ||
  ((i <=? m) && existsb (fun k => bkt t i =? BucketByHash (hash (tget t i)) (l - k)) (seqZ 1 r)).

Definition entry_okb (e : DictEntry) : bool :=
  (key_size e =? Z.of_nat (length (key_bytes e))) && (0 <=? hash e) && (hash e <? 2 ^ 32).

Definition coreb (d : Dictionary) (t : list DictEntry) : bool :=
  (len t =? Capacity d true) && (0 <=? log2_buckets d) && (log2_buckets d <=? MAX_LOG2) &&
  (0 <=? remaps d) && (remaps d <=? log2_buckets d) &&
  (-1 <=? remap_end d) && (remap_end d <? len t) &&
  all_slots (clustered_at t) t &&
  all_slots (placed_at (log2_buckets d) (remaps d) (remap_end d) t) t &&
  bool_decide (NoDup (keys t)) && forallb entry_okb (contents t).

Lemma coreb_sound d t : table d = Some t -> coreb d t = true -> core d t.
Proof.
  intros Et. unfold coreb. rewrite !andb_true_iff.
  intros [[[[[[[[[[H1 H2] H3] H4] H5] H6] H7] H8] H9] H10] H11].
  rewrite ?Z.leb_le, ?Z.ltb_lt, ?Z.eqb_eq, ?bool_decide_eq_true in *.
  split; try done.
  - intros i Hi. pose proof (all_slots_spec _ _ H8 i Hi) as H. unfold clustered_at in H.
    rewrite andb_true_iff, orb_true_iff, andb_true_iff, occb_spec, Z.leb_le, Z.eqb_eq, Z.leb_le in H.
    exact H.
  - intros i Hi. pose proof (all_slots_spec _ _ H9 i Hi) as H. unfold placed_at in H.
    rewrite orb_true_iff, andb_true_iff, existsb_exists, Z.eqb_eq, Z.leb_le in H.
    destruct H as [H|(Hm & k & Hk & H)]; [by left|right]. split; [done|].
    exists k. apply list_elem_of_In, elem_of_seqZ in Hk. split; [lia|]. by apply Z.eqb_eq.
  - apply Forall_forall. intros e He. rewrite forallb_forall in H11.
    specialize (H11 e). rewrite list_elem_of_In in He. specialize (H11 He). unfold entry_okb in H11.
    rewrite !andb_true_iff, Z.eqb_eq, Z.leb_le, Z.ltb_lt in H11. split; [apply H11|lia].
Qed.

(** Running a list of insertions. *)
Fixpoint insert_all (kvs : list (list Z * Z * Z)) (d : Dictionary) : res Dictionary :=
  match kvs with
  | [] => Ok d
  | (key, h, v) :: kvs =>
      let! (_, d) := Insert d key (Z.of_nat (length key)) h v in insert_all kvs d
  end.

(** The dictionary of a run that succeeds. *)
Definition get (m : res Dictionary) : Dictionary :=
  match m with
  | Ok d => d
  | _ => mkDict 0 0 0 (-1) 0 0 0 false None None None ∅ 0
  end.

(** The keys [[0]], ..., [[n-1]] with some hashes and values. *)
Definition sample (n : nat) : list (list Z * Z * Z) :=
  (fun i => ([Z.of_nat i], 7 * Z.of_nat i, 100 + Z.of_nat i)) <$> seq 0 n.

(** 54 entries in a table that has just grown: the remap is under way. *)
Definition sample_dict : Dictionary :=
  Eval vm_compute in get (let! d := new_Dictionary UNORDERED 0 in insert_all (sample 54) d).
