(* ===== verification/DictSpec.v ===== *)
(** * The dictionary as a finite map

    [abs d] is the map a dictionary stands for, from key bytes and 32-bit hash to
    value.  [Insert], [Remove] and [Lookup] are refined to the operations of
    [gmap]. *)

From S2P Require Import Prelude DictTable Dictionary DictInv DictReloc DictWf DictOps DictCheck.

(** ** The abstraction function *)

Definition kv (c : DictEntry) : (list Z * Z) * Z := (ekey c, value c).

Definition tmap (t : list DictEntry) : gmap (list Z * Z) Z := list_to_map (kv <$> contents t).

Definition entries (d : Dictionary) : list DictEntry := default [] (table d).

Definition abs (d : Dictionary) : gmap (list Z * Z) Z := tmap (entries d).

(** The invariant of a dictionary between two calls. *)
Definition wf (d : Dictionary) : Prop :=
  match table d with
  | Some t => core d t /\ num_entries d = Z.of_nat (length (contents t))
  | None => 0 <= log2_buckets d <= MAX_LOG2 /\ remaps d = 0 /\ remap_end d = -1 /\ num_entries d = 0
  end.

Lemma fst_kv l : (kv <$> l).*1 = ekey <$> l.
Proof. by rewrite <- list_fmap_compose. Qed.

Lemma tmap_perm t t' : NoDup (keys t) -> contents t' ≡ₚ contents t -> tmap t' = tmap t.
Proof.
  intros Hnd H. unfold tmap. apply list_to_map_proper; [|by rewrite H].
  rewrite fst_kv. rewrite (Permutation_map ekey H). exact Hnd.
Qed.

Lemma tmap_cons t t' e :
  NoDup (keys t') -> contents t' ≡ₚ set_distance 0 e :: contents t ->
  tmap t' = <[ekey e := value e]> (tmap t).
Proof.
  intros Hnd H. unfold tmap.
  transitivity (list_to_map (kv <$> (set_distance 0 e :: contents t)) : gmap _ _); [|done].
  apply list_to_map_proper; [|by rewrite H]. by rewrite fst_kv.
Qed.

Lemma tmap_fresh t k : k ∉ keys t -> tmap t !! k = None.
Proof. intros H. apply not_elem_of_list_to_map_1. by rewrite fst_kv. Qed.

Lemma tmap_holds t k i : NoDup (keys t) -> holds t k i -> tmap t !! k = Some (value (tget t i)).
Proof.
  intros Hnd [Ho Hk]. apply elem_of_list_to_map_1; [by rewrite fst_kv|].
  apply list_elem_of_fmap. exists (set_distance 0 (tget t i)). split; [by rewrite <- Hk|].
  apply elem_of_contents. by exists i.
Qed.

Lemma core_view_abs d t : view d t -> abs d = tmap t.
Proof. intros Hv. unfold abs, entries. by rewrite (view_table _ _ Hv). Qed.

Lemma abs_no_table d : table d = None -> abs d = ∅.
Proof. unfold abs, entries. by intros ->. Qed.

(** ** Changing the value of an entry *)

Lemma contents_set_value t i v :
  occ t i -> ekey <$> contents (tset t i (set_value v (tget t i))) ≡ₚ ekey <$> contents t /\
  set_distance 0 (tget t i) :: contents (tset t i (set_value v (tget t i))) ≡ₚ
    set_distance 0 (set_value v (tget t i)) :: contents t.
Proof.
  intros [Hr Ho]. pose proof (contents_tset t i (set_value v (tget t i)) Hr) as H.
  rewrite (slot_used _ Ho), (slot_used (set_value _ _)) in H by done. split; [|exact H].
  apply (Permutation_map ekey) in H. cbn in H. by apply Permutation_cons_inv in H.
Qed.

Lemma tset_value_same t i v j :
  occ t i -> let t' := tset t i (set_value v (tget t i)) in
  0 <= j -> distance (tget t' j) = distance (tget t j) /\ hash (tget t' j) = hash (tget t j).
Proof.
  intros [Hr Ho] t' Hj. subst t'. destruct (decide (i = j)) as [->|].
  - by rewrite tget_tset_eq.
  - rewrite tget_tset_ne; [done|lia..].
Qed.

Lemma core_set_value d t i v :
  core d t -> occ t i ->
  core (set_tbl i (set_value v (tget t i)) d) (tset t i (set_value v (tget t i))).
Proof.
  intros [C1 C2 C3 C4 C5 C6 C7 C8] Hi. set (t' := tset _ _ _).
  assert (forall j, occ t' j <-> occ t j) as Hocc.
  { intros j. unfold occ. subst t'. rewrite len_tset. split; intros [H1 H2]; (split; [done|]);
      destruct (tset_value_same t i v j Hi) as [H3 _]; [lia| |lia|]; unfold Empty in *; by rewrite H3 in *. }
  assert (forall j, 0 <= j -> bkt t' j = bkt t j /\ hash (tget t' j) = hash (tget t j)) as Hsame.
  { intros j Hj. destruct (tset_value_same t i v j Hi Hj) as [H1 H2]. unfold bkt. subst t'. by rewrite H1. }
  destruct (contents_set_value t i v Hi) as [Hk Hc]. fold t' in Hk, Hc. split.
  - by apply view_set_tbl.
  - done.
  - done.
  - subst t'. by rewrite len_tset.
  - intros j Hj. apply Hocc in Hj as Hj0. pose proof (proj1 Hj0).
    destruct (tset_value_same t i v j Hi) as [H1 _]; [lia|]. unfold t'. rewrite H1.
    destruct (C5 j Hj0) as [H2 [H3|[H3 H4]]]; (split; [done|]); [by left|right].
    pose proof (proj1 H3). fold t'. rewrite Hocc.
    destruct (Hsame j) as [-> _]; [lia|]. destruct (Hsame (j - 1)) as [-> _]; [lia|]. done.
  - intros j Hj. apply Hocc in Hj. pose proof (proj1 Hj). unfold placed.
    destruct (Hsame j) as [-> ->]; [lia|]. exact (C6 j Hj).
  - unfold keys. rewrite Hk. exact C7.
  - assert (Forall entry_ok (set_distance 0 (tget t i) :: contents t')) as H.
    { rewrite Hc. constructor; [|done].
      change (entry_ok (set_distance 0 (tget t i))). eapply Forall_forall; [exact C8|].
      apply elem_of_contents. by exists i. }
    by apply Forall_cons in H as [_ ?].
Qed.

Lemma tmap_set_value t i v :
  NoDup (keys t) -> occ t i ->
  tmap (tset t i (set_value v (tget t i))) = <[ekey (tget t i) := v]> (tmap t).
Proof.
  intros Hnd Hi. set (t' := tset _ _ _). destruct (contents_set_value t i v Hi) as [Hk Hc].
  fold t' in Hk, Hc.
  assert (NoDup (keys t')) as Hnd' by (unfold keys; by rewrite Hk).
  apply map_eq. intros k. destruct (decide (k = ekey (tget t i))) as [->|Hne].
  - rewrite lookup_insert_eq. rewrite (tmap_holds t' _ i Hnd').
    + subst t'. by rewrite tget_tset_eq by exact (proj1 Hi).
    + split; [apply occ_tset_eq; [exact (proj1 Hi)|apply Hi]|].
      subst t'. by rewrite tget_tset_eq by exact (proj1 Hi).
  - rewrite lookup_insert_ne by done.
    destruct (decide (k ∈ keys t)) as [Hin|Hnin].
    + apply elem_of_keys in Hin as [j Hj].
      assert (i <> j) as Hij by (intros ->; by destruct Hj).
      rewrite (tmap_holds t k j Hnd Hj). pose proof (proj1 (proj1 Hj)). pose proof (proj1 Hi).
      rewrite (tmap_holds t' k j Hnd').
      * subst t'. by rewrite tget_tset_ne by lia.
      * destruct Hj as [Hj1 Hj2]. subst t'. split; [apply occ_tset_ne; [lia|lia|done]|].
        by rewrite tget_tset_ne by lia.
    + rewrite !tmap_fresh; [done|done|]. unfold keys. by rewrite Hk.
Qed.

(** ** Insertion of a new entry *)

Lemma for_all_cookies_none f d : no_cookies d -> for_all_cookies f d = Ok d.
Proof. unfold for_all_cookies. by intros [-> | ->]. Qed.

Lemma InsertRelocateAndAdjust_spec d t e p :
  core d t -> no_cookies d -> log2_buckets d < MAX_LOG2 ->
  Z.of_nat (length (contents t)) <= MAX_ENTRIES ->
  ip t (BucketByHash (hash e) (log2_buckets d)) p ->
  Empty e = false -> distance e = p - BucketByHash (hash e) (log2_buckets d) ->
  entry_ok e -> ekey e ∉ keys t ->
  exists e' d' t', InsertRelocateAndAdjust d e p = Ok (e', d') /\
    core d' t' /\ frame d d' /\ contents t' ≡ₚ set_distance 0 e :: contents t /\
    log2_buckets d <= log2_buckets d' <= log2_buckets d + 1.
Proof.
  intros C Hck Hl Hmax Hip He Hd Hok Hfresh. pose proof (core_view _ _ C) as Hv.
  pose proof (core_remap_end _ _ C) as Hre.
  unfold InsertRelocateAndAdjust.
  destruct (InsertAndRelocate_spec d t e _ p Hv (core_growable _ _ C Hl) (core_clustered _ _ C)
              Hip He Hd Hmax) as (e' & last & d1 & t' & E & I & Hv' & Hrel). step_ok E.
  pose proof (ins_last _ _ _ _ _ _ I) as Hlast.
  set (d2 := if _ && _ && _ then _ else _).
  enough (core d2 t' /\ frame d d2 /\ log2_buckets d <= log2_buckets d2 <= log2_buckets d + 1)
    as (C2 & F2 & L2).
  { rewrite for_all_cookies_none by (by eapply frame_no_cookies). cbn [res_bind].
    exists e', d2, t'. split; [done|]. split_and!; try done; [apply I|lia|lia]. }
  destruct Hrel as [(Hl1 & Hl2 & ->)|(-> & Hl2 & Hs)].
  - set (m' := if Remapping d && (p <=? remap_end d) && (remap_end d <? last) then last else remap_end d).
    assert (d2 = set_remap_end m' (set_table (Some t') d)) as ->.
    { subst d2 m'. change (Remapping (set_table (Some t') d)) with (Remapping d).
      change (remap_end (set_table (Some t') d)) with (remap_end d).
      by destruct (Remapping d && (p <=? remap_end d) && (remap_end d <? last)). }
    split; [|split; [by split|cbn; lia]].
    apply (inserted_core d t e p last t' m'); try done.
    + subst m'. destruct (Remapping d && _ && _) eqn:Hb; [|lia].
      rewrite !andb_true_iff, Z.ltb_lt in Hb. lia.
    + intros i j Hj Hjr Hij _. left. subst m'. pose proof (proj1 Hj).
      unfold Remapping. destruct (Z.leb_spec 0 (remap_end d)); [|lia].
      destruct (Z.leb_spec p (remap_end d)); [|lia]. cbn [andb].
      destruct (Z.ltb_spec (remap_end d) last); lia.
  - assert (d2 = d1) as ->.
    { subst d2. destruct Hs as [_ _ _ ->]. rewrite Z.ltb_irrefl. by rewrite andb_false_r. }
    split; [by apply (inserted_core_up d t e p)|]. destruct Hs as [F L _ _].
    split; [done|lia].
Qed.

(** ** Dictionaries without iterators and without insertion order *)

Definition quiet (d : Dictionary) : Prop :=
  num_iterators d = 0 /\ no_cookies d /\ order d = None.

(** What the three operations ask of a dictionary: entries that fit the 16-bit
    distances, a table of 2^26 buckets at most, so that the growths of one insertion
    stay below the [int] limit, and [lookup_safe]: at most one pending resize and a
    free last slot, when no iteration is on. *)
Record ready (d : Dictionary) : Prop := mkReady {
  ready_wf : wf d;
  ready_entries : num_entries d < MAX_ENTRIES;
  ready_log : log2_buckets d + 4 <= MAX_LOG2;
  ready_safe : lookup_safe d (entries d)
}.

Lemma wf_table d t : wf d -> table d = Some t ->
  core d t /\ num_entries d = Z.of_nat (length (contents t)) /\ abs d = tmap t /\ entries d = t.
Proof.
  unfold wf, abs, entries. intros H E. rewrite E in *. by destruct H.
Qed.

Lemma wf_intro d t : core d t -> num_entries d = Z.of_nat (length (contents t)) -> wf d.
Proof. intros C Hn. unfold wf. by rewrite (view_table _ _ (core_view _ _ C)). Qed.

Lemma frame_quiet d d' : frame d d' -> quiet d -> quiet d'.
Proof.
  intros F (H1 & H2 & H3). split_and!.
  - by rewrite (frame_iter _ _ F).
  - by eapply frame_no_cookies.
  - by rewrite (frame_order _ _ F).
Qed.

Lemma quiet_robust d : quiet d -> only_robust_iterators d = true.
Proof. intros (H & _ & _). unfold only_robust_iterators. by rewrite H. Qed.

Lemma Init_core d :
  wf d -> table d = None ->
  exists t, Init d = Ok (set_table (Some t) d) /\ core (set_table (Some t) d) t /\ contents t = [].
Proof.
  unfold wf. intros H E. rewrite E in H. destruct H as (Hl & Hr & Hre & Hn).
  pose proof (capacity_pow d ltac:(lia)) as Hcap. pose proof (Z.pow_pos_nonneg 2 (log2_buckets d) ltac:(lia) ltac:(lia)).
  exists (replicate (Z.to_nat (Capacity d true)) inhabitant).
  assert (forall i, ~ occ (replicate (Z.to_nat (Capacity d true)) inhabitant) i) as Hno.
  { intros i [H1 H2]. unfold len, tget in *. rewrite length_replicate in H1.
    rewrite lookup_total_replicate_2 in H2 by lia. done. }
  split; [unfold Init, has_table; by rewrite E|]. split; [|apply contents_empties].
  split; try done.
  - split; [done| |done]. unfold len. rewrite length_replicate.
    change (Capacity (set_table _ d) true) with (Capacity d true). lia.
  - cbn. lia.
  - cbn [remaps log2_buckets set_table]. lia.
  - cbn [remap_end set_table]. unfold len. rewrite length_replicate. lia.
  - intros i Hi. by apply Hno in Hi.
  - intros i Hi. by apply Hno in Hi.
  - unfold keys. rewrite contents_empties. constructor.
  - rewrite contents_empties. constructor.
Qed.

(** ** A dictionary in the middle of a remap *)

Lemma sample_core : core sample_dict (entries sample_dict).
Proof. apply coreb_sound; [reflexivity|vm_compute; reflexivity]. Qed.

Lemma sample_wf : wf sample_dict.
Proof. apply wf_intro with (entries sample_dict); [apply sample_core|vm_compute; reflexivity]. Qed.

Lemma sample_safe : lookup_safe sample_dict (entries sample_dict).
Proof.
  right; right. split; [by vm_compute|]. split; [by left|].
  intros H. apply occb_spec in H. by vm_compute in H.
Qed.

Lemma sample_ready : ready sample_dict.
Proof. split; [apply sample_wf|by vm_compute|by vm_compute|apply sample_safe]. Qed.

Lemma sample_quiet : quiet sample_dict.
Proof. split; [done|]. split; [by left|done]. Qed.

(** ** The refinement theorems *)

Lemma lookup_map d key h :
  wf d -> num_entries d <= MAX_ENTRIES -> log2_buckets d < MAX_LOG2 ->
  lookup_safe d (entries d) ->
  exists d', Lookup d key (Z.of_nat (length key)) h =
    Ok (default 0 (abs d !! (key, u32 h)), d') /\
    wf d' /\ abs d' = abs d /\ frame d d' /\ same_size d d'.
Proof.
  intros Hwf Hmax Hlog Hsafe. unfold Lookup. destruct (table d) as [t|] eqn:Et.
  - destruct (wf_table d t Hwf Et) as (C & Hn & Ha & Een). rewrite Een in Hsafe.
    destruct (LookupIndex_spec d t key h C Hlog ltac:(lia) Hsafe)
      as (pos & out & d' & t' & E & C' & F & S & P & H). step_ok E.
    pose proof (core_view _ _ C') as Hv'.
    assert (tmap t' = tmap t) as Em by (apply tmap_perm; [apply C|done]).
    exists d'. rewrite Ha, (core_view_abs _ _ Hv'), Em. split.
    + destruct H as [(Hp & Hh)|(-> & -> & -> & Hk & _)].
      * destruct (Z.leb_spec 0 pos); [|lia]. rewrite (view_tbl _ _ _ Hv').
        rewrite <- Em, (tmap_holds t' _ pos); [done|apply C'|done].
      * by rewrite tmap_fresh.
    + destruct S as (S1 & S2 & S3). split_and!; try done.
      apply wf_intro with t'; [done|]. rewrite (frame_num _ _ F), Hn. by rewrite P.
  - exists d. unfold LOOKUP_FUEL. cbn [LookupIndex]. unfold has_table. rewrite Et. cbn.
    rewrite abs_no_table by done. split; [done|]. by split_and!.
Qed.

(** C3: [Lookup] of a [lookup_safe] dictionary (no resize is pending, or an iteration
    is on, or there are no cookies, one resize at most is pending and the last slot is
    free) returns, anywhere in its incremental remapping, what the finite map holds, 0
    ([NULL]) when it holds nothing, and leaves the map, the invariant and the table's
    size as they are, although it may move the entry it finds to its bucket of the
    current size.  With two pending resizes it need not: [lookup_loses_key]. *)
Theorem Lookup_refines d key h :
  wf d -> num_entries d <= MAX_ENTRIES -> log2_buckets d < MAX_LOG2 ->
  lookup_safe d (entries d) ->
  exists d', Lookup d key (Z.of_nat (length key)) h =
    Ok (default 0 (abs d !! (key, u32 h)), d') /\
    wf d' /\ abs d' = abs d /\ frame d d' /\ same_size d d'.
Proof. apply lookup_map. Qed.

Lemma Lookup_refines_witness :
  remaps sample_dict = 1 /\
  exists d', Lookup sample_dict [3] 1 21 = Ok (103, d') /\ wf d' /\ abs d' = abs sample_dict.
Proof.
  split; [reflexivity|].
  destruct (Lookup_refines sample_dict [3] 21 sample_wf ltac:(by vm_compute) ltac:(by vm_compute)
              sample_safe) as (d' & E & H1 & H2 & _).
  exists d'. split; [|exact (conj H1 H2)]. change (Z.of_nat (length [3])) with 1 in E. rewrite E. vm_compute. reflexivity.
Defined.

Lemma remove_map d key h :
  ready d -> quiet d ->
  exists d', Remove d key (Z.of_nat (length key)) h false =
    Ok (default 0 (abs d !! (key, u32 h)), d') /\
    wf d' /\ quiet d' /\ abs d' = delete (key, u32 h) (abs d) /\
    num_entries d' = num_entries d - (if abs d !! (key, u32 h) is Some _ then 1 else 0) /\
    same_size d d'.
Proof.
  intros [Hwf Hmax Hlog Hsafe] Hq. unfold Remove.
  rewrite (ASSERT_true _ (quiet_robust _ Hq)). cbn [res_bind negb ASSERT].
  destruct (table d) as [t|] eqn:Et.
  - destruct (wf_table d t Hwf Et) as (C & Hn & Ha & Een). rewrite Een in Hsafe.
    destruct (LookupIndex_spec d t key h C ltac:(lia) ltac:(lia) Hsafe)
      as (pos & out & d1 & t1 & E & C1 & F & S & P & H). step_ok E. rewrite Ha.
    destruct H as [(Hp & Hh)|(-> & -> & -> & Hk & _)].
    2:{ exists d. rewrite tmap_fresh by done. split; [done|]. rewrite Ha, delete_id by (by apply tmap_fresh).
        split_and!; try done. lia. }
    destruct (Z.ltb_spec pos 0); [lia|].
    pose proof (frame_quiet _ _ F Hq) as Hq1. pose proof (core_view _ _ C1) as Hv1.
    assert (length (contents t1) = length (contents t)) as Hlen by (by rewrite P).
    unfold RemoveRelocateAndAdjust.
    destruct (RemoveAndRelocate_spec d1 t1 pos Hv1 (core_clustered _ _ C1) (proj1 Hh) ltac:(lia))
      as (last & t2 & E2 & R). step_ok E2.
    rewrite for_all_cookies_none by (by destruct Hq1 as (? & ? & ?)). cbn [res_bind].
    pose proof (removed_core _ _ _ _ _ C1 R) as C2.
    pose proof (Permutation_length (rem_contents _ _ _ _ R)) as Hlen2. cbn [length] in Hlen2.
    pose proof (frame_num _ _ F) as Hn1.
    cbn [set_counts num_entries set_table max_entries cum_entries order].
    step_assert; [|apply Z.leb_le; lia].
    destruct Hq1 as (Hq1a & Hq1b & Hq1c). rewrite Hq1c. cbn [res_bind].
    assert (NoDup (ekey <$> (set_distance 0 (tget t1 pos) :: contents t2))) as Hnd.
    { rewrite (rem_contents _ _ _ _ R). apply C1. }
    apply NoDup_cons in Hnd as [Hnin Hnd].
    assert (tmap t1 = tmap t) as Em by (apply tmap_perm; [apply C|done]).
    eexists. rewrite <- Em, (tmap_holds t1 _ pos (core_keys _ _ C1) Hh). split; [done|].
    split_and!.
    + apply wf_intro with t2; [|cbn; lia]. destruct C2 as [[] ? ? ? ? ? ? ?]. by split.
    + by split.
    + unfold abs, entries. cbn [table default from_option].
      rewrite (tmap_cons t2 t1 (tget t1 pos)); [|apply C1|by rewrite (rem_contents _ _ _ _ R)].
      rewrite (proj2 Hh), delete_insert_id; [done|]. apply tmap_fresh. by rewrite <- (proj2 Hh).
    + cbn. lia.
    + exact S.
  - exists d. unfold LOOKUP_FUEL. cbn [LookupIndex]. unfold has_table. rewrite Et. cbn [negb res_bind Z.ltb Z.compare].
    rewrite abs_no_table, lookup_empty by done. split; [done|].
    rewrite delete_empty. split_and!; try done. lia.
Qed.

(** C2: On an [UNORDERED] dictionary without iterators and cookies that is [ready]
    (below its size limits, and no resize is pending, or one with a free last slot),
    [Remove] returns the value the map had for the key (0 when absent), deletes the key
    from the map and counts the entry out; the invariant is kept. *)
Theorem Remove_refines d key h :
  ready d -> quiet d ->
  exists d', Remove d key (Z.of_nat (length key)) h false =
    Ok (default 0 (abs d !! (key, u32 h)), d') /\
    wf d' /\ quiet d' /\ abs d' = delete (key, u32 h) (abs d) /\
    num_entries d' = num_entries d - (if abs d !! (key, u32 h) is Some _ then 1 else 0) /\
    same_size d d'.
Proof. apply remove_map. Qed.

Lemma Remove_refines_witness :
  exists d', Remove sample_dict [3] 1 21 false = Ok (103, d') /\ wf d' /\
    abs d' = delete ([3], 21) (abs sample_dict) /\ num_entries d' = 53.
Proof.
  destruct (Remove_refines sample_dict [3] 21 sample_ready sample_quiet)
    as (d' & E & H1 & _ & H2 & H3 & _).
  exists d'. change (Z.of_nat (length _)) with 1 in E. split; [rewrite E; vm_compute; reflexivity|].
  split; [exact H1|]. split; [exact H2|].
  rewrite H3. vm_compute. reflexivity.
Defined.

(** ** Insert *)

(** The state [Insert] reaches before the final [Remap]: the map is updated and at
    most [g] growths happened. *)
Definition inserted_into (d : Dictionary) (k : list Z * Z) (v : Z) (g : Z) (d' : Dictionary) : Prop :=
  wf d' /\ quiet d' /\ abs d' = <[k := v]> (abs d) /\
  num_entries d' = num_entries d + (if abs d !! k is Some _ then 0 else 1) /\
  has_table d' = true /\
  log2_buckets d <= log2_buckets d' <= log2_buckets d + g.

Lemma num_entries_abs d : wf d -> num_entries d = Z.of_nat (size (abs d)).
Proof.
  unfold wf, abs, entries. destruct (table d) as [t|].
  - cbn. intros [C ->]. unfold tmap. f_equal. rewrite <- (length_fmap kv).
    pose proof (map_to_list_to_map (M:=gmap _) (kv <$> contents t)) as H.
    rewrite fst_kv in H. specialize (H (core_keys _ _ C)).
    rewrite <- (length_map_to_list). symmetry. by rewrite H.
  - cbn. intros (_ & _ & _ & ->). by rewrite map_size_empty.
Qed.

Lemma entry_key_ok key h v n :
  Z.of_nat (length key) < 2 ^ 16 ->
  let e := new_DictEntry key (Z.of_nat (length key)) h v n in
  ekey e = (key, u32 h) /\ entry_ok e.
Proof.
  intros Hk e. subst e. unfold ekey, entry_ok. cbn -[u32 u16 i16].
  rewrite Nat2Z.id, firstn_all, u16_small by lia. split; [done|]. split; [done|]. apply u32_range.
Qed.

(** A key that is present: its value changes. *)
Lemma insert_present d t key h v pos :
  core d t -> quiet d -> num_entries d = Z.of_nat (length (contents t)) ->
  holds t (key, u32 h) pos ->
  inserted_into d (key, u32 h) v 0 (set_tbl pos (set_value v (tbl d pos)) d).
Proof.
  intros C (Hq1 & Hq2 & Hq3) Hn [Ho Hk]. pose proof (core_view _ _ C) as Hv.
  rewrite (view_tbl _ _ _ Hv). pose proof (core_set_value d t pos v C Ho) as C'.
  pose proof (core_view _ _ C') as Hv'.
  assert (length (contents (tset t pos (set_value v (tget t pos)))) = length (contents t)) as Hl.
  { destruct (contents_set_value t pos v Ho) as [H _]. apply Permutation_length in H.
    by rewrite !length_fmap in H. }
  split_and!.
  - eapply wf_intro; [exact C'|]. rewrite Hl. exact Hn.
  - by split.
  - rewrite (core_view_abs _ _ Hv'), (core_view_abs _ _ Hv), tmap_set_value by (done || apply C).
    by rewrite Hk.
  - rewrite (core_view_abs _ _ Hv), (tmap_holds t _ pos) by (done || apply C). cbn. lia.
  - by apply (view_has _ _ Hv').
  - cbn. lia.
  - cbn. lia.
Qed.

(** A new key: the entry goes in, and the table grows beyond the threshold. *)
Lemma insert_absent d t key h v p :
  core d t -> quiet d -> num_entries d = Z.of_nat (length (contents t)) ->
  num_entries d < MAX_ENTRIES -> log2_buckets d + 2 <= MAX_LOG2 ->
  Z.of_nat (length key) < 2 ^ 16 ->
  (key, u32 h) ∉ keys t -> ip t (BucketByHash h (log2_buckets d)) p ->
  let entry := new_DictEntry key (Z.of_nat (length key)) h v (p - BucketByHash h (log2_buckets d)) in
  exists e' d1 d3, InsertRelocateAndAdjust d entry p = Ok (e', d1) /\ order d1 = None /\
    (if ThresholdEntries (count_entry d1) <? num_entries (count_entry d1)
     then SizeUp (count_entry d1) else Ok (count_entry d1)) = Ok d3 /\
    inserted_into d (key, u32 h) v 2 d3.
Proof.
  intros C Hq Hn Hmax Hlog Hkey Hk Hip entry. pose proof (core_view _ _ C) as Hv.
  destruct (entry_key_ok key h v (p - BucketByHash h (log2_buckets d)) Hkey) as [He1 He2].
  fold entry in He1, He2. unfold MAX_ENTRIES in *.
  pose proof Hip as ([Hb1 Hb2] & _ & Hrun & _).
  assert (p - BucketByHash h (log2_buckets d) <= num_entries d) as Hdist.
  { rewrite Hn. apply run_le_contents. intros j Hj. by apply Hrun. }
  assert (distance entry = p - BucketByHash h (log2_buckets d)) as Hd.
  { subst entry. cbn [distance new_DictEntry]. rewrite u16_i16. apply u16_small. lia. }
  assert (hash entry = u32 h) as Eh by done.
  destruct (InsertRelocateAndAdjust_spec d t entry p) as (e' & d1 & t1 & E & C1 & F & P & L);
    try (rewrite ?Eh, ?BucketByHash_u32; done); [apply Hq|lia|unfold MAX_ENTRIES; lia| |by rewrite He1|].
  { unfold Empty, TOO_FAR_TO_REACH. rewrite Hd. apply Z.eqb_neq. lia. }
  pose proof (frame_quiet _ _ F Hq) as Hq1. set (d2 := count_entry d1).
  enough (exists d3, (if ThresholdEntries d2 <? num_entries d2 then SizeUp d2 else Ok d2) = Ok d3 /\
    inserted_into d (key, u32 h) v 2 d3) as (d3 & E3 & I3).
  { exists e', d1, d3. split_and!; try done. apply Hq1. }
  assert (core d2 t1) as C2 by (destruct C1 as [[] ? ? ? ? ? ? ?]; by split).
  assert (tmap t1 = <[(key, u32 h) := v]> (tmap t)) as Em.
  { rewrite (tmap_cons t t1 entry); [by rewrite He1|apply C1|done]. }
  assert (num_entries d2 = Z.of_nat (length (contents t1))) as Hn2.
  { subst d2. cbn [num_entries set_counts count_entry]. rewrite (frame_num _ _ F), Hn, P. cbn [length]. lia. }
  assert (num_entries d2 = num_entries d + 1) as Hn2'.
  { subst d2. cbn. by rewrite (frame_num _ _ F). }
  destruct (ThresholdEntries d2 <? num_entries d2).
  - destruct (SizeUp_core d2 t1 C2) as (d3 & k & E3 & C3 & S3); [change (log2_buckets d1 < MAX_LOG2); lia|].
    exists d3. split; [done|]. pose proof (core_view _ _ C3) as Hv3.
    pose proof (su_frame _ _ _ S3) as F3. split_and!.
    + eapply wf_intro; [done|]. by rewrite contents_grow, (frame_num _ _ F3).
    + exact (frame_quiet d2 d3 F3 Hq1).
    + rewrite (core_view_abs _ _ Hv3), (core_view_abs _ _ Hv), <- Em. unfold tmap. by rewrite contents_grow.
    + rewrite (frame_num _ _ F3), Hn2', (core_view_abs _ _ Hv), tmap_fresh by done. done.
    + by apply (view_has _ _ Hv3).
    + rewrite (su_log _ _ _ S3). change (log2_buckets d2) with (log2_buckets d1). lia.
    + rewrite (su_log _ _ _ S3). change (log2_buckets d2) with (log2_buckets d1). lia.
  - exists d2. split; [done|]. pose proof (core_view _ _ C2) as Hv2. split_and!.
    + by eapply wf_intro.
    + exact Hq1.
    + by rewrite (core_view_abs _ _ Hv2), (core_view_abs _ _ Hv), <- Em.
    + rewrite Hn2', (core_view_abs _ _ Hv), tmap_fresh by done. done.
    + by apply (view_has _ _ Hv2).
    + change (log2_buckets d <= log2_buckets d1). lia.
    + change (log2_buckets d1 <= log2_buckets d + 2). lia.
Qed.

Lemma wf_remapped d t g d' t' :
  wf d -> table d = Some t -> core d t -> remapped d t g d' t' -> quiet d ->
  wf d' /\ quiet d' /\ abs d' = abs d /\ num_entries d' = num_entries d /\ has_table d' = true /\
  log2_buckets d <= log2_buckets d' <= log2_buckets d + g.
Proof.
  intros Hwf Et C (C' & F & P & L) Hq.
  destruct (wf_table d t Hwf Et) as (_ & Hn & Ha & _). pose proof (core_view _ _ C') as Hv'.
  split_and!; [| | | |by apply (view_has _ _ Hv')|lia|lia].
  - apply wf_intro with t'; [done|]. by rewrite (frame_num _ _ F), P.
  - by eapply frame_quiet.
  - rewrite Ha, (core_view_abs _ _ Hv'). apply tmap_perm; [apply C|done].
  - apply F.
Qed.

(** The last step of [Insert]. *)
Lemma insert_remap d k v d1 :
  inserted_into d k v 2 d1 -> log2_buckets d + 4 <= MAX_LOG2 -> num_entries d < MAX_ENTRIES ->
  exists d', (if Remapping d1 then Remap d1 else Ok d1) = Ok d' /\
    wf d' /\ quiet d' /\ abs d' = <[k := v]> (abs d) /\
    num_entries d' = num_entries d + (if abs d !! k is Some _ then 0 else 1) /\
    log2_buckets d <= log2_buckets d' <= log2_buckets d + 18.
Proof.
  intros (Hwf & Hq & Ha & Hn & Ht & Hl) Hlog Hmax.
  unfold has_table in Ht. destruct (table d1) as [t1|] eqn:Et; [|done].
  destruct (wf_table d1 t1 Hwf Et) as (C & Hn1 & _ & _).
  destruct (Remapping d1).
  - destruct (Remap_spec d1 t1 C) as (d' & t' & E & R).
    + intros _. apply Hq.
    + lia.
    + destruct (abs d !! k); lia.
    + exists d'. split; [done|].
      destruct (wf_remapped d1 t1 _ d' t' Hwf Et C R Hq) as (H1 & H2 & H3 & H4 & _ & H6).
      unfold DICT_REMAP_ENTRIES in H6.
      split_and!; [done|done|by rewrite H3|by rewrite H4|lia|lia].
  - exists d1. split; [done|]. split_and!; try done; lia.
Qed.

(** [Insert] makes the table when there is none. *)
Lemma table_or_init d :
  wf d -> lookup_safe d (entries d) -> quiet d ->
  exists d0 t, (if has_table d then Ok d else Init d) = Ok d0 /\ table d0 = Some t /\
    core d0 t /\ num_entries d0 = Z.of_nat (length (contents t)) /\ abs d0 = abs d /\
    num_entries d0 = num_entries d /\ log2_buckets d0 = log2_buckets d /\ quiet d0 /\ lookup_safe d0 t.
Proof.
  intros Hwf Hsafe Hq. unfold has_table. destruct (table d) as [t|] eqn:Et.
  - destruct (wf_table d t Hwf Et) as (C & Hn & Ha & Een). exists d, t. rewrite Een in Hsafe.
    by split_and!.
  - destruct (Init_core d Hwf Et) as (t & E & C & Hc). exists (set_table (Some t) d), t.
    split; [done|]. unfold wf in Hwf. rewrite Et in Hwf. destruct Hwf as (_ & Hr & _ & Hn).
    split_and!; try done.
    + by rewrite Hc.
    + rewrite (core_view_abs _ _ (core_view _ _ C)), abs_no_table by done.
      unfold tmap. by rewrite Hc.
    + by left.
Qed.

Lemma insert_map d key h v :
  ready d -> quiet d -> Z.of_nat (length key) < 2 ^ 16 ->
  exists d', Insert d key (Z.of_nat (length key)) h v =
    Ok (default 0 (abs d !! (key, u32 h)), d') /\
    wf d' /\ quiet d' /\ abs d' = <[(key, u32 h) := v]> (abs d) /\
    num_entries d' = num_entries d + (if abs d !! (key, u32 h) is Some _ then 0 else 1) /\
    log2_buckets d <= log2_buckets d' <= log2_buckets d + 18.
Proof.
  intros [Hwf Hmax Hlog Hsafe] Hq Hkey. unfold Insert.
  rewrite (ASSERT_true _ (quiet_robust _ Hq)). cbn [res_bind].
  destruct (table_or_init d Hwf Hsafe Hq) as (d0 & t & E0 & Et & C & Hn & Ha & Hne & Hle & Hq0 & Hs0).
  rewrite E0. cbn [res_bind]. rewrite <- Ha, <- Hle, <- Hne.
  destruct (LookupIndex_spec d0 t key h C ltac:(lia) ltac:(lia) Hs0)
    as (pos & out & d1 & t1 & E & C1 & F & S & P & H). step_ok E.
  pose proof (frame_quiet _ _ F Hq0) as Hq1. pose proof (core_view _ _ C1) as Hv1.
  assert (abs d1 = abs d0) as Ha1.
  { rewrite (core_view_abs _ _ Hv1), (core_view_abs _ _ (core_view _ _ C)).
    apply tmap_perm; [apply C|done]. }
  assert (num_entries d1 = Z.of_nat (length (contents t1))) as Hn1.
  { by rewrite (frame_num _ _ F), P. }
  destruct H as [(Hp & Hh)|(-> & -> & -> & Hk & j & -> & Hip)].
  - destruct (default (-1, -1) out) as [ipos idist]. cbn [fst snd].
    destruct (Z.leb_spec 0 pos); [|lia].
    pose proof (insert_present d1 t1 key h v pos C1 Hq1 Hn1 Hh) as I.
    set (d2 := set_tbl pos (set_value v (tbl d1 pos)) d1) in *.
    destruct Hq1 as (Hq1a & Hq1b & Hq1c).
    change (order d2) with (order d1). rewrite Hq1c. cbn [res_bind].
    rewrite for_all_cookies_none by done. cbn [res_bind].
    destruct (insert_remap d1 (key, u32 h) v d2) as (d' & E' & I').
    { destruct I as (I1 & I2 & I3 & I4 & I5 & I6). split_and!; try done; lia. }
    { destruct S as (-> & _ & _). lia. }
    { rewrite (frame_num _ _ F). lia. }
    exists d'. step_ok E'. destruct S as (S & _ & _).
    rewrite <- Ha1, <- S, <- (frame_num _ _ F). split; [|done].
    rewrite (core_view_abs _ _ Hv1), (tmap_holds t1 _ pos) by (done || apply C1).
    by rewrite (view_tbl _ _ _ Hv1).
  - cbn [default from_option id Z.leb Z.compare].
    destruct (insert_absent d0 t key h v j) as (e' & d1 & d3 & E1 & Ho & E3 & I);
      try done; [lia|lia|]. cbn zeta in E1. step_ok E1. rewrite Ho. step_ok E3.
    destruct (insert_remap d0 (key, u32 h) v d3 I) as (d' & E' & I'); [lia|lia|].
    exists d'. step_ok E'. split; [|done].
    rewrite (core_view_abs d0 t), tmap_fresh; [done|done|apply C].
Qed.

(** C1: [Insert] of a key shorter than 2^16 bytes into an [UNORDERED] dictionary without
    iterators and cookies that is [ready] (below its size limits, and no resize is
    pending, or one with a free last slot) adds the key to the map or replaces its
    value, and returns the old value (0 when there was none); through relocation,
    growth and incremental remapping the invariant is kept and no other entry
    changes. *)
Theorem Insert_refines d key h v :
  ready d -> quiet d -> Z.of_nat (length key) < 2 ^ 16 ->
  exists d', Insert d key (Z.of_nat (length key)) h v =
    Ok (default 0 (abs d !! (key, u32 h)), d') /\
    wf d' /\ quiet d' /\ abs d' = <[(key, u32 h) := v]> (abs d) /\
    num_entries d' = num_entries d + (if abs d !! (key, u32 h) is Some _ then 0 else 1) /\
    log2_buckets d <= log2_buckets d' <= log2_buckets d + 18.
Proof. apply insert_map. Qed.

Lemma Insert_refines_witness :
  exists d', Insert sample_dict [1; 2] 2 99 7 = Ok (0, d') /\ wf d' /\
    abs d' = <[([1; 2], 99) := 7]> (abs sample_dict) /\ num_entries d' = 55.
Proof.
  destruct (Insert_refines sample_dict [1; 2] 99 7 sample_ready sample_quiet ltac:(by vm_compute))
    as (d' & E & H1 & _ & H2 & H3 & _).
  exists d'. change (Z.of_nat (length _)) with 2 in E. split; [rewrite E; vm_compute; reflexivity|].
  split; [exact H1|]. split; [exact H2|].
  rewrite H3. vm_compute. reflexivity.
Defined.
