(* ===== verification/DictProps.v ===== *)
(** * More properties of the dictionary

    New and cleared dictionaries, the size arithmetic, the agreement of the two
    searches, growth and bulk remapping seen as changes of the map. *)

From S2P Require Import Prelude DictTable Dictionary DictInv DictReloc DictWf DictOps DictCheck DictSpec.

(** ** What the properties are about *)

(** A new dictionary: ready, empty, without iterators. *)
Definition is_new (d : Dictionary) : Prop :=
  ready d /\ abs d = ∅ /\ num_iterators d = 0 /\ no_cookies d.

(** The values in the table, from the last slot to the first. *)
Definition values_backwards (d : Dictionary) : list Z :=
  reverse (value <$> filter (fun e => Empty e = false) (entries d)).

(** [d'] is another layout of the valid dictionary [d]. *)
Definition same_map (d d' : Dictionary) : Prop := wf d' /\ abs d' = abs d /\ frame d d'.

(** The two searches for a key, of its own length. *)
Definition search (d : Dictionary) (key : list Z) (h : Z) : res (Z * option (Z * Z) * Dictionary) :=
  LookupIndex LOOKUP_FUEL d key (Z.of_nat (length key)) h.
Definition linear (d : Dictionary) (key : list Z) (h : Z) : Z :=
  LinearLookupIndex d key (Z.of_nat (length key)) h.

(** ** New dictionaries *)

Lemma wf_empty d :
  table d = None -> 0 <= log2_buckets d <= MAX_LOG2 -> remaps d = 0 -> remap_end d = -1 ->
  num_entries d = 0 -> wf d.
Proof. intros E. unfold wf. rewrite E. auto. Qed.

(** A new dictionary of any initial size and either order satisfies the invariant,
    is the empty map and is ready for use; with an initial size it has the table of
    [Log2 initial_size] bits at once. *)
Theorem new_Dictionary_ready ordering initial_size :
  0 <= initial_size < 2 ^ 27 ->
  exists d, new_Dictionary ordering initial_size = Ok d /\ is_new d /\ (ordering = UNORDERED -> order d = None) /\
    has_table d = (0 <? initial_size) /\
    log2_buckets d = (if 0 <? initial_size then Log2 initial_size else 0).
Proof.
  intros Hs. unfold new_Dictionary.
  set (d0 := mkDict 0 0 0 (-1) 0 0 0 false None None None ∅ 0).
  assert (exists d, (if 0 <? initial_size then Init (set_log2_buckets (u8 (Log2 initial_size)) d0)
                     else Ok d0) = Ok d /\ wf d /\ abs d = ∅ /\ num_entries d = 0 /\
            remaps d = 0 /\ num_iterators d = 0 /\ cookies d = None /\ order d = None /\
            has_table d = (0 <? initial_size) /\
            log2_buckets d = (if 0 <? initial_size then Log2 initial_size else 0) /\
            0 <= log2_buckets d <= 26) as (d & E & Hwf & Ha & Hn & Hr & Hi & Hc & Ho & Ht & Hl & Hb).
  { destruct (Z.ltb_spec 0 initial_size) as [Hpos|Hneg].
    - assert (0 <= Log2 initial_size <= 26) as Hlog.
      { unfold Log2. rewrite Log2_loop_spec by (change (Z.of_nat 31) with 31; lia).
        split; [apply Z.log2_nonneg|]. enough (Z.log2 initial_size < 27) by lia.
        apply Z.log2_lt_pow2; lia. }
      assert (u8 (Log2 initial_size) = Log2 initial_size) as Hu by (apply u8_small; lia).
      rewrite Hu. set (d1 := set_log2_buckets (Log2 initial_size) d0).
      destruct (Init_core d1) as (t & E & C & Hct); [|done|].
      { apply wf_empty; try done. cbn -[Log2]. unfold MAX_LOG2. lia. }
      exists (set_table (Some t) d1). split; [done|]. split_and!; try done; try (cbn -[Log2]; lia).
      + apply wf_intro with t; [done|]. by rewrite Hct.
      + rewrite (core_view_abs _ _ (core_view _ _ C)). unfold tmap. by rewrite Hct.
    - exists d0. split; [done|]. by split_and!. }
  rewrite E. cbn [res_bind].
  assert (lookup_safe d (entries d)) as Hsafe by (by left).
  exists (match ordering with ORDERED => set_order (Some []) d | UNORDERED => d end).
  split; [done|]. assert (ready d) as Hready.
  { split; [done|unfold MAX_ENTRIES; lia|unfold MAX_LOG2; lia|done]. }
  assert (no_cookies d) as Hnc by (by left).
  destruct ordering; [|by split_and!]. split; [|by split_and!].
  split; [|by split_and!]. destruct Hready as [_ H2 H3 H4].
  split; [|exact H2|exact H3|by left].
  unfold wf in *. cbn [table set_order]. destruct (table d); [|exact Hwf].
  destruct Hwf as [[[] ? ? ? ? ? ? ?] ?]. by split.
Qed.

Lemma new_Dictionary_ready_witness :
  exists d, new_Dictionary UNORDERED 100 = Ok d /\ ready d /\ log2_buckets d = 6.
Proof.
  destruct (new_Dictionary_ready UNORDERED 100 ltac:(lia)) as (d & E & [R _] & _ & _ & L).
  exists d. split; [exact E|]. split; [exact R|]. exact L.
Defined.

(** [Clear] empties the map, keeps the count of all insertions and hands every
    value in the table to [delete_func], from the last slot to the first. *)
Theorem Clear_empties d :
  let '(deleted, d') := Clear d in
  wf d' /\ abs d' = ∅ /\ num_entries d' = 0 /\ max_entries d' = 0 /\ cum_entries d' = cum_entries d /\
  deleted = if delete_func d then values_backwards d else [].
Proof.
  unfold Clear. split_and!; try done.
  unfold values_backwards, entries. destruct (table d) as [t|]; destruct (delete_func d); try done.
  cbn [default from_option id]. by rewrite fmap_reverse.
Qed.

(** ** The two searches *)

Lemma LinearLookupIndex_loop_spec d t key h fuel i :
  core d t -> 0 <= i -> (Z.to_nat (len t - i) < fuel)%nat ->
  (forall j, j < i -> ~ holds t (key, u32 h) j) ->
  let p := LinearLookupIndex_loop d key (Z.of_nat (length key)) h fuel i in
  (0 <= p /\ holds t (key, u32 h) p) \/ (p = -1 /\ (key, u32 h) ∉ keys t).
Proof.
  intros C. pose proof (core_view _ _ C) as Hv. revert i.
  induction fuel as [|fuel IH]; intros i Hi Hf Hno; [lia|].
  cbn [LinearLookupIndex_loop]. rewrite (view_cap _ _ Hv).
  destruct (Z.ltb_spec i (len t)) as [Hlt|Hge].
  - destruct (Empty (tbl d i)) eqn:Hem; cbn [negb andb].
    + apply IH; [lia|lia|]. intros j Hj. destruct (decide (j = i)) as [->|]; [|apply Hno; lia].
      intros [[_ Ho] _]. rewrite (view_tbl _ _ _ Hv) in Hem. congruence.
    + assert (occ t i) as Ho by (split; [lia|by rewrite (view_tbl _ _ _ Hv) in Hem]).
      destruct (Equal (tbl d i) key (Z.of_nat (length key)) h) eqn:He.
      * left. split; [done|]. by apply (Equal_slot d t i key h C Ho).
      * apply IH; [lia|lia|]. intros j Hj. destruct (decide (j = i)) as [->|]; [|apply Hno; lia].
        intros Hh. apply (Equal_slot d t i key h C Ho) in Hh. congruence.
  - right. split; [done|]. intros Hk. apply elem_of_keys in Hk as [j Hj].
    apply (Hno j); [|done]. destruct Hj as [[Hr _] _]. lia.
Qed.

(** C5: In a [lookup_safe] dictionary (no resize is pending, or an iteration is on, or
    there are no cookies, one resize at most is pending and the last slot is free) the
    bucket search, over the pending table sizes and with the remap it may do, finds a key
    exactly where the linear search over the whole table finds it afterwards, and finds
    nothing exactly when the linear search finds nothing. *)
Theorem LookupIndex_linear d key h :
  wf d -> num_entries d <= MAX_ENTRIES -> log2_buckets d < MAX_LOG2 ->
  lookup_safe d (entries d) -> has_table d = true ->
  exists pos out d', search d key h = Ok (pos, out, d') /\
    pos = linear d' key h /\ (pos = -1 <-> linear d key h = -1).
Proof.
  unfold search, linear. intros Hwf Hmax Hlog Hsafe Ht. unfold has_table in Ht. destruct (table d) as [t|] eqn:Et; [|done].
  destruct (wf_table d t Hwf Et) as (C & Hn & _ & Een). rewrite Een in Hsafe.
  destruct (LookupIndex_spec d t key h C Hlog ltac:(lia) Hsafe)
    as (pos & out & d' & t' & E & C' & F & _ & P & H).
  exists pos, out, d'. split; [done|]. unfold LinearLookupIndex.
  pose proof (LinearLookupIndex_loop_spec d' t' key h (S (steps_to d' 0)) 0 C') as H1.
  pose proof (LinearLookupIndex_loop_spec d t key h (S (steps_to d 0)) 0 C) as H2.
  unfold steps_to in H1, H2.
  rewrite (view_cap _ _ (core_view _ _ C')) in H1. rewrite (view_cap _ _ (core_view _ _ C)) in H2.
  unfold steps_to. rewrite (view_cap _ _ (core_view _ _ C')), (view_cap _ _ (core_view _ _ C)).
  specialize (H1 ltac:(lia) ltac:(lia)). specialize (H2 ltac:(lia) ltac:(lia)). cbn zeta in H1, H2.
  set (p1 := LinearLookupIndex_loop d' _ _ _ _ _) in *.
  set (p2 := LinearLookupIndex_loop d _ _ _ _ _) in *.
  assert (forall t0 j, j < 0 -> ~ holds t0 (key, u32 h) j) as Hneg.
  { intros t0 j Hj [[Hr _] _]. lia. }
  specialize (H1 (Hneg t')). specialize (H2 (Hneg t)).
  assert ((key, u32 h) ∈ keys t' <-> (key, u32 h) ∈ keys t) as Hk by (by rewrite (keys_perm _ _ P)).
  destruct H as [(Hp & Hh)|(-> & -> & -> & Hnk & _)].
  - assert ((key, u32 h) ∈ keys t') as Hin by (apply elem_of_keys; by exists pos).
    destruct H1 as [[Hp1 Hh1]|[_ H1]]; [|done]. destruct H2 as [[Hp2 Hh2]|[_ H2]]; [|tauto].
    split; [by apply (holds_unique t' (key, u32 h)); [apply C'|..]|]. lia.
  - assert (forall i, ~ holds t (key, u32 h) i) as Hno.
    { intros i Hi. apply Hnk, elem_of_keys. by exists i. }
    destruct H1 as [[_ Hh1]|[-> _]]; [by apply Hno in Hh1|].
    destruct H2 as [[_ Hh2]|[-> _]]; [by apply Hno in Hh2|]. done.
Qed.

Lemma LookupIndex_linear_witness :
  exists pos out d', LookupIndex LOOKUP_FUEL sample_dict [3] 1 21 = Ok (pos, out, d') /\
    pos = LinearLookupIndex d' [3] 1 21.
Proof.
  destruct (LookupIndex_linear sample_dict [3] 21 sample_wf ltac:(by vm_compute) ltac:(by vm_compute)
              sample_safe eq_refl) as (pos & out & d' & E & H & _).
  exists pos, out, d'. exact (conj E H).
Defined.

(** ** Remapping and growing leave the map alone *)

(** C4: A round of [Remap] on any valid dictionary returns, leaves the map, the entries
    and the iteration state as they are and keeps the invariant, whatever the number
    of pending resizes; it does nothing while an iteration is on. *)
Theorem Remap_preserves d :
  wf d -> has_table d = true -> (num_iterators d = 0 -> no_cookies d) ->
  log2_buckets d + 2 <= MAX_LOG2 -> num_entries d <= MAX_ENTRIES ->
  exists d', Remap d = Ok d' /\ same_map d d' /\
    (num_iterators d <> 0 -> d' = d).
Proof.
  intros Hwf Ht Hck Hlog Hmax. unfold has_table in Ht. destruct (table d) as [t|] eqn:Et; [|done].
  destruct (wf_table d t Hwf Et) as (C & Hn & Ha & _).
  destruct (Remap_spec d t C Hck) as (d' & t' & E & C' & F & P & L);
    [lia|lia|].
  exists d'. split; [done|]. unfold same_map. split_and!; [| |done|].
  - apply wf_intro with t'; [done|]. by rewrite (frame_num _ _ F), P.
  - rewrite Ha, (core_view_abs _ _ (core_view _ _ C')). apply tmap_perm; [apply C|done].
  - intros Hit. unfold Remap in E. destruct (Z.eqb_spec (num_iterators d) 0); [done|].
    by injection E.
Qed.

Lemma Remap_preserves_witness :
  remap_end sample_dict = 27 /\
  exists d', Remap sample_dict = Ok d' /\ wf d' /\ abs d' = abs sample_dict.
Proof.
  split; [reflexivity|].
  destruct (Remap_preserves sample_dict sample_wf eq_refl) as (d' & E & (H1 & H2 & _) & _).
  - intros _. by left.
  - by vm_compute.
  - by vm_compute.
  - exists d'. exact (conj E (conj H1 H2)).
Defined.

(** [SizeUp] of a valid dictionary succeeds: the entries stay where they are, the
    old table size is recorded as one more pending remap over the whole old table,
    and the invariant and the map are kept. *)
Theorem SizeUp_preserves d :
  wf d -> has_table d = true -> log2_buckets d < MAX_LOG2 ->
  exists d', SizeUp d = Ok d' /\ same_map d d' /\
    remaps d' = remaps d + 1 /\ remap_end d' = Capacity d false /\
    Buckets d' false = 2 * Buckets d false.
Proof.
  intros Hwf Ht Hlog. unfold has_table in Ht. destruct (table d) as [t|] eqn:Et; [|done].
  destruct (wf_table d t Hwf Et) as (C & Hn & Ha & _).
  destruct (SizeUp_core d t C Hlog) as (d' & k & E & C' & S).
  exists d'. split; [done|]. destruct S as [F L R Re]. unfold same_map. split_and!; try done.
  - eapply wf_intro; [done|]. by rewrite contents_grow, (frame_num _ _ F).
  - rewrite Ha, (core_view_abs _ _ (core_view _ _ C')). unfold tmap. by rewrite contents_grow.
  - by rewrite (view_cap _ _ (core_view _ _ C)).
  - rewrite (view_buckets _ _ (core_view _ _ C)), (view_buckets _ _ (core_view _ _ C')), L.
    rewrite Z.pow_add_r; [lia|apply C|lia].
Qed.

Lemma SizeUp_preserves_witness :
  exists d', SizeUp sample_dict = Ok d' /\ wf d' /\ remaps d' = 2.
Proof.
  destruct (SizeUp_preserves sample_dict sample_wf eq_refl ltac:(by vm_compute))
    as (d' & E & (H1 & _) & H2 & _).
  exists d'. exact (conj E (conj H1 H2)).
Defined.
