(* ===== verification/DictIter.v ===== *)
(** * Iterating over the dictionary

    The client's loop, which calls [NextEntry] until its cookie is [NULL], and what
    it sees. *)

From S2P Require Import Prelude DictTable Dictionary DictInv DictReloc DictWf DictOps DictCheck DictSpec.

(** The calls of [NextEntry] until the cookie is gone: the values and hash keys
    returned. *)
Fixpoint iterate (fuel : nat) (d : Dictionary) (c : nat) (return_hash : bool)
    : res (list (Z * option (list Z * Z * Z)) * Dictionary) :=
  match fuel with
  | O => NoFuel
  | S n =>
      let! (v, hk, valid, d) := NextEntry d c return_hash in
      if negb valid then Ok ([], d)
      else
        let! (vs, d) := iterate n d c return_hash in
        Ok ((v, hk) :: vs, d)
  end.

(** [InitForIteration] and the loop. *)
Definition for_each (d : Dictionary) (return_hash : bool)
    : res (list (Z * option (list Z * Z * Z)) * Dictionary) :=
  let '(c, d) := InitForIteration d in
  iterate (S (S (Z.to_nat (Capacity d false)))) d c return_hash.

(** What [NextEntry] reports of an entry. *)
Definition reported (return_hash : bool) (e : DictEntry) : Z * option (list Z * Z * Z) :=
  (value e, if return_hash then Some (GetKey e, key_size e, hash e) else None).

(** The entries from slot [q] on, in table order. *)
Definition rest (t : list DictEntry) (q : Z) : list DictEntry :=
  filter (fun e => Empty e = false) (drop (Z.to_nat q) t).

Lemma rest_end t q : len t <= q -> rest t q = [].
Proof. intros H. unfold rest, len in *. by rewrite drop_ge by lia. Qed.

Lemma rest_step t q :
  0 <= q < len t ->
  rest t q = (if Empty (tget t q) then [] else [tget t q]) ++ rest t (q + 1).
Proof.
  intros H. unfold rest, len in *.
  replace (Z.to_nat (q + 1)) with (S (Z.to_nat q)) by lia.
  assert (t !! Z.to_nat q = Some (tget t q)) as E by (apply list_lookup_lookup_total_lt; lia).
  rewrite (drop_S t (tget t q)) by done. rewrite filter_cons.
  destruct (Empty (tget t q)); by case_decide.
Qed.

Lemma rest_skip t p q :
  0 <= p <= q -> q <= len t -> (forall i, p <= i < q -> Empty (tget t i) = true) ->
  rest t p = rest t q.
Proof.
  intros Hp Hq He. remember (Z.to_nat (q - p)) as n eqn:Hn. revert p Hp He Hn.
  induction n as [|n IH]; intros p Hp He Hn; [by assert (p = q) as -> by lia|].
  rewrite rest_step, He by lia. apply IH; [lia| |lia]. intros; apply He; lia.
Qed.

Lemma Next_spec d t p :
  view d t -> -1 <= p < len t ->
  exists q, Next d p = Ok q /\ p < q <= len t /\ rest t (p + 1) = rest t q /\
            (q < len t -> occ t q) /\ (forall i, p < i < q -> ~ occ t i).
Proof.
  intros Hv Hp. unfold Next. rewrite (view_cap _ _ Hv). step_assert.
  2:{ rewrite (view_has _ _ Hv), !andb_true_iff, Z.leb_le, Z.ltb_lt. split_and!; [done|lia|lia]. }
  pose proof (scan_spec (fun i => (i <? Capacity d false) && Empty (tbl d i)) (len t)
                (steps_to d (p + 1)) (p + 1)) as H. cbn zeta in H.
  destruct H as (H1 & H2 & H3 & H4).
  { intros k Hk. rewrite (view_cap _ _ Hv). destruct (Z.ltb_spec k (len t)); [lia|done]. }
  { unfold steps_to. by rewrite (view_cap _ _ Hv). }
  rewrite (view_cap _ _ Hv) in *. set (q := scan _ _ _) in *.
  assert (forall i, p + 1 <= i < q -> Empty (tget t i) = true) as He.
  { intros i Hi. specialize (H4 i Hi). rewrite (view_tbl _ _ _ Hv) in H4.
    by apply andb_true_iff in H4 as [_ ?]. }
  exists q. split; [done|]. split; [lia|]. split; [apply rest_skip; [lia|lia|done]|]. split.
  - intros Hq. split; [lia|]. rewrite (view_tbl _ _ _ Hv) in H3.
    destruct (Z.ltb_spec q (len t)); [done|lia].
  - intros i Hi [_ Ho]. rewrite He in Ho by lia. done.
Qed.

(** The dictionary during an iteration: only the cookie's position changes. *)
Definition iterating (d : Dictionary) (c : nat) (n : Z) : Dictionary :=
  put_cookie d c (mkCookie false n None None).

Lemma view_iterating d t c n : view d t -> view (iterating d c n) t.
Proof. by intros []. Qed.

Lemma NextEntry_step d t c n rh :
  view d t -> -1 <= n <= len t -> (0 <= n < len t -> occ t n) ->
  let n' := if n <? 0 then 0 else n in
  match rest t n' with
  | [] => NextEntry (iterating d c n) c rh =
          let! d' := end_iteration (iterating d c n) c in Ok (0, None, false, d')
  | e :: l => exists q, NextEntry (iterating d c n) c rh =
                Ok (fst (reported rh e), snd (reported rh e), true, iterating d c q) /\
                0 <= q <= len t /\ (q < len t -> occ t q) /\ rest t q = l
  end.
Proof.
  intros Hv Hn Ho n'. pose proof (view_iterating d t c n Hv) as Hvi.
  pose proof (buckets_le_len _ _ Hv) as Hlen.
  assert (exists q, (if n <? 0 then Next (iterating d c n) (-1) else Ok n) = Ok q /\
            0 <= q <= len t /\ (q < len t -> occ t q) /\ rest t n' = rest t q) as (q & Eq & Hq & Hoq & Er).
  { subst n'. destruct (Z.ltb_spec n 0).
    - destruct (Next_spec (iterating d c n) t (-1) Hvi) as (q & E & H1 & H2 & H3 & _); [lia|].
      exists q. split_and!; [done|lia|lia|done|]. by rewrite <- H2.
    - exists n. split_and!; [done|lia|lia| |done]. intros. apply Ho. lia. }
  rewrite Er. clear Er.
  assert (forall K : Z -> res (Z * option (list Z * Z * Z) * bool * Dictionary),
    (let! nx := (if n <? 0 then Next (iterating d c n) (-1) else Ok n) in K nx) = K q) as Hbind
    by (intros K; by rewrite Eq).
  assert (get_cookie (iterating d c n) c = Ok (mkCookie false n None None)) as Hg.
  { unfold get_cookie. cbn. by rewrite lookup_insert_eq. }
  unfold NextEntry. rewrite (view_table _ _ Hvi), Hg.
  cbn [res_bind inserted robust next visited]. rewrite Hbind. cbv beta zeta. rewrite (view_cap _ _ Hvi), (view_tbl _ _ _ Hvi).
  step_assert.
  2:{ apply negb_true_iff, andb_false_iff. destruct (Z.ltb_spec q (len t)); [right|by left].
      by apply Hoq. }
  destruct (Z.leb_spec (len t) q).
  - by rewrite rest_end by done.
  - destruct (Hoq ltac:(lia)) as [Hr Hne]. rewrite rest_step by lia. rewrite Hne. cbn [app].
    destruct (Next_spec (iterating d c n) t q Hvi) as (q2 & E & H1 & H2 & H3 & _); [lia|].
    exists q2. step_assert; [|done]. rewrite E. cbn [res_bind]. split; [|split; [lia|by split]].
    unfold reported. cbn [fst snd]. do 2 f_equal.
    unfold iterating, put_cookie. cbn. by rewrite insert_insert_eq.
Qed.

(** The loop sees the remaining entries and ends the iteration. *)
Lemma iterate_spec d t c rh fuel n :
  view d t -> -1 <= n <= len t -> (0 <= n < len t -> occ t n) ->
  (length (rest t (if (n <? 0)%Z then 0 else n)) < fuel)%nat ->
  exists n', iterate fuel (iterating d c n) c rh =
    let! d' := end_iteration (iterating d c n') c in
    Ok (reported rh <$> rest t (if n <? 0 then 0 else n), d').
Proof.
  intros Hv. revert n. induction fuel as [|fuel IH]; intros n Hn Ho Hf; [lia|].
  pose proof (NextEntry_step d t c n rh Hv Hn Ho) as H. cbn zeta in H. cbn [iterate].
  destruct (rest t (if n <? 0 then 0 else n)) as [|e l] eqn:E.
  - exists n. rewrite H. by destruct (end_iteration _ c).
  - destruct H as (q & -> & Hq & Hoq & Er). cbn [res_bind negb].
    destruct (IH q) as (n' & E'); [lia|intros; apply Hoq; lia| |].
    { destruct (Z.ltb_spec q 0); [lia|]. rewrite Er. cbn in Hf. lia. }
    destruct (Z.ltb_spec q 0) in E'; [lia|]. rewrite Er in E'. exists n'. rewrite E'.
    destruct (end_iteration _ c); cbn [res_bind]; try done.
Qed.

Lemma rest_length t q : (length (rest t q) <= length t)%nat.
Proof.
  unfold rest. etransitivity; [apply length_filter|]. rewrite length_drop. lia.
Qed.

(** C6: A plain iteration terminates and returns every entry exactly once, in the
    order of the table, with its value and, when asked, its key and hash; afterwards
    the dictionary is as before but for the number of the next cookie. *)
Theorem for_each_visits_all d rh :
  wf d -> 0 <= num_iterators d < 2 ^ 16 - 1 -> cookie_heap d !! next_cookie d = None ->
  for_each d rh =
    Ok (reported rh <$> filter (fun e => Empty e = false) (entries d),
        set_cookie_heap (cookie_heap d) (S (next_cookie d)) d).
Proof.
  intros Hwf Hit Hfresh. unfold for_each, InitForIteration.
  set (c := next_cookie d).
  set (d1 := set_cookie_heap _ _ _).
  assert (forall d2 n, d2 = iterating d1 c n ->
            end_iteration d2 c = Ok (set_cookie_heap (cookie_heap d) (S c) d)) as Hend.
  { intros d2 n ->. unfold end_iteration, delete_cookie.
    assert (u16 (num_iterators d + 1) = num_iterators d + 1) as Hu by (apply u16_small; lia).
    cbn -[u16]. rewrite Hu. destruct (Z.ltb_spec 0 (num_iterators d + 1)); [|lia].
    unfold get_cookie. cbn. rewrite lookup_insert_eq. cbn. f_equal.
    rewrite insert_insert_eq, delete_insert_id by done.
    unfold set_cookie_heap, set_num_iterators. cbn. f_equal. lia. }
  destruct (table d) as [t|] eqn:Et.
  - destruct (wf_table d t Hwf Et) as (C & _ & _ & ->).
    assert (view d1 t) as Hv1 by (by destruct C as [[] ? ? ? ? ? ? ?]).
    assert (d1 = iterating d1 c (-1)) as Ed.
    { unfold iterating, put_cookie. subst d1. cbn. by rewrite insert_insert_eq. }
    rewrite (view_cap _ _ Hv1). pose proof (rest_length t 0) as Hlen.
    destruct (iterate_spec d1 t c rh (S (S (Z.to_nat (len t)))) (-1) Hv1) as (n' & E);
      [unfold len; lia|lia|cbn [Z.ltb Z.compare]; unfold len; lia|].
    rewrite Ed at 1. rewrite E. by rewrite (Hend _ n' eq_refl).
  - unfold entries. rewrite Et. cbn [default from_option filter list_filter fmap list_fmap].
    cbn [iterate]. unfold NextEntry. change (table d1) with (table d). rewrite Et.
    rewrite (Hend d1 (-1)); [done|]. unfold iterating, put_cookie. subst d1. cbn.
    by rewrite insert_insert_eq.
Qed.

Lemma for_each_visits_all_witness :
  exists d', for_each sample_dict true =
    Ok (reported true <$> filter (fun e => Empty e = false) (entries sample_dict), d') /\
  length (filter (fun e => Empty e = false) (entries sample_dict)) = 54%nat.
Proof.
  exists (set_cookie_heap (cookie_heap sample_dict) (S (next_cookie sample_dict)) sample_dict).
  split; [|vm_compute; reflexivity].
  apply for_each_visits_all; [apply sample_wf|by vm_compute|reflexivity].
Defined.
