(* ===== verification/DictFindings.v ===== *)
(** * Runs of the dictionary that do not do what its header promises

    Each theorem runs the operations on a concrete input, or states what a
    function really returns. *)

From S2P Require Import Prelude DictTable Dictionary DictInv DictReloc DictWf DictOps DictCheck.

(** ** Building inputs *)

(** A hash whose Fibonacci hash has the low 32 bits [fb]: 2570548029 is the inverse
    of the multiplier modulo 2^32. *)
Definition hash_for (fb : Z) : Z := u32 (fb * 2570548029).

(** Keys are one number; entry [n] has the low Fibonacci bits [fb] and value [n]. *)
Definition put (n fb : Z) (d : Dictionary) : res Dictionary :=
  let! (_, d) := Insert d [n] 1 (hash_for fb) n in Ok d.

Fixpoint put_all (n : Z) (fbs : list Z) (d : Dictionary) : res Dictionary :=
  match fbs with
  | [] => Ok d
  | fb :: fbs => let! d := put n fb d in put_all (n + 1) fbs d
  end.

(** A robust iteration begins; it holds remapping back until it is stopped. *)
Definition begin_robust (d : Dictionary) : res (nat * Dictionary) :=
  let '(c, d) := InitForIteration d in
  let! d := MakeRobustCookie d c in Ok (c, d).

(** ** Insertion order *)

(** Three keys, the third of the first one's bucket: it takes the second's slot. *)
Definition ordered_run : res Dictionary :=
  let! d := new_Dictionary ORDERED 8 in put_all 1 [0; 1; 16] d.

(** In an [ORDERED] dictionary the insertion of a key whose slot is taken by
    another cluster records the displaced entry: after the keys 1, 2, 3, [NthEntry]
    gives 1, 2, 2, although [Lookup] finds 3; a second [Insert] of key 3 fails the
    assertion that it is in [order], and [Remove] of it has undefined behaviour. *)
Theorem ordered_insert_records_displaced :
  exists d, ordered_run = Ok d /\
    (fun n => fst (NthEntry d n)) <$> [0; 1; 2] = [1; 2; 2] /\
    (exists d', Lookup d [3] 1 (hash_for 16) = Ok (3, d')) /\
    Insert d [3] 1 (hash_for 16) 30 = Abort /\
    Remove d [3] 1 (hash_for 16) false = UB.
Proof.
  exists (get ordered_run). split; [vm_compute; reflexivity|]. split; [vm_compute; reflexivity|].
  split; [eexists; vm_compute; reflexivity|]. split; vm_compute; reflexivity.
Qed.

(** ** Robust iteration *)

(** The values a robust iteration returns when [put n fb] is run after the first
    [steps] calls of [NextEntry]. *)
Fixpoint robust_values (fuel steps : nat) (n fb : Z) (d : Dictionary) (c : nat) : res (list Z) :=
  match fuel with
  | O => NoFuel
  | S fuel =>
      let! d := (match steps with 1%nat => put n fb d | _ => Ok d end) in
      let! (v, _, valid, d) := NextEntry d c false in
      if negb valid then Ok []
      else let! vs := robust_values fuel (pred steps) n fb d c in Ok (v :: vs)
  end.

(** A robust iteration can miss an entry added during it and return another one
    twice: the cookie is told of the entry the insertion displaced, not of the one
    it inserted (the reference parameter of [InsertAndRelocate] holds the former
    when [AdjustOnInsert] runs). *)
Theorem robust_iteration_misses_insert :
  exists d c d1 d2,
    (let! d := new_Dictionary UNORDERED 8 in put_all 1 [0; 1; 3] d) = Ok d /\
    begin_robust d = Ok (c, d1) /\
    put 4 16 d1 = Ok d2 /\
    robust_values 10 3 4 16 d1 c = Ok [1; 2; 2; 3] /\
    (exists d3, Lookup d2 [4] 1 (hash_for 16) = Ok (4, d3)).
Proof.
  set (d := get (let! d := new_Dictionary UNORDERED 8 in put_all 1 [0; 1; 3] d)).
  set (p := match begin_robust d with Ok p => p | _ => (0%nat, d) end).
  exists d, (fst p), (snd p), (get (put 4 16 (snd p))).
  split; [vm_compute; reflexivity|]. split; [vm_compute; reflexivity|].
  split; [vm_compute; reflexivity|]. split; [vm_compute; reflexivity|].
  eexists; vm_compute; reflexivity.
Qed.

(** ** Lookups that remap *)

(** 54 entries put while an iteration holds remapping back over two growths, and
    one after it. *)
Definition lost_run : res Dictionary :=
  let! d := new_Dictionary UNORDERED 32 in
  let! (c, d) := begin_robust d in
  let! d := put_all 1 ([40] ++ seqZ 0 8 ++ seqZ 9 20 ++ [105; 105; 168]
              ++ ((fun b => b + 64) <$> seqZ 45 15) ++ replicate 7 29) d in
  let! d := StopIteration d c in
  put 55 41 d.

(** A lookup can make another key unreachable: with two resizes pending, the
    lookup of key 1 moves its entry, which pushes the entry of key 30, not yet
    remapped, beyond [remap_end]; from then on [Lookup] of key 30 returns [NULL]
    although the entry is still in the table, where a linear search finds it. *)
Theorem lookup_loses_key :
  exists d d1 d2,
    lost_run = Ok d /\ remaps d = 2 /\
    (exists d0, Lookup d [30] 1 (hash_for 105) = Ok (30, d0)) /\
    Lookup d [1] 1 (hash_for 40) = Ok (1, d1) /\
    Lookup d1 [30] 1 (hash_for 105) = Ok (0, d2) /\
    0 <= LinearLookupIndex d1 [30] 1 (hash_for 105).
Proof.
  set (d := get lost_run). set (d1 := get (let! (_, d) := Lookup d [1] 1 (hash_for 40) in Ok d)).
  exists d, d1, (get (let! (_, d) := Lookup d1 [30] 1 (hash_for 105) in Ok d)).
  split; [vm_compute; reflexivity|]. split; [vm_compute; reflexivity|].
  split; [eexists; vm_compute; reflexivity|]. split; [vm_compute; reflexivity|].
  split; [vm_compute; reflexivity|]. vm_compute. discriminate.
Qed.

(** The overflow cells behind the last bucket are full when the iteration ends. *)
Definition overflow_run : res Dictionary :=
  let! d := new_Dictionary UNORDERED 8 in
  let! (c, d) := begin_robust d in
  let! d := put_all 1 ([31; 7; 23; 39; 55] ++ [47; 79; 111; 143; 175]) d in
  StopIteration d c.

(** A lookup can fail the assertion of [LookupIndex] on a valid dictionary: its
    remap inserts behind a full table and grows it, so the search in the assertion,
    [LookupIndex] again, remaps the entry a second time. *)
Theorem lookup_remap_aborts :
  exists d t, overflow_run = Ok d /\ remaps d = 1 /\ core d t /\
    0 <= LinearLookupIndex d [1] 1 (hash_for 31) /\
    Lookup d [1] 1 (hash_for 31) = Abort.
Proof.
  exists (get overflow_run), (default [] (table (get overflow_run))).
  split; [vm_compute; reflexivity|]. split; [vm_compute; reflexivity|].
  split; [apply coreb_sound; vm_compute; reflexivity|].
  split; [vm_compute; discriminate|]. vm_compute. reflexivity.
Qed.

(** ** Cluster arithmetic *)

(** The head of the cluster that contains [p]. *)
Definition cluster_head (t : list DictEntry) (p h : Z) : Prop :=
  bkt t p <= h <= p /\ (forall j, h <= j <= p -> occ t j /\ bkt t j = bkt t p) /\
  (occ t (h - 1) -> bkt t (h - 1) <> bkt t p).

Lemma HeadOfClusterByPosition_loop_spec d t p fuel i :
  view d t -> clustered t -> occ t p -> bkt t p - 1 <= i <= p ->
  (forall j, i < j <= p -> occ t j /\ bkt t j = bkt t p) ->
  (Z.to_nat (i + 2 - bkt t p) <= fuel)%nat ->
  exists h, HeadOfClusterByPosition_loop d (bkt t p) fuel i = Ok (h - 1) /\
    bkt t p <= h <= i + 1 /\ (forall j, h <= j <= p -> occ t j /\ bkt t j = bkt t p) /\
    (bkt t p <= h - 1 -> occ t (h - 1) /\ bkt t (h - 1) <> bkt t p).
Proof.
  intros Hv Hc Hp. revert i. induction fuel as [|fuel IH]; intros i Hi Hrun Hf; [lia|].
  cbn [HeadOfClusterByPosition_loop]. destruct (Z.leb_spec (bkt t p) i).
  - destruct (clustered_run t p i Hc Hp ltac:(lia)) as [Ho _].
    step_assert; [|by apply (in_table_occ _ _ _ Hv)]. rewrite (view_bkt _ _ _ Hv).
    destruct (Z.eqb_spec (bkt t i) (bkt t p)) as [Eb|Eb].
    + destruct (IH (i - 1)) as (h & E & H1 & H2 & H3); [lia| |lia|].
      { intros j Hj. destruct (decide (j = i)) as [->|]; [done|]. apply Hrun. lia. }
      exists h. split; [done|]. split; [lia|by split].
    + exists (i + 1). replace (i + 1 - 1) with i by lia. split; [done|]. split; [lia|].
      split; [|done]. intros j Hj. apply Hrun. lia.
  - exists (i + 1). replace (i + 1 - 1) with i by lia. split; [done|]. split; [lia|].
    split; [|lia]. intros j Hj. apply Hrun. lia.
Qed.

(** [HeadOfClusterByPosition] returns the head of the cluster at a position,
    except when that is the slot behind the bucket: then it returns the bucket's
    own slot, which belongs to another cluster. *)
Theorem HeadOfClusterByPosition_value d t p :
  view d t -> clustered t -> occ t p ->
  exists h, cluster_head t p h /\
    HeadOfClusterByPosition d p = Ok (if h =? bkt t p + 1 then bkt t p else h).
Proof.
  intros Hv Hc Hp. unfold HeadOfClusterByPosition.
  step_assert; [|by apply (in_table_occ _ _ _ Hv)]. rewrite !(view_bkt _ _ _ Hv).
  pose proof (clustered_bkt_le t p Hc Hp).
  destruct (HeadOfClusterByPosition_loop_spec d t p (S (S (Z.to_nat (p - bkt t p)))) p Hv Hc Hp)
    as (h & E & H1 & H2 & H3); [lia|intros; lia|lia|].
  assert (h <> p + 1) as Hh.
  { intros ->. destruct H3 as [_ H3]; [lia|]. by replace (p + 1 - 1) with p in H3 by lia. }
  exists h. split.
  - split; [lia|]. split; [done|]. intros Ho Hb. destruct (decide (bkt t p <= h - 1)) as [Hle|Hn].
    + by apply H3 in Hle as [_ ?].
    + assert (h = bkt t p) as -> by lia.
      pose proof (clustered_bkt_le t (bkt t p - 1) Hc Ho). lia.
  - rewrite E. cbn [res_bind]. f_equal.
    destruct (Z.eqb_spec (h - 1) (bkt t p)), (Z.eqb_spec h (bkt t p + 1)); lia.
Qed.

(** The third entry is of bucket 1, whose slot the second has taken. *)
Definition two_clusters : Dictionary :=
  Eval vm_compute in get (let! d := new_Dictionary UNORDERED 8 in put_all 1 [0; 16; 1] d).

Lemma HeadOfClusterByPosition_value_witness :
  (exists h, cluster_head (default [] (table two_clusters)) 2 h) /\
  HeadOfClusterByPosition two_clusters 2 = Ok 1.
Proof.
  assert (core two_clusters (default [] (table two_clusters))) as C
    by (apply coreb_sound; vm_compute; reflexivity).
  destruct (HeadOfClusterByPosition_value two_clusters _ 2 (core_view _ _ C) (core_clustered _ _ C))
    as (h & H & _).
  - by apply occb_spec.
  - split; [by exists h|]. vm_compute. reflexivity.
Defined.
