(* ===== verification/DictRobust.v ===== *)
(** * Robust iteration and removal

    [OpenDict.h] promises that with a robust cookie the dictionary may change during an
    iteration: entries that stay are all visited, removed ones are not.  The abstract
    iteration is [walk_step], over the map of the dictionary and the part of it that has
    not been given; [robust_refines] shows which removals [NextEntry] and [Remove]
    implement it for, and [robust_iteration_misses_kept] that others break it. *)

From S2P Require Import Prelude DictTable Dictionary DictInv DictReloc DictWf DictOps DictCheck DictSpec DictIter DictFindings.

Lemma filter_all {A} (P : A -> Prop) `{forall x, Decision (P x)} (l : list A) :
  Forall P l -> filter P l = l.
Proof. induction 1 as [|x l Hx _ IH]; [done|]. rewrite filter_cons_True by done. by f_equal. Qed.

(** ** The entries from a slot on, without their positions *)

Definition from_slot (t : list DictEntry) (q : Z) : list DictEntry := set_distance 0 <$> rest t q.

Lemma from_slot_contents t : from_slot t 0 = contents t.
Proof. done. Qed.

Lemma from_slot_negative t q : q < 0 -> from_slot t q = contents t.
Proof. intros H. unfold from_slot, rest. by replace (Z.to_nat q) with 0%nat by lia. Qed.

Lemma from_slot_occ t q : occ t q -> from_slot t q = set_distance 0 (tget t q) :: from_slot t (q + 1).
Proof. intros [Hr Ho]. unfold from_slot. rewrite rest_step by done. by rewrite Ho. Qed.

Lemma not_occ t i : 0 <= i < len t -> ~ occ t i -> Empty (tget t i) = true.
Proof. intros Hr Ho. destruct (Empty (tget t i)) eqn:E; [done|]. exfalso. by apply Ho. Qed.

Lemma from_slot_skip t p q :
  0 <= p <= q -> q <= len t -> (forall i, p <= i < q -> ~ occ t i) -> from_slot t p = from_slot t q.
Proof.
  intros Hp Hq He. unfold from_slot. rewrite (rest_skip t p q); [done|done|done|].
  intros i Hi. apply not_occ; [lia|by apply He].
Qed.

Lemma elem_of_from_slot t q c :
  0 <= q -> c ∈ from_slot t q <-> exists i, q <= i /\ occ t i /\ c = set_distance 0 (tget t i).
Proof.
  intros Hq. unfold from_slot, rest. rewrite list_elem_of_fmap. split.
  - intros (e & -> & He). apply list_elem_of_filter in He as [Hne He].
    apply list_elem_of_lookup in He as [n Hn]. rewrite lookup_drop in Hn.
    exists (q + Z.of_nat n). unfold occ, tget, len.
    replace (Z.to_nat (q + Z.of_nat n)) with (Z.to_nat q + n)%nat by lia.
    rewrite (list_lookup_total_correct _ _ _ Hn). apply lookup_lt_Some in Hn.
    split_and!; [lia|lia|lia|done|done].
  - intros (i & Hi & [Hr Ho] & ->). exists (tget t i). split; [done|].
    apply list_elem_of_filter. split; [done|]. unfold tget, len in *.
    apply list_elem_of_lookup. exists (Z.to_nat (i - q)). rewrite lookup_drop.
    replace (Z.to_nat q + Z.to_nat (i - q))%nat with (Z.to_nat i) by lia.
    apply list_lookup_lookup_total_lt. lia.
Qed.

Lemma from_slot_subset t q c : c ∈ from_slot t q -> c ∈ contents t.
Proof.
  destruct (decide (q < 0)); [by rewrite from_slot_negative|].
  rewrite elem_of_from_slot, elem_of_contents by lia. intros (i & _ & Hi). by exists i.
Qed.

(** Two tables that agree below [p] differ only in what comes later. *)
Lemma contents_prefix t t' p :
  0 <= p -> len t' = len t -> (forall i, 0 <= i < p -> tget t' i = tget t i) ->
  exists pre, contents t = pre ++ from_slot t p /\ contents t' = pre ++ from_slot t' p.
Proof.
  intros Hp Hlen Hpre. exists (contents (take (Z.to_nat p) t)).
  assert (take (Z.to_nat p) t' = take (Z.to_nat p) t) as E.
  { apply list_eq. intros i. destruct (decide (i < Z.to_nat p)%nat) as [Hi|Hi].
    - rewrite !lookup_take_lt by done. unfold len in Hlen.
      destruct (decide (i < length t)%nat) as [Hl|Hl].
      + specialize (Hpre (Z.of_nat i) ltac:(lia)). unfold tget in Hpre. rewrite Nat2Z.id in Hpre.
        rewrite !list_lookup_lookup_total_lt by lia. by rewrite Hpre.
      + by rewrite !lookup_ge_None_2 by lia.
    - by rewrite !lookup_take_ge by lia. }
  split; [|rewrite <- E]; unfold from_slot, rest; fold (contents (drop (Z.to_nat p) t));
    fold (contents (drop (Z.to_nat p) t')); by rewrite <- contents_app, take_drop.
Qed.

(** ** What a removal does to the entries behind the cookie *)

(** No slot in use lies between [p] and [n]. *)
Definition near (t : list DictEntry) (p n : Z) : Prop := forall i, p < i < n -> ~ occ t i.

(** What the cookie is given when the hole at [p] is filled from behind [n]. *)
Definition moved_down (t' : list DictEntry) (p n last : Z) : list DictEntry :=
  if (p <? n) && (n <=? last) then [tget t' p] else [].

Lemma removed_from_slot t p last t' n :
  removed_at t p last t' -> occ t p -> 0 <= n <= len t -> near t p n ->
  from_slot t n ≡ₚ (if n <=? p then [set_distance 0 (tget t p)] else set_distance 0 <$> moved_down t' p n last)
                 ++ from_slot t' n.
Proof.
  intros R Ho Hn Hnear. pose proof (proj1 Ho) as Hr. pose proof (rem_len _ _ _ _ R) as Hlen.
  pose proof (rem_last _ _ _ _ R) as Hlast.
  assert (forall q, 0 <= q <= p -> from_slot t q ≡ₚ set_distance 0 (tget t p) :: from_slot t' q) as Hpre.
  { intros q Hq. destruct (contents_prefix t t' q) as (pre & E1 & E2); [lia|done| |].
    - intros i Hi. apply (rem_below _ _ _ _ R). lia.
    - pose proof (rem_contents _ _ _ _ R) as H. rewrite E1, E2, Permutation_middle in H.
      by apply Permutation_app_inv_l in H. }
  destruct (Z.leb_spec n p) as [Hle|Hlt]; [apply Hpre; lia|].
  assert (from_slot t' p ≡ₚ from_slot t n) as H.
  { specialize (Hpre p ltac:(lia)). rewrite from_slot_occ in Hpre by done.
    apply Permutation_cons_inv in Hpre. rewrite <- Hpre.
    rewrite (from_slot_skip t (p + 1) n); [done|lia|lia|]. intros i Hi. apply Hnear. lia. }
  rewrite <- H. unfold moved_down. destruct (Z.ltb_spec p n); [|lia]. cbn [andb].
  destruct (Z.leb_spec n last) as [Hin|Hout].
  - assert (n = p + 1) as ->.
    { destruct (decide (n = p + 1)); [done|]. exfalso. apply (Hnear (p + 1)); [lia|].
      apply (rem_was _ _ _ _ R). lia. }
    rewrite from_slot_occ; [done|]. apply (rem_run _ _ _ _ R). lia.
  - rewrite (from_slot_skip t' p n); [done|lia|lia|]. intros i Hi Hoi.
    destruct (rem_moved _ _ _ _ R i Hoi) as (j & Hj & Hne & _ & [->|Hm]).
    + apply (Hnear j); [lia|done].
    + apply (Hnear j); [lia|done].
Qed.

(** A key held behind nothing but free slots stays so, with the cookie moved on to
    [n'] over free slots. *)
Lemma removed_near t p last t' n n' k j :
  removed_at t p last t' -> occ t p -> near t p n ->
  (forall i, n <= i < n' -> ~ occ t' i) ->
  NoDup (keys t) -> k <> ekey (tget t p) ->
  (forall q, holds t k q -> near t q n) -> holds t' k j -> near t' j n'.
Proof.
  intros R Ho Hnear Hfree Hnd Hk Hold [Hj Ek] i Hi Hoi.
  destruct (decide (i < n)) as [Hin|]; [|by apply (Hfree i); [lia|]].
  destruct (rem_moved _ _ _ _ R j Hj) as (q & Hq & Hqp & [Es _] & Hm).
  assert (near t q n) as Hqn.
  { apply Hold. split; [done|]. rewrite <- Ek. by apply (f_equal ekey) in Es. }
  destruct (rem_moved _ _ _ _ R i Hoi) as (r & Hr & Hrp & _ & Hmr).
  pose proof (rem_was _ _ _ _ R) as Hwas.
  destruct (decide (n <= p)) as [Hnp|Hnp].
  - apply (Hqn i); [lia|]. by assert (i = r) as -> by lia.
  - assert (~ (n <= last /\ n <> p + 1)) as Hn1.
    { intros [H1 H2]. apply (Hnear (p + 1)); [lia|]. apply Hwas. lia. }
    destruct (decide (p < q)) as [Hpq|].
    + destruct (decide (q < n)); [by apply (Hnear q); [lia|]|lia].
    + by apply (Hqn p); [lia|].
Qed.

(** ** The state of a robust iteration *)

(** The entries an iteration has still to give. *)
Definition left_ (t : list DictEntry) (n : Z) (ins : list DictEntry) : list DictEntry :=
  (set_distance 0 <$> ins) ++ from_slot t n.

(** [c] is the one cookie of [d], robust and at slot [n]; [given] is the key given last. *)
Record walking (d : Dictionary) (c : nat) (t ins : list DictEntry) (n : Z)
    (given : option (list Z * Z)) : Prop := mkWalking {
  wk_core : core d t;
  wk_num : num_entries d = Z.of_nat (length (contents t));
  wk_max : num_entries d <= MAX_ENTRIES;
  wk_log : log2_buckets d < MAX_LOG2;
  wk_order : order d = None;
  wk_iter : num_iterators d = 1;
  wk_cookies : cookies d = Some [c];
  wk_cookie : cookie_heap d !! c = Some (mkCookie true n (Some ins) (Some []));
  wk_next : -1 <= n <= len t;
  wk_occ : 0 <= n < len t -> occ t n;
  wk_begun : given <> None -> 0 <= n;
  wk_nodup : NoDup (ekey <$> left_ t n ins);
  wk_left : forall e, e ∈ left_ t n ins -> e ∈ contents t;
  wk_near : forall k q, given = Some k \/ k ∈ ekey <$> ins -> holds t k q -> near t q n
}.

(** What does not depend on the cookies. *)
Lemma core_same d d' t :
  core d t -> table d' = Some t -> log2_buckets d' = log2_buckets d -> remaps d' = remaps d ->
  remap_end d' = remap_end d -> core d' t.
Proof.
  intros [[V1 V2 V3] C2 C3 C4 C5 C6 C7 C8] E1 E2 E3 E4.
  split; rewrite ?E2, ?E3, ?E4; try done.
  split; [done| |by rewrite E2]. rewrite V2. unfold Capacity. by rewrite E2.
Qed.

(** With an iteration on, a search changes nothing. *)
Lemma LookupIndex_iterating fuel d key ks h r :
  num_iterators d <> 0 -> LookupIndex fuel d key ks h = Ok r -> r.2 = d.
Proof.
  intros Hit. destruct fuel as [|fuel]; [done|]. cbn [LookupIndex].
  destruct (has_table d); [|by intros [= <-]]. cbn [negb].
  destruct (LookupIndex_in _ _ _ _ _ _) as [[pos i]| | |]; [|done..]. cbn [res_bind].
  destruct (0 <=? pos); [by intros [= <-]|].
  destruct (LookupIndex_prev _ _ _ _ _ _) as [pos2| | |]; [|done..]. cbn [res_bind].
  destruct (0 <=? pos2); [|by intros [= <-]].
  destruct (Z.eqb_spec (num_iterators d) 0); [done|]. by intros [= <-].
Qed.

Lemma entry_ok_left d c t ins n g e : walking d c t ins n g -> e ∈ left_ t n ins -> entry_ok e.
Proof.
  intros W He. eapply Forall_forall; [apply (core_ok _ _ (wk_core _ _ _ _ _ _ W))|].
  by apply (wk_left _ _ _ _ _ _ W).
Qed.

Lemma entry_eqb_key y x : entry_ok y -> entry_ok x -> entry_eqb y x = true <-> ekey y = ekey x.
Proof.
  intros Hy [Hks Hh]. unfold entry_eqb. rewrite Hks, Equal_spec by done. unfold ekey, GetKey.
  by rewrite u32_small by done.
Qed.

Lemma remove_all_keys x l :
  entry_ok x -> Forall entry_ok l ->
  set_distance 0 <$> remove_all x l = filter (fun e => ekey e <> ekey x) (set_distance 0 <$> l).
Proof.
  intros Hx. unfold remove_all. induction 1 as [|y l Hy _ IH]; [done|].
  pose proof (entry_eqb_key y x Hy Hx) as E. rewrite fmap_cons.
  destruct (decide (ekey y = ekey x)) as [He|He].
  - rewrite filter_cons_False, filter_cons_False; [done| |].
    + by intros H.
    + rewrite (proj2 E He). done.
  - rewrite filter_cons_True, filter_cons_True, fmap_cons; [by f_equal|done|].
    apply not_true_iff_false. tauto.
Qed.

Lemma AdjustOnRemove_ok d c t n ins vis e p last :
  view d t -> clustered t -> cookie_heap d !! c = Some (mkCookie true n (Some ins) vis) ->
  0 <= n <= len t -> (p < n <= last -> n = p + 1 /\ occ t p) ->
  exists nx, AdjustOnRemove d c e p last =
      Ok (put_cookie d c (mkCookie true nx (Some (remove_all e ins ++ moved_down t p n last)) vis)) /\
    n <= nx <= len t /\ (nx < len t -> occ t nx) /\ (forall i, n <= i < nx -> ~ occ t i).
Proof.
  intros Hv Hc Hk Hn Hin. unfold AdjustOnRemove, get_cookie. rewrite Hk. cbn [res_bind deref inserted next robust visited].
  assert ((if (p <? n) && (n <=? last)
           then
             let! moved := HeadOfClusterByPosition d (n - 1) in
             Ok (remove_all e ins ++ [tbl d (if moved <? p then p else moved)])
           else Ok (remove_all e ins)) = Ok (remove_all e ins ++ moved_down t p n last)) as ->.
  { unfold moved_down. destruct (_ && _) eqn:Hb; [|by rewrite app_nil_r].
    apply andb_true_iff in Hb as [Hb1%Z.ltb_lt Hb2%Z.leb_le]. destruct Hin as [-> Ho]; [lia|].
    replace (p + 1 - 1) with p by lia.
    destruct (HeadOfClusterByPosition_value d t p Hv Hc Ho) as (h & (Hh & _) & E). step_ok E.
    rewrite (view_tbl _ _ _ Hv). do 4 f_equal.
    destruct (Z.eqb_spec h (bkt t p + 1)).
    - destruct (Z.ltb_spec (bkt t p) p); lia.
    - destruct (Z.ltb_spec h p); lia. }
  cbn [res_bind]. rewrite (view_cap _ _ Hv), (view_tbl _ _ _ Hv).
  destruct (Z.ltb_spec n (len t)) as [Hlt|Hge].
  2:{ exists n. split; [done|]. split; [lia|]. split; [lia|]. intros; lia. }
  destruct (Z.ltb_spec n 0); [lia|]. destruct (Empty (tget t n)) eqn:Hem.
  - destruct (Next_spec d t n Hv) as (q & E & H1 & _ & H3 & H4); [lia|]. step_ok E.
    exists q. split; [done|]. split; [lia|]. split; [done|]. intros i Hi.
    destruct (decide (i = n)) as [->|]; [|apply H4; lia]. intros [_ Ho]. congruence.
  - exists n. split; [done|]. split; [lia|]. split; [by split|]. intros; lia.
Qed.

(** ** [NextEntry] *)

(** The cookie moves on to [n'] and [ins'], giving an entry with the key [k]. *)
Lemma walking_on d c t ins n g e ins' n' :
  walking d c t ins n g -> left_ t n ins ≡ₚ e :: left_ t n' ins' ->
  0 <= n' <= len t -> (n' < len t -> occ t n') ->
  (forall k q, k = ekey e \/ k ∈ ekey <$> ins' -> holds t k q -> near t q n') ->
  walking (put_cookie d c (mkCookie true n' (Some ins') (Some []))) c t ins' n' (Some (ekey e)).
Proof.
  intros [] Hp Hn Ho Hnear. split; try done.
  - by apply core_same with d; try done; destruct wk_core0 as [[] ? ? ? ? ? ? ?].
  - cbn. by rewrite lookup_insert_eq.
  - lia.
  - intros ?. apply Ho. lia.
  - intros _. lia.
  - rewrite Hp in wk_nodup0. by apply NoDup_cons in wk_nodup0 as [_ ?].
  - intros x Hx. apply wk_left0. rewrite Hp. by right.
  - intros k q [[= <-]|Hk]; apply Hnear; auto.
Qed.

Lemma walking_get d c t ins n g :
  walking d c t ins n g -> get_cookie d c = Ok (mkCookie true n (Some ins) (Some [])).
Proof. intros W. unfold get_cookie. by rewrite (wk_cookie _ _ _ _ _ _ W). Qed.

(** An entry that had moved in front of the cookie is given from [inserted]. *)
Lemma NextEntry_inserted d c t ins e n g rh :
  walking d c t (ins ++ [e]) n g ->
  let d' := put_cookie d c (mkCookie true n (Some ins) (Some [])) in
  NextEntry d c rh = Ok ((reported rh e).1, (reported rh e).2, true, d') /\
  left_ t n (ins ++ [e]) ≡ₚ set_distance 0 e :: left_ t n ins /\ walking d' c t ins n (Some (ekey e)).
Proof.
  intros W. pose proof (core_view _ _ (wk_core _ _ _ _ _ _ W)) as Hv.
  assert (left_ t n (ins ++ [e]) ≡ₚ set_distance 0 e :: left_ t n ins) as Hp.
  { unfold left_. rewrite fmap_app. rewrite <- app_assoc. symmetry. apply (Permutation_middle (set_distance 0 <$> ins)). }
  assert (0 <= n) as Hn.
  { destruct (decide (0 <= n)) as [|Hneg]; [done|exfalso].
    pose proof (wk_nodup _ _ _ _ _ _ W) as Hnd. rewrite Hp in Hnd. apply NoDup_cons in Hnd as [Hnin _].
    apply Hnin. apply list_elem_of_fmap. exists (set_distance 0 e). split; [done|].
    unfold left_. apply elem_of_app. right. rewrite from_slot_negative by lia.
    apply (wk_left _ _ _ _ _ _ W). rewrite Hp. left. }
  cbn zeta. split; [|split; [done|]].
  - unfold NextEntry. rewrite (view_table _ _ Hv), (walking_get _ _ _ _ _ _ W). cbn [res_bind inserted].
    destruct (ins ++ [e]) as [|e0 l] eqn:E; [by destruct ins|]. rewrite <- E.
    rewrite removelast_last. f_equal. destruct ins as [|i ins]; cbn in E; injection E as <- <-; [done|].
    rewrite last_last. done.
  - apply (walking_on d c t (ins ++ [e]) n g (set_distance 0 e)); try done.
    + pose proof (wk_next _ _ _ _ _ _ W). lia.
    + intros Hl. apply (wk_occ _ _ _ _ _ _ W). lia.
    + intros k q Hk. apply (wk_near _ _ _ _ _ _ W). right. rewrite fmap_app. apply elem_of_app.
      destruct Hk as [->|Hk]; [right; left|by left].
Qed.

(** The slot of the next entry, of a cookie that may not have begun. *)
Lemma cookie_slot d t n :
  view d t -> -1 <= n <= len t -> (0 <= n < len t -> occ t n) ->
  exists q, (if n <? 0 then Next d (-1) else Ok n) = Ok q /\ 0 <= q <= len t /\
    (q < len t -> occ t q) /\ from_slot t n = from_slot t q.
Proof.
  intros Hv Hn Ho. pose proof (buckets_le_len _ _ Hv). destruct (Z.ltb_spec n 0).
  - destruct (Next_spec d t (-1) Hv) as (q & E & H1 & _ & H3 & H4); [lia|].
    exists q. split; [done|]. split; [lia|]. split; [done|].
    rewrite from_slot_negative, <- from_slot_contents by lia. apply from_slot_skip; [lia|lia|].
    intros i Hi. apply H4. lia.
  - exists n. split; [done|]. split; [lia|]. split; [|done]. intros. apply Ho. lia.
Qed.

(** The entries of the table are given in their order, or the iteration ends. *)
Lemma NextEntry_table d c t n g rh :
  walking d c t [] n g ->
  (left_ t n [] = [] /\
   NextEntry d c rh = let! d' := end_iteration d c in Ok (0, None, false, d')) \/
  exists e n', let d' := put_cookie d c (mkCookie true n' (Some []) (Some [])) in
    NextEntry d c rh = Ok ((reported rh e).1, (reported rh e).2, true, d') /\
    left_ t n [] ≡ₚ set_distance 0 e :: left_ t n' [] /\ walking d' c t [] n' (Some (ekey e)).
Proof.
  intros W. pose proof (core_view _ _ (wk_core _ _ _ _ _ _ W)) as Hv.
  destruct (cookie_slot d t n Hv (wk_next _ _ _ _ _ _ W) (wk_occ _ _ _ _ _ _ W)) as (q & Enext & Hq & Hoq & Eq).
  assert (forall K : Z -> res (Z * option (list Z * Z * Z) * bool * Dictionary),
    (let! nx := (if n <? 0 then Next d (-1) else Ok n) in K nx) = K q) as Hbind by (intros K; by rewrite Enext).
  unfold NextEntry, left_. rewrite (view_table _ _ Hv), (walking_get _ _ _ _ _ _ W).
  cbn [res_bind inserted next visited robust fmap list_fmap app]. rewrite Hbind. cbv beta zeta.
  rewrite (view_cap _ _ Hv), (view_tbl _ _ _ Hv), Eq.
  step_assert.
  2:{ apply negb_true_iff, andb_false_iff. destruct (Z.ltb_spec q (len t)); [right|by left]. by apply Hoq. }
  destruct (Z.leb_spec (len t) q) as [Hge|Hlt]; [left|right].
  - unfold from_slot. by rewrite rest_end.
  - pose proof (Hoq Hlt) as Ho. destruct (Next_spec d t q Hv) as (q2 & E & H1 & _ & H3 & H4); [lia|].
    exists (tget t q), q2. rewrite (proj2 Ho). cbn [negb]. rewrite E. cbn [res_bind ASSERT].
    split; [done|]. assert (from_slot t q = set_distance 0 (tget t q) :: from_slot t q2) as Hl.
    { rewrite from_slot_occ by done. f_equal. apply from_slot_skip; [lia|lia|]. intros i Hi. apply H4. lia. }
    split; [by rewrite Hl|].
    apply (walking_on d c t [] n g (set_distance 0 (tget t q))); try done; [|lia|].
    + unfold left_. by rewrite Eq, Hl.
    + intros k j [->|Hk] Hj; [|by apply elem_of_nil in Hk].
      assert (j = q) as ->; [|done].
      by apply (holds_unique t _ j q (core_keys _ _ (wk_core _ _ _ _ _ _ W)) Hj).
Qed.

(** The end of an iteration with one robust cookie, which is unregistered and deleted. *)
Lemma end_robust d c n ins vis :
  num_iterators d = 1 -> cookies d = Some [c] -> cookie_heap d !! c = Some (mkCookie true n ins vis) ->
  end_iteration d c = Ok (set_cookie_heap (delete c (cookie_heap d)) (next_cookie d)
                            (set_cookies (Some []) (set_num_iterators 0 d))).
Proof.
  intros Hit Hcs Hk. unfold end_iteration. rewrite Hit. cbn [Z.ltb Z.compare].
  set (d1 := set_num_iterators _ _). unfold delete_cookie, get_cookie.
  change (cookie_heap d1) with (cookie_heap d). rewrite Hk.
  change (cookies d1) with (cookies d). rewrite Hcs. cbn [res_bind robust deref].
  rewrite filter_cons_False by (by intros H). cbn [filter list_filter length app drop].
  by rewrite bool_decide_eq_false_2 by done.
Qed.

(** A finished iteration leaves the dictionary [d'] with the map [m]. *)
Definition finished (d' : Dictionary) (m : gmap (list Z * Z) Z) : Prop :=
  wf d' /\ quiet d' /\ abs d' = m.

Lemma end_walking d c t ins n g :
  walking d c t ins n g -> exists d', end_iteration d c = Ok d' /\ finished d' (tmap t).
Proof.
  intros W. eexists. split; [by eapply end_robust; apply W|].
  set (d' := set_cookie_heap _ _ _).
  assert (core d' t) as C.
  { apply core_same with d; try done; [apply W|]. by destruct (wk_core _ _ _ _ _ _ W) as [[] ? ? ? ? ? ? ?]. }
  split_and!.
  - apply wf_intro with t; [done|]. exact (wk_num _ _ _ _ _ _ W).
  - split; [done|]. split; [by right|]. exact (wk_order _ _ _ _ _ _ W).
  - by apply core_view_abs, core_view.
Qed.

(** ** [Remove] *)

Lemma removed_elem t p last t' c :
  removed_at t p last t' -> NoDup (keys t) -> c ∈ contents t' -> ekey c <> ekey (tget t p).
Proof.
  intros R Hnd Hc E. rewrite <- (keys_removed _ _ _ _ R) in Hnd. apply NoDup_cons in Hnd as [Hnin _].
  apply Hnin. rewrite <- E. by apply list_elem_of_fmap_2.
Qed.

Lemma moved_down_subset t p last t' n c :
  removed_at t p last t' -> c ∈ moved_down t' p n last -> set_distance 0 c ∈ contents t'.
Proof.
  intros R. unfold moved_down. destruct (_ && _) eqn:Hb; [|intros H; by apply elem_of_nil in H].
  apply andb_true_iff in Hb as [Hb1%Z.ltb_lt Hb2%Z.leb_le].
  intros ->%list_elem_of_singleton. apply elem_of_contents. exists p. split; [|done].
  apply (rem_run _ _ _ _ R). lia.
Qed.

(** What is left to give, after the removal of the entry at [p]. *)
Lemma removed_left d c t ins n g p last t' nx :
  walking d c t ins n g -> occ t p -> removed_at t p last t' -> near t p n ->
  0 <= n <= nx -> nx <= len t' -> (forall i, n <= i < nx -> ~ occ t' i) ->
  left_ t' nx (remove_all (tget t p) ins ++ moved_down t' p n last) ≡ₚ
    filter (fun e => ekey e <> ekey (tget t p)) (left_ t n ins).
Proof.
  intros W Ho R Hnear Hn Hnx Hfree. pose proof (wk_core _ _ _ _ _ _ W) as C.
  pose proof (core_keys _ _ C) as Hnd. pose proof (wk_next _ _ _ _ _ _ W).
  assert (forall l : list DictEntry, (forall e, e ∈ l -> e ∈ contents t') ->
            filter (fun e => ekey e <> ekey (tget t p)) l = l) as Hid.
  { intros l Hl. apply filter_all, Forall_forall. intros e He. by apply (removed_elem _ _ _ _ _ R Hnd), Hl. }
  unfold left_. rewrite filter_app, fmap_app, <- app_assoc.
  rewrite remove_all_keys.
  2:{ by apply core_entry_ok with d. }
  2:{ apply Forall_forall. intros e He. apply (entry_ok_left _ _ _ _ _ _ (set_distance 0 e) W).
      apply elem_of_app. left. by apply list_elem_of_fmap_2. }
  apply Permutation_app_head. rewrite (removed_from_slot t p last t' n R Ho ltac:(lia) Hnear).
  rewrite <- (from_slot_skip t' n nx) by (done || lia).
  rewrite filter_app, (Hid (from_slot t' n)) by (intros e; apply from_slot_subset).
  apply Permutation_app_tail. destruct (Z.leb_spec n p).
  - unfold moved_down. destruct (Z.ltb_spec p n); [lia|]. cbn [andb fmap list_fmap].
    rewrite filter_cons_False; [done|]. by intros Hf.
  - rewrite Hid; [done|]. intros e (x & -> & Hx)%list_elem_of_fmap. by eapply moved_down_subset.
Qed.

(** What the cookie may be asked to remove is still behind free slots only. *)
Lemma removed_walking_near d c t ins n g p last t' nx k q :
  walking d c t ins n g -> occ t p -> removed_at t p last t' -> near t p n ->
  0 <= n <= nx -> (forall i, n <= i < nx -> ~ occ t' i) ->
  g = Some k \/ k ∈ ekey <$> remove_all (tget t p) ins ++ moved_down t' p n last ->
  holds t' k q -> near t' q nx.
Proof.
  intros W Ho R Hnear Hn Hfree Hk Hq. pose proof (wk_core _ _ _ _ _ _ W) as C.
  pose proof (core_keys _ _ C) as Hnd. pose proof (removed_core _ _ _ _ _ C R) as C'.
  pose proof (wk_near _ _ _ _ _ _ W) as wk_near0.
  assert (k <> ekey (tget t p)) as Hkp.
  { intros ->. assert (ekey (tget t p) ∈ keys t') as Hin by (apply elem_of_keys; by exists q).
    apply list_elem_of_fmap in Hin as (e & E & He). by apply (removed_elem _ _ _ _ _ R Hnd He). }
  assert (g = Some k \/ k ∈ ekey <$> ins \/ k ∈ ekey <$> moved_down t' p n last) as [Hg|[Hi|Hm]].
  { destruct Hk as [Hk|Hk]; [by left|right]. apply list_elem_of_fmap in Hk as (e & -> & He).
    apply elem_of_app in He as [He|He]; [left|right]; [|by apply list_elem_of_fmap_2].
    apply list_elem_of_filter in He as [_ He]. by apply list_elem_of_fmap_2. }
  - eapply (removed_near t p last t' n nx k q); try done. intros j. by apply wk_near0; left.
  - eapply (removed_near t p last t' n nx k q); try done. intros j. by apply wk_near0; right.
  - unfold moved_down in Hm. destruct (_ && _) eqn:Hb; [|by apply elem_of_nil in Hm].
    apply andb_true_iff in Hb as [Hb1%Z.ltb_lt Hb2%Z.leb_le].
    apply list_elem_of_singleton in Hm as ->.
    assert (occ t' p) as Hop by (apply (rem_run _ _ _ _ R); lia).
    assert (q = p) as -> by (by apply (holds_unique t' _ q p (core_keys _ _ C') Hq)).
    intros i Hi. destruct (decide (i < n)); [|apply Hfree; lia].
    exfalso. apply (Hnear i); [lia|]. apply (rem_was _ _ _ _ R). lia.
Qed.

(** Every removable key is behind nothing but free slots. *)
Lemma removable_near d c t ins n g k q :
  walking d c t ins n g -> holds t k q -> 0 <= n ->
  g = Some k \/ k ∈ ekey <$> left_ t n ins -> near t q n.
Proof.
  intros W Hq Hn [Hg|Hk]; [apply (wk_near _ _ _ _ _ _ W k q); [by left|done]|].
  unfold left_ in Hk. rewrite fmap_app in Hk. apply elem_of_app in Hk as [Hk|Hk].
  - apply (wk_near _ _ _ _ _ _ W k q); [right|done]. by rewrite <- list_fmap_compose in Hk.
  - apply list_elem_of_fmap in Hk as (e & -> & He). apply elem_of_from_slot in He as (j & Hj & Ho & ->); [|done].
    assert (q = j) as ->.
    { by apply (holds_unique t _ q j (core_keys _ _ (wk_core _ _ _ _ _ _ W)) Hq). }
    intros i Hi. lia.
Qed.

(** The dictionary after [Remove] took the entry out of slot [p] and adjusted the cookie. *)
Definition after_remove (d : Dictionary) (c : nat) (t' ins' : list DictEntry) (nx : Z) : Dictionary :=
  let d := put_cookie (set_table (Some t') d) c (mkCookie true nx (Some ins') (Some [])) in
  set_counts (num_entries d - 1) (max_entries d) (cum_entries d) d.

Lemma removed_walking d c t ins n g p last t' nx :
  walking d c t ins n g -> occ t p -> removed_at t p last t' -> near t p n ->
  0 <= n <= nx -> nx <= len t' -> (nx < len t' -> occ t' nx) -> (forall i, n <= i < nx -> ~ occ t' i) ->
  let ins' := remove_all (tget t p) ins ++ moved_down t' p n last in
  walking (after_remove d c t' ins' nx) c t' ins' nx g.
Proof.
  intros W Ho R Hnear Hn Hnx Hox Hfree ins'. pose proof (wk_core _ _ _ _ _ _ W) as C.
  pose proof (core_keys _ _ C) as Hnd.
  pose proof (removed_left d c t ins n g p last t' nx W Ho R Hnear Hn Hnx Hfree) as Hleft. fold ins' in Hleft.
  pose proof (removed_core _ _ _ _ _ C R) as C'.
  pose proof (Permutation_length (rem_contents _ _ _ _ R)) as Hlen. cbn [length] in Hlen.
  assert (forall e, e ∈ left_ t' nx ins' -> e ∈ contents t') as Hsub.
  { intros e. rewrite Hleft, list_elem_of_filter. intros [Hk He]. apply (wk_left _ _ _ _ _ _ W) in He.
    rewrite <- (rem_contents _ _ _ _ R) in He. apply elem_of_cons in He as [->|]; [done|done]. }
  pose proof W as []. split; try done; cbn [after_remove num_entries set_counts put_cookie set_cookie_heap set_table].
  - by apply core_same with (set_table (Some t') d); try done; destruct C' as [[] ? ? ? ? ? ? ?].
  - lia.
  - lia.
  - cbn. by rewrite lookup_insert_eq.
  - lia.
  - intros [_ ?]. by apply Hox.
  - lia.
  - rewrite Hleft. eapply sublist_NoDup; [exact wk_nodup0|]. apply fmap_sublist, sublist_filter.
  - intros k q. by apply (removed_walking_near d c t ins n g p last t' nx).
Qed.

(** What the cookie's next slot is after the removal of the entry at [p]. *)
Record adjusted (t : list DictEntry) (p n last : Z) (t' : list DictEntry) (nx : Z) : Prop := mkAdjusted {
  adj_removed : removed_at t p last t';
  adj_next : n <= nx <= len t';
  adj_occ : nx < len t' -> occ t' nx;
  adj_free : forall i, n <= i < nx -> ~ occ t' i
}.

Lemma RemoveRelocateAndAdjust_walking d c t ins n g p :
  walking d c t ins n g -> 0 <= n -> occ t p -> near t p n ->
  exists last t' nx, adjusted t p n last t' nx /\
    RemoveRelocateAndAdjust d p = Ok (tget t p,
      put_cookie (set_table (Some t') d) c
        (mkCookie true nx (Some (remove_all (tget t p) ins ++ moved_down t' p n last)) (Some []))).
Proof.
  intros W Hn Ho Hnear. pose proof (wk_core _ _ _ _ _ _ W) as C. pose proof (wk_next _ _ _ _ _ _ W).
  destruct (RemoveAndRelocate_spec d t p (core_view _ _ C) (core_clustered _ _ C) Ho)
    as (last & t' & E & R); [rewrite <- (wk_num _ _ _ _ _ _ W); apply W|].
  pose proof (removed_core _ _ _ _ _ C R) as C'.
  destruct (AdjustOnRemove_ok (set_table (Some t') d) c t' n ins (Some []) (tget t p) p last
              (core_view _ _ C') (core_clustered _ _ C') (wk_cookie _ _ _ _ _ _ W))
    as (nx & E2 & Hnx & Hox & Hfree).
  { rewrite (rem_len _ _ _ _ R). lia. }
  { intros Hin. split; [|apply (rem_run _ _ _ _ R); lia]. destruct (decide (n = p + 1)); [done|].
    exfalso. apply (Hnear (p + 1)); [lia|]. apply (rem_was _ _ _ _ R). lia. }
  exists last, t', nx. split; [by split|]. unfold RemoveRelocateAndAdjust. step_ok E.
  unfold for_all_cookies. change (cookies (set_table (Some t') d)) with (cookies d).
  rewrite (wk_cookies _ _ _ _ _ _ W). cbn [default from_option id for_cookies]. by step_ok E2.
Qed.

(** With an iteration on, the search is the one of the table. *)
Lemma LookupIndex_walking d c t ins n g key h :
  walking d c t ins n g ->
  exists pos out, LookupIndex LOOKUP_FUEL d key (Z.of_nat (length key)) h = Ok (pos, out, d) /\
    ((0 <= pos /\ holds t (key, u32 h) pos) \/ (pos = -1 /\ (key, u32 h) ∉ keys t)).
Proof.
  intros W. pose proof (wk_core _ _ _ _ _ _ W) as C.
  destruct (LookupIndex_spec d t key h C (wk_log _ _ _ _ _ _ W))
    as (pos & out & d1 & t1 & E & C1 & _ & _ & _ & H).
  { rewrite <- (wk_num _ _ _ _ _ _ W). apply W. }
  { right; left. by rewrite (wk_iter _ _ _ _ _ _ W). }
  pose proof (LookupIndex_iterating _ _ _ _ _ _ ltac:(by rewrite (wk_iter _ _ _ _ _ _ W)) E) as Ed.
  cbn [snd] in Ed. subst d1. exists pos, out. split; [done|].
  assert (t1 = t) as ->.
  { pose proof (view_table _ _ (core_view _ _ C1)). rewrite (view_table _ _ (core_view _ _ C)) in *. congruence. }
  destruct H as [?|(? & _ & _ & ? & _)]; [by left|by right].
Qed.

(** [Remove] during the iteration, of a key it may be called for. *)
Lemma Remove_walking d c t ins n g key h :
  walking d c t ins n g -> 0 <= n ->
  g = Some (key, u32 h) \/ (key, u32 h) ∈ ekey <$> left_ t n ins \/ (key, u32 h) ∉ keys t ->
  exists d' t' ins' n', Remove d key (Z.of_nat (length key)) h false =
      Ok (default 0 (tmap t !! (key, u32 h)), d') /\
    walking d' c t' ins' n' g /\ 0 <= n' /\ tmap t' = delete (key, u32 h) (tmap t) /\
    left_ t' n' ins' ≡ₚ filter (fun e => ekey e <> (key, u32 h)) (left_ t n ins).
Proof.
  intros W Hn Hk. pose proof (core_keys _ _ (wk_core _ _ _ _ _ _ W)) as Hnd.
  pose proof (wk_next _ _ _ _ _ _ W) as Hnext. unfold Remove. rewrite ASSERT_true.
  2:{ unfold only_robust_iterators. by rewrite (wk_iter _ _ _ _ _ _ W), (wk_cookies _ _ _ _ _ _ W). }
  cbn [res_bind negb ASSERT].
  destruct (LookupIndex_walking d c t ins n g key h W) as (pos & out & E & H). step_ok E.
  destruct H as [(Hp & Hh)|(-> & Hno)].
  2:{ cbn. exists d, t, ins, n. rewrite tmap_fresh by done. split; [done|]. split; [done|]. split; [done|].
      split; [by rewrite delete_id by (by apply tmap_fresh)|]. rewrite filter_all; [done|].
      apply Forall_forall. intros e He Ee. apply Hno. rewrite <- Ee. apply list_elem_of_fmap_2.
      by apply (wk_left _ _ _ _ _ _ W). }
  destruct (Z.ltb_spec pos 0); [lia|]. pose proof Hh as [Ho Ek].
  assert (near t pos n) as Hnear.
  { apply (removable_near d c t ins n g (key, u32 h)); try done.
    destruct Hk as [Hk|[Hk|Hk]]; [by left|by right|]. exfalso. apply Hk, elem_of_keys. by exists pos. }
  destruct (RemoveRelocateAndAdjust_walking d c t ins n g pos W Hn Ho Hnear)
    as (last & t' & nx & [R Hnx Hox Hfree] & E2). step_ok E2.
  pose proof (removed_walking d c t ins n g pos last t' nx W Ho R Hnear ltac:(lia) ltac:(lia) Hox Hfree) as W'.
  cbn zeta in W'. set (ins' := remove_all _ _ ++ _) in *. fold (after_remove d c t' ins' nx).
  step_assert; [|apply Z.leb_le; rewrite (wk_num _ _ _ _ _ _ W'); lia].
  rewrite (wk_order _ _ _ _ _ _ W'). cbn [res_bind].
  exists (after_remove d c t' ins' nx), t', ins', nx. rewrite (tmap_holds t _ pos Hnd Hh). split; [done|].
  split; [done|]. split; [lia|]. split.
  - rewrite (tmap_cons t' t (tget t pos)); [|done|by rewrite (rem_contents _ _ _ _ R)].
    rewrite Ek, delete_insert_id; [done|]. apply tmap_fresh. rewrite <- Ek.
    by apply (removed_key_fresh d t pos last t'); [apply W|..].
  - rewrite <- Ek. apply (removed_left d c t ins n g pos last t' nx); (done || lia).
Qed.

(** ** The abstract iteration *)

Notation key := (list Z * Z)%type.

(** The whole map, what is left to give of it, and the key given last. *)
Record walk := mkWalk { all_ : gmap key Z; todo : gmap key Z; last_given : option key }.

Inductive event := Gave (k : key) (v : Z) | Ended | Dropped (k : key) (v : Z).

(** The keys [Remove] may be called for between two calls of [NextEntry]: the one given
    last, those not given yet, and those that are in no entry. *)
Definition removable (w : walk) (k : key) : Prop :=
  last_given w <> None /\ (last_given w = Some k \/ is_Some (todo w !! k) \/ all_ w !! k = None).

Inductive walk_step : walk -> event -> walk -> Prop :=
| walk_give w k v : todo w !! k = Some v ->
    walk_step w (Gave k v) (mkWalk (all_ w) (delete k (todo w)) (Some k))
| walk_end w : todo w = ∅ -> walk_step w Ended w
| walk_drop w k : removable w k ->
    walk_step w (Dropped k (default 0 (all_ w !! k)))
      (mkWalk (delete k (all_ w)) (delete k (todo w)) (last_given w)).

(** The dictionary and its cookie at a state of the abstract iteration; a dictionary
    that has no table has nothing to give. *)
Definition robust_rel (d : Dictionary) (c : nat) (w : walk) : Prop :=
  (exists t ins n, walking d c t ins n (last_given w) /\ all_ w = tmap t /\
     todo w = list_to_map (kv <$> left_ t n ins)) \/
  (w = mkWalk ∅ ∅ None /\ table d = None /\ wf d /\ order d = None /\ num_iterators d = 1 /\
   cookies d = Some [c] /\ exists n ins vis, cookie_heap d !! c = Some (mkCookie true n ins vis)).

Lemma begin_robust_ok d :
  wf d -> quiet d -> num_entries d <= MAX_ENTRIES -> log2_buckets d < MAX_LOG2 ->
  exists c d', begin_robust d = Ok (c, d') /\ robust_rel d' c (mkWalk (abs d) (abs d) None) /\
    num_entries d' = num_entries d.
Proof.
  intros Hwf (Hit & Hck & Ho) Hmax Hlog. exists (next_cookie d).
  unfold begin_robust, InitForIteration. rewrite Hit. change (u16 (0 + 1)) with 1.
  set (d1 := set_cookie_heap _ _ _). unfold MakeRobustCookie, get_cookie.
  assert (cookie_heap d1 !! next_cookie d = Some (mkCookie false (-1) None None)) as -> by apply lookup_insert_eq.
  cbn [res_bind next Z.ltb Z.compare ASSERT].
  assert (default [] (cookies d1) = []) as -> by (by destruct Hck as [H|H]; cbn; rewrite H).
  set (d2 := set_cookies _ _). exists d2. split; [done|].
  split; [|done].
  assert (cookie_heap d2 !! next_cookie d = Some (mkCookie true (-1) (Some []) (Some []))) as Hk
    by apply lookup_insert_eq.
  destruct (table d) as [t|] eqn:Et; [left|right].
  - destruct (wf_table d t Hwf Et) as (C & Hn & Ha & _).
    exists t, [], (-1). cbn [all_ todo last_given]. unfold left_. cbn [fmap list_fmap app].
    rewrite from_slot_negative by lia. split; [|by split].
    split; try done; unfold left_; cbn [fmap list_fmap app]; rewrite ?from_slot_negative by lia.
    + apply core_same with d; try done.
    + unfold len. lia.
    + lia.
    + apply C.
    + intros k q [H|H]; [done|by apply elem_of_nil in H].
  - unfold wf in Hwf. rewrite Et in Hwf. rewrite abs_no_table by done. split; [done|].
    split_and!; try done; [|by eexists _, _, _].
    unfold wf. change (table d2) with (table d). by rewrite Et.
Qed.

(** ** The dictionary follows the abstract iteration *)

Section Follow.
Context (d : Dictionary) (c : nat) (t ins : list DictEntry) (n : Z) (g : option key).
Hypothesis W : walking d c t ins n g.

Lemma todo_lookup k :
  (list_to_map (kv <$> left_ t n ins) : gmap key Z) !! k = None <-> k ∉ ekey <$> left_ t n ins.
Proof using.
  rewrite <- fst_kv. split; [apply not_elem_of_list_to_map_2|apply not_elem_of_list_to_map_1].
Qed.

Lemma todo_filter k l' :
  l' ≡ₚ filter (fun e => ekey e <> k) (left_ t n ins) ->
  (list_to_map (kv <$> l') : gmap key Z) = delete k (list_to_map (kv <$> left_ t n ins)).
Proof using W.
  intros Hp. pose proof (wk_nodup _ _ _ _ _ _ W) as Hnd. set (l := left_ t n ins) in *.
  assert (NoDup (ekey <$> l')) as Hnd'.
  { rewrite Hp. eapply sublist_NoDup; [exact Hnd|]. apply fmap_sublist, sublist_filter. }
  apply map_eq. intros k'. apply option_eq. intros v.
  rewrite lookup_delete_Some, <- !elem_of_list_to_map by (by rewrite fst_kv).
  rewrite !list_elem_of_fmap. split.
  - intros (e & E & He). rewrite Hp in He. apply list_elem_of_filter in He as [Hk He].
    injection E as Ek Ev. split; [congruence|]. by exists e; rewrite Ek, Ev.
  - intros [Hk (e & E & He)]. exists e. split; [done|]. rewrite Hp. apply list_elem_of_filter.
    split; [|done]. injection E as -> ->. done.
Qed.

Lemma todo_subset e : e ∈ left_ t n ins -> tmap t !! ekey e = Some (value e).
Proof using W.
  intros He. apply (wk_left _ _ _ _ _ _ W) in He. apply elem_of_list_to_map_1.
  - rewrite fst_kv. apply (core_keys _ _ (wk_core _ _ _ _ _ _ W)).
  - by apply (list_elem_of_fmap_2 kv).
Qed.
End Follow.

(** The entry of an iteration step, and what is left. *)
Lemma give_walking d c t ins n g :
  walking d c t ins n g ->
  (left_ t n ins = [] /\
   NextEntry d c true = let! d' := end_iteration d c in Ok (0, None, false, d')) \/
  exists e ins' n' d', NextEntry d c true =
      Ok (value e, Some (key_bytes e, Z.of_nat (length (key_bytes e)), hash e), true, d') /\
    left_ t n ins ≡ₚ set_distance 0 e :: left_ t n' ins' /\ walking d' c t ins' n' (Some (ekey e)).
Proof.
  intros W.
  assert (forall e l, left_ t n ins ≡ₚ set_distance 0 e :: l ->
            reported true e = (value e, Some (key_bytes e, Z.of_nat (length (key_bytes e)), hash e))) as Hr.
  { intros e l Hp. assert (entry_ok (set_distance 0 e)) as [Hks _].
    { apply (entry_ok_left d c t ins n g); [done|]. rewrite Hp. left. }
    unfold reported, GetKey. cbn in Hks. by rewrite Hks. }
  destruct ins as [|e ins _] using rev_ind.
  - destruct (NextEntry_table d c t n g true W) as [?|(e & n' & E & Hp & W')]; [by left|right].
    rewrite (Hr _ _ Hp) in E. by exists e, [], n', (put_cookie d c (mkCookie true n' (Some []) (Some []))).
  - right. destruct (NextEntry_inserted d c t ins e n g true W) as (E & Hp & W').
    rewrite (Hr _ _ Hp) in E. by exists e, ins, n, (put_cookie d c (mkCookie true n (Some ins) (Some []))).
Qed.

Lemma give_ok d c w :
  robust_rel d c w ->
  (todo w = ∅ /\ exists d', NextEntry d c true = Ok (0, None, false, d') /\ finished d' (all_ w)) \/
  exists k h v d', todo w !! (k, h) = Some v /\
    NextEntry d c true = Ok (v, Some (k, Z.of_nat (length k), h), true, d') /\
    robust_rel d' c (mkWalk (all_ w) (delete (k, h) (todo w)) (Some (k, h))).
Proof.
  intros [(t & ins & n & W & Ha & Ht)|(-> & Et & Hwf & Ho & Hit & Hcs & n & ins & vis & Hk)].
  - destruct (give_walking _ _ _ _ _ _ W) as [(Hl & E)|(e & ins' & n' & d' & E & Hp & W')].
    + left. rewrite Ht, Hl. split; [done|]. destruct (end_walking _ _ _ _ _ _ W) as (d' & E' & F).
      exists d'. rewrite E, E'. split; [done|]. by rewrite Ha.
    + right. exists (key_bytes e), (hash e), (value e), d'. pose proof (wk_nodup _ _ _ _ _ _ W) as Hnd.
      split; [|split; [done|]].
      * rewrite Ht. apply elem_of_list_to_map_1; [by rewrite fst_kv|].
        rewrite Hp. left.
      * left. exists t, ins', n'. cbn [all_ todo last_given]. split; [done|]. split; [done|].
        rewrite Ht. symmetry. change (key_bytes e, hash e) with (ekey e).
        rewrite (todo_filter d c t ins n _ W (ekey e) (left_ t n' ins')); [done|].
        rewrite Hp in Hnd |- *. apply NoDup_cons in Hnd as [Hnin _].
        rewrite filter_cons_False by (by intros H). rewrite filter_all; [done|].
        apply Forall_forall. intros x Hx Ex. apply Hnin. change (ekey e ∈ ekey <$> left_ t n' ins').
        rewrite <- Ex. by apply list_elem_of_fmap_2.
  - left. split; [done|]. unfold NextEntry. rewrite Et, (end_robust _ _ _ _ _ Hit Hcs Hk).
    eexists. split; [done|]. unfold wf in Hwf. rewrite Et in Hwf. split_and!.
    + unfold wf. cbn [table set_cookie_heap set_cookies set_num_iterators]. by rewrite Et.
    + by split; [|split; [by right|]].
    + by apply abs_no_table.
Qed.

Lemma drop_ok d c w k h :
  robust_rel d c w -> removable w (k, u32 h) ->
  exists d', Remove d k (Z.of_nat (length k)) h false = Ok (default 0 (all_ w !! (k, u32 h)), d') /\
    robust_rel d' c (mkWalk (delete (k, u32 h) (all_ w)) (delete (k, u32 h) (todo w)) (last_given w)).
Proof.
  intros [(t & ins & n & W & Ha & Ht)|(-> & _)] [Hg Hr]; [|done].
  pose proof (wk_begun _ _ _ _ _ _ W Hg) as Hn.
  destruct (Remove_walking d c t ins n _ k h W Hn) as (d' & t' & ins' & n' & E & W' & _ & Em & Hp).
  - destruct Hr as [Hr|[Hr|Hr]]; [by left|right; left|right; right].
    + apply dec_stable. intros Hno. apply todo_lookup in Hno. rewrite Ht, Hno in Hr. by destruct Hr.
    + rewrite Ha in Hr. intros (i & Hi)%elem_of_keys.
      rewrite (tmap_holds t _ i (core_keys _ _ (wk_core _ _ _ _ _ _ W)) Hi) in Hr. done.
  - exists d'. rewrite Ha. split; [done|]. left. exists t', ins', n'. cbn [all_ todo last_given].
    split; [done|]. split; [done|]. rewrite Ht. symmetry.
    by apply (todo_filter d c t ins n _ W).
Qed.

(** C7: A robust iteration over any dictionary implements the abstract one: [NextEntry]
    gives an entry not given yet, or ends when there is none and leaves the dictionary
    valid; [Remove] between two calls, of the key given last, of a key not given yet or
    of one that is absent, takes it out of the map and of what is left, and the entries
    it relocates are given exactly once all the same. *)
Theorem robust_refines d c w :
  robust_rel d c w ->
  ((exists d', NextEntry d c true = Ok (0, None, false, d') /\ walk_step w Ended w /\ finished d' (all_ w)) \/
   (exists k h v d' w', NextEntry d c true = Ok (v, Some (k, Z.of_nat (length k), h), true, d') /\
      walk_step w (Gave (k, h) v) w' /\ robust_rel d' c w')) /\
  (forall k h, removable w (k, u32 h) -> exists v d' w',
      Remove d k (Z.of_nat (length k)) h false = Ok (v, d') /\
      walk_step w (Dropped (k, u32 h) v) w' /\ robust_rel d' c w').
Proof.
  intros R. split.
  - destruct (give_ok d c w R) as [(Ht & d' & E & F)|(k & h & v & d' & Ht & E & R')]; [left|right].
    + exists d'. split; [done|]. split; [by constructor|done].
    + exists k, h, v, d', (mkWalk (all_ w) (delete (k, h) (todo w)) (Some (k, h))).
      split; [done|]. split; [by constructor|done].
  - intros k h Hr. destruct (drop_ok d c w k h R Hr) as (d' & E & R').
    eexists _, d', _. split; [done|]. split; [by constructor|done].
Qed.

Lemma sample_robust :
  exists c d, begin_robust sample_dict = Ok (c, d) /\
    robust_rel d c (mkWalk (abs sample_dict) (abs sample_dict) None).
Proof.
  destruct (begin_robust_ok sample_dict sample_wf sample_quiet ltac:(by vm_compute) ltac:(by vm_compute))
    as (c & d & E & R & _). by exists c, d.
Qed.

Lemma robust_refines_witness :
  exists c d1 k h v d2 w, begin_robust sample_dict = Ok (c, d1) /\
    NextEntry d1 c true = Ok (v, Some (k, Z.of_nat (length k), h), true, d2) /\ robust_rel d2 c w.
Proof.
  destruct sample_robust as (c & d1 & E & R). exists c, d1.
  destruct (robust_refines d1 c _ R) as [[(d' & _ & S & _)|(k & h & v & d' & w' & E2 & _ & R')] _].
  - exfalso. inversion S as [|w Ht|]. apply (f_equal (lookup ([3], 21))) in Ht. vm_compute in Ht. discriminate.
  - exists k, h, v, d', w'. split; [exact E|]. split; [exact E2|exact R'].
Defined.

(** ** A client's loop: remove what is stale *)

Fixpoint expire (stale : key -> Z -> bool) (fuel : nat) (d : Dictionary) (c : nat)
    : res (list (key * Z) * Dictionary) :=
  match fuel with
  | O => NoFuel
  | S fuel =>
      let! (v, hk, valid, d) := NextEntry d c true in
      if negb valid then Ok ([], d)
      else
        match hk with
        | None => UB
        | Some (k, ks, h) =>
            let! d := (if stale (k, h) v then let! (_, d) := Remove d k ks h false in Ok d else Ok d) in
            let! (seen, d) := expire stale fuel d c in
            Ok (((k, h), v) :: seen, d)
        end
  end.

Definition expire_all (stale : key -> Z -> bool) (d : Dictionary) : res (list (key * Z) * Dictionary) :=
  let! (c, d) := begin_robust d in expire stale (S (Z.to_nat (num_entries d))) d c.

(** What [expire] leaves in the map when [l] is still to be given. *)
Definition kept (stale : key -> Z -> bool) (m l : gmap key Z) : gmap key Z :=
  filter (fun kv => l !! kv.1 = None \/ stale kv.1 kv.2 = false) m.

Lemma kept_give stale m l k v :
  m !! k = Some v -> l !! k = Some v ->
  kept stale (if stale k v then delete k m else m) (delete k l) = kept stale m l.
Proof.
  intros Hm Hl. apply map_eq. intros k'. apply option_eq. intros v'. unfold kept.
  rewrite !map_lookup_filter_Some. cbn [fst snd]. destruct (decide (k' = k)) as [->|Hne].
  - rewrite lookup_delete_eq, Hm, Hl. destruct (stale k v) eqn:Es.
    + rewrite lookup_delete_eq. naive_solver congruence.
    + rewrite Hm. naive_solver.
  - rewrite (lookup_delete_ne l) by done. destruct (stale k v); [|done]. by rewrite lookup_delete_ne by done.
Qed.

Lemma robust_rel_range d c w k h v :
  robust_rel d c w -> todo w !! (k, h) = Some v -> u32 h = h /\ all_ w !! (k, h) = Some v.
Proof.
  intros [(t & ins & n & W & Ha & Ht)|(-> & _)]; [|done]. rewrite Ht. intros E.
  apply elem_of_list_to_map_2, list_elem_of_fmap in E as (e & [= -> -> ->] & He).
  rewrite Ha. split; [|by apply (todo_subset d c t ins n (last_given w) W)].
  apply u32_small. by apply (entry_ok_left _ _ _ _ _ _ _ W).
Qed.

Lemma expire_ok stale fuel d c w :
  robust_rel d c w -> (size (todo w) < fuel)%nat ->
  exists seen d', expire stale fuel d c = Ok (seen, d') /\ seen ≡ₚ map_to_list (todo w) /\
    finished d' (kept stale (all_ w) (todo w)).
Proof.
  revert d w. induction fuel as [|fuel IH]; intros d w R Hf; [lia|]. cbn [expire].
  destruct (give_ok d c w R) as [(Ht & d' & E & F)|(k & h & v & d' & Ht & E & R')]; step_ok E; cbn [negb].
  - exists [], d'. split; [done|]. rewrite Ht, map_to_list_empty. split; [done|].
    unfold kept. rewrite map_filter_id; [done|]. intros i x _. by left.
  - destruct (robust_rel_range d c w k h v R Ht) as [Hh Ha].
    assert (size (delete (k, h) (todo w)) < fuel)%nat as Hs.
    { rewrite <- (insert_delete_id (todo w) (k, h) v Ht), map_size_insert_None in Hf by apply lookup_delete_eq. lia. }
    assert (exists d2, (if stale (k, h) v then let! (_, d) := Remove d' k (Z.of_nat (length k)) h false in Ok d
                        else Ok d') = Ok d2 /\
              robust_rel d2 c (mkWalk (if stale (k, h) v then delete (k, h) (all_ w) else all_ w)
                                 (delete (k, h) (todo w)) (Some (k, h)))) as (d2 & E2 & R2).
    { destruct (stale (k, h) v); [|by exists d'].
      destruct (drop_ok d' c _ k h R') as (d2 & E2 & R2).
      { split; [done|]. left. cbn. by rewrite Hh. }
      exists d2. rewrite E2. split; [done|]. rewrite Hh in R2. cbn [all_ todo last_given] in R2.
      by rewrite delete_delete_eq in R2. }
    step_ok E2. destruct (IH d2 _ R2 Hs) as (seen & d3 & E3 & Hp & F). step_ok E3.
    exists (((k, h), v) :: seen), d3. split; [done|]. cbn [all_ todo] in Hp, F. split.
    + rewrite Hp. by rewrite <- (map_to_list_delete (todo w) (k, h) v Ht).
    + by rewrite (kept_give stale _ _ _ _ Ha Ht) in F.
Qed.

(** C9: A loop over a robust iteration that removes the entries it is given and finds
    stale ends, is given every entry of the dictionary exactly once with its value, and
    leaves the map of those that were not stale. *)
Theorem expire_visits_all stale d :
  wf d -> quiet d -> num_entries d <= MAX_ENTRIES -> log2_buckets d < MAX_LOG2 ->
  exists seen d', expire_all stale d = Ok (seen, d') /\ seen ≡ₚ map_to_list (abs d) /\
    wf d' /\ quiet d' /\ abs d' = filter (fun kv => stale kv.1 kv.2 = false) (abs d).
Proof.
  intros Hwf Hq Hmax Hlog. destruct (begin_robust_ok d Hwf Hq Hmax Hlog) as (c & d1 & E & R & Hn).
  unfold expire_all. step_ok E. rewrite Hn.
  destruct (expire_ok stale (S (Z.to_nat (num_entries d))) d1 c _ R) as (seen & d2 & E2 & Hp & F1 & F2 & F3).
  { rewrite (num_entries_abs _ Hwf), Nat2Z.id. apply Nat.lt_succ_diag_r. }
  exists seen, d2. split; [done|]. split; [done|]. split; [done|]. split; [done|]. rewrite F3.
  apply map_filter_ext. cbn. intros k v Hk. rewrite Hk. naive_solver.
Qed.

Lemma expire_visits_all_witness :
  exists seen d', expire_all (fun _ v => Z.odd v) sample_dict = Ok (seen, d') /\
    seen ≡ₚ map_to_list (abs sample_dict) /\ wf d'.
Proof.
  destruct (expire_visits_all (fun _ v => Z.odd v) sample_dict sample_wf sample_quiet ltac:(by vm_compute)
              ltac:(by vm_compute)) as (seen & d' & E & Hp & H & _).
  exists seen, d'. exact (conj E (conj Hp H)).
Defined.

(** ** Removals that break the iteration *)

Fixpoint takes (n : nat) (d : Dictionary) (c : nat) : res (list Z * Dictionary) :=
  match n with
  | O => Ok ([], d)
  | S n =>
      let! (v, _, valid, d) := NextEntry d c false in
      if negb valid then Ok ([], d) else let! (vs, d) := takes n d c in Ok (v :: vs, d)
  end.

(** Five keys, two clusters; key 1 is removed after four calls of [NextEntry]. *)
Definition remove_given : res (list Z * list Z * Dictionary) :=
  let! d := new_Dictionary UNORDERED 8 in
  let! d := put_all 1 [0; 8; 16; 1; 9] d in
  let! (c, d) := begin_robust d in
  let! (before, d) := takes 4 d c in
  let! (_, d) := Remove d [1] 1 (hash_for 0) false in
  let! (after, d) := takes 10 d c in
  Ok (before, after, d).

(** The removal of an entry given earlier can make a robust iteration miss an entry
    that stays and give another one twice: [HeadOfClusterByPosition] returns the slot of
    another cluster, so the cookie is told of the wrong entry. *)
Theorem robust_iteration_misses_kept :
  exists d, remove_given = Ok ([1; 2; 3; 4], [2], d) /\
    (exists d', Lookup d [5] 1 (hash_for 9) = Ok (5, d')).
Proof.
  exists (match remove_given with Ok (_, _, d) => d | _ => get (new_Dictionary UNORDERED 8) end).
  split; [vm_compute; reflexivity|]. eexists; vm_compute; reflexivity.
Qed.

(** Before the first call of [NextEntry] a removal reads [table[-1]]. *)
Lemma remove_before_begin :
  (let! d := new_Dictionary UNORDERED 8 in
   let! d := put_all 1 [0; 1] d in
   let! (c, d) := begin_robust d in
   Remove d [1] 1 (hash_for 0) false) = UB.
Proof. vm_compute. reflexivity. Qed.
