(* ===== verification/Time.v ===== *)
(** * Times: the [double]s the queues are ordered by

    A [double] is a [spec_float] of the Standard Library, [<] is [SFltb].  Away from
    NaN it is the order of [rank], a total preorder; the class [TimeOrder] is what
    the heap theory asks of a key order. *)

From Stdlib Require Export SpecFloat.
From S2P Require Export Prelude.

(** What the heap algorithms need: a boolean [<] whose negation, turned round, is a
    total preorder. *)
Class TimeOrder (K : Type) := {
  ltb : K -> K -> bool;
  ltb_irrefl : forall x, ltb x x = false;
  ltb_asym : forall x y, ltb x y = true -> ltb y x = false;
  ltb_neg_trans : forall x y z, ltb y x = false -> ltb z y = false -> ltb z x = false
}.

Definition le {K} `{TimeOrder K} (x y : K) : Prop := ltb y x = false.

Section Order.
Context {K : Type} `{TimeOrder K}.

#[export] Instance le_preorder : PreOrder (le (K:=K)).
Proof.
  split; [exact ltb_irrefl|]. intros x y z H1 H2. exact (ltb_neg_trans x y z H1 H2).
Qed.

Lemma ltb_le x y : ltb x y = true -> le x y.
Proof. exact (ltb_asym x y). Qed.

Lemma le_total x y : le x y \/ le y x.
Proof. unfold le. destruct (ltb y x) eqn:E; [right; by apply ltb_asym|by left]. Qed.

#[export] Instance le_dec x y : Decision (le x y) := decide (ltb y x = false).
End Order.

(** ** The order of [double]s *)

Definition time_t : Type := spec_float.

Definition not_nan (t : time_t) : bool := match t with S754_nan => false | _ => true end.

(** [-HUGE_VAL]. *)
Definition MINUS_HUGE_VAL : time_t := S754_infinity true.

(** Infinities, signs, then exponent and mantissa. *)
Definition rank (t : time_t) : Z * Z * Z :=
  match t with
  | S754_infinity true => (0, 0, 0)
  | S754_finite true m e => (1, - e, - Z.pos m)
  | S754_zero _ => (2, 0, 0)
  | S754_finite false m e => (3, e, Z.pos m)
  | S754_infinity false => (4, 0, 0)
  | S754_nan => (5, 0, 0)
  end.

Definition rank_ltb (a b : Z * Z * Z) : bool :=
  let '(a1, a2, a3) := a in let '(b1, b2, b3) := b in
  (a1 <? b1) || (a1 =? b1) && ((a2 <? b2) || (a2 =? b2) && (a3 <? b3)).

Lemma rank_ltb_iff a1 a2 a3 b1 b2 b3 :
  rank_ltb (a1, a2, a3) (b1, b2, b3) = true <->
  a1 < b1 \/ (a1 = b1 /\ (a2 < b2 \/ (a2 = b2 /\ a3 < b3))).
Proof.
  cbn. rewrite orb_true_iff, andb_true_iff, orb_true_iff, andb_true_iff.
  by rewrite !Z.ltb_lt, !Z.eqb_eq.
Qed.

Lemma rank_ltb_false a1 a2 a3 b1 b2 b3 :
  rank_ltb (a1, a2, a3) (b1, b2, b3) = false <->
  ~ (a1 < b1 \/ (a1 = b1 /\ (a2 < b2 \/ (a2 = b2 /\ a3 < b3)))).
Proof. by rewrite <- not_true_iff_false, rank_ltb_iff. Qed.

#[export] Instance rank_order : TimeOrder (Z * Z * Z).
Proof.
  refine {| ltb := rank_ltb |}.
  - intros [[a b] c]. apply rank_ltb_false. lia.
  - intros [[a b] c] [[a' b'] c'] H. apply rank_ltb_iff in H. apply rank_ltb_false. lia.
  - intros [[a b] c] [[a' b'] c'] [[a'' b''] c''] H1 H2.
    apply rank_ltb_false in H1, H2. apply rank_ltb_false. lia.
Defined.

(** Away from NaN, [<] on [double]s is the order of ranks. *)
Lemma SFltb_rank a b : not_nan a = true -> not_nan b = true -> SFltb a b = ltb (rank a) (rank b).
Proof.
  intros Ha Hb. unfold SFltb.
  destruct a as [sa|sa| |sa ma ea]; try discriminate;
  destruct b as [sb|sb| |sb mb eb]; try discriminate; try (by destruct sa, sb); try (by destruct sa);
  try (by destruct sb).
  change (ltb (rank (S754_finite sa ma ea)) (rank (S754_finite sb mb eb)))
    with (rank_ltb (rank (S754_finite sa ma ea)) (rank (S754_finite sb mb eb))).
  destruct sa, sb; cbn [SFcompare rank rank_ltb]; try done.
  - cbn [Z.ltb Z.eqb Z.compare Pos.compare Pos.eqb Pos.compare_cont orb andb].
    destruct (Z.compare_spec ea eb).
    + subst. change (Pos.compare_cont Eq ma mb) with (ma ?= mb)%positive.
      destruct (Pos.compare_spec ma mb); cbn [CompOpp];
      destruct (Z.ltb_spec (- eb) (- eb)), (Z.eqb_spec (- eb) (- eb)), (Z.ltb_spec (Z.neg ma) (Z.neg mb)); try lia; done.
    + destruct (Z.ltb_spec (- ea) (- eb)), (Z.eqb_spec (- ea) (- eb)); try lia; done.
    + destruct (Z.ltb_spec (- ea) (- eb)); try lia; done.
  - cbn [Z.ltb Z.eqb Z.compare Pos.compare Pos.eqb Pos.compare_cont orb andb].
    destruct (Z.compare_spec ea eb).
    + subst. change (Pos.compare_cont Eq ma mb) with (ma ?= mb)%positive.
      destruct (Pos.compare_spec ma mb);
      destruct (Z.ltb_spec eb eb), (Z.eqb_spec eb eb), (Z.ltb_spec (Z.pos ma) (Z.pos mb)); try lia; done.
    + destruct (Z.ltb_spec ea eb); try lia; done.
    + destruct (Z.ltb_spec ea eb), (Z.eqb_spec ea eb); try lia; done.
Qed.

(** Nothing is before [-HUGE_VAL]. *)
Lemma MINUS_HUGE_VAL_least t : le (rank MINUS_HUGE_VAL) (rank t).
Proof. by destruct t as [| |? |[]]; try destruct s. Qed.
