(* ===== verification/Doubles.v ===== *)
(** * Integers as [double]s

    The conversion of an [int] to [double], exact below 2^53 and in the order of the
    integers, and the subtraction, addition and division of the clock arithmetic. *)

From S2P Require Import Prelude Time.

(** [(double) z], [x + y], [x - y] and [x / y], rounded to nearest. *)
Definition int_double (z : Z) : time_t := binary_normalize 53 1024 z 0 false.
Definition double_add : time_t -> time_t -> time_t := SFadd 53 1024.
Definition double_sub : time_t -> time_t -> time_t := SFsub 53 1024.
Definition double_div : time_t -> time_t -> time_t := SFdiv 53 1024.

(** ** The result is a number *)

Definition shr_ok (r : shr_record) : Prop := 0 <= shr_m r.

Lemma shr_1_ok r : shr_ok r -> shr_ok (shr_1 r).
Proof. unfold shr_ok. destruct r as [[|[p|p|]|p] r s]; cbn; lia. Qed.

Lemma iter_pos_ok (p : positive) r : shr_ok r -> shr_ok (SpecFloat.iter_pos shr_1 p r).
Proof. revert r. induction p as [p IH|p IH|]; intros r Hr; cbn; auto using shr_1_ok. Qed.

Lemma shr_fexp_ok m e l : 0 <= m -> shr_ok (fst (shr_fexp 53 1024 m e l)).
Proof.
  intros Hm. unfold shr_fexp, shr.
  assert (shr_ok (shr_record_of_loc m l)) as H by (by destruct l as [|[]]).
  destruct (_ - e); cbn [fst]; auto using iter_pos_ok.
Qed.

Lemma round_nearest_even_ok m l : 0 <= m -> 0 <= round_nearest_even m l.
Proof. intros Hm. destruct l as [|[]]; cbn; try lia. destruct (Z.even m); lia. Qed.

Lemma binary_round_aux_not_nan s m e l : 0 <= m -> not_nan (binary_round_aux 53 1024 s m e l) = true.
Proof.
  intros Hm. unfold binary_round_aux.
  pose proof (shr_fexp_ok m e l Hm) as H1. destruct (shr_fexp 53 1024 m e l) as [r1 e1]. cbn [fst] in H1.
  pose proof (shr_fexp_ok _ e1 loc_Exact (round_nearest_even_ok _ (loc_of_shr_record r1) H1)) as H2.
  destruct (shr_fexp _ _ _ e1 _) as [r2 e2]. cbn [fst] in H2. unfold shr_ok in H2.
  destruct (shr_m r2); [done| |lia]. by destruct (Z.leb _ _).
Qed.

Lemma int_double_not_nan z : not_nan (int_double z) = true.
Proof.
  unfold int_double, binary_normalize, binary_round. destruct z as [|p|p]; [done|..];
    destruct (shl_align _ _ _); by apply binary_round_aux_not_nan.
Qed.

(** ** The conversion is exact *)

Definition digits (p : positive) : Z := Z.pos (digits2_pos p).

Lemma digits_bound p : 2 ^ (digits p - 1) <= Z.pos p < 2 ^ digits p.
Proof.
  unfold digits. induction p as [p IH|p IH|]; cbn [digits2_pos]; [..|done];
    rewrite Pos2Z.inj_succ; replace (Z.succ (Z.pos (digits2_pos p)) - 1) with (Z.succ (Z.pos (digits2_pos p) - 1)) by lia;
    rewrite !Z.pow_succ_r by lia; lia.
Qed.

Lemma digits_lt p q : digits p < digits q -> Z.pos p < Z.pos q.
Proof.
  intros H. pose proof (digits_bound p). pose proof (digits_bound q).
  pose proof (Z.pow_le_mono_r 2 (digits p) (digits q - 1)). lia.
Qed.

Lemma digits_53 p : Z.pos p < 2 ^ 53 -> 0 < digits p <= 53.
Proof.
  intros H. split; [done|]. pose proof (digits_bound p).
  destruct (Z.le_gt_cases (digits p) 53) as [|Hd]; [done|].
  pose proof (Z.pow_le_mono_r 2 53 (digits p - 1)). lia.
Qed.

Lemma digits_shift p k : digits (Pos.iter xO p k) = digits p + Z.pos k.
Proof.
  induction k as [|k IH] using Pos.peano_ind; [unfold digits; cbn; lia|].
  rewrite Pos.iter_succ. unfold digits in *. cbn [digits2_pos]. lia.
Qed.

Lemma shift_pos_mul p k : Z.pos (Pos.iter xO p k) = Z.pos p * 2 ^ Z.pos k.
Proof.
  induction k as [|k IH] using Pos.peano_ind; [cbn; lia|].
  rewrite Pos.iter_succ, Pos2Z.inj_succ, Z.pow_succ_r by lia. lia.
Qed.

(** A mantissa of 53 digits is not rounded. *)
Lemma binary_round_aux_exact s m e :
  digits m = 53 -> -1074 <= e <= 971 -> binary_round_aux 53 1024 s (Z.pos m) e loc_Exact = S754_finite s m e.
Proof.
  intros Hd He. unfold binary_round_aux, shr_fexp. cbn [Zdigits2]. unfold digits in Hd. rewrite Hd.
  assert (fexp 53 1024 (53 + e) - e = 0) as -> by (unfold fexp, emin; lia).
  cbn [shr shr_record_of_loc shr_m loc_of_shr_record round_nearest_even Zdigits2]. rewrite Hd.
  assert (fexp 53 1024 (53 + e) - e = 0) as -> by (unfold fexp, emin; lia).
  cbn [shr shr_record_of_loc shr_m]. by rewrite (proj2 (Z.leb_le e (1024 - 53))) by lia.
Qed.

Lemma int_double_exact p :
  Z.pos p < 2 ^ 53 ->
  exists m, int_double (Z.pos p) = S754_finite false m (digits p - 53) /\
    Z.pos m = Z.pos p * 2 ^ (53 - digits p).
Proof.
  intros Hp. pose proof (digits_53 p Hp) as Hd. unfold int_double, binary_normalize, binary_round.
  fold (digits p). unfold shl_align.
  assert (fexp 53 1024 (digits p + 0) = digits p - 53) as -> by (unfold fexp, emin; lia).
  destruct (digits p - 53 - 0) as [|k|k] eqn:Ek; [|lia|].
  - exists p. rewrite binary_round_aux_exact by lia. split; [f_equal; lia|].
    replace (53 - digits p) with 0 by lia. lia.
  - exists (Pos.iter xO p k). rewrite binary_round_aux_exact; [|rewrite digits_shift; lia|lia].
    split; [done|]. rewrite shift_pos_mul. by replace (53 - digits p) with (Z.pos k) by lia.
Qed.

(** ** The order is kept *)

Lemma int_double_ltb a b :
  0 < a < 2 ^ 53 -> 0 < b < 2 ^ 53 -> ltb (rank (int_double a)) (rank (int_double b)) = (a <? b).
Proof.
  destruct a as [|p|p]; try lia. destruct b as [|q|q]; try lia. intros Hp Hq.
  destruct (int_double_exact p) as (m & -> & Hm); [lia|].
  destruct (int_double_exact q) as (m' & -> & Hm'); [lia|].
  change (rank_ltb (3, digits p - 53, Z.pos m) (3, digits q - 53, Z.pos m') = (Z.pos p <? Z.pos q)).
  apply eq_iff_eq_true. rewrite rank_ltb_iff, Z.ltb_lt.
  destruct (Z.lt_trichotomy (digits p) (digits q)) as [H|[H|H]].
  - pose proof (digits_lt p q H). lia.
  - rewrite H in Hm. pose proof (Z.pow_pos_nonneg 2 (53 - digits q) ltac:(lia)).
    pose proof (digits_53 q ltac:(lia)). rewrite Hm, Hm'.
    rewrite <- Z.mul_lt_mono_pos_r by lia. lia.
  - pose proof (digits_lt q p H). lia.
Qed.

Lemma int_double_le a b :
  0 < a < 2 ^ 53 -> 0 < b < 2 ^ 53 -> le (rank (int_double a)) (rank (int_double b)) <-> a <= b.
Proof. intros Ha Hb. unfold le. rewrite int_double_ltb by done. apply Z.ltb_ge. Qed.

(** [(double) 200000], and a clock reading. *)
Example int_double_200000 : int_double 200000 = S754_finite false 6871947673600000 (-35).
Proof. vm_compute. reflexivity. Qed.
