(* ===== verification/HeapTheory.v ===== *)
(** * Heaps in arrays, whatever the layout

    A heap of [n] cells with keys [f] and a parent function [par]: the invariant, the
    invariant with one exception, and the steps of sifting up and down.  Shared by
    the binary heaps of [queue/PriorityQueue*.cc] and the B-heap of
    [queue/prio_queue.hpp]. *)

From S2P Require Import Prelude Time.

Section Heap.
Context {K : Type} `{TimeOrder K}.

(** A layout: the cells in use for elements, the root, and each cell's parent, which
    comes before it. *)
Context (cell : Z -> Prop) (root : Z) (par : Z -> Z).
Hypothesis par_lt : forall i, root < i -> cell i -> root <= par i < i.
Hypothesis par_cell : forall i, root < i -> cell i -> cell (par i).

Definition heap_ok (f : Z -> K) (n : Z) : Prop :=
  forall i, root < i < n -> cell i -> le (f (par i)) (f i).

(** Only the key of [b] may be too small for its place. *)
Definition up_inv (f : Z -> K) (n b : Z) : Prop :=
  (forall i, root < i < n -> cell i -> i <> b -> le (f (par i)) (f i)) /\
  (forall i, root < i < n -> cell i -> par i = b -> root < b -> le (f (par b)) (f i)).

(** Only the key of [b] may be too large for its place. *)
Definition down_inv (f : Z -> K) (n b : Z) : Prop :=
  (forall i, root < i < n -> cell i -> par i <> b -> le (f (par i)) (f i)) /\
  (forall i, root < i < n -> cell i -> par i = b -> root < b -> le (f (par b)) (f i)).

Definition swapf (f : Z -> K) (a b i : Z) : K :=
  if i =? a then f b else if i =? b then f a else f i.

Lemma swapf_l f a b : swapf f a b a = f b.
Proof. unfold swapf. by rewrite Z.eqb_refl. Qed.
Lemma swapf_r f a b : swapf f a b b = f a.
Proof. unfold swapf. destruct (Z.eqb_spec b a) as [->|]; [done|]. by rewrite Z.eqb_refl. Qed.
Lemma swapf_ne f a b i : i <> a -> i <> b -> swapf f a b i = f i.
Proof. intros. unfold swapf. by destruct (Z.eqb_spec i a), (Z.eqb_spec i b). Qed.

Lemma swapf_comm f a b i : swapf f a b i = swapf f b a i.
Proof. unfold swapf. destruct (Z.eqb_spec i a), (Z.eqb_spec i b); congruence. Qed.

(** The invariants look at the keys only. *)
Lemma heap_ok_pw f g n : (forall i, f i = g i) -> heap_ok f n -> heap_ok g n.
Proof. intros E Hh i Hi Hc. rewrite <- !E. by apply Hh. Qed.
Lemma up_inv_pw f g n b : (forall i, f i = g i) -> up_inv f n b -> up_inv g n b.
Proof. intros E [H1 H2]. split; intros; rewrite <- !E; [by apply H1|by apply H2]. Qed.
Lemma down_inv_pw f g n b : (forall i, f i = g i) -> down_inv f n b -> down_inv g n b.
Proof. intros E [H1 H2]. split; intros; rewrite <- !E; [by apply H1|by apply H2]. Qed.

(** An index that is no cell does not count. *)
Lemma heap_ok_skip f n : heap_ok f n -> ~ cell n -> heap_ok f (n + 1).
Proof.
  intros Hh Hn i Hi Hc. apply Hh; [|done]. destruct (decide (i = n)) as [->|]; [done|lia].
Qed.

(** The root is least. *)
Lemma root_least f n i : heap_ok f n -> root <= i < n -> cell i -> le (f root) (f i).
Proof.
  intros Hh. remember (Z.to_nat (i - root)) as k eqn:Hk. revert i Hk.
  induction k as [k IH] using lt_wf_ind. intros i Hk Hi Hc.
  destruct (decide (i = root)) as [->|]; [reflexivity|].
  destruct (par_lt i); [lia|done|]. transitivity (f (par i)); [|apply Hh; [lia|done]].
  apply (IH (Z.to_nat (par i - root))); [lia|done|lia|apply par_cell; [lia|done]].
Qed.

Lemma heap_up_inv f n b : heap_ok f n -> root <= b < n -> up_inv f n b.
Proof.
  intros Hh Hb. split; [intros; by apply Hh|].
  intros i Hi Hc <- Hp. transitivity (f (par i)); apply Hh; try done; [lia|].
  apply par_cell; [lia|done].
Qed.

(** Making a key smaller leaves one exception, below its parent. *)
Lemma decrease_up_inv f f' n b :
  heap_ok f n -> root <= b < n -> cell b -> (forall i, i <> b -> f' i = f i) -> le (f' b) (f b) ->
  up_inv f' n b.
Proof.
  intros Hh Hb Hcb Hne Hle. split.
  - intros i Hi Hc Hib. rewrite (Hne i) by done. destruct (decide (par i = b)) as [E|].
    + rewrite E. transitivity (f b); [done|]. rewrite <- E. by apply Hh.
    + rewrite Hne by done. by apply Hh.
  - intros i Hi Hc E Hp. destruct (par_lt i); [lia|done|]. destruct (par_lt b); [lia|done|].
    rewrite !Hne by lia. transitivity (f b); [apply Hh; [lia|done]|]. rewrite <- E. by apply Hh.
Qed.

(** A new last cell is the only exception. *)
Lemma append_up_inv f f' n :
  heap_ok f n -> (forall i, root <= i < n -> f' i = f i) -> up_inv f' (n + 1) n.
Proof.
  intros Hh Hf. split.
  - intros i Hi Hc Hin. destruct (par_lt i); [lia|done|]. rewrite !Hf by lia. apply Hh; [lia|done].
  - intros i Hi Hc E Hp. destruct (par_lt i); [lia|done|lia].
Qed.

(** A cell without children can take any key. *)
Lemma leaf_up_inv f f' n b :
  heap_ok f n -> (forall i, i <> b -> f' i = f i) ->
  (forall i, root < i < n -> cell i -> par i <> b) -> up_inv f' n b.
Proof.
  intros Hh Hf Hl. split.
  - intros i Hi Hc Hib. rewrite !Hf by (done || by apply Hl). by apply Hh.
  - intros i Hi Hc E. by destruct (Hl i).
Qed.

Lemma up_done f n b :
  up_inv f n b -> (root < b -> le (f (par b)) (f b)) -> heap_ok f n.
Proof.
  intros [H1 _] Hb i Hi Hc. destruct (decide (i = b)) as [->|]; [apply Hb; lia|by apply H1].
Qed.

Lemma up_step f n b :
  up_inv f n b -> root < b < n -> cell b -> ltb (f b) (f (par b)) = true ->
  up_inv (swapf f (par b) b) n (par b).
Proof.
  intros [H1 H2] Hb Hcb Hlt. destruct (par_lt b); [lia|done|]. apply ltb_le in Hlt. split.
  - intros i Hi Hc Hip. destruct (decide (i = b)) as [->|Hib].
    + by rewrite swapf_l, swapf_r.
    + rewrite (swapf_ne f _ _ i) by done. destruct (decide (par i = par b)) as [E|].
      * rewrite E, swapf_l. transitivity (f (par b)); [done|]. rewrite <- E. by apply H1.
      * destruct (decide (par i = b)) as [E|].
        -- rewrite E, swapf_r. apply H2; [lia|done|done|lia].
        -- rewrite swapf_ne by done. by apply H1.
  - intros i Hi Hc E Hp. assert (cell (par b)) as Hcp by (apply par_cell; [lia|done]).
    destruct (par_lt (par b)); [lia|done|]. destruct (par_lt i); [lia|done|].
    rewrite (swapf_ne f _ _ (par (par b))) by lia.
    assert (le (f (par (par b))) (f (par b))) as Hpp by (apply H1; [lia|done|lia]).
    destruct (decide (i = b)) as [->|].
    + by rewrite swapf_r.
    + rewrite swapf_ne by lia. transitivity (f (par b)); [done|]. rewrite <- E. by apply H1.
Qed.

(** Replacing the root leaves one exception, above its children. *)
Lemma replace_root_down_inv f f' n m :
  heap_ok f n -> m <= n -> (forall i, root < i < m -> f' i = f i) -> down_inv f' m root.
Proof.
  intros Hh Hm Hf. split.
  - intros i Hi Hc Hp. destruct (par_lt i); [lia|done|]. rewrite !Hf by lia. apply Hh; [lia|done].
  - intros. lia.
Qed.

Lemma down_done f n b :
  down_inv f n b -> (forall i, root < i < n -> cell i -> par i = b -> le (f b) (f i)) -> heap_ok f n.
Proof.
  intros [H1 _] Hb i Hi Hc. destruct (decide (par i = b)) as [E|]; [|by apply H1].
  rewrite E. by apply Hb.
Qed.

(** The smallest child goes up. *)
Lemma down_step f n b c :
  down_inv f n b -> root <= b -> root < c < n -> cell c -> par c = b -> le (f c) (f b) ->
  (forall i, root < i < n -> cell i -> par i = b -> le (f c) (f i)) ->
  down_inv (swapf f b c) n c.
Proof.
  intros [H1 H2] Hb Hc Hcc Hpc Hlt Hmin. destruct (par_lt c); [lia|done|]. split.
  - intros i Hi Hci Hip. destruct (par_lt i); [lia|done|]. destruct (decide (i = c)) as [->|Hic].
    + rewrite Hpc, swapf_l, swapf_r. done.
    + destruct (decide (par i = b)) as [E|].
      * rewrite E, swapf_l, swapf_ne by lia. by apply Hmin.
      * rewrite (swapf_ne f b c (par i)) by done. destruct (decide (i = b)) as [->|].
        -- rewrite swapf_l. apply H2; [lia|done|done|lia].
        -- rewrite swapf_ne by done. by apply H1.
  - intros i Hi Hci E Hp. destruct (par_lt i); [lia|done|]. rewrite Hpc, swapf_l, swapf_ne by lia.
    rewrite <- E. apply H1; [lia|done|]. rewrite E. lia.
Qed.

(** Moving the smallest child up into a cell that holds a copy of its parent's key. *)
Lemma move_up_heap f n b c :
  heap_ok f n -> root < c < n -> cell c -> par c = b ->
  (forall i, root < i < n -> cell i -> par i = b -> le (f c) (f i)) ->
  (root < b -> cell b -> le (f (par b)) (f c)) ->
  heap_ok (fun i => if i =? b then f c else f i) n.
Proof.
  intros Hh Hc Hcc Hpc Hmin Hp i Hi Hci. cbn beta. destruct (par_lt i); [lia|done|].
  destruct (Z.eqb_spec (par i) b) as [E|E], (Z.eqb_spec i b) as [E'|E'].
  - lia.
  - by apply Hmin.
  - subst i. apply Hp; [lia|done].
  - by apply Hh.
Qed.
End Heap.
