(* ===== verification/PQElement.v ===== *)
(** * Queue elements ([queue/PQ_Element.h]) and the store they live in

    The queues hold pointers: an element is shared by the queue and its client, and
    its [offset] is how the client's pointer finds it in the queue.  A pointer is a
    number, the store maps the live ones to their elements. *)

From stdpp Require Export gmap.
From S2P Require Export Prelude Time.

Record PQ_Element := mkElement { time : time_t; offset : Z }.

Notation store := (gmap nat PQ_Element).

(** [PQ_Element(double t)]. *)
Definition new_PQ_Element (t : time_t) : PQ_Element := mkElement t (-1).

(** [e->]: a pointer to nothing is undefined behaviour. *)
Definition elem (st : store) (e : nat) : res PQ_Element :=
  match st !! e with Some x => Ok x | None => UB end.

Definition Time (st : store) (e : nat) : res time_t := let! x := elem st e in Ok (time x).
Definition Offset (st : store) (e : nat) : res Z := let! x := elem st e in Ok (offset x).
Definition MinimizeTime (st : store) (e : nat) : res store :=
  let! x := elem st e in Ok (<[e := mkElement MINUS_HUGE_VAL (offset x)]> st).
Definition SetOffset (st : store) (e : nat) (off : Z) : res store :=
  let! x := elem st e in Ok (<[e := mkElement (time x) off]> st).

(** [operator<] and [operator==]. *)
Definition PQ_Element_ltb (a b : PQ_Element) : bool := SFltb (time a) (time b).
Definition PQ_Element_eqb (a b : PQ_Element) : bool := SFeqb (time a) (time b).
