(* ===== verification/PriorityQueue.v ===== *)
(** * [queue/PriorityQueue.h] and [.cc]: a binary heap of pointers

    The root is in bin 0, the parent of a bin is [bin >> 1]: bin 0 has the one child
    1, from there on the children of [bin] are [2 bin] and [2 bin + 1].  Each
    operation takes the store and the queue and returns them. *)

From S2P Require Import Prelude Time PQElement.

(** [heap] is the allocated array, [None] in a cell not yet written. *)
Record PriorityQueue := mkPQ {
  heap : list (option nat);
  heap_size : Z;
  peak_heap_size : Z;
  max_heap_size : Z;
  cumulative_num : Z
}.

Definition set_heap (h : list (option nat)) (q : PriorityQueue) : PriorityQueue :=
  mkPQ h (heap_size q) (peak_heap_size q) (max_heap_size q) (cumulative_num q).
Definition set_heap_size (n : Z) (q : PriorityQueue) : PriorityQueue :=
  mkPQ (heap q) n (peak_heap_size q) (max_heap_size q) (cumulative_num q).

Definition new_array (n : Z) : list (option nat) := replicate (Z.to_nat n) None.

Definition new_PriorityQueue (initial_size : Z) : PriorityQueue :=
  mkPQ (new_array initial_size) 0 0 initial_size 0.

(** [heap[bin]] read: out of the array, or never written, is undefined. *)
Definition heap_at (q : PriorityQueue) (bin : Z) : res nat :=
  if 0 <=? bin then
    match heap q !! Z.to_nat bin with Some (Some e) => Ok e | _ => UB end
  else UB.

Definition Top (q : PriorityQueue) : res (option nat) :=
  if heap_size q =? 0 then Ok None else let! e := heap_at q 0 in Ok (Some e).

Definition Parent (bin : Z) : Z := Z.shiftr bin 1.
(** Bins are [int]s: from bin 2^30 on there is no left child to compute. *)
Definition LeftChild (bin : Z) : res Z := int_of (Z.shiftl bin 1).
Definition RightChild (bin : Z) : res Z := let! l := LeftChild bin in Ok (l + 1).

Definition SetElement (st : store) (q : PriorityQueue) (bin : Z) (e : nat)
    : res (store * PriorityQueue) :=
  if (0 <=? bin) && (bin <? Z.of_nat (length (heap q))) then
    let! st := SetOffset st e bin in
    Ok (st, set_heap (<[Z.to_nat bin := Some e]> (heap q)) q)
  else UB.

Definition Swap (st : store) (q : PriorityQueue) (bin1 bin2 : Z) : res (store * PriorityQueue) :=
  let! t := heap_at q bin1 in
  let! e2 := heap_at q bin2 in
  let! (st, q) := SetElement st q bin1 e2 in
  SetElement st q bin2 t.

(** The time of the element in a bin. *)
Definition time_at (st : store) (q : PriorityQueue) (bin : Z) : res time_t :=
  let! e := heap_at q bin in Time st e.

Fixpoint BubbleUp (fuel : nat) (st : store) (q : PriorityQueue) (bin : Z)
    : res (store * PriorityQueue) :=
  match fuel with
  | O => NoFuel
  | S fuel =>
      if bin =? 0 then Ok (st, q)
      else
        let p := Parent bin in
        let! tp := time_at st q p in
        let! tb := time_at st q bin in
        if SFltb tb tp then
          let! (st, q) := Swap st q p bin in BubbleUp fuel st q p
        else Ok (st, q)
  end.

Fixpoint BubbleDown (fuel : nat) (st : store) (q : PriorityQueue) (bin : Z)
    : res (store * PriorityQueue) :=
  match fuel with
  | O => NoFuel
  | S fuel =>
      let! l := LeftChild bin in
      if heap_size q <=? l then Ok (st, q)
      else
        let! v := time_at st q bin in
        let! r := RightChild bin in
        if heap_size q <=? r then
          let! lv := time_at st q l in
          if SFltb lv v then Swap st q l bin else Ok (st, q)
        else
          let! lv := time_at st q l in
          let! rv := time_at st q r in
          if SFltb lv rv then
            if SFltb lv v then
              let! (st, q) := Swap st q l bin in BubbleDown fuel st q l
            else Ok (st, q)
          else if SFltb rv v then
            let! (st, q) := Swap st q r bin in BubbleDown fuel st q r
          else Ok (st, q)
  end.

(** A bin rises, or sinks, at most [heap_size] times. *)
Definition bubble_fuel (q : PriorityQueue) : nat := S (Z.to_nat (heap_size q)).

(** [Remove()]. *)
Definition Remove (st : store) (q : PriorityQueue) : res (option nat * store * PriorityQueue) :=
  if heap_size q =? 0 then Ok (None, st, q)
  else
    let! top := heap_at q 0 in
    let q := set_heap_size (heap_size q - 1) q in
    let! back := heap_at q (heap_size q) in
    let! (st, q) := SetElement st q 0 back in
    let! (st, q) := BubbleDown (bubble_fuel q) st q 0 in
    let! st := SetOffset st top (-1) in
    Ok (Some top, st, q).

(** [Remove(e)]. *)
Definition Remove_element (st : store) (q : PriorityQueue) (e : nat)
    : res (option nat * store * PriorityQueue) :=
  let! off := Offset st e in
  let! out := (if (off <? 0) || (heap_size q <=? off) then Ok true
               else let! e' := heap_at q off in Ok (negb (Nat.eqb e' e))) in
  if out : bool then Ok (None, st, q)
  else
    let! st := MinimizeTime st e in
    let! off := Offset st e in
    let! (st, q) := BubbleUp (bubble_fuel q) st q off in
    let! (e2, st, q) := Remove st q in
    if bool_decide (e2 = Some e) then Ok (e2, st, q) else Abort.

(** The array is copied cell by cell into one of [new_size] cells; [new_size] is an
    [int], whose computation in [Add] may overflow. *)
Definition Resize (q : PriorityQueue) (new_size : Z) : res (bool * PriorityQueue) :=
  if new_size <? max_heap_size q then UB
  else
    Ok (true, mkPQ (take (Z.to_nat (max_heap_size q)) (heap q)
                    ++ new_array (new_size - max_heap_size q))
                (heap_size q) (peak_heap_size q) new_size (cumulative_num q)).

Definition Add (st : store) (q : PriorityQueue) (e : nat) : res (bool * store * PriorityQueue) :=
  let! (st, q) := SetElement st q (heap_size q) e in
  let! (st, q) := BubbleUp (bubble_fuel q) st q (heap_size q) in
  let! n := int_of (heap_size q + 1) in
  let q := mkPQ (heap q) n (if peak_heap_size q <? n then n else peak_heap_size q)
             (max_heap_size q) (u64 (cumulative_num q + 1)) in
  if max_heap_size q <=? heap_size q then
    let! new_size := int_of (max_heap_size q * 2) in
    let! (ok, q) := Resize q new_size in Ok (ok, st, q)
  else Ok (true, st, q).

(** [~PriorityQueue]: every element in the heap is deleted. *)
Fixpoint delete_all (st : store) (es : list (option nat)) : res store :=
  match es with
  | [] => Ok st
  | Some e :: es => if bool_decide (st !! e = None) then UB else delete_all (delete e st) es
  | None :: es => UB
  end.
Definition destroy (st : store) (q : PriorityQueue) : res store :=
  delete_all st (take (Z.to_nat (heap_size q)) (heap q)).

(** A queue made with [initial_size] 0 has no cell: the first [Add] writes beyond
    the array. *)
Theorem Add_to_size_zero st e :
  Add st (new_PriorityQueue 0) e = UB.
Proof. reflexivity. Qed.
