(* ===== verification/PQUnrolled.v ===== *)
(** * [queue/PriorityQueueUnrolled.h] and [.cc]

    The same heap with [BubbleDown] as a loop and the small functions inlined; the
    fields, [SetElement] and [Swap] are those of [PriorityQueue]. *)

From S2P Require Import Prelude Time PQElement PriorityQueue.

Fixpoint BubbleUp (fuel : nat) (st : store) (q : PriorityQueue) (bin : Z)
    : res (store * PriorityQueue) :=
  match fuel with
  | O => NoFuel
  | S fuel =>
      if bin =? 0 then Ok (st, q)
      else
        let p := Z.shiftr bin 1 in
        let! tp := time_at st q p in
        let! tb := time_at st q bin in
        if SFltb tb tp then
          let! (st, q) := Swap st q p bin in BubbleUp fuel st q p
        else Ok (st, q)
  end.

(** [while( old_bin != bin )]. *)
Fixpoint BubbleDown_loop (fuel : nat) (st : store) (q : PriorityQueue) (old_bin bin : Z)
    : res (store * PriorityQueue) :=
  match fuel with
  | O => NoFuel
  | S fuel =>
      if old_bin =? bin then Ok (st, q)
      else
        let! l := int_of (Z.shiftl bin 1) in
        if heap_size q <=? l then Ok (st, q)
        else
          let old_bin := bin in
          let! v := time_at st q bin in
          let r := l + 1 in
          if heap_size q <=? r then
            let! lv := time_at st q l in
            if SFltb lv v then
              let! (st, q) := Swap st q l bin in BubbleDown_loop fuel st q old_bin bin
            else BubbleDown_loop fuel st q old_bin bin
          else
            let! lv := time_at st q l in
            let! rv := time_at st q r in
            if SFltb lv rv then
              if SFltb lv v then
                let! (st, q) := Swap st q l bin in BubbleDown_loop fuel st q old_bin l
              else BubbleDown_loop fuel st q old_bin bin
            else if SFltb rv v then
              let! (st, q) := Swap st q r bin in BubbleDown_loop fuel st q old_bin r
            else BubbleDown_loop fuel st q old_bin bin
  end.
(** One more round than the recursion, to find that the bin has not moved. *)
Definition BubbleDown (fuel : nat) (st : store) (q : PriorityQueue) (bin : Z)
    : res (store * PriorityQueue) :=
  BubbleDown_loop (S fuel) st q (-1) bin.

Definition Remove (st : store) (q : PriorityQueue) : res (option nat * store * PriorityQueue) :=
  if heap_size q =? 0 then Ok (None, st, q)
  else
    let! top := heap_at q 0 in
    let q := set_heap_size (heap_size q - 1) q in
    let! back := heap_at q (heap_size q) in
    let! (st, q) := SetElement st q 0 back in
    let! (st, q) := BubbleDown (bubble_fuel q) st q 0 in
    let! st := SetOffset st top (-1) in
    Ok (Some top, st, q).

Definition Remove_element (st : store) (q : PriorityQueue) (e : nat)
    : res (option nat * store * PriorityQueue) :=
  let! off := Offset st e in
  let! out := (if (off <? 0) || (heap_size q <=? off) then Ok true
               else let! e' := heap_at q off in Ok (negb (Nat.eqb e' e))) in
  if out : bool then Ok (None, st, q)
  else
    let! st := MinimizeTime st e in
    let! off := Offset st e in
    let! (st, q) := BubbleUp (bubble_fuel q) st q off in
    let! (e2, st, q) := Remove st q in
    if bool_decide (e2 = Some e) then Ok (e2, st, q) else Abort.

Definition Resize (q : PriorityQueue) (new_size : Z) : res (bool * PriorityQueue) :=
  if new_size <? max_heap_size q then UB
  else
    Ok (true, mkPQ (take (Z.to_nat (max_heap_size q)) (heap q)
                    ++ new_array (new_size - max_heap_size q))
                (heap_size q) (peak_heap_size q) new_size (cumulative_num q)).

Definition Add (st : store) (q : PriorityQueue) (e : nat) : res (bool * store * PriorityQueue) :=
  let! (st, q) := SetElement st q (heap_size q) e in
  let! (st, q) := BubbleUp (bubble_fuel q) st q (heap_size q) in
  let! n := int_of (heap_size q + 1) in
  let q := mkPQ (heap q) n (if peak_heap_size q <? n then n else peak_heap_size q)
             (max_heap_size q) (u64 (cumulative_num q + 1)) in
  if max_heap_size q <=? heap_size q then
    let! new_size := int_of (max_heap_size q * 2) in
    let! (ok, q) := Resize q new_size in Ok (ok, st, q)
  else Ok (true, st, q).

(** ** The two classes compute the same *)

Lemma SFltb_irrefl t : SFltb t t = false.
Proof.
  destruct t as [[]|[]| |[] m e]; try done; unfold SFltb, SFcompare.
  - rewrite Z.compare_refl. change (Pos.compare_cont Eq m m) with (m ?= m)%positive.
    by rewrite Pos.compare_refl.
  - rewrite Z.compare_refl. change (Pos.compare_cont Eq m m) with (m ?= m)%positive.
    by rewrite Pos.compare_refl.
Qed.

Lemma BubbleUp_same fuel st q bin : BubbleUp fuel st q bin = PriorityQueue.BubbleUp fuel st q bin.
Proof.
  revert st q bin. induction fuel as [|fuel IH]; intros st q bin; [done|].
  cbn [BubbleUp PriorityQueue.BubbleUp]. unfold Parent. destruct (bin =? 0); [done|].
  destruct (time_at st q (Z.shiftr bin 1)); cbn [res_bind]; [|done..].
  destruct (time_at st q bin); cbn [res_bind]; [|done..].
  destruct (SFltb _ _); [|done].
  destruct (Swap st q (Z.shiftr bin 1) bin) as [[st' q']| | |]; cbn [res_bind]; [apply IH|done..].
Qed.

Lemma Swap_heap_size st q a b st' q' : Swap st q a b = Ok (st', q') -> heap_size q' = heap_size q.
Proof.
  unfold Swap, SetElement. intros H.
  destruct (heap_at q a); try discriminate H. destruct (heap_at q b); try discriminate H.
  cbn [res_bind] in H. destruct (_ && _); try discriminate H.
  destruct (SetOffset _ _ _); try discriminate H. cbn [res_bind] in H.
  destruct (_ && _); try discriminate H. destruct (SetOffset _ _ _); try discriminate H.
  cbn [res_bind] in H. by injection H as <- <-.
Qed.

Lemma BubbleDown_loop_S fuel st q old bin :
  BubbleDown_loop (S fuel) st q old bin =
    if old =? bin then Ok (st, q)
   else
     let! l := int_of (Z.shiftl bin 1) in
     if heap_size q <=? l then Ok (st, q)
     else
       let! v := time_at st q bin in
       if heap_size q <=? l + 1 then
         let! lv := time_at st q l in
         if SFltb lv v then
           let! (st, q) := Swap st q l bin in BubbleDown_loop fuel st q bin bin
         else BubbleDown_loop fuel st q bin bin
       else
         let! lv := time_at st q l in
         let! rv := time_at st q (l + 1) in
         if SFltb lv rv then
           if SFltb lv v then
             let! (st, q) := Swap st q l bin in BubbleDown_loop fuel st q bin l
           else BubbleDown_loop fuel st q bin bin
         else if SFltb rv v then
           let! (st, q) := Swap st q (l + 1) bin in BubbleDown_loop fuel st q bin (l + 1)
         else BubbleDown_loop fuel st q bin bin.
Proof. done. Qed.

(** One loop round more than the recursion has calls. *)
Lemma BubbleDown_loop_same fuel st q old bin :
  old <> bin -> 0 <= bin -> (Z.to_nat (heap_size q - bin) < fuel)%nat ->
  BubbleDown_loop (S fuel) st q old bin = PriorityQueue.BubbleDown fuel st q bin.
Proof.
  revert st q old bin. induction fuel as [|fuel IH]; intros st q old bin Hne Hb Hf; [lia|].
  assert (forall st q, BubbleDown_loop (S fuel) st q bin bin = Ok (st, q)) as Hstop.
  { intros. cbn [BubbleDown_loop]. by rewrite Z.eqb_refl. }
  rewrite BubbleDown_loop_S. cbn [PriorityQueue.BubbleDown]. unfold RightChild, LeftChild. cbn zeta.
  destruct (Z.eqb_spec old bin); [done|].
  destruct (int_of (Z.shiftl bin 1)) as [l| | |] eqn:El; cbn [res_bind]; [|done..]. rewrite Hstop.
  apply int_of_inv in El. rewrite Z.shiftl_mul_pow2 in El by lia. change (2 ^ 1) with 2 in El.
  destruct (Z.leb_spec (heap_size q) l); [done|].
  destruct (time_at st q bin) as [v| | |] eqn:Ev; cbn [res_bind]; [|done..].
  destruct (Z.leb_spec (heap_size q) (l + 1)).
  - destruct (time_at st q l) as [lv| | |]; cbn [res_bind]; [|done..].
    destruct (SFltb lv v); [|done].
    destruct (Swap st q l bin) as [[st' q']| | |]; cbn [res_bind]; [apply Hstop|done..].
  - destruct (time_at st q l) as [lv| | |] eqn:Elv; cbn [res_bind]; [|done..].
    destruct (time_at st q (l + 1)) as [rv| | |]; cbn [res_bind]; [|done..].
    destruct (SFltb lv rv).
    + destruct (SFltb lv v) eqn:Hlt; [|done].
      destruct (decide (bin = 0)) as [->|].
      { rewrite El, Z.mul_0_l, Ev in Elv. injection Elv as <-. by rewrite SFltb_irrefl in Hlt. }
      destruct (Swap st q l bin) as [[st' q']| | |] eqn:Esw; cbn [res_bind]; [|done..].
      apply Swap_heap_size in Esw. apply IH; lia.
    + destruct (SFltb rv v); [|done].
      destruct (Swap st q (l + 1) bin) as [[st' q']| | |] eqn:Esw; cbn [res_bind]; [|done..].
      apply Swap_heap_size in Esw. apply IH; lia.
Qed.

Lemma Remove_same st q : Remove st q = PriorityQueue.Remove st q.
Proof.
  unfold Remove, PriorityQueue.Remove. destruct (heap_size q =? 0); [done|].
  destruct (heap_at q 0) as [top| | |]; cbn [res_bind]; [|done..].
  destruct (heap_at _ _) as [back| | |]; cbn [res_bind]; [|done..].
  destruct (SetElement _ _ _ _) as [[st' q']| | |]; cbn [res_bind]; [|done..].
  unfold BubbleDown. rewrite BubbleDown_loop_same; [done|done|lia|unfold bubble_fuel; lia].
Qed.

Lemma Add_same st q e : Add st q e = PriorityQueue.Add st q e.
Proof.
  unfold Add, PriorityQueue.Add.
  destruct (SetElement st q (heap_size q) e) as [[st' q']| | |]; cbn [res_bind]; [|done..].
  by rewrite BubbleUp_same.
Qed.

(** C13: [PriorityQueueUnrolled] is the same queue as [PriorityQueue]: on every store
    and every state, well-formed or not, its operations give the same results, the
    same states and the same failures. *)
Theorem unrolled_same st q e n :
  Add st q e = PriorityQueue.Add st q e /\ Remove st q = PriorityQueue.Remove st q /\
  Remove_element st q e = PriorityQueue.Remove_element st q e /\
  Resize q n = PriorityQueue.Resize q n.
Proof.
  split; [apply Add_same|split; [apply Remove_same|split; [|done]]].
  - unfold Remove_element, PriorityQueue.Remove_element.
    destruct (Offset st e) as [off| | |]; cbn [res_bind]; [|done..].
    destruct (if _ : bool then _ else _) as [out| | |]; cbn [res_bind]; [|done..].
    destruct out; [done|]. destruct (MinimizeTime st e) as [st'| | |]; cbn [res_bind]; [|done..].
    destruct (Offset st' e) as [off'| | |]; cbn [res_bind]; [|done..].
    rewrite BubbleUp_same. destruct (PriorityQueue.BubbleUp _ _ _ _) as [[st1 q1]| | |]; cbn [res_bind]; [|done..].
    by rewrite Remove_same.
Qed.
