(* ===== verification/PQTheory.v ===== *)
(** * The binary heap keeps its order

    [pq_inv st q l]: the queue [q] over the store [st] holds the elements [l], bin
    by bin, each knows its bin, and no element is before its parent. *)

From S2P Require Import Prelude Time HeapTheory PQElement PriorityQueue PQUnrolled.

(** Binary heaps: every bin is a cell, the root is bin 0. *)
Notation bin_ok := (fun _ : Z => True).
Notation heap_ok := (HeapTheory.heap_ok bin_ok 0 Parent).
Notation up_inv := (HeapTheory.up_inv bin_ok 0 Parent).
Notation down_inv := (HeapTheory.down_inv bin_ok 0 Parent).

(** The names [Add], [Remove], ... are those of [PriorityQueue] again. *)
Notation Add := PriorityQueue.Add.
Notation Remove := PriorityQueue.Remove.
Notation Remove_element := PriorityQueue.Remove_element.
Notation BubbleUp := PriorityQueue.BubbleUp.
Notation BubbleDown := PriorityQueue.BubbleDown.
Notation Resize := PriorityQueue.Resize.

Lemma Parent_div i : Parent i = i / 2.
Proof. unfold Parent. by rewrite Z.shiftr_div_pow2. Qed.
Lemma LeftChild_mul i : 0 <= i < 2 ^ 30 -> LeftChild i = Ok (2 * i).
Proof.
  intros Hi. unfold LeftChild. rewrite Z.shiftl_mul_pow2 by done.
  rewrite int_of_ok by lia. f_equal. lia.
Qed.
Lemma Parent_lt i : 0 < i -> 0 <= Parent i < i.
Proof. intros. rewrite Parent_div. dlia. Qed.
Lemma Parent_cell i : 0 < i -> True -> 0 <= Parent i < i.
Proof. intros ? _. by apply Parent_lt. Qed.
Lemma Parent_left b : Parent (2 * b) = b.
Proof. rewrite Parent_div. dlia. Qed.
Lemma Parent_right b : Parent (2 * b + 1) = b.
Proof. rewrite Parent_div. dlia. Qed.
Lemma Parent_children b i : Parent i = b -> i = 2 * b \/ i = 2 * b + 1.
Proof. rewrite Parent_div. dlia. Qed.

(** ** Shapes: which element is in which bin *)

(** The key of an element; a dead pointer has NaN's. *)
Definition tm (st : store) (e : nat) : Z * Z * Z := rank (default S754_nan (time <$> st !! e)).

Definition same_times (st st' : store) : Prop := forall e, time <$> st' !! e = time <$> st !! e.

(** Keys by bin. *)
Definition keys (st : store) (l : list nat) (i : Z) : Z * Z * Z := tm st (l !!! Z.to_nat i).

Record shape (st : store) (q : PriorityQueue) (l : list nat) : Prop := mkShape {
  sh_heap : exists rest, heap q = (Some <$> l) ++ rest;
  sh_elem : forall i e, l !! i = Some e ->
    exists x, st !! e = Some x /\ offset x = Z.of_nat i /\ not_nan (time x) = true
}.

Definition llen (l : list nat) : Z := Z.of_nat (length l).

Lemma same_times_refl st : same_times st st.
Proof. done. Qed.
Lemma same_times_trans st1 st2 st3 : same_times st1 st2 -> same_times st2 st3 -> same_times st1 st3.
Proof. intros H1 H2 e. by rewrite H2. Qed.
Lemma same_times_tm st st' e : same_times st st' -> tm st' e = tm st e.
Proof. intros H. unfold tm. by rewrite H. Qed.

Lemma llookup (l : list nat) (i : Z) : 0 <= i < llen l -> l !! Z.to_nat i = Some (l !!! Z.to_nat i).
Proof. unfold llen. intros. apply list_lookup_lookup_total_lt. lia. Qed.

Lemma shape_inj st q l i j e : shape st q l -> l !! i = Some e -> l !! j = Some e -> i = j.
Proof.
  intros Hs Hi Hj. destruct (sh_elem _ _ _ Hs i e Hi) as (x & Hx & Ho & _).
  destruct (sh_elem _ _ _ Hs j e Hj) as (y & Hy & Ho' & _).
  rewrite Hx in Hy. injection Hy as <-. lia.
Qed.

Lemma shape_NoDup st q l : shape st q l -> NoDup l.
Proof. intros Hs. apply NoDup_alt. intros. by eapply shape_inj. Qed.

Lemma heap_at_shape st q l i : shape st q l -> 0 <= i < llen l -> heap_at q i = Ok (l !!! Z.to_nat i).
Proof.
  intros Hs Hi. unfold heap_at. destruct (Z.leb_spec 0 i); [|lia].
  destruct (sh_heap _ _ _ Hs) as (rest & ->).
  rewrite lookup_app_l by (rewrite length_fmap; unfold llen in Hi; lia).
  rewrite list_lookup_fmap, (llookup l i Hi). done.
Qed.

(** The time of a bin, and how times compare. *)
Lemma time_at_shape st q l i :
  shape st q l -> 0 <= i < llen l ->
  exists t, time_at st q i = Ok t /\ not_nan t = true /\ rank t = keys st l i.
Proof.
  intros Hs Hi. unfold time_at. rewrite (heap_at_shape _ _ _ _ Hs Hi). cbn [res_bind].
  destruct (sh_elem _ _ _ Hs _ _ (llookup l i Hi)) as (x & Hx & _ & Hn).
  unfold Time, elem. rewrite Hx. cbn [res_bind]. exists (time x). split; [done|]. split; [done|].
  unfold keys, tm. by rewrite Hx.
Qed.

(** ** Writing a bin *)

Lemma SetElement_Ok st q i e x :
  0 <= i < Z.of_nat (length (heap q)) -> st !! e = Some x ->
  SetElement st q i e =
    Ok (<[e := mkElement (time x) i]> st, set_heap (<[Z.to_nat i := Some e]> (heap q)) q).
Proof.
  intros Hi Hx. unfold SetElement. rewrite (proj2 (andb_true_iff _ _)).
  - unfold SetOffset, elem. by rewrite Hx.
  - rewrite Z.leb_le, Z.ltb_lt. lia.
Qed.

Lemma same_times_offset st e x i :
  st !! e = Some x -> same_times st (<[e := mkElement (time x) i]> st).
Proof.
  intros Hx e'. destruct (decide (e' = e)) as [->|Hne].
  - by rewrite lookup_insert_eq, Hx.
  - by rewrite lookup_insert_ne.
Qed.

(** Exchanging two bins. *)
Definition lswap (l : list nat) (a b : Z) : list nat :=
  <[Z.to_nat b := l !!! Z.to_nat a]> (<[Z.to_nat a := l !!! Z.to_nat b]> l).

Lemma llen_lswap l a b : llen (lswap l a b) = llen l.
Proof. unfold llen, lswap. by rewrite !length_insert. Qed.

Lemma lswap_lookup l a b i :
  0 <= a < llen l -> 0 <= b < llen l -> 0 <= i ->
  lswap l a b !! Z.to_nat i =
    if i =? a then Some (l !!! Z.to_nat b) else if i =? b then Some (l !!! Z.to_nat a)
    else l !! Z.to_nat i.
Proof.
  unfold llen, lswap. intros Ha Hb Hi.
  destruct (Z.eqb_spec i a) as [->|Hia].
  - destruct (decide (a = b)) as [->|].
    + rewrite list_lookup_insert_eq; [done|]. rewrite length_insert. lia.
    + rewrite list_lookup_insert_ne, list_lookup_insert_eq by lia. done.
  - destruct (Z.eqb_spec i b) as [->|].
    + rewrite list_lookup_insert_eq; [done|]. rewrite length_insert. lia.
    + by rewrite !list_lookup_insert_ne by lia.
Qed.

Lemma keys_lswap st l a b i :
  0 <= a < llen l -> 0 <= b < llen l -> 0 <= i ->
  keys st (lswap l a b) i = swapf (keys st l) a b i.
Proof.
  intros Ha Hb Hi. unfold keys, swapf. rewrite list_lookup_total_alt, lswap_lookup by done.
  destruct (i =? a); [done|]. destruct (i =? b); [done|]. by rewrite list_lookup_total_alt.
Qed.

Lemma lswap_perm l a b : 0 <= a < llen l -> 0 <= b < llen l -> lswap l a b ≡ₚ l.
Proof.
  intros Ha Hb. apply Permutation_inj. split.
  - pose proof (llen_lswap l a b). unfold llen in *. lia.
  - exists (fun n => if Z.of_nat n =? a then Z.to_nat b else if Z.of_nat n =? b then Z.to_nat a else n).
    split.
    + intros n m. destruct (Z.eqb_spec (Z.of_nat n) a), (Z.eqb_spec (Z.of_nat m) a);
      try destruct (Z.eqb_spec (Z.of_nat n) b); try destruct (Z.eqb_spec (Z.of_nat m) b); lia.
    + intros n. rewrite <- (Nat2Z.id n) at 1. rewrite lswap_lookup by lia.
      destruct (Z.eqb_spec (Z.of_nat n) a); [by rewrite llookup|].
      destruct (Z.eqb_spec (Z.of_nat n) b); [by rewrite llookup|]. by rewrite Nat2Z.id.
Qed.

Lemma Swap_shape st q l a b :
  shape st q l -> 0 <= a < llen l -> 0 <= b < llen l ->
  exists st' h, Swap st q a b = Ok (st', set_heap h q) /\
    shape st' (set_heap h q) (lswap l a b) /\ same_times st st' /\ length h = length (heap q).
Proof.
  intros Hs Ha Hb. unfold Swap.
  rewrite (heap_at_shape _ _ _ _ Hs Ha), (heap_at_shape _ _ _ _ Hs Hb). cbn [res_bind].
  set (ea := l !!! Z.to_nat a). set (eb := l !!! Z.to_nat b).
  pose proof (llookup l a Ha) as La. pose proof (llookup l b Hb) as Lb. fold ea in La. fold eb in Lb.
  destruct (sh_elem _ _ _ Hs _ _ La) as (xa & Hxa & Hoa & Hna).
  destruct (sh_elem _ _ _ Hs _ _ Lb) as (xb & Hxb & Hob & Hnb).
  destruct (sh_heap _ _ _ Hs) as (rest & Hh).
  assert (Z.of_nat (length (heap q)) = llen l + Z.of_nat (length rest)) as Hlen.
  { rewrite Hh, length_app, length_fmap. unfold llen. lia. }
  rewrite (SetElement_Ok st q a eb xb) by (lia || done). cbn [res_bind].
  set (st1 := <[eb := _]> st). set (q1 := set_heap _ q).
  assert (exists xa', st1 !! ea = Some xa' /\ time xa' = time xa) as (xa' & Hxa' & Hta).
  { subst st1. destruct (decide (ea = eb)) as [E|].
    - rewrite E, lookup_insert_eq. eexists. split; [done|]. rewrite E in Hxa. cbn. congruence.
    - rewrite lookup_insert_ne by done. eauto. }
  rewrite (SetElement_Ok st1 q1 b ea xa') by (done || (subst q1; cbn; rewrite length_insert; lia)).
  exists (<[ea := mkElement (time xa') b]> st1), (<[Z.to_nat b := Some ea]> (heap q1)).
  split; [done|]. split; [|split].
  - split.
    + exists rest. cbn [heap set_heap q1]. subst q1. cbn [heap set_heap]. rewrite Hh. unfold lswap.
      rewrite !list_fmap_insert. unfold llen in *.
      rewrite !insert_app_l by (rewrite ?length_insert, ?length_fmap; lia). done.
    + intros i e Hi. rewrite <- (Nat2Z.id i) in Hi. rewrite lswap_lookup in Hi by (done || lia).
      fold ea eb in Hi. destruct (Z.eqb_spec (Z.of_nat i) a) as [Ea|Ea].
      * injection Hi as <-. destruct (decide (eb = ea)) as [E|].
        -- rewrite E, lookup_insert_eq. eexists. split; [done|]. cbn.
           rewrite E in Lb. pose proof (shape_inj _ _ _ _ _ _ Hs La Lb). split; [lia|congruence].
        -- rewrite lookup_insert_ne by done. subst st1. rewrite lookup_insert_eq.
           eexists. split; [done|]. cbn. split; [lia|done].
      * destruct (Z.eqb_spec (Z.of_nat i) b) as [Eb|Eb].
        -- injection Hi as <-. rewrite lookup_insert_eq. eexists. split; [done|]. cbn.
           split; [lia|congruence].
        -- destruct (sh_elem _ _ _ Hs _ _ Hi) as (x & Hx & Ho & Hn).
           assert (e <> ea) as Hne by (intros ->; pose proof (shape_inj _ _ _ _ _ _ Hs Hi La); lia).
           assert (e <> eb) as Hne' by (intros ->; pose proof (shape_inj _ _ _ _ _ _ Hs Hi Lb); lia).
           rewrite lookup_insert_ne by done. subst st1. rewrite lookup_insert_ne by done.
           exists x. split; [done|]. split; [lia|done].
  - eapply same_times_trans; [by apply same_times_offset|]. by apply same_times_offset.
  - subst q1. cbn. by rewrite !length_insert.
Qed.

(** ** Sifting *)

Lemma keys_swapped st st' l a b i :
  same_times st st' -> 0 <= a < llen l -> 0 <= b < llen l -> 0 <= i ->
  keys st' (lswap l a b) i = swapf (keys st l) a b i.
Proof.
  intros Hst Ha Hb Hi. rewrite keys_lswap by done. unfold swapf, keys.
  rewrite !(same_times_tm st st') by done. done.
Qed.

(** The invariants only look at the keys of bins in use. *)
Lemma up_inv_ext f g n b :
  (forall i, 0 <= i < n -> f i = g i) -> 0 <= b < n -> up_inv f n b -> up_inv g n b.
Proof.
  intros E Hb [H1 H2]. split.
  - intros i Hi _ Hne. pose proof (Parent_lt i). rewrite <- !E by lia. by apply H1.
  - intros i Hi _ Ep Hp. pose proof (Parent_lt i). pose proof (Parent_lt b).
    rewrite <- !E by lia. by apply H2.
Qed.

Lemma down_inv_ext f g n b :
  (forall i, 0 <= i < n -> f i = g i) -> down_inv f n b -> down_inv g n b.
Proof.
  intros E [H1 H2]. split.
  - intros i Hi _ Hne. pose proof (Parent_lt i). rewrite <- !E by lia. by apply H1.
  - intros i Hi _ Ep Hp. pose proof (Parent_lt i). pose proof (Parent_lt b).
    rewrite <- !E by lia. by apply H2.
Qed.

Lemma heap_ok_ext (f g : Z -> Z * Z * Z) n :
  (forall i, 0 <= i < n -> f i = g i) -> heap_ok f n -> heap_ok g n.
Proof.
  intros E H i Hi _. pose proof (Parent_lt i). rewrite <- !E by lia. by apply H.
Qed.

(** What sifting gives: the same elements in another order, in heap order. *)
Definition sifted (st : store) (q : PriorityQueue) (l : list nat)
    (r : res (store * PriorityQueue)) : Prop :=
  exists st' h l', r = Ok (st', set_heap h q) /\ shape st' (set_heap h q) l' /\ l' ≡ₚ l /\
    same_times st st' /\ length h = length (heap q) /\ heap_ok (keys st' l') (llen l).

Lemma sifted_done st q l :
  shape st q l -> heap_ok (keys st l) (llen l) -> sifted st q l (Ok (st, q)).
Proof.
  intros Hs Hh. exists st, (heap q), l. split; [by destruct q|]. split; [by destruct q|].
  split; [done|]. split; [done|]. by split.
Qed.

Lemma sifted_swapped st q l a b st1 h1 r :
  0 <= a < llen l -> 0 <= b < llen l -> same_times st st1 -> length h1 = length (heap q) ->
  sifted st1 (set_heap h1 q) (lswap l a b) r -> sifted st q l r.
Proof.
  intros Ha Hb Ht Hl (st' & h & l' & E & Hs & Hp & Ht' & Hl' & Hh).
  exists st', h, l'. split; [done|]. split; [done|]. split; [by rewrite Hp, lswap_perm|].
  split; [by eapply same_times_trans|]. split; [by rewrite Hl'|]. by rewrite llen_lswap in Hh.
Qed.

Lemma time_ltb (t1 t2 : time_t) (k1 k2 : Z * Z * Z) :
  not_nan t1 = true -> not_nan t2 = true -> rank t1 = k1 -> rank t2 = k2 ->
  SFltb t1 t2 = ltb k1 k2.
Proof. intros H1 H2 <- <-. by apply SFltb_rank. Qed.

Lemma BubbleUp_spec fuel st q l b :
  shape st q l -> 0 <= b < llen l -> up_inv (keys st l) (llen l) b ->
  (Z.to_nat b < fuel)%nat -> sifted st q l (BubbleUp fuel st q b).
Proof.
  revert st q l b. induction fuel as [|fuel IH]; intros st q l b Hs Hb Hu Hf; [lia|].
  cbn [PriorityQueue.BubbleUp]. destruct (Z.eqb_spec b 0) as [->|Hb0].
  { apply sifted_done; [done|]. apply (up_done bin_ok 0 Parent _ _ _ Hu). lia. }
  pose proof (Parent_lt b ltac:(lia)) as Hp.
  destruct (time_at_shape _ _ _ (Parent b) Hs ltac:(lia)) as (tp & Ep & Np & Rp). step_ok Ep.
  destruct (time_at_shape _ _ _ b Hs Hb) as (tb & Eb & Nb & Rb). step_ok Eb.
  rewrite (time_ltb _ _ _ _ Nb Np Rb Rp).
  destruct (ltb (keys st l b) (keys st l (Parent b))) eqn:Hlt.
  - destruct (Swap_shape st q l (Parent b) b Hs ltac:(lia) Hb) as (st1 & h1 & E1 & Hs1 & Ht1 & Hl1).
    step_ok E1. apply sifted_swapped with (Parent b) b st1 h1; try done; [lia|].
    apply IH; [done|rewrite llen_lswap; lia| |lia].
    rewrite llen_lswap. apply up_inv_ext with (swapf (keys st l) (Parent b) b); [|lia|].
    + intros i Hi. symmetry. apply keys_swapped; try done; lia.
    + apply up_step; [apply Parent_cell|done..|lia|done|done].
  - apply sifted_done; [done|]. by apply (up_done bin_ok 0 Parent _ _ _ Hu).
Qed.

Lemma children_of i b n : 0 < i < n -> Parent i = b -> i = 2 * b \/ i = 2 * b + 1.
Proof. intros _ Ei. by apply Parent_children. Qed.

(** Below a bin that is not after its least child the order holds. *)
Lemma down_stop st q l b :
  shape st q l -> down_inv (keys st l) (llen l) b ->
  (forall i, 0 < i < llen l -> Parent i = b -> le (keys st l b) (keys st l i)) ->
  sifted st q l (Ok (st, q)).
Proof.
  intros Hs Hd Hle. apply sifted_done; [done|]. apply (down_done bin_ok 0 Parent _ _ _ Hd).
  intros i Hi _ Ei. by apply Hle.
Qed.

(** One step down, to the least child [c]. *)
Lemma down_swap st q l b c (k : store -> PriorityQueue -> res (store * PriorityQueue)) :
  shape st q l -> heap_size q = llen l -> 0 <= b < llen l -> down_inv (keys st l) (llen l) b ->
  0 < c < llen l -> Parent c = b -> ltb (keys st l c) (keys st l b) = true ->
  (forall i, 0 < i < llen l -> Parent i = b -> le (keys st l c) (keys st l i)) ->
  (forall st1 q1 l1, shape st1 q1 l1 -> heap_size q1 = llen l1 -> llen l1 = llen l ->
     down_inv (keys st1 l1) (llen l1) c -> sifted st1 q1 l1 (k st1 q1)) ->
  sifted st q l (let! (st, q) := Swap st q c b in k st q).
Proof.
  intros Hs Hn Hb Hd Hc Ec Hlt Hmin Hk. pose proof (Parent_lt c ltac:(lia)).
  destruct (Swap_shape st q l c b Hs ltac:(lia) ltac:(lia)) as (st1 & h1 & E1 & Hs1 & Ht1 & Hl1).
  step_ok E1. apply sifted_swapped with c b st1 h1; try done; [lia|].
  apply Hk; [done|by rewrite llen_lswap|by rewrite llen_lswap|].
  rewrite llen_lswap. apply down_inv_ext with (swapf (keys st l) b c).
  - intros i Hi. rewrite (keys_swapped st st1 l c b i) by (done || lia). apply swapf_comm.
  - apply down_step; try done; [apply Parent_cell|lia|by apply ltb_le|intros; by apply Hmin].
Qed.

Lemma BubbleDown_spec fuel st q l b :
  shape st q l -> heap_size q = llen l -> 0 <= b -> (b < llen l \/ b = 0) ->
  down_inv (keys st l) (llen l) b ->
  llen l <= 2 ^ 30 -> (Z.to_nat (llen l - b) < fuel)%nat -> sifted st q l (BubbleDown fuel st q b).
Proof.
  revert st q l b. induction fuel as [|fuel IH]; intros st q l b Hs Hn Hb Hbl Hd Hmax Hf; [lia|].
  pose proof (Nat2Z.is_nonneg (length l)) as Hl0. fold (llen l) in Hl0.
  cbn [PriorityQueue.BubbleDown]. rewrite Hn. unfold RightChild. rewrite LeftChild_mul by lia.
  cbn [res_bind].
  pose proof (Parent_left b) as Epl. pose proof (Parent_right b) as Epr.
  destruct (Z.leb_spec (llen l) (2 * b)) as [Hl|Hl].
  { apply down_stop with b; [done|done|]. intros i Hi Ei. destruct (children_of i b _ Hi Ei); lia. }
  destruct (time_at_shape _ _ _ b Hs ltac:(lia)) as (v & Ev & Nv & Rv). step_ok Ev.
  destruct (time_at_shape _ _ _ (2 * b) Hs ltac:(lia)) as (lv & El & Nl & Rl).
  assert (ltb (keys st l (2 * b)) (keys st l b) = true -> 0 < b) as Hb0.
  { intros Hlt. destruct (decide (b = 0)) as [->|]; [by rewrite ltb_irrefl in Hlt|lia]. }
  assert (forall c, Parent c = b -> 0 < c < llen l -> ltb (keys st l c) (keys st l b) = true ->
    (forall i, 0 < i < llen l -> Parent i = b -> le (keys st l c) (keys st l i)) ->
    sifted st q l (let! (st, q) := Swap st q c b in BubbleDown fuel st q c)) as Hdesc.
  { intros c Ec Hc Hlt Hmin. pose proof (Parent_lt c ltac:(lia)). apply down_swap; try done; [lia|].
    intros st1 q1 l1 Hs1 Hn1 Hl1 Hd1. apply IH; [done|done|lia|lia|done|lia|lia]. }
  destruct (Z.leb_spec (llen l) (2 * b + 1)) as [Hr|Hr].
  - (* only a left child: it has no children itself *)
    assert (forall i, 0 < i < llen l -> Parent i = b -> i = 2 * b) as Hch.
    { intros i Hi Ei. destruct (children_of i b _ Hi Ei); lia. }
    step_ok El. rewrite (time_ltb _ _ _ _ Nl Nv Rl Rv).
    destruct (ltb (keys st l (2 * b)) (keys st l b)) eqn:Hlt.
    + assert (Swap st q (2 * b) b = let! (st, q) := Swap st q (2 * b) b in Ok (st, q)) as ->
        by (by destruct (Swap st q (2 * b) b) as [[]| | |]).
      specialize (Hb0 eq_refl). apply down_swap; try done; [lia|lia|intros i Hi ->%Hch; done|].
      intros st1 q1 l1 Hs1 Hn1 Hl1 Hd1. apply down_stop with (2 * b); [done|done|].
      intros i Hi Ei. destruct (children_of i _ _ Hi Ei); lia.
    + apply down_stop with b; [done|done|]. by intros i Hi ->%Hch.
  - step_ok El. destruct (time_at_shape _ _ _ (2 * b + 1) Hs ltac:(lia)) as (rv & Er & Nr & Rr).
    step_ok Er. rewrite (time_ltb _ _ _ _ Nl Nr Rl Rr), (time_ltb _ _ _ _ Nl Nv Rl Rv),
      (time_ltb _ _ _ _ Nr Nv Rr Rv).
    destruct (ltb (keys st l (2 * b)) (keys st l (2 * b + 1))) eqn:Hlr; case_match eqn:Hlt.
    + specialize (Hb0 eq_refl). apply Hdesc; [done|lia|done|].
      intros i Hi Ei. destruct (children_of i b _ Hi Ei) as [-> | ->]; [done|by apply ltb_le].
    + apply down_stop with b; [done|done|]. intros i Hi Ei. destruct (children_of i b _ Hi Ei) as [-> | ->]; [done|].
      transitivity (keys st l (2 * b)); [done|by apply ltb_le].
    + apply Hdesc; [done|lia|done|]. intros i Hi Ei. by destruct (children_of i b _ Hi Ei) as [-> | ->].
    + apply down_stop with b; [done|done|]. intros i Hi Ei. destruct (children_of i b _ Hi Ei) as [-> | ->]; [|done].
      by transitivity (keys st l (2 * b + 1)).
Qed.
