(* ===== verification/PQSpec.v ===== *)
(** * What the heap queues promise

    [pq_inv st q l]: [q] is a well-formed queue of the elements [l].  [Add] adds one,
    [Remove] takes a least one out, [Remove_element] a given one; the unrolled class
    computes the same. *)

From S2P Require Import Prelude Time HeapTheory PQElement PriorityQueue PQUnrolled PQTheory.

Record pq_inv (st : store) (q : PriorityQueue) (l : list nat) : Prop := mkInv {
  inv_shape : shape st q l;
  inv_size : heap_size q = llen l;
  inv_room : llen l < max_heap_size q;
  inv_array : Z.of_nat (length (heap q)) = max_heap_size q;
  inv_int : max_heap_size q <= 2 ^ 30;
  inv_order : heap_ok (keys st l) (llen l)
}.

(** [e] is before no element of [l]. *)
Definition least (st : store) (e : nat) (l : list nat) : Prop :=
  forall x, x ∈ l -> le (tm st e) (tm st x).

(** A live element whose time is a number. *)
Definition addable (st : store) (e : nat) : Prop :=
  exists x, st !! e = Some x /\ not_nan (time x) = true.

(** ** The destructor *)

Lemma delete_all_ok st l :
  NoDup l -> (forall e, e ∈ l -> is_Some (st !! e)) ->
  exists st', delete_all st (Some <$> l) = Ok st' /\ forall e, st' !! e = if bool_decide (e ∈ l) then None else st !! e.
Proof.
  intros Hn. revert st. induction Hn as [|x l Hx Hn IH]; intros st Hl; cbn.
  { exists st. split; [done|]. intros e. by rewrite bool_decide_eq_false_2 by apply not_elem_of_nil. }
  destruct (Hl x) as [y Hy]; [left|]. rewrite bool_decide_eq_false_2 by (by rewrite Hy).
  destruct (IH (delete x st)) as (st' & E & H).
  { intros e He. rewrite lookup_delete_ne by (intros ->; done). apply Hl. by right. }
  exists st'. split; [exact E|]. intros e. rewrite H. destruct (decide (e = x)) as [->|Hne].
  - rewrite (bool_decide_eq_true_2 (x ∈ x :: l)) by left. rewrite lookup_delete_eq. by case_bool_decide.
  - rewrite lookup_delete_ne by done. rewrite (bool_decide_ext (e ∈ x :: l) (e ∈ l)); [done|].
    rewrite elem_of_cons. naive_solver.
Qed.

(** [~PriorityQueue] of a valid queue deletes its elements and no other. *)
Lemma destroy_ok st q l :
  pq_inv st q l ->
  exists st', destroy st q = Ok st' /\ forall e, st' !! e = if bool_decide (e ∈ l) then None else st !! e.
Proof.
  intros [Hs Hn _ _ _ _]. unfold destroy. destruct (sh_heap _ _ _ Hs) as [rest ->]. rewrite Hn. unfold llen.
  rewrite Nat2Z.id, take_app_le, take_ge by (rewrite length_fmap; lia). apply delete_all_ok; [by eapply shape_NoDup|].
  intros e He. apply list_elem_of_lookup in He as [i Hi]. destruct (sh_elem _ _ _ Hs i e Hi) as (x & Hx & _). by exists x.
Qed.

Lemma llen_perm l l' : l' ≡ₚ l -> llen l' = llen l.
Proof. intros H. unfold llen. by rewrite H. Qed.

Lemma llen_nonneg l : 0 <= llen l.
Proof. unfold llen. lia. Qed.

Lemma llen_snoc l e : llen (l ++ [e]) = llen l + 1.
Proof. unfold llen. rewrite length_app. cbn. lia. Qed.

(** The result of a sift in a queue whose size field is [n]. *)
Lemma sifted_inv st q l r :
  sifted st q l r -> heap_size q = llen l -> llen l < max_heap_size q ->
  Z.of_nat (length (heap q)) = max_heap_size q -> max_heap_size q <= 2 ^ 30 ->
  exists st' h l', r = Ok (st', set_heap h q) /\ pq_inv st' (set_heap h q) l' /\ l' ≡ₚ l /\
    same_times st st'.
Proof.
  intros (st' & h & l' & E & Hs & Hp & Ht & Hl & Hh) Hn Hm Ha Hi.
  exists st', h, l'. split; [done|]. split; [|done]. pose proof (llen_perm _ _ Hp) as Hll.
  split; [done|by rewrite Hll|by rewrite Hll|by cbn; rewrite Hl|done|by rewrite Hll].
Qed.

(** ** New queues *)

Lemma new_inv st n : 0 < n <= 2 ^ 30 -> pq_inv st (new_PriorityQueue n) [].
Proof.
  intros Hn. split.
  - split; [by exists (new_array n)|done].
  - done.
  - cbn. unfold llen. cbn. lia.
  - cbn. unfold new_array. rewrite length_replicate. lia.
  - cbn. lia.
  - intros i Hi. unfold llen in Hi. cbn in Hi. lia.
Qed.

(** ** [Add] *)

Lemma shape_snoc st q l e x rest :
  shape st q l -> heap q = (Some <$> l) ++ None :: rest \/ (exists y, heap q = (Some <$> l) ++ Some y :: rest) ->
  e ∉ l -> st !! e = Some x -> not_nan (time x) = true ->
  shape (<[e := mkElement (time x) (llen l)]> st) (set_heap (<[length l := Some e]> (heap q)) q) (l ++ [e]).
Proof.
  intros Hs Hh He Hx Hn. split.
  - exists rest. cbn. rewrite fmap_app, <- app_assoc.
    destruct Hh as [-> |[y ->]]; rewrite insert_app_r_alt by (by rewrite length_fmap);
      by rewrite length_fmap, Nat.sub_diag.
  - intros i y Hi. apply lookup_app_Some in Hi as [Hi|[Hge Hi]].
    + destruct (sh_elem _ _ _ Hs i y Hi) as (z & Hz & Ho & Hnz). exists z.
      rewrite lookup_insert_ne; [done|]. intros ->. apply He. by apply list_elem_of_lookup_2 with i.
    + assert (i = length l) as -> by (apply lookup_lt_Some in Hi; cbn in Hi; lia).
      rewrite Nat.sub_diag in Hi. injection Hi as <-. rewrite lookup_insert_eq.
      eexists. split; [done|]. by split.
Qed.

(** The new element is written behind the heap and sifted up. *)
Lemma add_sifts st q l e :
  pq_inv st q l -> addable st e -> e ∉ l ->
  exists st1 q1 st' h l', SetElement st q (heap_size q) e = Ok (st1, q1) /\
    BubbleUp (bubble_fuel q1) st1 q1 (heap_size q1) = Ok (st', set_heap h q) /\
    shape st' (set_heap h q) l' /\ l' ≡ₚ e :: l /\ same_times st st' /\
    Z.of_nat (length h) = max_heap_size q /\ heap_ok (keys st' l') (llen l + 1).
Proof.
  intros [Hs Hn Hr Ha _ Ho] (x & Hx & Hnan) He. pose proof (llen_nonneg l) as Hl0.
  rewrite (SetElement_Ok st q (heap_size q) e x) by (done || lia).
  set (st1 := <[e := _]> st). set (q1 := set_heap _ q).
  assert (shape st1 q1 (l ++ [e])) as Hs1.
  { subst st1 q1. rewrite Hn. unfold llen at 2. rewrite Nat2Z.id.
    destruct (sh_heap _ _ _ Hs) as (rest & Hh).
    assert (length (heap q) = (length l + length rest)%nat) as Hlen
      by (by rewrite Hh, length_app, length_fmap).
    destruct rest as [|c rest]; [unfold llen in *; cbn in Hlen; lia|].
    apply (shape_snoc st q l e x rest); try done.
    destruct c as [y|]; [right; by exists y|by left]. }
  assert (same_times st st1) as Ht1 by (by apply same_times_offset).
  assert (sifted st1 q1 (l ++ [e]) (BubbleUp (bubble_fuel q1) st1 q1 (heap_size q1))) as Hsift.
  { apply BubbleUp_spec; [done|rewrite llen_snoc; cbn; lia| |unfold bubble_fuel; lia].
    rewrite llen_snoc. cbn [heap_size q1 set_heap]. rewrite Hn.
    apply (append_up_inv bin_ok 0 Parent Parent_cell (keys st l)); [done|].
    intros i Hi. unfold keys. rewrite (same_times_tm st st1) by done.
    rewrite !list_lookup_total_alt, lookup_app_l by (unfold llen in Hi; lia). done. }
  destruct Hsift as (st' & h & l' & E & Hs' & Hp' & Ht' & Hl' & Hh'). rewrite llen_snoc in Hh'.
  exists st1, q1, st', h, l'. split; [done|]. split; [exact E|]. split; [exact Hs'|].
  split; [by rewrite Hp'; symmetry; apply Permutation_cons_append|].
  split; [by eapply same_times_trans|]. split; [|done].
  rewrite Hl'. subst q1. cbn. rewrite length_insert. lia.
Qed.

(** Bins behind the heap do not matter. *)
Lemma shape_more st q q' l rest :
  heap q' = heap q ++ rest -> shape st q l -> shape st q' l.
Proof.
  intros E [[r Hr] Hel]. split; [|done]. exists (r ++ rest). by rewrite E, Hr, app_assoc.
Qed.

(** [Add] of an element that is not queued. *)
Lemma Add_ok st q l e :
  pq_inv st q l -> addable st e -> e ∉ l -> (llen l + 1 < max_heap_size q \/ llen l < 2 ^ 29) ->
  exists st' q' l', PriorityQueue.Add st q e = Ok (true, st', q') /\ pq_inv st' q' l' /\
    l' ≡ₚ e :: l /\ same_times st st' /\
    cumulative_num q' = u64 (cumulative_num q + 1) /\
    peak_heap_size q' = Z.max (peak_heap_size q) (llen l + 1) /\
    max_heap_size q' = (if max_heap_size q <=? llen l + 1 then 2 else 1) * max_heap_size q.
Proof.
  intros I Hadd He Hroom. destruct (add_sifts st q l e I Hadd He) as (st1 & q1 & st' & h & l' & E1 & E2 & Hs & Hp & Ht & Hlh & Hh).
  destruct I as [_ Hn Hr Ha Hi Ho]. unfold PriorityQueue.Add. rewrite E1. cbn [res_bind]. rewrite E2. cbn [res_bind].
  pose proof (llen_nonneg l) as Hl0. pose proof (llen_perm _ _ Hp) as Hll.
  assert (llen l' = llen l + 1) as Hl' by (rewrite Hll; unfold llen; cbn; lia).
  cbn [heap_size set_heap max_heap_size peak_heap_size cumulative_num heap]. rewrite Hn.
  rewrite int_of_ok by lia. cbn [res_bind heap_size max_heap_size].
  assert ((if peak_heap_size q <? llen l + 1 then llen l + 1 else peak_heap_size q) =
          Z.max (peak_heap_size q) (llen l + 1)) as ->
    by (destruct (Z.ltb_spec (peak_heap_size q) (llen l + 1)); lia).
  destruct (Z.leb_spec (max_heap_size q) (llen l + 1)) as [Hfull|Hfree].
  - rewrite int_of_ok by lia. cbn [res_bind]. unfold PriorityQueue.Resize. cbn [max_heap_size heap heap_size peak_heap_size cumulative_num].
    destruct (Z.ltb_spec (max_heap_size q * 2) (max_heap_size q)); [lia|]. cbn [res_bind].
    rewrite take_ge by lia.
    eexists st', _, l'. split; [reflexivity|]. split; [|split_and!; [done|done|done|done|cbn; lia]].
    split; cbn; [by apply (shape_more st' (set_heap h q) _ l' (new_array (max_heap_size q * 2 - max_heap_size q)))|lia|lia| |lia|by rewrite Hl'].
    rewrite length_app. unfold new_array. rewrite length_replicate. lia.
  - eexists st', _, l'. split; [reflexivity|]. split; [|split_and!; [done|done|done|done|cbn; lia]].
    split; cbn; [|lia|lia|lia|lia|by rewrite Hl'].
    apply (shape_more st' (set_heap h q) _ l' []); [|exact Hs]. cbn. by rewrite app_nil_r.
Qed.

(** C10: [Add] puts an element that is not queued, with a time that is a number, in a
    queue that has a free bin to spare or fewer than 2^29 elements, so that the doubled
    size is an [int] whose bins have children: it returns true, the queue holds the
    element and what it held, in heap order, all elements know their bins, the counters
    are kept, and a full array has been doubled. *)
Theorem Add_correct st q l e :
  pq_inv st q l -> addable st e -> e ∉ l -> (llen l + 1 < max_heap_size q \/ llen l < 2 ^ 29) ->
  exists st' q' l', PriorityQueue.Add st q e = Ok (true, st', q') /\ pq_inv st' q' l' /\
    l' ≡ₚ e :: l /\ same_times st st' /\
    cumulative_num q' = u64 (cumulative_num q + 1) /\
    peak_heap_size q' = Z.max (peak_heap_size q) (llen l + 1) /\
    max_heap_size q' = (if max_heap_size q <=? llen l + 1 then 2 else 1) * max_heap_size q.
Proof. apply Add_ok. Qed.

(** ** [Remove] *)

Lemma lookup_back (top back : nat) m : (top :: m ++ [back]) !! S (length m) = Some back.
Proof. change ((m ++ [back]) !! length m = Some back). by apply list_lookup_middle. Qed.

(** The back element takes the root's place. *)
Lemma root_replaced st q n top m back :
  shape st q (top :: m ++ [back]) ->
  let q1 := set_heap_size n q in
  exists st1 h1, SetElement st q1 0 back = Ok (st1, set_heap h1 q1) /\
    shape st1 (set_heap h1 q1) (back :: m) /\ same_times st st1 /\ length h1 = length (heap q) /\
    (forall i, 0 < i < llen m + 1 -> keys st1 (back :: m) i = keys st (top :: m ++ [back]) i).
Proof.
  intros Hs q1. destruct (sh_heap _ _ _ Hs) as (rest & Hh).
  destruct (sh_elem _ _ _ Hs (S (length m)) back (lookup_back top back m)) as (x & Hx & _ & Hn).
  assert (heap q = Some top :: (Some <$> m) ++ Some back :: rest) as Hh'.
  { rewrite Hh. cbn. by rewrite fmap_app, <- app_assoc. }
  assert (same_times st (<[back := mkElement (time x) 0]> st)) as Ht by (by apply same_times_offset).
  exists (<[back := mkElement (time x) 0]> st), (<[0%nat := Some back]> (heap q)).
  split; [rewrite (SetElement_Ok st q1 0 back x); [done|change (heap q1) with (heap q); rewrite Hh'; cbn [length]; lia|done]|].
  split; [split|split; [done|split; [by rewrite length_insert|]]].
  - exists (Some back :: rest). cbn [heap set_heap]. by rewrite Hh'.
  - intros [|i] e Hi.
    + injection Hi as <-. rewrite lookup_insert_eq. by eexists.
    + change (m !! i = Some e) in Hi.
      assert ((top :: m ++ [back]) !! S i = Some e) as Hi'.
      { change ((m ++ [back]) !! i = Some e). by apply lookup_app_l_Some. }
      destruct (sh_elem _ _ _ Hs _ _ Hi') as (y & Hy & Ho & Hny). exists y.
      rewrite lookup_insert_ne; [done|]. intros <-.
      assert (S i = S (length m)) as E.
      { eapply (shape_inj st q _ (S i) (S (length m)) back); [exact Hs|done|].
        apply lookup_back. }
      apply lookup_lt_Some in Hi. lia.
  - intros i Hi. unfold keys. rewrite (same_times_tm st (<[back := mkElement (time x) 0]> st)) by done. f_equal.
    rewrite !list_lookup_total_alt. f_equal.
    replace (Z.to_nat i) with (S (Z.to_nat (i - 1))) by lia. unfold llen in Hi.
    change (m !! Z.to_nat (i - 1) = (m ++ [back]) !! Z.to_nat (i - 1)). by rewrite lookup_app_l by lia.
Qed.

Lemma SetOffset_Ok st e x off :
  st !! e = Some x -> SetOffset st e off = Ok (<[e := mkElement (time x) off]> st).
Proof. intros Hx. unfold SetOffset, elem. by rewrite Hx. Qed.

(** An element that is not queued does not matter to the queue. *)
Lemma pq_inv_other st q l e x off :
  pq_inv st q l -> e ∉ l -> st !! e = Some x ->
  pq_inv (<[e := mkElement (time x) off]> st) q l.
Proof.
  intros [Hs Hn Hr Ha Hint Ho] He Hx.
  assert (same_times st (<[e := mkElement (time x) off]> st)) as Ht by (by apply same_times_offset).
  split; try done.
  - destruct Hs as [Hh Hel]. split; [done|]. intros i y Hi. rewrite lookup_insert_ne; [by apply Hel|].
    intros ->. apply He. by apply list_elem_of_lookup_2 with i.
  - apply (heap_ok_ext (keys st l)); [|done]. intros i Hi. unfold keys.
    symmetry. by apply same_times_tm.
Qed.

Lemma root_least_elem st q top l :
  pq_inv st q (top :: l) -> least st top (top :: l).
Proof.
  intros [Hs _ _ _ _ Ho] x Hx. apply list_elem_of_lookup in Hx as [i Hi].
  pose proof (root_least bin_ok 0 Parent Parent_cell (fun _ _ _ => I) (keys st (top :: l)) (llen (top :: l)) (Z.of_nat i) Ho) as H.
  unfold keys in H. rewrite Nat2Z.id in H. rewrite (list_lookup_total_correct _ _ _ Hi) in H.
  apply H; [|done..]. apply lookup_lt_Some in Hi. unfold llen. lia.
Qed.

(** The last element is written to the root of the heap that is one shorter. *)
Lemma root_dropped st q top l q1 :
  pq_inv st q (top :: l) -> q1 = set_heap_size (llen l) q ->
  exists st1 h1 l1, SetElement st q1 0 ((top :: l) !!! Z.to_nat (llen l)) = Ok (st1, set_heap h1 q1) /\
    shape st1 (set_heap h1 q1) l1 /\ l1 ≡ₚ l /\ same_times st st1 /\ length h1 = length (heap q) /\
    (forall i, 0 < i < llen l1 -> keys st1 l1 i = keys st (top :: l) i).
Proof.
  intros I ->. pose proof I as [Hs Hn Hr Ha Hint Ho].
  pose proof (shape_NoDup _ _ _ Hs) as Hnd. apply NoDup_cons in Hnd as [Htop Hnd].
  destruct l as [|back m _] using rev_ind.
  - change ([top] !!! Z.to_nat (llen [])) with top.
    destruct (sh_elem _ _ _ Hs 0%nat top eq_refl) as (x & Hx & _ & Hnx).
    exists (<[top := mkElement (time x) 0]> st), (<[0%nat := Some top]> (heap q)), [].
    split; [rewrite (SetElement_Ok st _ 0 top x); [done|cbn; unfold llen in *; cbn in *; lia|done]|].
    split; [split; [by eexists|done]|].
    split; [done|]. split; [by apply same_times_offset|]. split; [by rewrite length_insert|].
    unfold llen. cbn. lia.
  - assert ((top :: m ++ [back]) !!! Z.to_nat (llen (m ++ [back])) = back) as ->.
    { apply list_lookup_total_correct. rewrite llen_snoc. unfold llen.
      replace (Z.to_nat (Z.of_nat (length m) + 1)) with (S (length m)) by lia.
      apply lookup_back. }
    destruct (root_replaced st q (llen (m ++ [back])) top m back Hs) as (st1 & h1 & E & Hs1 & Ht & Hl & Hk).
    exists st1, h1, (back :: m). split; [done|]. split; [done|].
    split; [by rewrite Permutation_cons_append|]. split; [done|]. split; [done|].
    intros i Hi. apply Hk. unfold llen in *. cbn in Hi. lia.
Qed.

(** [Remove] of a queue that is not empty, in terms of its first element. *)
Lemma Remove_cons st q top l :
  pq_inv st q (top :: l) ->
  exists st' q' l', PriorityQueue.Remove st q = Ok (Some top, st', q') /\ pq_inv st' q' l' /\
    l' ≡ₚ l /\ same_times st st' /\ (exists x, st' !! top = Some x /\ offset x = -1) /\
    cumulative_num q' = cumulative_num q /\ peak_heap_size q' = peak_heap_size q /\
    max_heap_size q' = max_heap_size q.
Proof.
  intros I. pose proof I as [Hs Hn Hr Ha Hint Ho]. pose proof (llen_nonneg l) as Hl0.
  assert (llen (top :: l) = llen l + 1) as Hll by (unfold llen; cbn; lia).
  pose proof (shape_NoDup _ _ _ Hs) as Hnd. apply NoDup_cons in Hnd as [Htop Hnd].
  unfold PriorityQueue.Remove. destruct (Z.eqb_spec (heap_size q) 0); [lia|].
  rewrite (heap_at_shape st q (top :: l) 0 Hs) by lia. cbn [res_bind].
  change ((top :: l) !!! Z.to_nat 0) with top.
  replace (heap_size q - 1) with (llen l) by lia.
  set (q1 := set_heap_size (llen l) q). cbn [heap_size q1 set_heap_size].
  change (heap_at q1 (llen l)) with (heap_at q (llen l)).
  rewrite (heap_at_shape st q (top :: l) (llen l) Hs) by lia. cbn [res_bind].
  destruct (root_dropped st q top l q1 I eq_refl) as (st1 & h1 & l1 & E1 & Hs1 & Hp1 & Ht1 & Hl1 & Hk1).
  rewrite E1. cbn [res_bind]. pose proof (llen_perm _ _ Hp1) as Hll1.
  assert (sifted st1 (set_heap h1 q1) l1 (BubbleDown (bubble_fuel (set_heap h1 q1)) st1 (set_heap h1 q1) 0)) as Hsift.
  { apply BubbleDown_spec; [done|by rewrite Hll1|lia|pose proof (llen_nonneg l1); lia| |lia|unfold bubble_fuel; cbn; lia].
    apply (replace_root_down_inv bin_ok 0 Parent Parent_cell (keys st (top :: l)) _ (llen (top :: l))); [done|lia|done]. }
  apply sifted_inv in Hsift as (st2 & h2 & l2 & E2 & I2 & Hp2 & Ht2);
    [|by rewrite Hll1|cbn; lia|cbn; lia|cbn; lia].
  rewrite E2. cbn [res_bind].
  assert (exists x, st2 !! top = Some x) as [x Hx].
  { destruct (sh_elem _ _ _ Hs 0%nat top eq_refl) as (x & Hx & _ & _).
    pose proof (Ht1 top) as H1. pose proof (Ht2 top) as H2. rewrite Hx in H1. rewrite H1 in H2.
    destruct (st2 !! top) as [y|]; [by exists y|done]. }
  rewrite (SetOffset_Ok st2 top x (-1) Hx). cbn [res_bind].
  eexists _, _, l2. split; [reflexivity|].
  assert (l2 ≡ₚ l) as Hp by (by rewrite Hp2). split.
  { apply pq_inv_other; [done| |done]. by rewrite Hp. }
  split; [done|]. split.
  { eapply same_times_trans; [exact Ht1|]. eapply same_times_trans; [exact Ht2|]. by apply same_times_offset. }
  split; [|done]. rewrite lookup_insert_eq. by eexists.
Qed.

(** C11: [Remove] returns nothing from an empty queue; otherwise it returns an element
    no other is before, marks it as not queued and leaves the others queued, in heap
    order. *)
Theorem Remove_correct st q l :
  pq_inv st q l ->
  match l with
  | [] => PriorityQueue.Remove st q = Ok (None, st, q)
  | _ => exists top st' q' l', PriorityQueue.Remove st q = Ok (Some top, st', q') /\
           pq_inv st' q' l' /\ l ≡ₚ top :: l' /\ least st top l /\ same_times st st' /\
           (exists x, st' !! top = Some x /\ offset x = -1)
  end.
Proof.
  intros I. destruct l as [|top l].
  - unfold PriorityQueue.Remove. rewrite (inv_size _ _ _ I). done.
  - destruct (Remove_cons st q top l I) as (st' & q' & l' & E & I' & Hp & Ht & Hx & _).
    exists top, st', q', l'. split; [done|]. split; [done|]. split; [by rewrite Hp|].
    split; [by eapply root_least_elem|]. by split.
Qed.

(** Two elements with times 1 and 2. *)
Definition two_elements : store :=
  <[0%nat := new_PQ_Element (S754_finite false 1 0)]>
    (<[1%nat := new_PQ_Element (S754_finite false 1 1)]> ∅).

Definition add1 (e : nat) (s : store * PriorityQueue) : res (store * PriorityQueue) :=
  let! (_, st, q) := PriorityQueue.Add (fst s) (snd s) e in Ok (st, q).

Definition the_queue (m : res (store * PriorityQueue)) : store * PriorityQueue :=
  match m with Ok s => s | _ => (∅, new_PriorityQueue 0) end.

(** The later element is added first. *)
Definition queue2 : store * PriorityQueue :=
  Eval vm_compute in the_queue (let! s := add1 1 (two_elements, new_PriorityQueue 4) in add1 0 s).

Lemma queue2_inv : pq_inv (fst queue2) (snd queue2) [0%nat; 1%nat].
Proof.
  split; try (vm_compute; reflexivity).
  - split; [exists [None; None]; reflexivity|].
    intros [|[|i]] e H; [..|done]; injection H as <-; eexists; (split; [reflexivity|done]).
  - discriminate.
  - intros i Hi. change (llen [0%nat; 1%nat]) with 2 in Hi. assert (i = 1) as -> by lia.
    vm_compute. reflexivity.
Qed.

Lemma Add_correct_witness :
  exists st' q' l', PriorityQueue.Add two_elements (new_PriorityQueue 1) 0%nat = Ok (true, st', q') /\
    pq_inv st' q' l' /\ l' ≡ₚ [0%nat] /\ max_heap_size q' = 2.
Proof.
  destruct (Add_correct two_elements (new_PriorityQueue 1) [] 0%nat)
    as (st' & q' & l' & E & I & Hp & _ & _ & _ & Hm).
  - apply new_inv. lia.
  - by eexists.
  - set_solver.
  - right. unfold llen. cbn [length]. lia.
  - exists st', q', l'. exact (conj E (conj I (conj Hp Hm))).
Defined.

Lemma Remove_correct_witness :
  exists top st' q' l', PriorityQueue.Remove (fst queue2) (snd queue2) = Ok (Some top, st', q') /\
    pq_inv st' q' l' /\ [0%nat; 1%nat] ≡ₚ top :: l' /\ least (fst queue2) top [0%nat; 1%nat].
Proof.
  destruct (Remove_correct (fst queue2) (snd queue2) [0%nat; 1%nat] queue2_inv)
    as (top & st' & q' & l' & E & I & Hp & Hl & _).
  exists top, st', q', l'. exact (conj E (conj I (conj Hp Hl))).
Defined.

(** ** [Remove(e)] *)

Lemma keys_minimized st l e x i :
  st !! e = Some x -> l !!! Z.to_nat i <> e ->
  keys (<[e := mkElement MINUS_HUGE_VAL (offset x)]> st) l i = keys st l i.
Proof. intros Hx Hne. unfold keys, tm. by rewrite lookup_insert_ne. Qed.

(** The time of a queued element is lowered and the element sifted up: it gets to the
    root, as nothing else is as early. *)
Lemma minimize_sifts st q l e i x :
  pq_inv st q l -> l !! i = Some e -> st !! e = Some x ->
  let st1 := <[e := mkElement MINUS_HUGE_VAL (offset x)]> st in
  exists st2 h2 r l2, BubbleUp (bubble_fuel q) st1 q (Z.of_nat i) = Ok (st2, set_heap h2 q) /\
    pq_inv st2 (set_heap h2 q) (r :: l2) /\ r :: l2 ≡ₚ l /\ same_times st1 st2 /\
    (r = e \/ ltb (rank MINUS_HUGE_VAL) (tm st r) = false).
Proof.
  intros I Hi Hx st1. pose proof I as [Hs Hn Hr Ha Hint Ho]. pose proof (lookup_lt_Some _ _ _ Hi) as Hil.
  destruct (sh_elem _ _ _ Hs i e Hi) as (x' & Hx' & Hox & Hnx). rewrite Hx in Hx'. injection Hx' as <-.
  assert (0 <= Z.of_nat i < llen l) as Hir by (unfold llen; lia).
  assert (tm st1 e = rank MINUS_HUGE_VAL) as Ht1 by (unfold tm, st1; by rewrite lookup_insert_eq).
  assert (shape st1 q l) as Hs1.
  { split; [apply Hs|]. intros j y Hj. destruct (decide (y = e)) as [->|Hne].
    - assert (j = i) as -> by (by eapply shape_inj). unfold st1. rewrite lookup_insert_eq. by eexists.
    - unfold st1. rewrite lookup_insert_ne by done. by apply Hs. }
  assert (sifted st1 q l (BubbleUp (bubble_fuel q) st1 q (Z.of_nat i))) as Hsift.
  { apply BubbleUp_spec; [done|done| |unfold bubble_fuel; lia].
    apply up_inv_ext with (fun j => if j =? Z.of_nat i then rank MINUS_HUGE_VAL else keys st l j); [|done|].
    - intros j Hj. destruct (Z.eqb_spec j (Z.of_nat i)) as [->|Hne].
      + unfold keys. by rewrite Nat2Z.id, (list_lookup_total_correct _ _ _ Hi).
      + symmetry. apply keys_minimized; [done|]. intros E.
        pose proof (llookup l j Hj) as Lj. rewrite E in Lj.
        pose proof (shape_inj _ _ _ _ _ _ Hs Lj Hi). lia.
    - apply (decrease_up_inv bin_ok 0 Parent Parent_cell (keys st l)); [done|done|done| |].
      + intros j Hj. by destruct (Z.eqb_spec j (Z.of_nat i)).
      + rewrite Z.eqb_refl. apply MINUS_HUGE_VAL_least. }
  apply sifted_inv in Hsift as (st2 & h2 & l2 & E2 & I2 & Hp2 & Ht2); [|done|done|done|done].
  destruct l2 as [|r l2]; [symmetry in Hp2; apply Permutation_nil_r in Hp2 as ->; done|].
  assert (e ∈ r :: l2) as He2 by (rewrite Hp2; by apply list_elem_of_lookup_2 with i).
  exists st2, h2, r, l2. split_and!; try done.
  destruct (decide (r = e)) as [|Hne]; [by left|right].
  pose proof (root_least_elem _ _ _ _ I2 e He2) as Hle.
  rewrite !(same_times_tm st1 st2), Ht1 in Hle by done. unfold le, tm at 1, st1 in Hle.
  rewrite lookup_insert_ne in Hle by done. exact Hle.
Qed.

(** C12: [Remove(e)] of a queued element, wherever it is, takes it out: the others stay
    queued, in heap order, with their times, and the element's own time is lost; unless
    another queued element has the time [-HUGE_VAL] itself, when the program may abort
    instead.  It does nothing else. *)
Theorem Remove_element_correct st q l e :
  pq_inv st q l -> e ∈ l ->
  (exists st' q' l', PriorityQueue.Remove_element st q e = Ok (Some e, st', q') /\
    pq_inv st' q' l' /\ l ≡ₚ e :: l' /\
    (forall x, x <> e -> time <$> st' !! x = time <$> st !! x) /\
    time <$> st' !! e = Some MINUS_HUGE_VAL /\ offset <$> st' !! e = Some (-1)) \/
  (PriorityQueue.Remove_element st q e = Abort /\
   exists x, x ∈ l /\ x <> e /\ ltb (rank MINUS_HUGE_VAL) (tm st x) = false).
Proof.
  intros I He. pose proof I as [Hs Hn Hr Ha Hint Ho].
  apply list_elem_of_lookup in He as [i Hi]. pose proof (lookup_lt_Some _ _ _ Hi) as Hil.
  destruct (sh_elem _ _ _ Hs i e Hi) as (x & Hx & Hox & Hnx).
  destruct (minimize_sifts st q l e i x I Hi Hx) as (st2 & h2 & r & l2 & E2 & I2 & Hp2 & Ht2 & Hr2).
  assert (0 <= Z.of_nat i < llen l) as Hir by (unfold llen; lia).
  unfold PriorityQueue.Remove_element, Offset, elem. rewrite Hx. cbn [res_bind]. rewrite Hox.
  destruct (Z.ltb_spec (Z.of_nat i) 0); [lia|]. destruct (Z.leb_spec (heap_size q) (Z.of_nat i)); [lia|].
  cbn [orb]. rewrite (heap_at_shape st q l _ Hs Hir), Nat2Z.id, (list_lookup_total_correct _ _ _ Hi).
  cbn [res_bind]. rewrite Nat.eqb_refl. cbn [negb].
  unfold MinimizeTime, elem. rewrite Hx. cbn [res_bind]. rewrite lookup_insert_eq. cbn [res_bind offset].
  rewrite Hox in E2 |- *. rewrite E2. cbn [res_bind].
  destruct (Remove_cons st2 (set_heap h2 q) r l2 I2) as (st3 & q3 & l3 & E3 & I3 & Hp3 & Ht3 & (y & Hy & Hoy) & _).
  rewrite E3. cbn [res_bind]. destruct (decide (r = e)) as [->|Hne].
  2:{ right. rewrite bool_decide_eq_false_2 by congruence. split; [done|]. exists r.
      destruct Hr2 as [|Hr2]; [done|]. split; [rewrite <- Hp2; left|done]. }
  left. rewrite bool_decide_eq_true_2 by done. exists st3, q3, l3. split; [done|]. split; [done|]. split; [by rewrite <- Hp2, Hp3|].
  split; [|split; [|by rewrite Hy; cbn; rewrite Hoy]].
  - intros z Hz. rewrite Ht3, Ht2. by rewrite lookup_insert_ne.
  - rewrite Ht3, Ht2. by rewrite lookup_insert_eq.
Qed.

Lemma Remove_element_correct_witness :
  exists st' q' l', PriorityQueue.Remove_element (fst queue2) (snd queue2) 1%nat = Ok (Some 1%nat, st', q') /\
    pq_inv st' q' l' /\ [0%nat; 1%nat] ≡ₚ 1%nat :: l'.
Proof.
  destruct (Remove_element_correct (fst queue2) (snd queue2) [0%nat; 1%nat] 1%nat queue2_inv ltac:(set_solver))
    as [(st' & q' & l' & E & I & Hp & _)|[E _]].
  - exists st', q', l'. exact (conj E (conj I Hp)).
  - exfalso. vm_compute in E. discriminate E.
Defined.

(** [Remove(e)] of a live element that is not queued returns [nullptr] and changes
    nothing, whatever its stale offset is. *)
Theorem Remove_element_absent st q l e :
  pq_inv st q l -> e ∉ l -> is_Some (st !! e) ->
  PriorityQueue.Remove_element st q e = Ok (None, st, q).
Proof.
  intros [Hs Hn _ _ _ _] He [x Hx]. unfold PriorityQueue.Remove_element, Offset, elem.
  rewrite Hx. cbn [res_bind].
  destruct (Z.ltb_spec (offset x) 0); [done|].
  destruct (Z.leb_spec (heap_size q) (offset x)); [done|]. cbn [orb].
  rewrite (heap_at_shape st q l _ Hs) by lia. cbn [res_bind].
  destruct (Nat.eqb_spec (l !!! Z.to_nat (offset x)) e) as [E|]; [|done].
  exfalso. apply He. rewrite <- E. apply list_elem_of_lookup_2 with (Z.to_nat (offset x)).
  apply llookup. lia.
Qed.

Lemma Remove_element_absent_witness :
  PriorityQueue.Remove_element two_elements (new_PriorityQueue 4) 0%nat =
    Ok (None, two_elements, new_PriorityQueue 4).
Proof.
  apply (Remove_element_absent _ _ [] 0%nat).
  - apply new_inv. lia.
  - set_solver.
  - by eexists.
Defined.

(** An element that was removed with [Remove(e)] keeps the time [-HUGE_VAL]; when it
    is added again, the next [Remove(e)] of another element finds it at the top
    instead and aborts ("inconsistency"). *)
Theorem Remove_element_aborts_after_readd :
  exists st q st1 q1 st2 q2,
    PriorityQueue.Remove_element (fst queue2) (snd queue2) 0%nat = Ok (Some 0%nat, st, q) /\
    PriorityQueue.Add st q 0%nat = Ok (true, st1, q1) /\ pq_inv st2 q2 [0%nat; 1%nat] /\
    (st1, q1) = (st2, q2) /\
    PriorityQueue.Remove_element st1 q1 1%nat = Abort.
Proof.
  set (r := PriorityQueue.Remove_element (fst queue2) (snd queue2) 0%nat).
  set (s := match r with Ok (_, st, q) => (st, q) | _ => queue2 end).
  set (s1 := the_queue (add1 0 s)).
  exists (fst s), (snd s), (fst s1), (snd s1), (fst s1), (snd s1).
  split; [vm_compute; reflexivity|]. split; [vm_compute; reflexivity|]. split; [|split; [done|vm_compute; reflexivity]].
  split; try (vm_compute; reflexivity).
  - split; [exists [None; None]; vm_compute; reflexivity|].
    intros [|[|i]] e H; [..|done]; injection H as <-; eexists; (split; [vm_compute; reflexivity|done]).
  - vm_compute. discriminate.
  - intros i Hi. change (llen [0%nat; 1%nat]) with 2 in Hi. assert (i = 1) as -> by lia.
    vm_compute. reflexivity.
Qed.

(** ** Draining *)

(** [while (e = q.Remove())]. *)
Fixpoint drain (fuel : nat) (st : store) (q : PriorityQueue)
    : res (list nat * store * PriorityQueue) :=
  match fuel with
  | O => NoFuel
  | S n =>
      let! (e, st, q) := PriorityQueue.Remove st q in
      match e with
      | None => Ok ([], st, q)
      | Some e => let! (es, st, q) := drain n st q in Ok (e :: es, st, q)
      end
  end.

Lemma drain_S n st q :
  drain (S n) st q =
    let! (e, st, q) := PriorityQueue.Remove st q in
    match e with
    | None => Ok ([], st, q)
    | Some e => let! (es, st, q) := drain n st q in Ok (e :: es, st, q)
    end.
Proof. done. Qed.

(** Draining a queue ends after its size many removals and returns all elements,
    each once, in the order of their times: the queue sorts. *)
Theorem drain_sorts st q l :
  pq_inv st q l ->
  exists es st' q', drain (S (length l)) st q = Ok (es, st', q') /\ es ≡ₚ l /\
    StronglySorted (fun a b => le (tm st a) (tm st b)) es /\ pq_inv st' q' [] /\ same_times st st'.
Proof.
  remember (length l) as n eqn:Hn. revert st q l Hn.
  induction n as [|n IH]; intros st q l Hn I; rewrite drain_S; destruct l as [|top l]; try done.
  - unfold PriorityQueue.Remove. rewrite (inv_size _ _ _ I). cbn [llen length Z.of_nat Z.eqb res_bind].
    exists [], st, q. split; [done|]. split; [done|]. split; [constructor|]. by split.
  - destruct (Remove_cons st q top l I) as (st1 & q1 & l1 & E & I1 & Hp & Ht & _). rewrite E. cbn [res_bind].
    injection Hn as Hn. assert (n = length l1) as Hn1 by (by rewrite Hp).
    destruct (IH st1 q1 l1 Hn1 I1) as (es & st2 & q2 & E2 & Hp2 & Hsort & I2 & Ht2).
    rewrite E2. cbn [res_bind]. exists (top :: es), st2, q2. split; [done|].
    split; [by rewrite Hp2, Hp|]. split.
    + constructor.
      * clear -Hsort Ht. induction Hsort as [|a es Hs IHs Hall]; constructor; [done|].
        eapply Forall_impl; [exact Hall|]. intros x Hx. cbn in Hx. by rewrite !(same_times_tm st st1) in Hx by done.
      * apply Forall_forall. intros x Hx. apply (root_least_elem st q top l I).
        apply list_elem_of_further. by rewrite <- Hp, <- Hp2.
    + split; [done|]. by eapply same_times_trans.
Qed.

Lemma drain_sorts_witness :
  exists es st' q', drain 3 (fst queue2) (snd queue2) = Ok (es, st', q') /\ es ≡ₚ [0%nat; 1%nat] /\
    StronglySorted (fun a b => le (tm (fst queue2) a) (tm (fst queue2) b)) es.
Proof.
  destruct (drain_sorts (fst queue2) (snd queue2) [0%nat; 1%nat] queue2_inv)
    as (es & st' & q' & E & Hp & Hs & _).
  exists es, st', q'. exact (conj E (conj Hp Hs)).
Defined.
