(* ===== verification/TimerQueue.v ===== *)
(** * The queues as one interface

    What [queue/main.cc] uses of a queue: it adds an element under its time and takes
    out one that is not later than any other.  The class [TimerQueue] has the operations
    and their laws; the loops of [main.cc] are written and proved against it. *)

From S2P Require Import Prelude Time PQElement PQTheory PQSpec.

(** More than the queues are ever filled with here. *)
Definition CAPACITY : Z := 2 ^ 29.

(** [tq_holds st q l]: [q] is a valid queue of the elements [l], in no particular order. *)
Class TimerQueue (Q : Type) := {
  tq_new : Q;
  tq_add : store -> Q -> time_t -> nat -> res (store * Q);
  tq_remove : store -> Q -> res (option nat * store * Q);
  tq_holds : store -> Q -> list nat -> Prop;
  tq_holds_new : forall st, tq_holds st tq_new [];
  tq_holds_perm : forall st q l l', l ≡ₚ l' -> tq_holds st q l -> tq_holds st q l';
  tq_holds_store : forall st st' q l,
    (forall e, e ∈ l -> st' !! e = st !! e) -> tq_holds st q l -> tq_holds st' q l;
  tq_holds_nodup : forall st q l, tq_holds st q l -> NoDup l;
  tq_holds_live : forall st q l e, tq_holds st q l -> e ∈ l -> addable st e;
  tq_add_ok : forall st q l e x,
    tq_holds st q l -> st !! e = Some x -> not_nan (time x) = true -> e ∉ l ->
    Z.of_nat (length l) < CAPACITY ->
    exists st' q', tq_add st q (time x) e = Ok (st', q') /\ tq_holds st' q' (e :: l) /\ same_times st st';
  tq_remove_nil : forall st q, tq_holds st q [] -> tq_remove st q = Ok (None, st, q);
  tq_remove_ok : forall st q l, tq_holds st q l -> l <> [] ->
    exists e st' q' l', tq_remove st q = Ok (Some e, st', q') /\ l ≡ₚ e :: l' /\
      tq_holds st' q' l' /\ least st e l /\ same_times st st'
}.

(** ** Objects on the heap *)

(** The live elements, and an address above all that were given out. *)
Record world := mkWorld { objects : store; fresh : nat }.

Definition set_objects (st : store) (w : world) : world := mkWorld st (fresh w).
Definition empty_world : world := mkWorld ∅ 0.

(** [new PQ_Element(t)]. *)
Definition new_element (w : world) (t : time_t) : nat * world :=
  (fresh w, mkWorld (<[fresh w := new_PQ_Element t]> (objects w)) (S (fresh w))).

(** [delete e]. *)
Definition delete_element (w : world) (e : nat) : res world :=
  match objects w !! e with
  | Some _ => Ok (set_objects (delete e (objects w)) w)
  | None => UB
  end.

Section Loops.
Context {Q : Type} `{TimerQueue Q}.

(** [for (auto r : values) { auto* e = new PQ_Element(r); q.Add(e); }] *)
Fixpoint fill (w : world) (q : Q) (ts : list time_t) : res (world * Q) :=
  match ts with
  | [] => Ok (w, q)
  | t :: ts =>
      let '(e, w) := new_element w t in
      let! (st, q) := tq_add (objects w) q t e in
      fill (set_objects st w) q ts
  end.

(** [while (e = q.Remove()) { ordered.push_back(e->Time()); delete e; }] *)
Fixpoint empty_out (fuel : nat) (w : world) (q : Q) : res (list time_t * world * Q) :=
  match fuel with
  | O => NoFuel
  | S fuel =>
      let! (e, st, q) := tq_remove (objects w) q in
      let w := set_objects st w in
      match e with
      | None => Ok ([], w, q)
      | Some e =>
          let! t := Time (objects w) e in
          let! w := delete_element w e in
          let! (ts, w, q) := empty_out fuel w q in
          Ok (t :: ts, w, q)
      end
  end.

(** [while (e = q.Remove()) printf("%.0f\n", e->Time());] *)
Fixpoint print_out (fuel : nat) (st : store) (q : Q) : res (list time_t * store * Q) :=
  match fuel with
  | O => NoFuel
  | S fuel =>
      let! (e, st, q) := tq_remove st q in
      match e with
      | None => Ok ([], st, q)
      | Some e =>
          let! t := Time st e in
          let! (ts, st, q) := print_out fuel st q in
          Ok (t :: ts, st, q)
      end
  end.
End Loops.

(** ** Worlds *)

(** No live object at [fresh] or above. *)
Definition world_ok (w : world) : Prop := forall e, (fresh w <= e)%nat -> objects w !! e = None.

(** [es] are the objects of [st'] that [st] did not have, with the times [ts]. *)
Record created (st st' : store) (es : list nat) (ts : list time_t) : Prop := mkCreated {
  cr_new : forall e, e ∈ es -> st !! e = None;
  cr_old : forall e, e ∉ es -> time <$> st' !! e = time <$> st !! e;
  cr_times : (fun e => time <$> st' !! e) <$> es = Some <$> ts
}.

Lemma same_times_None st st' e : same_times st st' -> st !! e = None <-> st' !! e = None.
Proof. intros Ht. pose proof (Ht e) as E. destruct (st !! e), (st' !! e); naive_solver. Qed.

Lemma world_ok_times w st : world_ok w -> same_times (objects w) st -> world_ok (set_objects st w).
Proof. intros Hw Ht e He. apply (same_times_None _ _ e Ht). by apply Hw. Qed.

Lemma world_ok_new w t : world_ok w -> world_ok (snd (new_element w t)).
Proof. intros Hw e He. cbn in *. rewrite lookup_insert_ne by lia. apply Hw. lia. Qed.

Lemma delete_element_ok w e :
  is_Some (objects w !! e) -> delete_element w e = Ok (set_objects (delete e (objects w)) w).
Proof. unfold delete_element. by intros [x ->]. Qed.

Lemma world_ok_delete w e : world_ok w -> world_ok (set_objects (delete e (objects w)) w).
Proof. intros Hw y Hy. cbn in *. destruct (decide (y = e)) as [->|]; simplify_map_eq; auto. Qed.

Lemma Time_ok st e x : st !! e = Some x -> Time st e = Ok (time x).
Proof. intros E. unfold Time, elem. by rewrite E. Qed.

Lemma created_nil st st' : same_times st st' -> created st st' [] [].
Proof. intros Ht. split; [intros e He; by apply not_elem_of_nil in He|intros e _; apply Ht|done]. Qed.

Lemma created_cons st st1 st2 st' e t es ts :
  st !! e = None -> st1 = <[e := new_PQ_Element t]> st -> same_times st1 st2 -> created st2 st' es ts ->
  created st st' (e :: es) (t :: ts).
Proof.
  intros He -> Ht [Hn Ho Hts]. pose proof (Ht e) as Hte. rewrite lookup_insert_eq in Hte. cbn in Hte.
  assert (e ∉ es) as Hni by (intros Hin; rewrite (Hn e Hin) in Hte; done).
  assert (forall y, y <> e -> time <$> st2 !! y = time <$> st !! y) as Hne.
  { intros y Hy. pose proof (Ht y) as E. by rewrite lookup_insert_ne in E. }
  split.
  - intros y Hy. apply elem_of_cons in Hy as [->|Hy]; [done|].
    assert (y <> e) as Hye by congruence. pose proof (Hne y Hye) as E. rewrite (Hn y Hy) in E.
    by destruct (st !! y).
  - intros y Hy. apply not_elem_of_cons in Hy as [Hye Hy]. by rewrite Ho, Hne.
  - cbn. rewrite Hts. f_equal. by rewrite Ho.
Qed.

Lemma Some_perm {A} (l l' : list A) : Some <$> l ≡ₚ Some <$> l' -> l ≡ₚ l'.
Proof.
  intros Hp. assert (forall k : list A, omap id (Some <$> k) = k) as E by (induction k as [|x k IH]; cbn; congruence).
  rewrite <- (E l), <- (E l'). by rewrite Hp.
Qed.

(** ** The loops *)

(** The order of times, by rank. *)
Definition time_le (a b : time_t) : Prop := le (rank a) (rank b).

(** The elements [l] of [st] are gone in [st'], and had the times [ts] in order. *)
Record removed (st st' : store) (l : list nat) (ts : list time_t) : Prop := mkRemoved {
  rm_times : exists es, es ≡ₚ l /\ (fun e => time <$> st !! e) <$> es = Some <$> ts;
  rm_sorted : StronglySorted time_le ts;
  rm_gone : forall e, e ∈ l -> st' !! e = None;
  rm_kept : forall e, e ∉ l -> time <$> st' !! e = time <$> st !! e
}.

Lemma removed_nil st : removed st st [] [].
Proof.
  split; [by exists []|constructor| |done]. intros e He. by apply not_elem_of_nil in He.
Qed.

Lemma removed_cons st st1 st' e t l l1 ts :
  l ≡ₚ e :: l1 -> e ∉ l1 -> same_times st st1 -> time <$> st !! e = Some t -> least st e l ->
  removed (delete e st1) st' l1 ts -> removed st st' l (t :: ts).
Proof.
  intros Hp Hne Ht Hte Hle [(es & Hp2 & Hts) Hs Hg Hk].
  assert (forall z, z <> e -> time <$> delete e st1 !! z = time <$> st !! z) as Hoz
    by (intros z Hz; by rewrite lookup_delete_ne, Ht).
  split.
  - exists (e :: es). split; [by rewrite Hp, Hp2|]. cbn. rewrite Hte. cbn. f_equal. rewrite <- Hts.
    apply list_fmap_ext. intros i z Hz. symmetry. apply Hoz. intros ->. apply Hne. rewrite <- Hp2.
    by apply list_elem_of_lookup_2 with i.
  - constructor; [done|]. apply Forall_forall. intros u Hin.
    assert (Some u ∈ ((fun z => time <$> delete e st1 !! z) <$> es)) as Hin'
      by (rewrite Hts; by apply list_elem_of_fmap_2).
    apply list_elem_of_fmap in Hin' as (z & Hz & Hzes). rewrite Hp2 in Hzes.
    rewrite Hoz in Hz by congruence.
    assert (z ∈ l) as Hzl by (rewrite Hp; by apply list_elem_of_further).
    pose proof (Hle z Hzl) as Hlez. unfold tm in Hlez. rewrite Hte, <- Hz in Hlez. exact Hlez.
  - intros z Hz. rewrite Hp in Hz. apply elem_of_cons in Hz as [->|Hz]; [|by apply Hg].
    pose proof (Hk e Hne) as E3. rewrite lookup_delete_eq in E3. by destruct (st' !! e).
  - intros z Hz. rewrite Hp in Hz. apply not_elem_of_cons in Hz as [Hze Hz]. by rewrite Hk, Hoz.
Qed.

Section Client.
Context {Q : Type} `{TimerQueue Q}.

Lemma fill_ok w (q : Q) l ts :
  world_ok w -> tq_holds (objects w) q l -> Forall (fun t => not_nan t = true) ts ->
  Z.of_nat (length l + length ts) <= CAPACITY ->
  exists w' q' es, fill w q ts = Ok (w', q') /\ world_ok w' /\ tq_holds (objects w') q' (es ++ l) /\
    created (objects w) (objects w') es ts.
Proof.
  revert w q l. induction ts as [|t ts IH]; intros w q l Hw Hq Hnan Hcap; cbn [fill].
  { exists w, q, []. split; [done|]. split; [done|]. split; [done|]. by apply created_nil. }
  apply Forall_cons in Hnan as [Ht Hnan]. cbn [length] in Hcap. cbn [new_element].
  set (e := fresh w). set (st1 := <[e := new_PQ_Element t]> (objects w)).
  assert (objects w !! e = None) as He by (by apply Hw).
  assert (e ∉ l) as Hel.
  { intros Hin. destruct (tq_holds_live _ _ _ _ Hq Hin) as (x & Hx & _). by rewrite He in Hx. }
  destruct (tq_add_ok st1 q l e (new_PQ_Element t)) as (st2 & q2 & E & Hq2 & Ht2).
  - apply (tq_holds_store (objects w)); [|done]. intros y Hy. apply lookup_insert_ne. congruence.
  - apply lookup_insert_eq.
  - done.
  - done.
  - lia.
  - cbn [objects]. cbn [time new_PQ_Element] in E. rewrite E. cbn [res_bind].
    destruct (IH (set_objects st2 (snd (new_element w t))) q2 (e :: l)) as (w' & q' & es & E' & Hw' & Hq' & Hc).
    + apply world_ok_times; [by apply world_ok_new|done].
    + done.
    + done.
    + cbn [length]. lia.
    + exists w', q', (e :: es). split; [exact E'|]. split; [done|]. split.
      * apply (tq_holds_perm _ _ (es ++ e :: l)); [|done]. by rewrite <- Permutation_middle.
      * by apply (created_cons _ st1 st2).
Qed.

Lemma empty_out_S fuel w (q : Q) :
  empty_out (S fuel) w q =
    let! (e, st, q) := tq_remove (objects w) q in
    match e with
    | None => Ok ([], set_objects st w, q)
    | Some e =>
        let! t := Time st e in
        let! w := delete_element (set_objects st w) e in
        let! (ts, w, q) := empty_out fuel w q in Ok (t :: ts, w, q)
    end.
Proof. done. Qed.

Lemma empty_out_ok w (q : Q) l :
  world_ok w -> tq_holds (objects w) q l ->
  exists ts w' q', empty_out (S (length l)) w q = Ok (ts, w', q') /\
    removed (objects w) (objects w') l ts /\ world_ok w' /\ tq_holds (objects w') q' [].
Proof.
  remember (length l) as n eqn:Hn. revert w q l Hn.
  induction n as [|n IH]; intros w q l Hn Hw Hq; rewrite empty_out_S.
  { destruct l; [|done]. rewrite (tq_remove_nil _ _ Hq). cbn [res_bind].
    exists [], (set_objects (objects w) w), q. split; [done|]. split; [apply removed_nil|]. by split. }
  destruct (tq_remove_ok _ _ l Hq) as (e & st1 & q1 & l1 & E & Hp & Hq1 & Hle & Ht); [by intros ->|].
  assert (e ∈ l) as Hel by (rewrite Hp; apply list_elem_of_here).
  destruct (tq_holds_live _ _ _ _ Hq Hel) as (x & Hx & Hnx).
  pose proof (Ht e) as Hte. rewrite Hx in Hte. destruct (st1 !! e) as [y|] eqn:Hy; [|done]. injection Hte as Hty.
  assert (NoDup (e :: l1)) as Hnd by (rewrite <- Hp; by apply (tq_holds_nodup (objects w) q)).
  apply NoDup_cons in Hnd as [Hne Hnd].
  rewrite E. cbn [res_bind]. rewrite (Time_ok _ _ _ Hy). cbn [res_bind].
  rewrite delete_element_ok by (by eexists). cbn [res_bind].
  assert (n = length l1) as Hn1 by (apply Permutation_length in Hp; cbn in Hp; lia).
  set (w1 := set_objects (delete e _) _).
  destruct (IH w1 q1 l1 Hn1) as (ts & w' & q' & E2 & Hr & Hw' & Hq').
  - apply world_ok_delete. by apply world_ok_times.
  - apply (tq_holds_store st1); [|done]. intros z Hz. apply lookup_delete_ne. congruence.
  - rewrite E2. cbn [res_bind]. exists (time y :: ts), w', q'. split; [done|]. split; [|done].
    apply (removed_cons _ st1 _ e _ _ l1); try done. rewrite Hx, Hty. done.
Qed.

(** What a queue gives back are the times it was filled with, sorted; no element is
    left on the heap, and the others are as before. *)
Lemma sort_times_ok w (q : Q) ts :
  world_ok w -> tq_holds (objects w) q [] -> Forall (fun t => not_nan t = true) ts ->
  Z.of_nat (length ts) <= CAPACITY ->
  exists w1 q1 ts' w2 q2, fill w q ts = Ok (w1, q1) /\
    empty_out (S (length ts)) w1 q1 = Ok (ts', w2, q2) /\
    ts' ≡ₚ ts /\ StronglySorted time_le ts' /\ same_times (objects w) (objects w2) /\
    world_ok w2 /\ tq_holds (objects w2) q2 [].
Proof.
  intros Hw Hq Hnan Hcap.
  destruct (fill_ok w q [] ts Hw Hq Hnan Hcap) as (w1 & q1 & es & E1 & Hw1 & Hq1 & [Hn Ho Hts]).
  rewrite app_nil_r in Hq1.
  destruct (empty_out_ok w1 q1 es Hw1 Hq1) as (ts' & w2 & q2 & E2 & [(es' & Hp & Hts') Hs Hg Hk] & Hw2 & Hq2).
  assert (length es = length ts) as Hlen by (rewrite <- (length_fmap Some ts), <- Hts; by rewrite length_fmap).
  rewrite Hlen in E2. exists w1, q1, ts', w2, q2. split; [done|]. split; [done|]. split.
  { apply Some_perm. rewrite <- Hts', <- Hts. by rewrite Hp. }
  split; [done|]. split; [|done]. intros e.
  destruct (decide (e ∈ es)) as [He|He]; [by rewrite (Hg e He), (Hn e He)|].
  by rewrite (Hk e He), (Ho e He).
Qed.
End Client.

(** ** Equal orders *)

#[export] Instance rank_le_antisymm : AntiSymm (=) (le (K := Z * Z * Z)).
Proof.
  intros [[a b] c] [[a' b'] c'] H1 H2.
  apply rank_ltb_false in H1, H2. f_equal; [f_equal|]; lia.
Qed.

(** Two sorted lists of the same times have the same ranks: they may differ in the sign
    of zeros only. *)
Lemma sorted_ranks_unique ts ts' :
  ts ≡ₚ ts' -> StronglySorted time_le ts -> StronglySorted time_le ts' -> rank <$> ts = rank <$> ts'.
Proof.
  intros Hp H1 H2. apply (StronglySorted_unique le); [..|by rewrite Hp];
    [clear -H1; rename H1 into Hs|clear -H2; rename H2 into Hs];
    induction Hs as [|t l Hs IH Hall]; cbn; constructor; try done; apply Forall_fmap; exact Hall.
Qed.

(** Two queues of whatever kind, filled with the same times, give them back in the same
    order. *)
Lemma same_order {Q1 Q2 : Type} `{TimerQueue Q1, TimerQueue Q2} ts :
  Forall (fun t => not_nan t = true) ts -> Z.of_nat (length ts) <= CAPACITY ->
  exists w1 (q1 : Q1) ts1 w1' q1' w2 (q2 : Q2) ts2 w2' q2',
    fill empty_world tq_new ts = Ok (w1, q1) /\ empty_out (S (length ts)) w1 q1 = Ok (ts1, w1', q1') /\
    fill empty_world tq_new ts = Ok (w2, q2) /\ empty_out (S (length ts)) w2 q2 = Ok (ts2, w2', q2') /\
    rank <$> ts1 = rank <$> ts2 /\ ts1 ≡ₚ ts.
Proof.
  intros Hnan Hcap. assert (world_ok empty_world) as Hw by done.
  destruct (sort_times_ok empty_world (tq_new (Q:=Q1)) ts Hw (tq_holds_new _) Hnan Hcap)
    as (w1 & q1 & ts1 & w1' & q1' & E1 & F1 & P1 & S1 & _).
  destruct (sort_times_ok empty_world (tq_new (Q:=Q2)) ts Hw (tq_holds_new _) Hnan Hcap)
    as (w2 & q2 & ts2 & w2' & q2' & E2 & F2 & P2 & S2 & _).
  exists w1, q1, ts1, w1', q1', w2, q2, ts2, w2', q2'. do 4 (split; [done|]). split; [|done].
  apply sorted_ranks_unique; [by rewrite P1, P2|done|done].
Qed.
