(* ===== verification/PQVect.v ===== *)
(** * [queue/PriorityQueueVect.h] and [.cc]: a sorted vector

    The vector is kept in descending order of time, so that the top is at its back;
    [Add] finds the place with [std::lower_bound]. *)

From S2P Require Import Prelude Time PQElement PriorityQueue PQTheory PQSpec.

Record PriorityQueueVect := mkVect {
  vheap : list nat;
  vpeak_heap_size : Z;
  vcumulative_num : Z
}.

Definition new_PriorityQueueVect : PriorityQueueVect := mkVect [] 0 0.

Definition vTop (q : PriorityQueueVect) : option nat := last (vheap q).

(** [Remove()]: [back] and [pop_back]. *)
Definition vRemove (st : store) (q : PriorityQueueVect)
    : res (option nat * store * PriorityQueueVect) :=
  match last (vheap q) with
  | None => Ok (None, st, q)
  | Some e =>
      let q := mkVect (removelast (vheap q)) (vpeak_heap_size q) (vcumulative_num q) in
      let! st := SetOffset st e (-1) in
      Ok (Some e, st, q)
  end.

(** [std::find] by pointer and [erase]. *)
Fixpoint erase_first (e : nat) (l : list nat) : option (list nat) :=
  match l with
  | [] => None
  | x :: l => if Nat.eqb x e then Some l else (x ::.) <$> erase_first e l
  end.

(** [Remove(e)]. *)
Definition vRemove_element (st : store) (q : PriorityQueueVect) (e : nat)
    : res (option nat * store * PriorityQueueVect) :=
  let! off := Offset st e in
  if (off <? 0) || (Z.of_nat (length (vheap q)) <=? off)
     || bool_decide (vheap q !! Z.to_nat off <> Some e)
  then Ok (None, st, q)
  else
    let! st := MinimizeTime st e in
    match erase_first e (vheap q) with
    | Some l => Ok (Some e, st, mkVect l (vpeak_heap_size q) (vcumulative_num q))
    | None => Abort
    end.

(** The comparison of [Add]: [l->Time() > r->Time()]. *)
Definition later (st : store) (l r : nat) : res bool :=
  let! tl := Time st l in let! tr := Time st r in Ok (SFltb tr tl).

(** [std::lower_bound]: [n] elements from [first] on are still in question. *)
Fixpoint lower_bound (fuel : nat) (st : store) (h : list nat) (e : nat) (first n : nat) : res nat :=
  match fuel with
  | O => NoFuel
  | S fuel =>
      if Nat.eqb n 0 then Ok first
      else
        let half := Nat.div2 n in
        match h !! (first + half)%nat with
        | None => UB
        | Some m =>
            let! b := later st m e in
            if b : bool then lower_bound fuel st h e (first + half + 1) (n - half - 1)
            else lower_bound fuel st h e first half
        end
  end.

Definition vAdd (st : store) (q : PriorityQueueVect) (e : nat)
    : res (bool * store * PriorityQueueVect) :=
  let! (st, h) :=
    match vheap q with
    | [] => let! st := SetOffset st e 0 in Ok (st, [e])
    | _ =>
        let! i := lower_bound (S (length (vheap q))) st (vheap q) e 0 (length (vheap q)) in
        let! st := SetOffset st e 1 in
        Ok (st, take i (vheap q) ++ e :: drop i (vheap q))
    end in
  let n := Z.of_nat (length h) in
  Ok (true, st, mkVect h (if vpeak_heap_size q <? n then n else vpeak_heap_size q)
                  (u64 (vcumulative_num q + 1))).

(** [~PriorityQueueVect]. *)
Definition vdestroy (st : store) (q : PriorityQueueVect) : res store := delete_all st (Some <$> vheap q).

(** The members of a heap that the vector has kept: nothing calls [BubbleUp] any more. *)
Definition vParent (bin : Z) : Z := Z.shiftr bin 1.
Definition vheap_at (q : PriorityQueueVect) (bin : Z) : res nat :=
  if 0 <=? bin then match vheap q !! Z.to_nat bin with Some e => Ok e | None => UB end else UB.
Definition vSetElement (st : store) (q : PriorityQueueVect) (bin : Z) (e : nat) : res (store * PriorityQueueVect) :=
  let! _ := vheap_at q bin in
  let! st := SetOffset st e bin in
  Ok (st, mkVect (<[Z.to_nat bin := e]> (vheap q)) (vpeak_heap_size q) (vcumulative_num q)).
Definition vSwap (st : store) (q : PriorityQueueVect) (bin1 bin2 : Z) : res (store * PriorityQueueVect) :=
  let! t := vheap_at q bin1 in
  let! e2 := vheap_at q bin2 in
  let! (st, q) := vSetElement st q bin1 e2 in
  vSetElement st q bin2 t.

(** The number of swaps. *)
Fixpoint vBubbleUp (fuel : nat) (st : store) (q : PriorityQueueVect) (bin : Z) : res (Z * store * PriorityQueueVect) :=
  match fuel with
  | O => NoFuel
  | S fuel =>
      if bin =? 0 then Ok (0, st, q)
      else
        let p := vParent bin in
        let! ep := vheap_at q p in
        let! eb := vheap_at q bin in
        let! tp := Time st ep in
        let! tb := Time st eb in
        if SFltb tp tb then
          let! (st, q) := vSwap st q p bin in
          let! (n, st, q) := vBubbleUp fuel st q p in
          Ok (n + 1, st, q)
        else Ok (0, st, q)
  end.

(** ** The order of the vector *)

Definition live (st : store) (l : list nat) : Prop :=
  forall e, e ∈ l -> exists x, st !! e = Some x /\ not_nan (time x) = true.

(** [a] may stand in front of [b]. *)
Definition not_before (st : store) (a b : nat) : Prop := le (tm st b) (tm st a).

Record vect_inv (st : store) (q : PriorityQueueVect) : Prop := mkVectInv {
  vi_live : live st (vheap q);
  vi_sorted : StronglySorted (not_before st) (vheap q)
}.

Lemma later_spec st l r x y :
  st !! l = Some x -> st !! r = Some y -> not_nan (time x) = true -> not_nan (time y) = true ->
  later st l r = Ok (ltb (tm st r) (tm st l)).
Proof.
  intros Hx Hy Nx Ny. unfold later, Time, elem, tm. rewrite Hx, Hy. cbn [res_bind fmap option_fmap option_map default from_option].
  by rewrite SFltb_rank.
Qed.

Lemma StronglySorted_lookup_lt {A} (R : A -> A -> Prop) l i j a b :
  StronglySorted R l -> (i < j)%nat -> l !! i = Some a -> l !! j = Some b -> R a b.
Proof.
  intros Hs Hij Ha Hb. rewrite <- (take_drop j l) in Hs.
  apply (StronglySorted_app_1_elem_of _ _ _ a b Hs).
  - apply list_elem_of_lookup_2 with i. by rewrite lookup_take_lt.
  - apply list_elem_of_lookup_2 with 0%nat. by rewrite lookup_drop, Nat.add_0_r.
Qed.

(** In a sorted vector the search ends where the elements later than [e] end. *)
Lemma lower_bound_spec fuel st h e x first n :
  live st h -> StronglySorted (not_before st) h -> st !! e = Some x -> not_nan (time x) = true ->
  (first + n <= length h)%nat -> (n < fuel)%nat ->
  (forall i y, (i < first)%nat -> h !! i = Some y -> ltb (tm st e) (tm st y) = true) ->
  (forall i y, (first + n <= i)%nat -> h !! i = Some y -> ltb (tm st e) (tm st y) = false) ->
  exists i, lower_bound fuel st h e first n = Ok i /\ (i <= length h)%nat /\
    (forall j y, (j < i)%nat -> h !! j = Some y -> ltb (tm st e) (tm st y) = true) /\
    (forall j y, (i <= j)%nat -> h !! j = Some y -> ltb (tm st e) (tm st y) = false).
Proof.
  intros Hl Hs Hx Nx. revert first n.
  induction fuel as [|fuel IH]; intros first n Hn Hf Hlo Hhi; [lia|]. cbn [lower_bound].
  destruct (Nat.eqb_spec n 0) as [->|Hn0].
  { exists first. split; [done|]. split; [lia|]. split; [done|].
    intros j y Hj. apply Hhi. lia. }
  pose proof (Nat.div2_div n) as Ed. pose proof (Nat.div_mod_eq n 2). pose proof (Nat.mod_upper_bound n 2).
  set (half := Nat.div2 n) in *.
  destruct (lookup_lt_is_Some_2 h (first + half)%nat) as [m Hm]; [lia|]. rewrite Hm.
  destruct (Hl m) as (y & Hy & Ny); [by apply list_elem_of_lookup_2 with (first + half)%nat|].
  rewrite (later_spec st m e y x) by done. cbn [res_bind].
  assert (forall i j a b, (i < j)%nat -> h !! i = Some a -> h !! j = Some b -> not_before st a b) as Hord.
  { intros i j a b Hij Ha Hb. by apply (StronglySorted_lookup_lt (not_before st) h i j). }
  destruct (ltb (tm st e) (tm st m)) eqn:Hlt.
  - apply IH; [lia|lia| |].
    + intros i z Hi Hz. destruct (decide (i = first + half)%nat) as [->|].
      { rewrite Hm in Hz. by injection Hz as <-. }
      destruct (ltb (tm st e) (tm st z)) eqn:E; [done|].
      assert (not_before st z m) as Hzm by (apply (Hord i (first + half)%nat); [lia|done|done]).
      rewrite (ltb_neg_trans (tm st m) (tm st z) (tm st e)) in Hlt; done.
    + intros i z Hi. apply Hhi. lia.
  - apply IH; [lia|lia|done|].
    intros i z Hi Hz. destruct (decide (i = first + half)%nat) as [->|].
    { rewrite Hm in Hz. by injection Hz as <-. }
    assert (not_before st m z) as Hmz by (apply (Hord (first + half)%nat i); [lia|done|done]).
    by apply (ltb_neg_trans (tm st z) (tm st m) (tm st e)).
Qed.

(** In a sorted vector [BubbleUp] finds nothing to swap: the loop over it that [Add] has
    commented out would end at once. *)
Lemma vBubbleUp_sorted fuel st q bin :
  vect_inv st q -> 0 <= bin < Z.of_nat (length (vheap q)) -> (0 < fuel)%nat ->
  vBubbleUp fuel st q bin = Ok (0, st, q).
Proof.
  intros [Hl Hs] Hb Hf. destruct fuel as [|fuel]; [lia|]. cbn [vBubbleUp].
  destruct (Z.eqb_spec bin 0) as [|Hne]; [done|]. cbv zeta.
  assert (0 <= vParent bin < bin) as Hp.
  { unfold vParent. rewrite Z.shiftr_div_pow2 by lia. change (2 ^ 1) with 2. dlia. }
  destruct (lookup_lt_is_Some_2 (vheap q) (Z.to_nat (vParent bin))) as [ep Ep]; [lia|].
  destruct (lookup_lt_is_Some_2 (vheap q) (Z.to_nat bin)) as [eb Eb]; [lia|].
  unfold vheap_at. rewrite (proj2 (Z.leb_le 0 (vParent bin))), (proj2 (Z.leb_le 0 bin)), Ep, Eb by lia. cbn [res_bind].
  destruct (Hl ep) as (x & Hx & Nx); [by eapply list_elem_of_lookup_2|].
  destruct (Hl eb) as (y & Hy & Ny); [by eapply list_elem_of_lookup_2|].
  pose proof (later_spec st eb ep y x Hy Hx Ny Nx) as El. unfold later in El.
  pose proof (StronglySorted_lookup_lt _ _ _ _ _ _ Hs (ltac:(lia) : (Z.to_nat (vParent bin) < Z.to_nat bin)%nat) Ep Eb) as Ho.
  unfold Time, elem in *. rewrite Hx, Hy in *. cbn [res_bind] in *. injection El as El. rewrite El.
  change (rank_ltb (tm st ep) (tm st eb) = false) in Ho. by rewrite Ho.
Qed.

(** The destructor deletes the elements of the vector and no other. *)
Lemma vdestroy_ok st q :
  vect_inv st q -> NoDup (vheap q) ->
  exists st', vdestroy st q = Ok st' /\ forall e, st' !! e = if bool_decide (e ∈ vheap q) then None else st !! e.
Proof.
  intros [Hl _] Hn. apply delete_all_ok; [done|]. intros e He. destruct (Hl e He) as (x & Hx & _). by exists x.
Qed.

(** ** [Add] and [Remove] *)

Lemma live_offset st l e x off :
  live st l -> st !! e = Some x -> live (<[e := mkElement (time x) off]> st) l.
Proof.
  intros Hl Hx y Hy. destruct (decide (y = e)) as [->|].
  - destruct (Hl e Hy) as (z & Hz & Nz). rewrite lookup_insert_eq. eexists. split; [done|].
    cbn. congruence.
  - rewrite lookup_insert_ne by done. by apply Hl.
Qed.

Lemma sorted_times st st' l :
  same_times st st' -> StronglySorted (not_before st) l -> StronglySorted (not_before st') l.
Proof.
  intros Ht. induction 1 as [|a l Hs IH Hall]; constructor; [done|].
  eapply Forall_impl; [exact Hall|]. intros y Hy. unfold not_before in *.
  by rewrite !(same_times_tm st st') by done.
Qed.

Lemma sorted_insert st l e i :
  StronglySorted (not_before st) l ->
  (forall j y, (j < i)%nat -> l !! j = Some y -> ltb (tm st e) (tm st y) = true) ->
  (forall j y, (i <= j)%nat -> l !! j = Some y -> ltb (tm st e) (tm st y) = false) ->
  StronglySorted (not_before st) (take i l ++ e :: drop i l).
Proof.
  intros Hs Hlo Hhi. pose proof Hs as Hs'. rewrite <- (take_drop i l) in Hs'.
  apply StronglySorted_app in Hs' as (Hc & H1 & H2).
  assert (forall y, y ∈ take i l -> not_before st y e) as Hb.
  { intros y Hy. apply list_elem_of_lookup in Hy as [j Hj]. apply lookup_take_Some in Hj as [Hj Hji].
    apply ltb_le. by apply (Hlo j). }
  assert (forall y, y ∈ drop i l -> not_before st e y) as Ha.
  { intros y Hy. apply list_elem_of_lookup in Hy as [j Hj]. rewrite lookup_drop in Hj.
    apply (Hhi (i + j)%nat); [lia|done]. }
  apply StronglySorted_app. split_and!; [|done|constructor; [done|by apply Forall_forall]].
  intros a b Hin Hb'. apply elem_of_cons in Hb' as [->|Hb']; [by apply Hb|by apply Hc].
Qed.

(** [Add] keeps the vector sorted. *)
Lemma vAdd_ok st q e x :
  vect_inv st q -> st !! e = Some x -> not_nan (time x) = true ->
  exists st' q', vAdd st q e = Ok (true, st', q') /\ vect_inv st' q' /\
    vheap q' ≡ₚ e :: vheap q /\ same_times st st'.
Proof.
  intros [Hl Hs] Hx Nx. unfold vAdd.
  assert (forall off, same_times st (<[e := mkElement (time x) off]> st)) as Ht
    by (intros off; by apply same_times_offset).
  destruct (vheap q) as [|a h] eqn:Eh.
  - unfold SetOffset, elem. rewrite Hx. cbn [res_bind]. eexists _, _. split; [reflexivity|].
    split; [|by split]. split; cbn.
    + intros y Hy. apply list_elem_of_singleton in Hy as ->. rewrite lookup_insert_eq. by eexists.
    + constructor; constructor.
  - rewrite <- Eh in *.
    destruct (lower_bound_spec (S (length (vheap q))) st (vheap q) e x 0 (length (vheap q)))
      as (i & E & Hi & Hlo & Hhi); [done|done|done|done|lia|lia|lia| |].
    { intros i y Hi Hy. apply lookup_lt_Some in Hy. lia. }
    rewrite E. cbn [res_bind]. unfold SetOffset, elem. rewrite Hx. cbn [res_bind].
    eexists _, _. split; [reflexivity|]. cbn [vheap].
    assert (take i (vheap q) ++ e :: drop i (vheap q) ≡ₚ e :: vheap q) as Hp.
    { rewrite <- Permutation_middle. by rewrite take_drop. }
    split; [|by split]. split; cbn [vheap].
    + intros y Hy. rewrite Hp in Hy. apply elem_of_cons in Hy as [->|Hy].
      * rewrite lookup_insert_eq. by eexists.
      * apply (live_offset st (vheap q) e x 1); done.
    + apply (sorted_times st); [done|]. by apply sorted_insert.
Qed.

(** [Add] of the vector queue inserts the element where its time belongs, so the
    vector stays sorted; the binary search reads inside the vector only. *)
Theorem vAdd_correct st q e x :
  vect_inv st q -> st !! e = Some x -> not_nan (time x) = true ->
  exists st' q', vAdd st q e = Ok (true, st', q') /\ vect_inv st' q' /\
    vheap q' ≡ₚ e :: vheap q /\ same_times st st'.
Proof. apply vAdd_ok. Qed.

(** [Remove] takes the last element of the vector. *)
Lemma vRemove_ok st q :
  vect_inv st q ->
  match vRemove st q with
  | Ok (None, st', q') => vheap q = [] /\ st' = st /\ q' = q
  | Ok (Some e, st', q') =>
      vect_inv st' q' /\ vheap q = vheap q' ++ [e] /\ same_times st st' /\
      (forall y, y ∈ vheap q -> le (tm st e) (tm st y))
  | _ => False
  end.
Proof.
  intros [Hl Hs]. unfold vRemove. destruct (vheap q) as [|e h _] eqn:Eh using rev_ind; [done|].
  rewrite last_snoc, removelast_last.
  destruct (Hl e) as (x & Hx & Nx); [apply elem_of_app; right; apply list_elem_of_singleton; done|].
  unfold SetOffset, elem. rewrite Hx. cbn [res_bind vheap].
  assert (same_times st (<[e := mkElement (time x) (-1)]> st)) as Ht by (by apply same_times_offset).
  apply StronglySorted_app in Hs as (Hc & H1 & _). split; [split; cbn [vheap]|split; [done|split; [done|]]].
  - apply live_offset; [|done]. intros y Hy. apply Hl, elem_of_app. by left.
  - by apply (sorted_times st).
  - intros y Hy. apply elem_of_app in Hy as [Hy|Hy].
    + apply Hc; [done|]. by apply list_elem_of_singleton.
    + apply list_elem_of_singleton in Hy as ->. reflexivity.
Qed.

(** [Remove] of the vector queue returns an element no other is before, and keeps
    the others sorted. *)
Theorem vRemove_correct st q :
  vect_inv st q ->
  match vRemove st q with
  | Ok (None, st', q') => vheap q = [] /\ st' = st /\ q' = q
  | Ok (Some e, st', q') =>
      vect_inv st' q' /\ vheap q = vheap q' ++ [e] /\ same_times st st' /\
      (forall y, y ∈ vheap q -> le (tm st e) (tm st y))
  | _ => False
  end.
Proof. apply vRemove_ok. Qed.

(** ** Offsets *)

(** Three elements with times 1, 2 and 4, added in this order. *)
Definition three_elements : store :=
  <[0%nat := new_PQ_Element (S754_finite false 1 0)]>
    (<[1%nat := new_PQ_Element (S754_finite false 1 1)]>
      (<[2%nat := new_PQ_Element (S754_finite false 1 2)]> ∅)).

Definition vadd1 (e : nat) (s : store * PriorityQueueVect) : res (store * PriorityQueueVect) :=
  let! (_, st, q) := vAdd (fst s) (snd s) e in Ok (st, q).

Definition vect3 : store * PriorityQueueVect :=
  match (let! s := vadd1 2 (three_elements, new_PriorityQueueVect) in
         let! s := vadd1 1 s in vadd1 0 s) with Ok s => s | _ => (∅, new_PriorityQueueVect) end.

Lemma vect3_inv : vect_inv (fst vect3) (snd vect3).
Proof.
  split.
  - intros e He. change (vheap (snd vect3)) with [2%nat; 1%nat; 0%nat] in He.
    apply list_elem_of_In in He. destruct He as [<-|[<-|[<-|[]]]]; by eexists.
  - change (vheap (snd vect3)) with [2%nat; 1%nat; 0%nat].
    repeat constructor; vm_compute; reflexivity.
Qed.

Lemma vAdd_correct_witness :
  exists st' q', vAdd (fst vect3) (snd vect3) 0%nat = Ok (true, st', q') /\ vect_inv st' q'.
Proof.
  destruct (vAdd_correct (fst vect3) (snd vect3) 0%nat (mkElement (S754_finite false 1 0) 1) vect3_inv eq_refl eq_refl)
    as (st' & q' & E & I & _).
  exists st', q'. exact (conj E I).
Defined.

Lemma vRemove_correct_witness :
  exists st' q', vRemove (fst vect3) (snd vect3) = Ok (Some 0%nat, st', q') /\ vect_inv st' q'.
Proof.
  pose proof (vRemove_correct (fst vect3) (snd vect3) vect3_inv) as H.
  destruct (vRemove (fst vect3) (snd vect3)) as [[[e st'] q']| | |] eqn:E; [|destruct H..].
  exists st', q'. vm_compute in E. injection E as <- <- <-. split; [reflexivity|]. apply H.
Defined.

(** [Add] gives every element but the first the offset 1, wherever it goes:
    [Remove(e)] then takes a queued element, here the top, for one that is not in the
    queue and returns [nullptr]. *)
Theorem vRemove_element_misses_queued :
  vTop (snd vect3) = Some 0%nat /\
  offset <$> fst vect3 !! 0%nat = Some 1 /\
  vheap (snd vect3) = [2%nat; 1%nat; 0%nat] /\
  vRemove_element (fst vect3) (snd vect3) 0%nat = Ok (None, fst vect3, snd vect3).
Proof. split; [reflexivity|]. split; [reflexivity|]. split; reflexivity. Qed.
