(* ===== verification/PrioQueue.v ===== *)
(** * [queue/prio_queue.hpp]: the B-heap

    The nodes of a heap laid out in blocks of [block_size] = 2^k cells: cell 0 of each
    block is skipped, the others are a small heap, and each leaf of a block has two
    blocks below it.  Keys and payloads live in two [skip_vector]s; payloads of type
    [void] have none.  Arithmetic on [size_t] is modulo 2^64. *)

From S2P Require Import Prelude.

(** ** [heap_heap_addressing] *)
Section Addressing.
Context (block_size : Z).

Definition block_mask : Z := u64 (block_size - 1).
Definition block_offset (node_no : Z) : Z := Z.land node_no block_mask.
Definition block_base (node_no : Z) : Z := Z.land node_no (u64 (Z.lnot block_mask)).
Definition is_block_root (node_no : Z) : bool := block_offset node_no =? 1.
Definition is_block_leaf (node_no : Z) : bool :=
  negb (Z.land node_no (Z.shiftr block_size 1) =? 0).
Definition child_no (node_no : Z) : res Z :=
  assert! is_block_leaf node_no in Ok (Z.land node_no (Z.shiftr block_mask 1)).

Definition child_of (node_no : Z) : res Z :=
  if negb (is_block_leaf node_no) then Ok (u64 (node_no + block_offset node_no))
  else
    let base := u64 (block_base node_no + 1) in
    let! c := child_no node_no in
    Ok (u64 (u64 (base * block_size) + u64 (c * block_size * 2) + 1)).

Definition parent_of (node_no : Z) : Z :=
  let node_root := block_base node_no in
  if negb (is_block_root node_no) then u64 (node_root + block_offset node_no / 2)
  else
    let parent_base := block_base (u64 (node_root / block_size - 1)) in
    let child := u64 (u64 (node_no - block_size) / block_size - parent_base) / 2 in
    u64 (parent_base + block_size / 2 + child).
End Addressing.

(** ** [skip_vector] *)

(** What a cell of allocated memory holds: no object, one whose value was moved out,
    or one with a value.  Reading a moved-from value is a fault of the model. *)
Inductive cell (T : Type) : Type :=
| Raw
| Moved
| Val (x : T).
Arguments Raw {T}.
Arguments Moved {T}.
Arguments Val {T} x.

Record skip_vector (T : Type) := mkSkip {
  m_ptr : option (list (cell T));
  m_end : Z;
  m_storage_size : Z
}.
Arguments mkSkip {T} _ _ _.
Arguments m_ptr {T} _.
Arguments m_end {T} _.
Arguments m_storage_size {T} _.

(** The overloads of [move_to]: [std::is_pod], [std::is_nothrow_move_constructible]
    and the rest. *)
Inductive move_kind : Set := pod | nothrow_move | may_throw.

Section SkipVector.
Context {T : Type} (block_size : Z) (kind : move_kind).

Definition skipped (i : Z) : bool := Z.land i (block_mask block_size) =? 0.

Definition new_skip_vector : skip_vector T := mkSkip None 0 0.

(** [skip_vector(skip_vector &&v)]: the new vector and what is left of [v]. *)
Definition move_skip_vector (v : skip_vector T) : skip_vector T * skip_vector T :=
  (v, mkSkip None (m_end v) (m_storage_size v)).

Definition mem (m : list (cell T)) (i : Z) : res (cell T) :=
  if 0 <=? i then match m !! Z.to_nat i with Some c => Ok c | None => UB end else UB.

(** [A::construct] and [A::destroy]. *)
Definition construct (m : list (cell T)) (i : Z) (x : T) : res (list (cell T)) :=
  let! c := mem m i in
  match c with Raw => Ok (<[Z.to_nat i := Val x]> m) | _ => UB end.
Definition destroy_at (m : list (cell T)) (i : Z) : res (list (cell T)) :=
  let! c := mem m i in
  match c with Raw => UB | _ => Ok (<[Z.to_nat i := Raw]> m) end.
Definition read (m : list (cell T)) (i : Z) : res T :=
  let! c := mem m i in match c with Val x => Ok x | _ => UB end.
(** [std::move(m[i])] into a new value, and assignment to [m[i]]. *)
Definition move_from (m : list (cell T)) (i : Z) : res (T * list (cell T)) :=
  let! x := read m i in Ok (x, <[Z.to_nat i := Moved]> m).
Definition assign (m : list (cell T)) (i : Z) (x : T) : res (list (cell T)) :=
  let! c := mem m i in
  match c with Raw => UB | _ => Ok (<[Z.to_nat i := Val x]> m) end.

Definition ptr (v : skip_vector T) : res (list (cell T)) :=
  match m_ptr v with Some m => Ok m | None => UB end.
Definition set_ptr (m : list (cell T)) (v : skip_vector T) : skip_vector T :=
  mkSkip (Some m) (m_end v) (m_storage_size v).

(** [operator[]]: the assertions, then the access the caller makes. *)
Definition at_index (v : skip_vector T) (idx : Z) : res (list (cell T)) :=
  assert! idx <? m_end v in
  assert! negb (skipped idx) in
  ptr v.
Definition get (v : skip_vector T) (idx : Z) : res T :=
  let! m := at_index v idx in read m idx.
Definition take_at (v : skip_vector T) (idx : Z) : res (T * skip_vector T) :=
  let! m := at_index v idx in
  let! (x, m) := move_from m idx in Ok (x, set_ptr m v).
Definition put (v : skip_vector T) (idx : Z) (x : T) : res (skip_vector T) :=
  let! m := at_index v idx in
  let! m := assign m idx x in Ok (set_ptr m v).

Definition size_sv (v : skip_vector T) : Z := m_end v.
Definition empty_sv (v : skip_vector T) : bool := size_sv v =? 0.

(** [std::move(back())]. *)
Definition take_back (v : skip_vector T) : res (T * skip_vector T) :=
  assert! negb (empty_sv v) in
  let! m := ptr v in
  let! (x, m) := move_from m (u64 (m_end v - 1)) in Ok (x, set_ptr m v).

(** [destroy]: cells [i - 1] down to 0. *)
Fixpoint destroy_loop (i : nat) (m : list (cell T)) : res (list (cell T)) :=
  match i with
  | O => Ok m
  | S i =>
      let! m := (if negb (skipped (Z.of_nat i)) then destroy_at m (Z.of_nat i) else Ok m) in
      destroy_loop i m
  end.
(** [~skip_vector]: the memory as it is deallocated. *)
Definition delete_skip_vector (v : skip_vector T) : res (list (cell T)) :=
  match m_ptr v with
  | None => Ok []
  | Some m => match kind with pod => Ok m | _ => destroy_loop (Z.to_nat (m_end v)) m end
  end.

(** The loop of [move_to] for types whose move does not throw; [n] cells are left. *)
Fixpoint move_loop (n : nat) (i : Z) (b ptr : list (cell T)) : res (list (cell T) * list (cell T)) :=
  match n with
  | O => Ok (b, ptr)
  | S n =>
      let! (b, ptr) :=
        (if negb (skipped i) then
           let! (x, b) := move_from b i in
           let! ptr := construct ptr i x in
           let! b := destroy_at b i in Ok (b, ptr)
         else Ok (b, ptr)) in
      move_loop n (i + 1) b ptr
  end.
(** The first loop of [move_to] for the others. *)
Fixpoint copy_loop (n : nat) (i : Z) (b ptr : list (cell T)) : res (list (cell T)) :=
  match n with
  | O => Ok ptr
  | S n =>
      let! ptr :=
        (if negb (skipped i) then let! x := read b i in construct ptr i x else Ok ptr) in
      copy_loop n (i + 1) b ptr
  end.

Definition move_to (b : list (cell T)) (s : Z) (ptr : list (cell T)) : res (list (cell T)) :=
  match kind with
  | pod => Ok (take (Z.to_nat s) b ++ drop (Z.to_nat s) ptr)
  | nothrow_move => let! (_, ptr) := move_loop (Z.to_nat (s - 1)) 1 b ptr in Ok ptr
  | may_throw =>
      let! ptr := copy_loop (Z.to_nat (s - 1)) 1 b ptr in
      let! _ := destroy_loop (Z.to_nat s) b in Ok ptr
  end.

(** [idx] is declared [auto idx = 0], an [int]. *)
Definition grow (v : skip_vector T) (u : T) : res (Z * skip_vector T) :=
  let desired_size :=
    if negb (m_storage_size v =? 0) then u64 (m_storage_size v * 2) else u64 (block_size * 16) in
  let p := replicate (Z.to_nat desired_size) Raw in
  let! p := construct p (u64 (m_end v + 1)) u in
  let idx := i32 (m_end v + 1) in
  let! p := (if negb (m_storage_size v =? 0) then let! b := ptr v in move_to b (m_end v) p else Ok p) in
  Ok (u64 idx, mkSkip (Some p) (u64 (i32 (idx + 1))) desired_size).

(** [push_back]: the index of the new element and the vector. *)
Definition push_back (v : skip_vector T) (u : T) : res (Z * skip_vector T) :=
  if negb (skipped (m_end v)) then
    let! m := ptr v in
    let! m := construct m (m_end v) u in
    Ok (m_end v, mkSkip (Some m) (u64 (m_end v + 1)) (m_storage_size v))
  else if m_end v =? m_storage_size v then grow v u
  else
    let i := u64 (m_end v + 1) in
    let! m := ptr v in
    let! m := construct m i u in
    Ok (i, mkSkip (Some m) (u64 (i + 1)) (m_storage_size v)).

Definition pop_back (v : skip_vector T) : res (skip_vector T) :=
  assert! negb (m_end v =? 0) in
  let e := u64 (m_end v - 1) in
  let! m := ptr v in
  let! m := destroy_at m e in
  let e := if Z.land e (block_mask block_size) =? 1 then u64 (e - 1) else e in
  Ok (mkSkip (Some m) e (m_storage_size v)).
End SkipVector.

(** ** [payload] *)

(** [None] is the specialization for [void]. *)
Notation payload V := (option (skip_vector V)).

Section Payload.
Context {V : Type} (block_size : Z) (kind : move_kind).

Definition p_push_back (p : payload V) (u : V) : res (payload V) :=
  match p with
  | Some v => let! (_, v) := push_back block_size kind v u in Ok (Some v)
  | None => Ok None
  end.
Definition p_pop_back (p : payload V) : res (payload V) :=
  match p with Some v => let! v := pop_back block_size v in Ok (Some v) | None => Ok None end.
(** [std::move(P::back())] and [std::move(P::top())]. *)
Definition p_take_back (p : payload V) : res (option V * payload V) :=
  match p with
  | Some v => let! (x, v) := take_back v in Ok (Some x, Some v)
  | None => Ok (None, None)
  end.
Definition p_take_top (p : payload V) : res (option V * payload V) :=
  match p with
  | Some v => let! (x, v) := take_at block_size v 1 in Ok (Some x, Some v)
  | None => Ok (None, None)
  end.
Definition p_top (p : payload V) : res (option V) :=
  match p with Some v => let! x := get block_size v 1 in Ok (Some x) | None => Ok None end.
Definition p_store (p : payload V) (idx : Z) (x : option V) : res (payload V) :=
  match p, x with
  | Some v, Some x => let! v := put block_size v idx x in Ok (Some v)
  | _, _ => Ok p
  end.
Definition p_move (p : payload V) (from to : Z) : res (payload V) :=
  match p with
  | Some v =>
      let! (x, v) := take_at block_size v from in
      let! v := put block_size v to x in Ok (Some v)
  | None => Ok None
  end.
End Payload.

(** ** [prio_queue] *)

Record prio_queue (K V : Type) := mkPrio {
  m_storage : skip_vector K;
  m_payload : payload V
}.
Arguments mkPrio {K V} _ _.
Arguments m_storage {K V} _.
Arguments m_payload {K V} _.

Section PrioQueue.
Context {K V : Type} (block_size : Z) (kkind vkind : move_kind).
Context (sorts_before : K -> K -> bool).
Notation queue := (prio_queue K V).

(** A queue of keys, and one of keys with payloads. *)
Definition new_prio_queue (payloads : bool) : queue :=
  mkPrio new_skip_vector (if payloads then Some new_skip_vector else None).

Definition empty (q : queue) : bool := empty_sv (m_storage q).
Definition size (q : queue) : Z :=
  let n := size_sv (m_storage q) in u64 (n - u64 (n + block_size - 1) / block_size).

(** [m_storage[to] = std::move(m_storage[from]); P::move(from, to)]. *)
Definition move_node (q : queue) (from to : Z) : res queue :=
  let! (x, s) := take_at block_size (m_storage q) from in
  let! s := put block_size s to x in
  let! p := p_move block_size (m_payload q) from to in
  Ok (mkPrio s p).

(** [m_storage[idx] = std::move(tmp); P::store(idx, std::move(val))]. *)
Definition store_node (q : queue) (idx : Z) (tmp : K) (val : option V) : res queue :=
  let! s := put block_size (m_storage q) idx tmp in
  let! p := p_store block_size (m_payload q) idx val in
  Ok (mkPrio s p).

(** The hole rises while its parent sorts behind [tmp], which then fills it. *)
Fixpoint rise (fuel : nat) (q : queue) (hole_idx : Z) (tmp : K) (val : option V) : res queue :=
  match fuel with
  | O => NoFuel
  | S fuel =>
      if hole_idx =? 1 then store_node q hole_idx tmp val
      else
        let parent := parent_of block_size hole_idx in
        let! p := get block_size (m_storage q) parent in
        if negb (sorts_before tmp p) then store_node q hole_idx tmp val
        else
          let! q := move_node q parent hole_idx in
          rise fuel q parent tmp val
  end.

(** An index of the vector rises, or sinks, at most [m_end] times. *)
Definition walk_fuel (q : queue) : nat := S (Z.to_nat (m_end (m_storage q))).

Definition push_key (q : queue) (key : K) : res queue :=
  let! (hole_idx, s) := push_back block_size kkind (m_storage q) key in
  let! (tmp, s) := take_back s in
  let! (val, p) := p_take_back (m_payload q) in
  let q := mkPrio s p in
  rise (walk_fuel q) q hole_idx tmp val.

(** The two overloads of [push]: without and with a payload. *)
Definition push (q : queue) (key : K) (value : option V) : res queue :=
  match value with
  | None => push_key q key
  | Some x =>
      let! p := p_push_back block_size vkind (m_payload q) x in
      push_key (mkPrio (m_storage q) p) key
  end.

Definition top (q : queue) : res (K * option V) :=
  assert! negb (empty q) in
  let! k := get block_size (m_storage q) 1 in
  let! v := p_top block_size (m_payload q) in
  Ok (k, v).

(** The distance of the second child from the first. *)
Definition sibling_offset (idx : Z) : Z := if is_block_leaf block_size idx then block_size else 1.

(** The first loop of [pop]: the hole sinks to a leaf. *)
Fixpoint sink (fuel : nat) (q : queue) (last_idx idx : Z) : res (queue * Z) :=
  match fuel with
  | O => NoFuel
  | S fuel =>
      let! lc := child_of block_size idx in
      if last_idx <? lc then Ok (q, idx)
      else
        let rc := u64 (lc + sibling_offset idx) in
        let! i := (if rc <? last_idx then
                     let! l := get block_size (m_storage q) lc in
                     let! r := get block_size (m_storage q) rc in
                     Ok (negb (sorts_before l r))
                   else Ok false) in
        let next := if i : bool then rc else lc in
        let! q := move_node q next idx in
        sink fuel q last_idx next
  end.

Definition pop (q : queue) : res queue :=
  assert! negb (empty q) in
  let last_idx := u64 (size_sv (m_storage q) - 1) in
  let! (q, idx) := sink (walk_fuel q) q last_idx 1 in
  let! q :=
    (if negb (idx =? last_idx) then
       let! (last, s) := take_back (m_storage q) in
       let! (last_val, p) := p_take_back (m_payload q) in
       rise (walk_fuel q) (mkPrio s p) idx last last_val
     else Ok q) in
  let! s := pop_back block_size (m_storage q) in
  let! p := p_pop_back block_size (m_payload q) in
  Ok (mkPrio s p).

(** The loop of [do_reschedule_top]: the hole sinks to where [t] belongs. *)
Fixpoint sink_to (fuel : nat) (q : queue) (last_idx idx : Z) (t : K) : res (queue * Z) :=
  match fuel with
  | O => NoFuel
  | S fuel =>
      let! lc := child_of block_size idx in
      if last_idx <? lc then Ok (q, idx)
      else
        let rc := u64 (lc + sibling_offset idx) in
        let! i := (if rc <=? last_idx then
                     let! l := get block_size (m_storage q) lc in
                     let! r := get block_size (m_storage q) rc in
                     Ok (negb (sorts_before l r))
                   else Ok false) in
        let next := if i : bool then rc else lc in
        let! n := get block_size (m_storage q) next in
        if sorts_before t n then Ok (q, idx)
        else
          let! q := move_node q next idx in
          sink_to fuel q last_idx next t
  end.

Definition do_reschedule_top (q : queue) (t : K) : res (queue * Z) :=
  let last_idx := u64 (size_sv (m_storage q) - 1) in
  let! (q, idx) := sink_to (walk_fuel q) q last_idx 1 t in
  let! s := put block_size (m_storage q) idx t in
  Ok (mkPrio s (m_payload q), idx).

(** The two overloads of [reschedule_top]: [P::top()] is moved out and stored again. *)
Definition reschedule_top (q : queue) (t : K) : res queue :=
  assert! negb (empty q) in
  let! (val, p) := p_take_top block_size (m_payload q) in
  let! (q, idx) := do_reschedule_top (mkPrio (m_storage q) p) t in
  let! p := p_store block_size (m_payload q) idx val in
  Ok (mkPrio (m_storage q) p).
End PrioQueue.
