(* ===== verification/PrioAddress.v ===== *)
(** * The addressing of the B-heap: parents and children

    The index arithmetic of [heap_heap_addressing], bit operations modulo 2^64, in
    terms of block number and offset; [parent_of] undoes [child_of]. *)

From S2P Require Import Prelude PrioQueue.

(** A block size the index arithmetic is meant for: a power of two, not 1. *)
Definition block_ok (B : Z) : Prop := exists k, 1 <= k <= 31 /\ B = 2 ^ k.

(** The children of index [n] do not wrap around. *)
Definition addressable (B n : Z) : Prop := (n + B) * B < 2 ^ 64.

Section Address.
Context (B : Z) (HB : block_ok B).
Notation half := (B / 2).

(** A cell of the vector that is not skipped. *)
Definition is_cell (i : Z) : Prop := 0 < i mod B.
#[export] Instance is_cell_dec i : Decision (is_cell i) := decide (0 < i mod B).

Lemma block_facts : B = 2 * half /\ 1 <= half /\ B <= 2 ^ 31.
Proof using HB.
  destruct HB as (k & Hk & E). assert (B = 2 * 2 ^ (k - 1)) as E2.
  { rewrite E, <- Z.pow_succ_r by lia. f_equal. lia. }
  assert (0 < 2 ^ (k - 1)) by (apply Z.pow_pos_nonneg; lia).
  assert (B / 2 = 2 ^ (k - 1)) as E3 by (rewrite E2, Z.mul_comm; apply Z.div_mul; lia).
  rewrite E3. split; [done|]. split; [lia|]. rewrite E. by apply Z.pow_le_mono_r; lia.
Qed.

Lemma block_divmod b o : 0 <= o < B -> (b * B + o) / B = b /\ (b * B + o) mod B = o.
Proof using HB.
  intros Ho. pose proof block_facts. rewrite Z.div_add_l, (Z.div_small o) by lia.
  rewrite (Z.add_comm (b * B)), Z.mod_add, Z.mod_small by lia. lia.
Qed.

Lemma block_split n : n = n / B * B + n mod B /\ 0 <= n mod B < B.
Proof using HB.
  pose proof block_facts. pose proof (Z.div_mod n B). pose proof (Z.mod_pos_bound n B). lia.
Qed.

(** ** The bit operations *)

Lemma block_mask_ones : exists k, 1 <= k <= 31 /\ B = 2 ^ k /\ block_mask B = Z.ones k.
Proof using HB.
  destruct HB as (k & Hk & E). exists k. split; [done|]. split; [done|].
  pose proof block_facts as (_ & _ & ?). unfold block_mask. rewrite u64_small.
  - rewrite E, Z.ones_equiv. lia.
  - assert (0 < B) by (rewrite E; apply Z.pow_pos_nonneg; lia). lia.
Qed.

Lemma block_offset_mod n : block_offset B n = n mod B.
Proof using HB.
  destruct block_mask_ones as (k & Hk & E & M). unfold block_offset. rewrite M, Z.land_ones by lia.
  by rewrite <- E.
Qed.

Lemma skipped_mod n : skipped B n = (n mod B =? 0).
Proof using HB. unfold skipped. fold (block_offset B n). by rewrite block_offset_mod. Qed.

Lemma block_base_div n : 0 <= n < 2 ^ 64 -> block_base B n = n / B * B.
Proof using HB.
  intros Hn. destruct block_mask_ones as (k & Hk & E & M). unfold block_base, u64. rewrite M.
  rewrite <- (Z.land_ones _ 64) by lia. rewrite (Z.land_comm (Z.lnot _)), Z.land_assoc.
  rewrite (Z.land_ones n 64), Z.mod_small by lia. rewrite <- Z.ldiff_land, Z.ldiff_ones_r by lia.
  rewrite Z.shiftr_div_pow2, Z.shiftl_mul_pow2 by lia. by rewrite <- E.
Qed.

Lemma land_pow2 n j : 0 <= j -> (Z.land n (2 ^ j) =? 0) = negb (Z.testbit n j).
Proof using.
  intros Hj. assert (Z.land n (2 ^ j) = if Z.testbit n j then 2 ^ j else 0) as ->.
  { apply Z.bits_inj'. intros i Hi. rewrite Z.land_spec, Z.pow2_bits_eqb by done.
    destruct (Z.eqb_spec j i) as [->|]; [rewrite andb_true_r|rewrite andb_false_r];
      destruct (Z.testbit n _) eqn:Et; rewrite ?Z.pow2_bits_true, ?Z.pow2_bits_false, ?Z.bits_0 by done;
      done. }
  destruct (Z.testbit n j); [|done]. apply Z.eqb_neq. pose proof (Z.pow_pos_nonneg 2 j). lia.
Qed.

Lemma is_block_leaf_mod n : 0 <= n -> is_block_leaf B n = (half <=? n mod B).
Proof using HB.
  intros Hn. destruct HB as (k & Hk & E). pose proof block_facts as (E2 & HH & _).
  assert (Z.shiftr B 1 = 2 ^ (k - 1)) as ES.
  { rewrite E, Z.shiftr_div_pow2 by lia. rewrite <- Z.pow_sub_r by lia. done. }
  assert (half = 2 ^ (k - 1)) as EH by (rewrite <- ES, Z.shiftr_div_pow2 by lia; done).
  unfold is_block_leaf. rewrite ES, land_pow2, negb_involutive by lia.
  destruct (block_split n) as [En Ho]. set (o := n mod B) in *. set (b := n / B) in *.
  assert (n / 2 ^ (k - 1) = 2 * b + o / half) as Ed.
  { rewrite <- EH, En, E2 at 1. replace (b * (2 * half) + o) with (2 * b * half + o) by lia.
    by rewrite Z.div_add_l by lia. }
  apply Bool.eq_iff_eq_true. rewrite Z.testbit_true, Z.leb_le, Ed by lia.
  destruct (Z.leb_spec half o).
  - assert (o / half = 1) as -> by (symmetry; apply Z.div_unique with (o - half); lia).
    split; [done|]. intros _. rewrite (Z.add_comm (2 * b)), Z.mul_comm, Z.mod_add by lia. done.
  - rewrite Z.div_small by lia. rewrite Z.add_0_r, Z.mul_comm, Z.mod_mul by lia. lia.
Qed.

Lemma child_no_leaf n :
  0 <= n -> half <= n mod B -> child_no B n = Ok (n mod B - half).
Proof using HB.
  intros Hn Hl. unfold child_no. rewrite is_block_leaf_mod by done.
  rewrite ASSERT_true by (by apply Z.leb_le). cbn [res_bind]. f_equal.
  destruct block_mask_ones as (k & Hk & E & M). pose proof block_facts as (E2 & HH & _).
  assert (Z.shiftr (Z.ones k) 1 = Z.ones (k - 1)) as ES.
  { apply Z.bits_inj'. intros i Hi. rewrite Z.shiftr_spec by done. rewrite !Z.testbit_ones by lia.
    apply Bool.eq_iff_eq_true. rewrite !andb_true_iff, !Z.leb_le, !Z.ltb_lt. lia. }
  assert (half = 2 ^ (k - 1)) as EH by (rewrite E; change 2 with (2 ^ 1) at 2; by rewrite <- Z.pow_sub_r by lia).
  rewrite M, ES, Z.land_ones, <- EH by lia. symmetry. apply Z.mod_unique with (2 * (n / B) + 1); [|].
  - destruct (block_split n). lia.
  - destruct (block_split n). nia.
Qed.

(** ** Parents and children by block and offset *)

Definition par (i : Z) : Z :=
  if i mod B =? 1 then
    let c := i / B - 1 in c / B * B + half + c mod B / 2
  else i / B * B + i mod B / 2.

Definition lchild (n : Z) : Z :=
  if half <=? n mod B then (n / B * B + 1 + 2 * (n mod B - half)) * B + 1
  else n / B * B + 2 * (n mod B).
Definition sibling (n : Z) : Z := if half <=? n mod B then B else 1.

Lemma child_of_lchild n : 0 <= n -> addressable B n -> child_of B n = Ok (lchild n).
Proof using HB.
  unfold addressable. intros Hn Ha. pose proof block_facts as (E2 & HH & HM).
  destruct (block_split n) as [En Ho].
  assert (2 * (n + B) <= (n + B) * B) by (rewrite (Z.mul_comm 2); apply Z.mul_le_mono_nonneg_l; lia).
  assert (n < 2 ^ 63) by lia.
  unfold child_of, lchild. rewrite is_block_leaf_mod, block_offset_mod by done.
  destruct (Z.leb_spec half (n mod B)) as [Hl|Hl]; cbn [negb].
  - rewrite child_no_leaf by done. cbn [res_bind]. f_equal. rewrite block_base_div by lia.
    set (b := n / B) in *. set (o := n mod B) in *.
    assert (0 <= b * B) by (apply Z.mul_nonneg_nonneg; [apply Z.div_pos|]; lia).
    assert (forall x, 0 <= x < n + B -> 0 <= x * B /\ x * B + B <= (n + B) * B) as Hx.
    { intros x Hx. split; [apply Z.mul_nonneg_nonneg; lia|].
      replace (x * B + B) with ((x + 1) * B) by ring. apply Z.mul_le_mono_nonneg_r; lia. }
    replace ((o - half) * B * 2) with (2 * (o - half) * B) by ring.
    pose proof (Hx (b * B + 1)). pose proof (Hx (2 * (o - half))).
    pose proof (Hx (b * B + 1 + 2 * (o - half))).
    rewrite (u64_small (b * B + 1)), (u64_small ((b * B + 1) * B)), (u64_small (2 * _ * B)) by lia.
    rewrite u64_small; lia.
  - f_equal. rewrite u64_small by lia. lia.
Qed.

Lemma sibling_offset_sibling n : 0 <= n -> sibling_offset B n = sibling n.
Proof using HB. intros. unfold sibling_offset, sibling. by rewrite is_block_leaf_mod. Qed.

Lemma parent_of_par n : 1 < n < 2 ^ 64 -> is_cell n -> parent_of B n = par n.
Proof using HB.
  unfold is_cell. intros Hn Hc. pose proof block_facts as (E2 & HH & HM).
  destruct (block_split n) as [En Ho]. unfold parent_of, is_block_root, par.
  rewrite block_offset_mod. rewrite (block_base_div n) by lia.
  set (b := n / B) in *. set (o := n mod B) in *.
  assert (0 <= b) by (apply Z.div_pos; lia). assert (b * B <= n) by lia.
  destruct (Z.eqb_spec o 1) as [E1|E1]; cbn [negb].
  - assert (1 <= b) by nia. assert (b < 2 ^ 63) by nia.
    rewrite Z.div_mul by lia. rewrite (u64_small (b - 1)) by lia. rewrite block_base_div by lia.
    rewrite (u64_small (n - B)) by nia.
    assert ((n - B) / B = b - 1) as ->.
    { replace (n - B) with ((b - 1) * B + o) by nia. by apply block_divmod. }
    destruct (block_split (b - 1)) as [Eb Hb].
    assert (b - 1 - (b - 1) / B * B = (b - 1) mod B) as -> by lia.
    rewrite (u64_small ((b - 1) mod B)) by lia. rewrite u64_small; [lia|].
    pose proof (Z.div_pos (b - 1) B). dlia.
  - rewrite u64_small; [done|]. dlia.
Qed.

Lemma par_lt i : 1 < i -> is_cell i -> 1 <= par i < i.
Proof using HB.
  unfold is_cell, par. intros Hi Hc. pose proof block_facts as (E2 & HH & HM).
  destruct (block_split i) as [Ei Ho]. set (b := i / B) in *. set (o := i mod B) in *.
  assert (0 <= b) by (apply Z.div_pos; lia).
  destruct (Z.eqb_spec o 1) as [E1|E1].
  - assert (1 <= b) by nia. destruct (block_split (b - 1)) as [Eb Hb].
    set (q := (b - 1) / B) in *. set (r := (b - 1) mod B) in *.
    assert (0 <= q) by (apply Z.div_pos; lia). assert (0 <= r / 2 <= half - 1) by dlia.
    assert (0 <= q * B) by nia. split; [lia|].
    assert (q * B + 1 <= b) by lia. assert ((q * B + 1) * B <= b * B) by nia. nia.
  - assert (0 <= b * B) by nia. dlia.
Qed.

Lemma par_cell i : 1 < i -> is_cell i -> is_cell (par i).
Proof using HB.
  unfold is_cell, par. intros Hi Hc. pose proof block_facts as (E2 & HH & HM).
  destruct (block_split i) as [Ei Ho]. destruct (Z.eqb_spec (i mod B) 1) as [E1|E1].
  - destruct (block_split (i / B - 1)) as [Eb Hb]. rewrite <- Z.add_assoc.
    destruct (block_divmod ((i / B - 1) / B) (half + (i / B - 1) mod B / 2)) as [_ ->]; dlia.
  - destruct (block_divmod (i / B) (i mod B / 2)) as [_ ->]; dlia.
Qed.

(** The children of a cell are the cells whose parent it is. *)
Lemma lchild_facts n :
  0 < n -> is_cell n ->
  n < lchild n /\ is_cell (lchild n) /\ is_cell (lchild n + sibling n) /\
  par (lchild n) = n /\ par (lchild n + sibling n) = n.
Proof using HB.
  unfold is_cell, lchild, sibling, par. intros Hn Hc. pose proof block_facts as (E2 & HH & HM).
  destruct (block_split n) as [En Ho]. set (b := n / B) in *. set (o := n mod B) in *.
  assert (0 <= b) by (apply Z.div_pos; lia). assert (0 <= b * B) by nia.
  destruct (Z.leb_spec half o) as [Hl|Hl].
  - set (c := b * B + 2 * (o - half)).
    replace ((b * B + 1 + 2 * (o - half)) * B + 1) with ((c + 1) * B + 1) by (subst c; ring).
    replace ((c + 1) * B + 1 + B) with ((c + 1 + 1) * B + 1) by ring.
    destruct (block_divmod (c + 1) 1) as [-> ->]; [lia|].
    destruct (block_divmod (c + 1 + 1) 1) as [-> ->]; [lia|]. cbn [Z.eqb Pos.eqb].
    replace (c + 1 - 1) with (b * B + 2 * (o - half)) by (subst c; lia).
    replace (c + 1 + 1 - 1) with (b * B + (2 * (o - half) + 1)) by (subst c; lia).
    destruct (block_divmod b (2 * (o - half))) as [-> ->]; [lia|].
    destruct (block_divmod b (2 * (o - half) + 1)) as [-> ->]; [lia|].
    assert (n < (c + 1) * B + 1) by (subst c; nia). split_and!; try lia; dlia.
  - replace (b * B + 2 * o + 1) with (b * B + (2 * o + 1)) by lia.
    destruct (block_divmod b (2 * o)) as [-> ->]; [lia|].
    destruct (block_divmod b (2 * o + 1)) as [-> ->]; [lia|].
    destruct (Z.eqb_spec (2 * o) 1), (Z.eqb_spec (2 * o + 1) 1); try lia.
    split_and!; try lia; dlia.
Qed.

Lemma par_children i :
  1 < i -> is_cell i -> i = lchild (par i) \/ i = lchild (par i) + sibling (par i).
Proof using HB.
  intros Hi Hc. unfold lchild, sibling. unfold is_cell, par in *. pose proof block_facts as (E2 & HH & HM).
  destruct (block_split i) as [Ei Ho]. destruct (Z.eqb_spec (i mod B) 1) as [E1|E1].
  - destruct (block_split (i / B - 1)) as [Eb Hb].
    set (q := (i / B - 1) / B) in *. set (r := (i / B - 1) mod B) in *. rewrite <- Z.add_assoc.
    destruct (block_divmod q (half + r / 2)) as [-> ->]; [dlia|].
    destruct (Z.leb_spec half (half + r / 2)); [|dlia].
    assert (2 * (r / 2) = r \/ 2 * (r / 2) = r - 1) as [Er|Er] by dlia.
    + left. replace (2 * (half + r / 2 - half)) with r by lia. rewrite Ei at 1. rewrite E1. f_equal. f_equal. lia.
    + right. replace (2 * (half + r / 2 - half)) with (r - 1) by lia. rewrite Ei at 1. rewrite E1.
      replace (i / B) with (q * B + r + 1) by lia. ring.
  - destruct (block_divmod (i / B) (i mod B / 2)) as [-> ->]; [dlia|].
    destruct (Z.leb_spec half (i mod B / 2)); dlia.
Qed.

Lemma lchild_sibling_pos n : 0 < sibling n.
Proof using HB. pose proof block_facts. unfold sibling. case_match; lia. Qed.

Lemma rchild_bound n : 0 <= n -> lchild n + sibling n <= (n + B) * B.
Proof using HB.
  intros Hn. unfold lchild, sibling. pose proof block_facts as (E2 & HH & HM).
  destruct (block_split n) as [En Ho]. set (b := n / B) in *. set (o := n mod B) in *.
  assert (0 <= b) by (apply Z.div_pos; lia). assert (0 <= b * B) by nia.
  destruct (Z.leb_spec half o); nia.
Qed.
End Address.

(** [parent_of] undoes [child_of]: both children of a node, the one [child_of]
    gives and the one [block_size] or 1 behind it, have the node as their parent and
    come after it, as long as the index arithmetic does not wrap around. *)
Theorem parent_of_child_of B n :
  block_ok B -> 0 < n -> is_cell B n -> addressable B n ->
  exists lc, child_of B n = Ok lc /\ n < lc /\
    parent_of B lc = n /\ parent_of B (lc + sibling_offset B n) = n.
Proof.
  intros HB Hn Hc Ha. exists (lchild B n). rewrite child_of_lchild by (done || lia).
  destruct (lchild_facts B HB n Hn Hc) as (H1 & H2 & H3 & H4 & H5).
  rewrite sibling_offset_sibling by (done || lia).
  pose proof (rchild_bound B HB n ltac:(lia)) as Hb. pose proof (lchild_sibling_pos B HB n).
  unfold addressable in Ha.
  split; [done|]. split; [done|]. rewrite !parent_of_par by (done || lia). done.
Qed.

Lemma parent_of_child_of_witness :
  exists lc, child_of 8 7 = Ok lc /\ 7 < lc /\ parent_of 8 lc = 7 /\
    parent_of 8 (lc + sibling_offset 8 7) = 7.
Proof.
  apply (parent_of_child_of 8 7); [by exists 3|reflexivity|reflexivity|reflexivity].
Defined.
