(* ===== verification/PrioVector.v ===== *)
(** * [skip_vector]: what each operation does to the cells

    [holds n h f v]: [v] ends at [n], its cell [i] holds the value [f i] or, if
    [h i], is a hole whose value was moved out; everything else is raw memory. *)

From S2P Require Import Prelude PrioQueue PrioAddress.

(** One point of a function changed. *)
Definition upd {A} (f : Z -> A) (i : Z) (x : A) : Z -> A := fun j => if j =? i then x else f j.

Lemma upd_eq {A} (f : Z -> A) i x : upd f i x i = x.
Proof. unfold upd. by rewrite Z.eqb_refl. Qed.
Lemma upd_ne {A} (f : Z -> A) i x j : j <> i -> upd f i x j = f j.
Proof. unfold upd. intros. by destruct (Z.eqb_spec j i). Qed.

(** No cell is moved out. *)
Definition no_hole (i : Z) : bool := false.

(** ** Memory as a function of the index *)
Section Layout.
Context {A : Type}.

Definition layout (S : Z) (F : Z -> A) : list A := F <$> seqZ 0 S.

Lemma length_layout S F : length (layout S F) = Z.to_nat S.
Proof. unfold layout. by rewrite length_fmap, length_seqZ. Qed.

Lemma layout_lookup S F i : 0 <= i < S -> layout S F !! Z.to_nat i = Some (F i).
Proof.
  intros Hi. unfold layout. rewrite list_lookup_fmap.
  rewrite (proj2 (lookup_seqZ 0 S (Z.to_nat i) i)); [done|lia].
Qed.

Lemma layout_ext S F G : (forall i, 0 <= i < S -> F i = G i) -> layout S F = layout S G.
Proof.
  intros E. apply list_fmap_ext. intros k x Hx. apply lookup_seqZ in Hx. apply E. lia.
Qed.

Lemma layout_insert S F i x :
  0 <= i < S -> <[Z.to_nat i := x]> (layout S F) = layout S (upd F i x).
Proof.
  intros Hi. apply list_eq_same_length with (Z.to_nat S);
    [by rewrite length_layout|by rewrite length_insert, length_layout|].
  intros k a b Hk Ha Hb. rewrite <- (Nat2Z.id k) in Ha, Hb. rewrite layout_lookup in Hb by lia.
  injection Hb as <-. unfold upd. destruct (Z.eqb_spec (Z.of_nat k) i) as [E|E].
  - rewrite E in Ha. rewrite list_lookup_insert_eq in Ha by (rewrite length_layout; lia). congruence.
  - rewrite list_lookup_insert_ne in Ha by lia. rewrite layout_lookup in Ha by lia. congruence.
Qed.
End Layout.

Section Vector.
Context {T : Type} (B : Z) (HB : block_ok B).
Notation cellB := (is_cell B).

(** The vector never ends behind a block's skipped cell. *)
Definition end_ok (n : Z) : Prop := 0 <= n /\ (n = 0 \/ cellB (n - 1)).

(** What cell [i] holds. *)
Definition state (n : Z) (h : Z -> bool) (f : Z -> T) (i : Z) : cell T :=
  if (0 <? i mod B) && (i <? n) then if h i then Moved else Val (f i) else Raw.

Record holds (n : Z) (h : Z -> bool) (f : Z -> T) (v : skip_vector T) : Prop := mkHolds {
  h_end : m_end v = n;
  h_end_ok : end_ok n;
  h_room : n <= m_storage_size v;
  h_blocks : m_storage_size v mod B = 0;
  h_mem : m_ptr v = if m_storage_size v =? 0 then None
                    else Some (layout (m_storage_size v) (state n h f))
}.

Lemma state_cell n h f i : cellB i -> i < n -> h i = false -> state n h f i = Val (f i).
Proof.
  unfold state, is_cell. intros Hc Hi ->.
  destruct (Z.ltb_spec 0 (i mod B)), (Z.ltb_spec i n); done || lia.
Qed.
Lemma state_hole n h f i : cellB i -> i < n -> h i = true -> state n h f i = Moved.
Proof.
  unfold state, is_cell. intros Hc Hi ->.
  destruct (Z.ltb_spec 0 (i mod B)), (Z.ltb_spec i n); done || lia.
Qed.
Lemma state_raw n h f i : ~ cellB i \/ n <= i -> state n h f i = Raw.
Proof.
  unfold state, is_cell. intros Hc. destruct (Z.ltb_spec 0 (i mod B)), (Z.ltb_spec i n); try done; lia.
Qed.
(** There is an object in every cell in use. *)
Lemma state_object {R} n h f i (a b : R) :
  cellB i -> i < n -> match state n h f i with Raw => a | _ => b end = b.
Proof.
  intros Hc Hi. destruct (h i) eqn:E; [by rewrite state_hole|by rewrite state_cell].
Qed.

Lemma layout_state S n h f h' f' :
  (forall i, cellB i -> 0 <= i < n -> state n h f i = state n h' f' i) ->
  layout S (state n h f) = layout S (state n h' f').
Proof.
  intros E. apply layout_ext. intros i Hi. destruct (decide (cellB i)) as [Hc|Hc].
  - destruct (decide (i < n)); [apply E; [done|lia]|]. rewrite !state_raw by lia. done.
  - rewrite !state_raw by (by left). done.
Qed.

Lemma holds_ext n h f h' f' v :
  (forall i, cellB i -> 0 <= i < n -> h' i = h i /\ (h i = false -> f' i = f i)) ->
  holds n h f v -> holds n h' f' v.
Proof.
  intros E [H1 H2 H3 H4 H5]. split; try done. rewrite H5. destruct (_ =? 0); [done|]. f_equal.
  apply layout_state. intros i Hc Hi. destruct (E i Hc Hi) as [Eh Ef].
  destruct (h i) eqn:E'; [by rewrite !state_hole by (done || lia)|].
  rewrite !state_cell by (done || lia). by rewrite Ef.
Qed.

(** Cells used are allocated. *)
Lemma holds_mem n h f v :
  holds n h f v -> 0 < n -> m_ptr v = Some (layout (m_storage_size v) (state n h f)).
Proof.
  intros [E He Hr Hb Hm] Hn. rewrite Hm. destruct (Z.eqb_spec (m_storage_size v) 0); [lia|done].
Qed.

Lemma holds_set_ptr n h f h' f' p v :
  holds n h f v -> 0 < n -> p = layout (m_storage_size v) (state n h' f') ->
  holds n h' f' (set_ptr p v).
Proof.
  intros [E He Hr Hb Hm] Hn ->. split; try done. cbn.
  destruct (Z.eqb_spec (m_storage_size v) 0); [lia|done].
Qed.

Lemma mem_layout (S i : Z) (F : Z -> cell T) : 0 <= i < S -> mem (layout S F) i = Ok (F i).
Proof.
  intros Hi. unfold mem. destruct (Z.leb_spec 0 i); [|lia]. by rewrite layout_lookup.
Qed.

Lemma at_index_holds n h f v i :
  holds n h f v -> 0 <= i < n -> cellB i ->
  at_index B v i = Ok (layout (m_storage_size v) (state n h f)).
Proof using HB.
  intros Hv Hi Hc. unfold at_index. rewrite (h_end _ _ _ _ Hv).
  rewrite ASSERT_true by (apply Z.ltb_lt; lia). cbn [res_bind].
  rewrite (skipped_mod B HB). unfold is_cell in Hc.
  rewrite ASSERT_true by (apply negb_true_iff, Z.eqb_neq; lia). cbn [res_bind].
  unfold ptr. rewrite (holds_mem n h f v) by (done || lia). done.
Qed.

Lemma holds_lt n h f v i : holds n h f v -> i < n -> i < m_storage_size v.
Proof. intros Hv Hi. pose proof (h_room _ _ _ _ Hv). lia. Qed.

Lemma get_holds n h f v i :
  holds n h f v -> 0 <= i < n -> cellB i -> h i = false -> get B v i = Ok (f i).
Proof using HB.
  intros Hv Hi Hc Hh. unfold get, read. rewrite (at_index_holds n h f) by done. cbn [res_bind].
  pose proof (holds_lt _ _ _ _ i Hv). rewrite mem_layout by lia. cbn [res_bind].
  by rewrite state_cell by (done || lia).
Qed.

(** Moving a value out makes its cell a hole. *)
Lemma take_holds n h f v i :
  holds n h f v -> 0 <= i < n -> cellB i -> h i = false ->
  exists v', take_at B v i = Ok (f i, v') /\ holds n (upd h i true) f v'.
Proof using HB.
  intros Hv Hi Hc Hh. pose proof (holds_lt _ _ _ _ i Hv). unfold take_at, move_from, read.
  rewrite (at_index_holds n h f) by done. cbn [res_bind]. rewrite mem_layout by lia. cbn [res_bind].
  rewrite state_cell by (done || lia). cbn [res_bind]. eexists. split; [reflexivity|].
  rewrite layout_insert by lia. apply (holds_set_ptr n h f); [done|lia|].
  apply layout_ext. intros j Hj. unfold upd at 1. destruct (Z.eqb_spec j i) as [->|].
  - symmetry. apply state_hole; [done|lia|apply upd_eq].
  - unfold state. by rewrite upd_ne.
Qed.

(** A value assigned to a cell with an object, moved out or not. *)
Lemma put_holds n h f v i x :
  holds n h f v -> 0 <= i < n -> cellB i ->
  exists v', put B v i x = Ok v' /\ holds n (upd h i false) (upd f i x) v'.
Proof using HB.
  intros Hv Hi Hc. pose proof (holds_lt _ _ _ _ i Hv). unfold put, assign.
  rewrite (at_index_holds n h f) by done. cbn [res_bind]. rewrite mem_layout by lia. cbn [res_bind].
  rewrite state_object by (done || lia). cbn [res_bind]. eexists. split; [reflexivity|].
  rewrite layout_insert by lia. apply (holds_set_ptr n h f); [done|lia|].
  apply layout_ext. intros j Hj. unfold upd at 1. destruct (Z.eqb_spec j i) as [->|].
  - rewrite state_cell by (done || lia || apply upd_eq). by rewrite upd_eq.
  - unfold state. by rewrite !upd_ne.
Qed.

(** The last cell. *)
Lemma last_cell n h f v : holds n h f v -> n <> 0 -> 0 < n /\ cellB (n - 1) /\ 0 < n - 1.
Proof using HB.
  intros Hv Hn. destruct (h_end_ok _ _ _ _ Hv) as [H0 [H1|H1]]; [lia|].
  split; [lia|]. split; [done|]. destruct (decide (n = 1)) as [->|]; [|lia].
  unfold is_cell in H1. rewrite Z.mod_0_l in H1; [lia|]. pose proof (block_facts B HB). lia.
Qed.

Lemma take_back_holds n h f v :
  holds n h f v -> n <> 0 -> n < 2 ^ 64 -> h (n - 1) = false ->
  exists v', take_back v = Ok (f (n - 1), v') /\ holds n (upd h (n - 1) true) f v'.
Proof using HB.
  intros Hv Hn Hn' Hh. destruct (last_cell _ _ _ _ Hv Hn) as (H0 & Hc & H1).
  destruct (take_holds n h f v (n - 1) Hv ltac:(lia) Hc Hh) as (v' & E & Hv'). exists v'.
  split; [|done]. rewrite <- E. unfold take_back, take_at, empty_sv, size_sv.
  rewrite (at_index_holds n h f) by (done || lia). unfold ptr. rewrite (holds_mem n h f v) by done.
  rewrite (h_end _ _ _ _ Hv), u64_small by lia.
  rewrite ASSERT_true by (by apply negb_true_iff, Z.eqb_neq). done.
Qed.
End Vector.
