(* ===== verification/PrioGrow.v ===== *)
(** * [skip_vector]: growing, shrinking and destroying

    [push_back] in its three cases, [grow] with each of the three ways to move the
    elements into the new memory, [pop_back] and the destructor. *)

From S2P Require Import Prelude PrioQueue PrioAddress PrioVector.

Section Grow.
Context {T : Type} (B : Z) (HB : block_ok B).
Notation cellB := (is_cell B).
Notation state := (state (T:=T) B).
Notation holds := (holds (T:=T) B).

(** The cell a new element goes to, and the end after the last one is gone. *)
Definition next_cell (n : Z) : Z := if n mod B =? 0 then n + 1 else n.
Definition prev_end (n : Z) : Z := if (n - 1) mod B =? 1 then n - 2 else n - 1.

Lemma next_cell_facts n : end_ok B n -> 0 <= n -> cellB (next_cell n) /\ n <= next_cell n <= n + 1.
Proof using HB.
  intros _ Hn. unfold is_cell, next_cell. pose proof (block_facts B HB) as (E2 & HH & _).
  destruct (block_split B HB n) as [En Ho]. destruct (Z.eqb_spec (n mod B) 0) as [E|E]; [|lia].
  split; [|lia]. replace (n + 1) with (n / B * B + 1) by lia.
  destruct (block_divmod B HB (n / B) 1) as [_ ->]; lia.
Qed.

Lemma prev_end_ok n : 0 < n -> cellB (n - 1) -> end_ok B (prev_end n).
Proof using HB.
  unfold is_cell, end_ok, prev_end. intros Hn Hc. pose proof (block_facts B HB) as (E2 & HH & _).
  destruct (block_split B HB (n - 1)) as [En Ho]. unfold is_cell.
  destruct (Z.eqb_spec ((n - 1) mod B) 1) as [E|E].
  - assert (0 <= (n - 1) / B) by (apply Z.div_pos; lia).
    destruct (decide ((n - 1) / B = 0)) as [E0|E0]; [lia|]. split; [nia|]. right.
    replace (n - 2 - 1) with (((n - 1) / B - 1) * B + (B - 1)) by lia.
    destruct (block_divmod B HB ((n - 1) / B - 1) (B - 1)) as [_ ->]; lia.
  - split; [lia|]. right. replace (n - 1 - 1) with ((n - 1) / B * B + ((n - 1) mod B - 1)) by lia.
    destruct (block_divmod B HB ((n - 1) / B) ((n - 1) mod B - 1)) as [_ ->]; lia.
Qed.

Lemma construct_layout (S i : Z) (F : Z -> cell T) x :
  0 <= i < S -> F i = Raw -> construct (layout S F) i x = Ok (layout S (upd F i (Val x))).
Proof using.
  intros Hi E. unfold construct. rewrite mem_layout by done. cbn [res_bind]. rewrite E.
  by rewrite layout_insert.
Qed.

(** One more element, in the next cell. *)
Lemma state_push S n f x :
  end_ok B n ->
  layout S (upd (state n no_hole f) (next_cell n) (Val x)) =
  layout S (state (next_cell n + 1) no_hole (upd f (next_cell n) x)).
Proof using HB.
  intros He. destruct (next_cell_facts n He (proj1 He)) as [Hc Hn].
  apply layout_ext. intros i Hi. unfold upd at 1. destruct (Z.eqb_spec i (next_cell n)) as [->|Hne].
  - rewrite state_cell by (done || lia). by rewrite upd_eq.
  - destruct (decide (cellB i)) as [Hci|Hci]; [|by rewrite !state_raw by (by left)].
    destruct (decide (i < n)).
    + rewrite !state_cell by (done || lia). by rewrite upd_ne.
    + rewrite !state_raw; [done| |right; lia].
      right. unfold is_cell, next_cell in *. destruct (Z.eqb_spec (n mod B) 0) as [E|E]; [|lia].
      destruct (decide (i = n)) as [->|]; lia.
Qed.

(** A vector that ends where a block ends has room for the skipped cell and one more,
    or is full. *)
Lemma room n h f v :
  holds n h f v ->
  if n mod B =? 0 then n = m_storage_size v \/ n + 1 < m_storage_size v else n < m_storage_size v.
Proof using HB.
  intros [E He Hr Hb Hm]. pose proof (block_facts B HB) as (E2 & HH & _).
  destruct (block_split B HB n) as [En Ho]. destruct (block_split B HB (m_storage_size v)) as [Es Hs].
  destruct (Z.eqb_spec (n mod B) 0).
  - destruct (decide (n = m_storage_size v)); [by left|right].
    assert (n / B < m_storage_size v / B) by nia. nia.
  - destruct (decide (n = m_storage_size v)) as [->|]; lia.
Qed.

(** ** Moving the elements *)

(** [p] with the elements of the first [n] cells, from [i] on, filled in. *)
Definition filled (i n : Z) (f : Z -> T) (G : Z -> cell T) (j : Z) : cell T :=
  if (i <=? j) && (j <? n) && (0 <? j mod B) then Val (f j) else G j.

Lemma filled_step i n f G j :
  i < n ->
  filled i n f G j =
    filled (i + 1) n f (if negb (skipped B i) then upd G i (Val (f i)) else G) j.
Proof using HB.
  intros Hi. rewrite (skipped_mod B HB). unfold filled, upd.
  pose proof (block_split B HB i) as [_ Hm].
  destruct (Z.eqb_spec j i) as [->|Hne].
  - destruct (Z.leb_spec i i), (Z.leb_spec (i + 1) i), (Z.ltb_spec i n); try lia. cbn [andb].
    destruct (Z.eqb_spec (i mod B) 0), (Z.ltb_spec 0 (i mod B)); try lia; cbn [negb]; [done|].
    by rewrite Z.eqb_refl.
  - destruct (Z.leb_spec i j), (Z.leb_spec (i + 1) j); try lia; cbn [andb];
      destruct (Z.eqb_spec (i mod B) 0); cbn [negb]; try done;
      destruct (Z.eqb_spec j i); done.
Qed.

Lemma copy_loop_ok c i n S D f F G :
  i + Z.of_nat c = n -> 0 <= i -> n <= S -> n <= D ->
  (forall j, i <= j < n -> cellB j -> F j = Val (f j)) ->
  (forall j, i <= j < n -> cellB j -> G j = Raw) ->
  copy_loop B c i (layout S F) (layout D G) = Ok (layout D (filled i n f G)).
Proof using HB.
  revert i G. induction c as [|c IH]; intros i G En Hi HS HD HF HG; cbn [copy_loop].
  { f_equal. apply layout_ext. intros j Hj. unfold filled.
    destruct (Z.leb_spec i j), (Z.ltb_spec j n); try lia; done. }
  rewrite (layout_ext D (filled i n f G) _ (fun j _ => filled_step i n f G j ltac:(lia))).
  destruct (negb (skipped B i)) eqn:Es.
  - rewrite (skipped_mod B HB), negb_true_iff, Z.eqb_neq in Es.
    assert (cellB i) as Hc by (unfold is_cell; pose proof (block_split B HB i); lia).
    unfold read. rewrite mem_layout by lia. cbn [res_bind]. rewrite HF by (done || lia). cbn [res_bind].
    rewrite construct_layout by (lia || (apply HG; [lia|done])). cbn [res_bind].
    apply IH; try lia.
    + intros j Hj. apply HF. lia.
    + intros j Hj Hcj. rewrite upd_ne by lia. apply HG; [lia|done].
  - cbn [res_bind]. apply IH; try lia; intros j Hj; [apply HF|apply HG]; lia.
Qed.

Lemma move_loop_ok c i n S D f F G :
  i + Z.of_nat c = n -> 0 <= i -> n <= S -> n <= D ->
  (forall j, i <= j < n -> cellB j -> F j = Val (f j)) ->
  (forall j, i <= j < n -> cellB j -> G j = Raw) ->
  exists b, move_loop B c i (layout S F) (layout D G) = Ok (b, layout D (filled i n f G)).
Proof using HB.
  revert i F G. induction c as [|c IH]; intros i F G En Hi HS HD HF HG; cbn [move_loop].
  { eexists. do 2 f_equal. apply layout_ext. intros j Hj. unfold filled.
    destruct (Z.leb_spec i j), (Z.ltb_spec j n); try lia; done. }
  rewrite (layout_ext D (filled i n f G) _ (fun j _ => filled_step i n f G j ltac:(lia))).
  destruct (negb (skipped B i)) eqn:Es.
  - rewrite (skipped_mod B HB), negb_true_iff, Z.eqb_neq in Es.
    assert (cellB i) as Hc by (unfold is_cell; pose proof (block_split B HB i); lia).
    unfold move_from, read. rewrite mem_layout by lia. cbn [res_bind]. rewrite HF by (done || lia).
    cbn [res_bind]. rewrite layout_insert by lia.
    rewrite construct_layout by (lia || (apply HG; [lia|done])). cbn [res_bind].
    unfold destroy_at. rewrite mem_layout by lia. cbn [res_bind]. rewrite upd_eq. cbn [res_bind].
    rewrite layout_insert by lia. apply IH; try lia.
    + intros j Hj Hcj. rewrite !upd_ne by lia. apply HF; [lia|done].
    + intros j Hj Hcj. rewrite upd_ne by lia. apply HG; [lia|done].
  - cbn [res_bind]. apply IH; try lia; intros j Hj; [apply HF|apply HG]; lia.
Qed.

(** [destroy] finds an object in every cell it destroys. *)
Lemma destroy_loop_ok c S (F : Z -> cell T) :
  Z.of_nat c <= S -> (forall j, 0 <= j < Z.of_nat c -> cellB j -> F j <> Raw) ->
  destroy_loop B c (layout S F) =
    Ok (layout S (fun j => if (j <? Z.of_nat c) && (0 <? j mod B) then Raw else F j)).
Proof using HB.
  revert F. induction c as [|c IH]; intros F HS HF; cbn [destroy_loop].
  { f_equal. apply layout_ext. intros j Hj. destruct (Z.ltb_spec j (Z.of_nat 0)); [lia|done]. }
  rewrite (skipped_mod B HB). pose proof (block_split B HB (Z.of_nat c)) as [_ Hm].
  destruct (Z.eqb_spec (Z.of_nat c mod B) 0) as [E|E]; cbn [negb].
  - cbn [res_bind]. rewrite IH; [|lia|intros j Hj; apply HF; lia]. f_equal. apply layout_ext.
    intros j Hj. destruct (Z.ltb_spec j (Z.of_nat c)), (Z.ltb_spec j (Z.of_nat (Datatypes.S c))); try lia;
      try done. assert (j = Z.of_nat c) as -> by lia. destruct (Z.ltb_spec 0 (Z.of_nat c mod B)); [lia|done].
  - unfold destroy_at. rewrite mem_layout by lia. cbn [res_bind].
    assert (F (Z.of_nat c) <> Raw) as HR by (apply HF; [lia|unfold is_cell; lia]).
    assert (forall A (a b : A), match F (Z.of_nat c) with Raw => a | _ => b end = b) as Em
      by (intros; by destruct (F (Z.of_nat c))).
    rewrite Em. cbn [res_bind]. rewrite layout_insert by lia.
    rewrite IH; [|lia|intros j Hj Hcj; rewrite upd_ne by lia; apply HF; [lia|done]].
    f_equal. apply layout_ext. intros j Hj. unfold upd.
    destruct (Z.ltb_spec j (Z.of_nat c)), (Z.ltb_spec j (Z.of_nat (Datatypes.S c))), (Z.eqb_spec j (Z.of_nat c));
      try lia; try done. subst j. destruct (Z.ltb_spec 0 (Z.of_nat c mod B)); [done|lia].
Qed.

(** Every [move_to] leaves the elements in the new memory. *)
Lemma move_to_ok kind n S D f G :
  0 <= n -> n <= S -> n <= D -> (forall j, 0 <= j < n -> G j = Raw) ->
  move_to B kind (layout S (state n no_hole f)) n (layout D G) = Ok (layout D (filled 0 n f G)).
Proof using HB.
  intros Hn HS HD HG.
  assert (forall j, 1 <= j < n -> cellB j -> state n no_hole f j = Val (f j)) as HF
    by (intros; apply state_cell; done || lia).
  assert (1 + Z.of_nat (Z.to_nat (n - 1)) = n \/ n = 0) as [Ec| ->] by lia.
  - assert (layout D (filled 0 n f G) = layout D (filled 1 n f G)) as ->.
    { apply layout_ext. intros j Hj. rewrite filled_step by lia. rewrite (skipped_mod B HB).
      rewrite Z.mod_0_l by (pose proof (block_facts B HB); lia). done. }
    destruct kind; cbn [move_to].
    + f_equal. apply list_eq. intros k. destruct (decide (Z.of_nat k < D)) as [Hk|Hk].
      * rewrite <- (Nat2Z.id k). rewrite layout_lookup by lia. unfold filled.
        destruct (decide (Z.of_nat k < n)).
        -- rewrite lookup_app_l by (rewrite length_take, length_layout; lia).
           rewrite lookup_take_lt, layout_lookup by lia. f_equal.
           destruct (Z.ltb_spec (Z.of_nat k) n), (Z.ltb_spec 0 (Z.of_nat k mod B)); try lia; try done.
           ++ destruct (Z.leb_spec 1 (Z.of_nat k)); cbn [andb]; [apply HF; [lia|done]|].
              assert (Z.of_nat k = 0) as Ek by lia. rewrite Ek, Z.mod_0_l in *;
                [lia|pose proof (block_facts B HB); lia].
           ++ rewrite andb_false_r, HG by lia. apply state_raw. left. unfold is_cell. lia.
        -- rewrite lookup_app_r by (rewrite length_take, length_layout; lia).
           rewrite lookup_drop, length_take, length_layout.
           replace (Z.to_nat n + (Z.to_nat (Z.of_nat k) - Z.to_nat n `min` Z.to_nat S))%nat
             with (Z.to_nat (Z.of_nat k)) by lia.
           rewrite layout_lookup by lia. destruct (Z.ltb_spec (Z.of_nat k) n); [lia|].
           by rewrite andb_false_r.
      * rewrite !lookup_ge_None_2; [done|..];
          rewrite ?length_app, ?length_take, ?length_drop, ?length_layout; lia.
    + destruct (move_loop_ok (Z.to_nat (n - 1)) 1 n S D f (state n no_hole f) G) as [b Eb];
        try lia; [exact HF|intros; apply HG; lia|]. by rewrite Eb.
    + rewrite (copy_loop_ok (Z.to_nat (n - 1)) 1 n S D f (state n no_hole f) G);
        try lia; [|exact HF|intros; apply HG; lia]. cbn [res_bind].
      rewrite destroy_loop_ok; [done|lia|]. intros j Hj Hc. by rewrite state_cell by (done || lia).
  - assert (filled 0 0 f G = G \/ True) as _ by (by right).
    assert (layout D (filled 0 0 f G) = layout D G) as ->.
    { apply layout_ext. intros j Hj. unfold filled. destruct (Z.ltb_spec j 0); [lia|].
      by rewrite andb_false_r. }
    by destruct kind.
Qed.

(** ** [push_back] *)

Lemma grow_holds kind n f v x :
  holds n no_hole f v -> n = m_storage_size v -> n < 2 ^ 31 - 4 ->
  exists v', grow B kind v x = Ok (n + 1, v') /\ holds (n + 2) no_hole (upd f (n + 1) x) v'.
Proof using HB.
  intros Hv En Hn. pose proof (block_facts B HB) as (E2 & HH & HM).
  destruct (h_end_ok _ _ _ _ _ Hv) as [Hn0 _].
  assert (n mod B = 0) as Em by (rewrite En; apply (h_blocks _ _ _ _ _ Hv)).
  assert (next_cell n = n + 1) as Enx by (unfold next_cell; by rewrite Em).
  unfold grow. rewrite (h_end _ _ _ _ _ Hv), <- En.
  set (D := if negb (n =? 0) then u64 (n * 2) else u64 (B * 16)).
  assert (D = if n =? 0 then B * 16 else n * 2) as ED.
  { unfold D. destruct (n =? 0); cbn [negb]; apply u64_small; lia. }
  assert (n + 1 < D) as HD.
  { rewrite ED. destruct (Z.eqb_spec n 0) as [->|]; [lia|].
    destruct (block_split B HB n) as [Es _]. rewrite Em in Es. assert (1 <= n / B) by nia. nia. }
  assert (D mod B = 0) as HDB.
  { rewrite ED. destruct (n =? 0); [rewrite Z.mul_comm; apply Z.mod_mul; lia|].
    rewrite Z.mul_mod, Em, Z.mul_0_l by lia. apply Z.mod_0_l. lia. }
  assert (replicate (Z.to_nat D) (Raw (T:=T)) = layout D (fun _ => Raw)) as ->.
  { apply list_eq_same_length with (Z.to_nat D); [by rewrite length_layout|by rewrite length_replicate|].
    intros k a b Hk Ha Hb. apply lookup_replicate in Ha as [-> _].
    rewrite <- (Nat2Z.id k), layout_lookup in Hb by lia. congruence. }
  rewrite (u64_small (n + 1)) by lia. rewrite construct_layout by (done || lia). cbn [res_bind].
  set (G := upd (fun _ => Raw) (n + 1) (Val x)).
  assert ((if negb (n =? 0) then let! b := ptr v in move_to B kind b n (layout D G) else Ok (layout D G))
    = Ok (layout D (state (n + 2) no_hole (upd f (n + 1) x)))) as ->.
  { assert (layout D (filled 0 n f G) = layout D (state (n + 2) no_hole (upd f (n + 1) x))) as EG.
    { pose proof (state_push D n f x (h_end_ok _ _ _ _ _ Hv)) as Ep. rewrite Enx in Ep.
      replace (n + 1 + 1) with (n + 2) in Ep by lia. rewrite <- Ep. apply layout_ext. intros j Hj.
      unfold filled, G. destruct (Z.eq_dec j (n + 1)) as [->|Hne].
      - rewrite !upd_eq. destruct (Z.ltb_spec (n + 1) n); [lia|]. by rewrite andb_false_r.
      - rewrite !upd_ne by done. unfold PrioVector.state.
        destruct (Z.leb_spec 0 j), (Z.ltb_spec j n), (Z.ltb_spec 0 (j mod B)); try lia; done. }
    destruct (Z.eqb_spec n 0) as [E0|E0]; cbn [negb].
    - rewrite <- EG. f_equal. apply layout_ext. intros j Hj. unfold filled.
      destruct (Z.ltb_spec j n); [lia|]. by rewrite andb_false_r.
    - unfold ptr. rewrite (holds_mem B n no_hole f v) by (done || lia). cbn [res_bind].
      rewrite move_to_ok; try lia; [by rewrite EG|]. intros j Hj. unfold G. rewrite upd_ne by lia. done. }
  cbn [res_bind].
  rewrite !i32_small by (rewrite ?i32_small; lia). rewrite !u64_small by lia.
  replace (n + 1 + 1) with (n + 2) by lia. eexists. split; [reflexivity|].
  split; cbn; [done| |lia|done|].
  - split; [lia|]. right. replace (n + 2 - 1) with (next_cell n) by lia.
    by apply next_cell_facts; [apply (h_end_ok _ _ _ _ _ Hv)|].
  - destruct (Z.eqb_spec D 0); [lia|done].
Qed.

(** The new element goes to the next cell, whether there is room or not. *)
Lemma push_back_holds kind n f v x :
  holds n no_hole f v -> n < 2 ^ 31 - 4 ->
  exists v', push_back B kind v x = Ok (next_cell n, v') /\
    holds (next_cell n + 1) no_hole (upd f (next_cell n) x) v'.
Proof using HB.
  intros Hv Hn. pose proof (room _ _ _ _ Hv) as Hroom.
  pose proof (h_end_ok _ _ _ _ _ Hv) as He. pose proof (proj1 He) as Hn0.
  destruct (next_cell_facts n He Hn0) as [Hc Hnx].
  assert (forall p, m_storage_size v <> 0 -> next_cell n < m_storage_size v ->
    p = layout (m_storage_size v) (upd (state n no_hole f) (next_cell n) (Val x)) ->
    holds (next_cell n + 1) no_hole (upd f (next_cell n) x)
      (mkSkip (Some p) (next_cell n + 1) (m_storage_size v))) as Hh.
  { intros p H0 Hlt ->. rewrite state_push by done. split; cbn; [done| |lia|apply Hv|].
    - split; [lia|]. right. by replace (next_cell n + 1 - 1) with (next_cell n) by lia.
    - destruct (Z.eqb_spec (m_storage_size v) 0); done. }
  assert (state n no_hole f (next_cell n) = Raw) as HR by (apply state_raw; right; lia).
  destruct (decide (n = m_storage_size v /\ n mod B = 0)) as [[Ef Em]|Hnf].
  { destruct (grow_holds kind n f v x Hv Ef Hn) as (v' & Eg & Hv').
    unfold next_cell, push_back. rewrite (h_end _ _ _ _ _ Hv), (skipped_mod B HB), Em. cbn [negb Z.eqb].
    rewrite (proj2 (Z.eqb_eq n (m_storage_size v)) Ef). replace (n + 1 + 1) with (n + 2) by lia. eauto. }
  assert (next_cell n < m_storage_size v) as Hlt.
  { unfold next_cell. destruct (Z.eqb_spec (n mod B) 0); [|lia].
    destruct Hroom as [|]; [|lia]. by destruct Hnf. }
  assert (ptr v = Ok (layout (m_storage_size v) (state n no_hole f))) as Ep.
  { unfold ptr. rewrite (h_mem _ _ _ _ _ Hv). destruct (Z.eqb_spec (m_storage_size v) 0); [lia|done]. }
  eexists. split; [|apply (Hh _ ltac:(lia) Hlt eq_refl)].
  unfold push_back. rewrite (h_end _ _ _ _ _ Hv), (skipped_mod B HB), Ep. unfold next_cell in *.
  destruct (Z.eqb_spec (n mod B) 0) as [Em|Em]; cbn [negb].
  - destruct (Z.eqb_spec n (m_storage_size v)); [by destruct Hnf|].
    rewrite (u64_small (n + 1)) by lia. cbn [res_bind]. rewrite construct_layout by (done || lia).
    cbn [res_bind]. by rewrite u64_small by lia.
  - cbn [res_bind]. rewrite construct_layout by (done || lia). cbn [res_bind]. by rewrite u64_small by lia.
Qed.

(** ** [pop_back] and the destructor *)

Lemma pop_back_holds n h f v :
  holds n h f v -> n <> 0 -> n < 2 ^ 64 ->
  exists v', pop_back B v = Ok v' /\ holds (prev_end n) h f v'.
Proof using HB.
  intros Hv Hn0 Hn. destruct (last_cell B HB _ _ _ _ Hv Hn0) as (H0 & Hc & H1).
  pose proof (holds_lt B _ _ _ _ (n - 1) Hv).
  unfold pop_back. rewrite (h_end _ _ _ _ _ Hv), ASSERT_true by (by apply negb_true_iff, Z.eqb_neq).
  cbn [res_bind]. unfold ptr. rewrite (holds_mem B n h f v) by done. cbn [res_bind].
  rewrite (u64_small (n - 1)) by lia. unfold destroy_at. rewrite mem_layout by lia. cbn [res_bind].
  rewrite state_object by (done || lia). cbn [res_bind].
  fold (block_offset B (n - 1)). rewrite (block_offset_mod B HB).
  rewrite layout_insert by lia. eexists. split; [reflexivity|].
  assert ((if (n - 1) mod B =? 1 then u64 (n - 1 - 1) else n - 1) = prev_end n) as ->.
  { unfold prev_end. destruct (_ =? 1); [|done]. rewrite u64_small by lia. lia. }
  assert (prev_end n <= n - 1) as Hp by (unfold prev_end; destruct (_ =? 1); lia).
  split; cbn [m_end m_ptr m_storage_size]; [done|by apply prev_end_ok|lia|apply Hv|].
  destruct (Z.eqb_spec (m_storage_size v) 0); [lia|]. f_equal. apply layout_ext. intros j Hj.
  unfold upd. destruct (Z.eqb_spec j (n - 1)) as [->|]; [by rewrite state_raw by (right; lia)|].
  unfold PrioVector.state. destruct (Z.ltb_spec 0 (j mod B)) as [Hcj|]; [|done]. cbn [andb].
  destruct (Z.ltb_spec j n), (Z.ltb_spec j (prev_end n)); try lia; [done| |done].
  exfalso. unfold prev_end in *. destruct (Z.eqb_spec ((n - 1) mod B) 1) as [E1|]; [|lia].
  destruct (block_split B HB (n - 1)) as [Es _]. assert (j = (n - 1) / B * B + 0) as -> by lia.
  pose proof (block_facts B HB). destruct (block_divmod B HB ((n - 1) / B) 0) as [_ Ez]; lia.
Qed.

Lemma layout_const {A} (S : Z) (x : A) : layout S (fun _ => x) = replicate (Z.to_nat S) x.
Proof using.
  unfold layout. rewrite <- (length_seqZ 0 S). induction (seqZ 0 S) as [|j l IH]; [done|].
  cbn. by rewrite <- IH.
Qed.

(** [~skip_vector] finds an object in every cell in use and leaves none. *)
Lemma delete_holds kind n h f v :
  holds n h f v ->
  exists m, delete_skip_vector B kind v = Ok m /\
    (kind <> pod -> m = replicate (Z.to_nat (m_storage_size v)) Raw).
Proof using HB.
  intros Hv. unfold delete_skip_vector. destruct (h_end_ok _ _ _ _ _ Hv) as [H0 _].
  pose proof (h_room _ _ _ _ _ Hv). rewrite (h_mem _ _ _ _ _ Hv), (h_end _ _ _ _ _ Hv).
  destruct (Z.eqb_spec (m_storage_size v) 0) as [->|]; [by exists []|].
  assert (destroy_loop B (Z.to_nat n) (layout (m_storage_size v) (state n h f)) =
            Ok (replicate (Z.to_nat (m_storage_size v)) Raw)) as E.
  { rewrite destroy_loop_ok; [|lia|].
    2:{ intros j Hj Hc E. pose proof (state_object B n h f j 0 1 Hc ltac:(lia)) as Eo. by rewrite E in Eo. }
    f_equal. rewrite <- (layout_const (m_storage_size v)). apply layout_ext. intros j _.
    unfold PrioVector.state. rewrite Z2Nat.id by lia. destruct (0 <? j mod B), (j <? n); done. }
  destruct kind; [by eexists|by eexists..].
Qed.
End Grow.
