(* ===== verification/PrioSpec.v ===== *)
(** * The B-heap queue keeps its order

    A queue that ends at [n] holds a pair of a key and a payload in each cell below
    [n]; [items h n] lists them.  A queue without payloads is one whose second
    components are in no memory. *)

From S2P Require Import Prelude Time HeapTheory PrioQueue PrioAddress PrioVector PrioGrow.

(** ** Lists of cells *)

Definition indices (B n : Z) : list Z := filter (is_cell B) (seqZ 0 n).
Definition items {A} (B : Z) (h : Z -> A) (n : Z) : list A := h <$> indices B n.

Lemma indices_elem B n i : i ∈ indices B n <-> is_cell B i /\ 0 <= i < n.
Proof. unfold indices. rewrite list_elem_of_filter, elem_of_seqZ. by rewrite Z.add_0_l. Qed.

Lemma NoDup_indices B n : NoDup (indices B n).
Proof. apply NoDup_filter, NoDup_seqZ. Qed.

Lemma indices_S B n :
  0 <= n -> indices B (n + 1) = indices B n ++ (if decide (is_cell B n) then [n] else []).
Proof.
  intros Hn. unfold indices. rewrite seqZ_app by lia. rewrite filter_app. f_equal.
Qed.

Lemma fmap_swap_perm {A} (h : Z -> A) a b l :
  NoDup l -> a ∈ l -> b ∈ l -> swapf h a b <$> l ≡ₚ h <$> l.
Proof.
  intros Hl Ha Hb. destruct (decide (a = b)) as [->|Hab].
  { erewrite (list_fmap_ext _ h); [done|]. intros k i _. unfold swapf.
    by destruct (Z.eqb_spec i b) as [->|]. }
  apply elem_of_Permutation in Ha as [l1 E1]. rewrite E1 in Hb, Hl |- *.
  apply elem_of_cons in Hb as [|Hb]; [congruence|].
  apply elem_of_Permutation in Hb as [l2 E2]. rewrite E2 in Hl |- *. cbn.
  rewrite swapf_l, swapf_r. apply NoDup_cons in Hl as [Ha Hl]. apply NoDup_cons in Hl as [Hb _].
  erewrite (list_fmap_ext (swapf h a b) h l2); [apply Permutation_swap|].
  intros k i Hi. apply list_elem_of_lookup_2 in Hi. rewrite swapf_ne; [done|..]; intros ->;
    [apply Ha; by right|done].
Qed.

Section Spec.
Context {K V : Type} `{TimeOrder K} (B : Z) (HB : block_ok B) (kkind vkind : move_kind).
Notation queue := (prio_queue K V).
Notation cellB := (is_cell B).
Notation heap_ok := (heap_ok (K:=K) (is_cell B) 1 (par B)).
Notation up_inv := (up_inv (K:=K) (is_cell B) 1 (par B)).
Notation down_inv := (down_inv (K:=K) (is_cell B) 1 (par B)).

(** The keys of a family of pairs. *)
Notation keyf h := (fun i : Z => fst ((h : Z -> K * V) i)).
Notation valf h := (fun i : Z => snd ((h : Z -> K * V) i)).

(** Whether the queue has payloads, and a payload as the operations pass it. *)
Definition pay (q : queue) (x : V) : option V :=
  match m_payload q with Some _ => Some x | None => None end.
Definition same_kind (q q' : queue) : Prop := forall x, pay q' x = pay q x.

(** [kh] and [vh] are the holes of the keys and of the payloads. *)
Record repr (n : Z) (kh vh : Z -> bool) (h : Z -> K * V) (q : queue) : Prop := mkRepr {
  r_keys : holds B n kh (keyf h) (m_storage q);
  r_pay : match m_payload q with Some v => holds B n vh (valf h) v | None => True end
}.

(** No hole in the cells below [m]. *)
Definition solid (m : Z) (kh : Z -> bool) : Prop := forall i, 0 <= i < m -> kh i = false.
Definition solid_but (m b : Z) (kh : Z -> bool) : Prop :=
  forall i, 0 <= i < m -> i <> b -> kh i = false.

Lemma repr_ext n kh vh h kh' vh' h' q :
  (forall i, cellB i -> 0 <= i < n -> kh' i = kh i /\ vh' i = vh i /\ h' i = h i) ->
  repr n kh vh h q -> repr n kh' vh' h' q.
Proof.
  intros E [Hk Hp]. split.
  - apply (holds_ext B n kh (keyf h)); [|done]. intros i Hc Hi.
    destruct (E i Hc Hi) as (E1 & _ & E3). by rewrite E3.
  - destruct (m_payload q); [|done]. apply (holds_ext B n vh (valf h)); [|done]. intros i Hc Hi.
    destruct (E i Hc Hi) as (_ & E2 & E3). by rewrite E3.
Qed.

Lemma same_kind_refl q : same_kind q q.
Proof using. done. Qed.
Lemma same_kind_trans q1 q2 q3 : same_kind q1 q2 -> same_kind q2 q3 -> same_kind q1 q3.
Proof using. intros E1 E2 x. by rewrite E2, E1. Qed.

Lemma get_key n kh vh h q i :
  repr n kh vh h q -> 0 <= i < n -> cellB i -> kh i = false ->
  get B (m_storage q) i = Ok (fst (h i)).
Proof using HB. intros [Hk _] Hi Hc Hh. by apply (get_holds B HB n kh (keyf h)). Qed.

Lemma move_node_ok n kh vh h q a b :
  repr n kh vh h q -> 0 <= a < n -> 0 <= b < n -> cellB a -> cellB b -> a <> b ->
  kh a = false -> vh a = false ->
  exists q', move_node B q a b = Ok q' /\
    repr n (upd (upd kh a true) b false) (upd (upd vh a true) b false) (upd h b (h a)) q' /\
    same_kind q q'.
Proof using HB.
  intros [Hk Hp] Ha Hb Hca Hcb Hab Hka Hva. unfold move_node.
  destruct (take_holds B HB n kh (keyf h) _ a Hk Ha Hca Hka) as (s1 & E1 & Hs1). step_ok E1.
  destruct (put_holds B HB n _ _ s1 b (fst (h a)) Hs1 Hb Hcb) as (s2 & E2 & Hs2). step_ok E2.
  assert (forall {W} (g : K * V -> W) i, upd (fun i => g (h i)) b (g (h a)) i = g (upd h b (h a) i)) as Eu.
  { intros W g i. unfold upd. by destruct (i =? b). }
  unfold p_move. unfold same_kind, pay. destruct (m_payload q) as [v|].
  - destruct (take_holds B HB n vh (valf h) _ a Hp Ha Hca Hva) as (v1 & E3 & Hv1). step_ok E3.
    destruct (put_holds B HB n _ _ v1 b (snd (h a)) Hv1 Hb Hcb) as (v2 & E4 & Hv2). step_ok E4.
    eexists. split; [reflexivity|]. split; [|done]. split; cbn [m_storage m_payload].
    + eapply holds_ext; [|exact Hs2]. intros i _ _. split; [done|]. intros _. symmetry. apply (Eu _ fst).
    + eapply holds_ext; [|exact Hv2]. intros i _ _. split; [done|]. intros _. symmetry. apply (Eu _ snd).
  - cbn [res_bind]. eexists. split; [reflexivity|]. split; [|done]. split; [|done]. cbn [m_storage].
    eapply holds_ext; [|exact Hs2]. intros i _ _. split; [done|]. intros _. symmetry. apply (Eu _ fst).
Qed.

Lemma store_node_ok n kh vh h q b (x : K * V) :
  repr n kh vh h q -> 0 <= b < n -> cellB b ->
  exists q', store_node B q b (fst x) (pay q (snd x)) = Ok q' /\
    repr n (upd kh b false) (upd vh b false) (upd h b x) q' /\ same_kind q q'.
Proof using HB.
  intros [Hk Hp] Hb Hcb. unfold store_node.
  destruct (put_holds B HB n _ _ _ b (fst x) Hk Hb Hcb) as (s2 & E2 & Hs2). step_ok E2.
  assert (forall {W} (g : K * V -> W) i, upd (fun i => g (h i)) b (g x) i = g (upd h b x i)) as Eu.
  { intros W g i. unfold upd. by destruct (i =? b). }
  unfold p_store, same_kind, pay. destruct (m_payload q) as [v|].
  - destruct (put_holds B HB n _ _ v b (snd x) Hp Hb Hcb) as (v2 & E4 & Hv2). step_ok E4.
    eexists. split; [reflexivity|]. split; [|done]. split; cbn [m_storage m_payload].
    + eapply holds_ext; [|exact Hs2]. intros i _ _. split; [done|]. intros _. symmetry. apply (Eu _ fst).
    + eapply holds_ext; [|exact Hv2]. intros i _ _. split; [done|]. intros _. symmetry. apply (Eu _ snd).
  - cbn [res_bind]. eexists. split; [reflexivity|]. split; [|done]. split; [|done]. cbn [m_storage].
    eapply holds_ext; [|exact Hs2]. intros i _ _. split; [done|]. intros _. symmetry. apply (Eu _ fst).
Qed.

(** ** The hole rises *)

(** The heap has been repaired below [m]: the same items, nothing moved out. *)
Definition repaired (n m : Z) (kh vh : Z -> bool) (h : Z -> K * V) (q : queue) (r : res queue) : Prop :=
  exists q' kh' vh' h', r = Ok q' /\ repr n kh' vh' h' q' /\ same_kind q q' /\
    solid m kh' /\ solid m vh' /\ (forall i, m <= i -> h' i = h i) /\
    heap_ok (keyf h') m /\ items B h' m ≡ₚ items B h m.

Lemma rise_ok fuel n m kh vh h q b x :
  repr n kh vh h q -> 1 <= b < m -> m <= n -> n < 2 ^ 63 -> cellB b ->
  solid_but m b kh -> solid_but m b vh ->
  up_inv (keyf (upd h b x)) m b -> (Z.to_nat b < fuel)%nat ->
  repaired n m kh vh (upd h b x) q (rise B ltb fuel q b (fst x) (pay q (snd x))).
Proof using HB.
  revert kh vh h q b. induction fuel as [|fuel IH]; intros kh vh h q b Hq Hb Hm Hn Hc Hk Hv Hu Hf; [lia|].
  assert (heap_ok (keyf (upd h b x)) m ->
          repaired n m kh vh (upd h b x) q (store_node B q b (fst x) (pay q (snd x)))) as Hdone.
  { intros Hh. destruct (store_node_ok n kh vh h q b x Hq ltac:(lia) Hc) as (q' & E & Hq' & Hs).
    eexists q', _, _, _. split; [done|]. split; [done|]. split; [done|].
    split; [|split; [|done]]; intros i Hi; unfold upd; destruct (Z.eqb_spec i b); try done;
      [by apply Hk|by apply Hv]. }
  cbn [rise]. destruct (Z.eqb_spec b 1) as [->|Hb1].
  { apply Hdone. apply (up_done _ _ _ _ _ _ Hu). lia. }
  pose proof (par_lt B HB b ltac:(lia) Hc) as Hp. pose proof (par_cell B HB b ltac:(lia) Hc) as Hcp.
  rewrite (parent_of_par B HB) by (done || lia).
  rewrite (get_key n kh vh h) by (done || lia || (apply Hk; lia)). cbn [res_bind].
  destruct (ltb (fst x) (fst (h (par B b)))) eqn:Hlt; cbn [negb].
  - destruct (move_node_ok n kh vh h q (par B b) b) as (q1 & E1 & Hq1 & Hs1);
      [done|lia|lia|done|done|lia|apply Hk; lia|apply Hv; lia|]. step_ok E1.
    assert (forall i, swapf (upd h b x) (par B b) b i = upd (upd h b (h (par B b))) (par B b) x i) as Esw.
    { intros i. unfold swapf, upd. destruct (Z.eqb_spec i (par B b)); [by rewrite Z.eqb_refl|].
      destruct (Z.eqb_spec i b); [|done]. by destruct (Z.eqb_spec (par B b) b); [lia|]. }
    destruct (IH _ _ _ q1 (par B b) Hq1) as (q' & kh' & vh' & h' & E & Hr & Hs & Hk' & Hv' & Ho & Hh & Hi).
    + lia.
    + done.
    + done.
    + done.
    + intros i Hi Hne. unfold upd. destruct (Z.eqb_spec i b); [done|].
      destruct (Z.eqb_spec i (par B b)); [done|]. by apply Hk.
    + intros i Hi Hne. unfold upd. destruct (Z.eqb_spec i b); [done|].
      destruct (Z.eqb_spec i (par B b)); [done|]. by apply Hv.
    + eapply up_inv_pw; [|apply (up_step _ _ _ (par_lt B HB) (par_cell B HB) _ _ _ Hu); [lia|done|]].
      * intros i. cbn. rewrite <- Esw. unfold swapf. by repeat destruct (_ =? _).
      * cbn. rewrite upd_eq, upd_ne by lia. done.
    + lia.
    + rewrite <- (Hs1 (snd x)). exists q', kh', vh', h'. rewrite E.
      split; [done|]. split; [done|]. split; [by eapply same_kind_trans|].
      split; [done|]. split; [done|]. split; [|split; [done|]].
      * intros i Hge. rewrite Ho by done. rewrite (upd_ne _ (par B b)) by lia.
        by rewrite !upd_ne by lia.
      * rewrite Hi. unfold items. rewrite <- (fmap_swap_perm (upd h b x) (par B b) b).
        -- erewrite list_fmap_ext; [done|]. intros k i _. symmetry. apply Esw.
        -- apply NoDup_indices.
        -- apply indices_elem. split; [done|lia].
        -- apply indices_elem. split; [done|lia].
  - apply Hdone. apply (up_done _ _ _ _ _ _ Hu). intros _. cbn.
    by rewrite upd_eq, upd_ne by lia.
Qed.

(** ** The hole sinks *)

Lemma addressable_small n : 0 <= n < 2 ^ 31 -> addressable B n.
Proof using HB.
  intros Hn. unfold addressable. pose proof (block_facts B HB) as (E2 & HH & HM).
  assert ((n + B) * B <= 2 ^ 32 * 2 ^ 31) by (apply Z.mul_le_mono_nonneg; lia). lia.
Qed.

(** The child both loops go down to, the children from [bnd] on left out. *)
Lemma pick_child n kh vh h q idx bnd :
  repr n kh vh h q -> n < 2 ^ 31 -> 1 <= idx -> cellB idx -> lchild B idx < n -> bnd <= n ->
  solid_but n idx kh ->
  let lc := lchild B idx in
  let rc := u64 (lc + sibling_offset B idx) in
  exists b : bool,
    (if rc <? bnd then
       let! l := get B (m_storage q) lc in
       let! r := get B (m_storage q) rc in Ok (negb (ltb l r))
     else Ok false) = Ok b /\
    let next := if b then rc else lc in
    idx < next < n /\ cellB next /\ par B next = idx /\
    (forall i, 1 < i < bnd -> cellB i -> par B i = idx -> le (fst (h next)) (fst (h i))).
Proof using HB.
  intros Hq Hn Hi Hc Hl Hb Hk lc rc. destruct (lchild_facts B HB idx ltac:(lia) Hc) as (H1 & H2 & H3 & H4 & H5).
  assert (rc = lchild B idx + sibling B idx) as Er.
  { unfold rc, lc. rewrite (sibling_offset_sibling B HB) by lia. apply u64_small.
    pose proof (rchild_bound B HB idx ltac:(lia)). pose proof (lchild_sibling_pos B HB idx).
    pose proof (addressable_small idx ltac:(lia)) as Ha. unfold addressable in Ha. lia. }
  pose proof (lchild_sibling_pos B HB idx). fold lc in H1, H2, H3, H4, H5, Er, Hl.
  assert (forall i, 1 < i -> cellB i -> par B i = idx -> i = lc \/ i = rc) as Hch.
  { intros i Hi1 Hci Ei. destruct (par_children B HB i Hi1 Hci) as [E|E]; rewrite Ei in E; [by left|right].
    fold lc in E. lia. }
  rewrite <- Er in H3, H5. destruct (Z.ltb_spec rc bnd) as [Hr|Hr].
  - rewrite (get_key n kh vh h q lc) by (done || lia || (apply Hk; lia)). cbn [res_bind].
    rewrite (get_key n kh vh h q rc) by (done || lia || (apply Hk; lia)). cbn [res_bind].
    eexists. split; [reflexivity|]. destruct (ltb (fst (h lc)) (fst (h rc))) eqn:Hlt; cbn [negb].
    + split; [lia|]. split; [done|]. split; [done|].
      intros i Hi1 Hci Ei. destruct (Hch i ltac:(lia) Hci Ei) as [-> | ->]; [reflexivity|by apply ltb_le].
    + split; [lia|]. split; [done|]. split; [done|].
      intros i Hi1 Hci Ei. destruct (Hch i ltac:(lia) Hci Ei) as [-> | ->]; [done|reflexivity].
  - exists false. split; [done|]. split; [lia|]. split; [done|]. split; [done|].
    intros i Hi1 Hci Ei. destruct (Hch i ltac:(lia) Hci Ei) as [-> | ->]; [reflexivity|lia].
Qed.

(** A move of [h next] into [idx], in terms of what [idx] stands for. *)
Lemma moved_swap (h : Z -> K * V) idx next X i :
  idx <> next -> swapf (upd h idx X) idx next i = upd (upd h idx (h next)) next X i.
Proof using.
  intros Hne. unfold swapf, upd. destruct (Z.eqb_spec i next) as [->|].
  - destruct (Z.eqb_spec next idx); [lia|]. by rewrite Z.eqb_refl.
  - destruct (Z.eqb_spec i idx) as [->|]; [|done]. by destruct (Z.eqb_spec next idx); [lia|].
Qed.

Lemma moved_items n (h : Z -> K * V) idx next X :
  0 <= idx < n -> cellB idx -> 0 <= next < n -> cellB next -> idx <> next ->
  items B (upd (upd h idx (h next)) next X) n ≡ₚ items B (upd h idx X) n.
Proof using.
  intros Hi Hc Hn Hcn Hne. unfold items.
  rewrite <- (fmap_swap_perm (upd h idx X) idx next) by (apply NoDup_indices || by apply indices_elem).
  erewrite list_fmap_ext; [done|]. intros k i _. symmetry. by apply moved_swap.
Qed.

Lemma moved_solid n idx next kh :
  solid_but n idx kh -> solid_but n next (upd (upd kh next true) idx false).
Proof using.
  intros Hk i Hi Hne. unfold upd. destruct (Z.eqb_spec i idx); [done|].
  destruct (Z.eqb_spec i next); [done|]. by apply Hk.
Qed.

(** [pop]'s descent: the hole ends in a cell without children; what the hole stands
    for, [X], is arbitrary. *)
Definition sunk (n : Z) (h : Z -> K * V) (q : queue) (idx : Z) (r : res (queue * Z)) : Prop :=
  exists q' idx' kh' vh' h', r = Ok (q', idx') /\ repr n kh' vh' h' q' /\ same_kind q q' /\
    idx <= idx' < n /\ cellB idx' /\ n <= lchild B idx' /\
    solid_but n idx' kh' /\ solid_but n idx' vh' /\ heap_ok (keyf h') (n - 1) /\
    forall X, items B (upd h' idx' X) n ≡ₚ items B (upd h idx X) n.

Lemma sink_ok fuel n kh vh h q idx :
  repr n kh vh h q -> n < 2 ^ 31 -> 1 <= idx < n -> cellB idx -> solid_but n idx kh -> solid_but n idx vh ->
  heap_ok (keyf h) (n - 1) ->
  (forall i, 1 < i < n -> cellB i -> idx <= par B i -> le (fst (h (par B i))) (fst (h i))) ->
  (1 < idx -> le (fst (h (par B idx))) (fst (h idx))) ->
  (Z.to_nat (n - idx) < fuel)%nat -> sunk n h q idx (sink B ltb fuel q (n - 1) idx).
Proof using HB.
  revert kh vh h q idx. induction fuel as [|fuel IH]; intros kh vh h q idx Hq Hn Hi Hc Hk Hv Hh HJ HP Hf; [lia|].
  cbn [sink]. rewrite (child_of_lchild B HB) by (lia || (apply addressable_small; lia)). cbn [res_bind].
  destruct (Z.ltb_spec (n - 1) (lchild B idx)) as [Hl|Hl].
  { exists q, idx, kh, vh, h. split_and!; try done; lia. }
  destruct (pick_child n kh vh h q idx (n - 1) Hq Hn ltac:(lia) Hc ltac:(lia) ltac:(lia) Hk)
    as (b & Eb & Hnx & Hcn & Hpn & Hmin).
  rewrite Eb. cbn [res_bind]. set (next := if b then _ else _) in *.
  destruct (move_node_ok n kh vh h q next idx) as (q1 & E1 & Hq1 & Hs1);
    [done|lia|lia|done|done|lia|apply Hk; lia|apply Hv; lia|]. step_ok E1.
  assert (forall i, i <> idx -> upd h idx (h next) i = h i) as Hne by (intros; by apply upd_ne).
  destruct (IH _ _ (upd h idx (h next)) q1 next Hq1) as
    (q' & idx' & kh' & vh' & h' & E & Hr & Hs & Hii & Hci & Hli & Hk' & Hv' & Hh' & Hit).
  - done.
  - lia.
  - done.
  - by apply moved_solid.
  - by apply moved_solid.
  - assert (next < n - 1 \/ next = n - 1) as [Hlt|Elast] by lia.
    + eapply heap_ok_pw; [|apply (move_up_heap _ _ _ (par_lt B HB) (keyf h) (n - 1) idx next);
        [done|lia|done|done|exact Hmin|]].
      * intros i. cbn. unfold upd. by destruct (i =? idx).
      * intros H1 _. cbn. transitivity (fst (h idx)); [|rewrite <- Hpn; apply HJ; [lia|done|lia]].
        by apply HP.
    + intros i Hi1 Hci. rewrite <- Elast in Hi1. cbn.
      pose proof (par_lt B HB i ltac:(lia) Hci).
      destruct (decide (par B i = idx)) as [Ei|Ei].
      * pose proof (Hmin i ltac:(lia) Hci Ei) as Hm. rewrite Ei, upd_eq.
        destruct (decide (i = idx)) as [->|]; [lia|]. by rewrite upd_ne.
      * rewrite (Hne (par B i)) by done. destruct (decide (i = idx)) as [->|].
        -- rewrite upd_eq. transitivity (fst (h idx)); [|rewrite <- Hpn at 1; apply HJ; [lia|done|lia]].
           apply HP. lia.
        -- rewrite Hne by done. apply Hh; [lia|done].
  - intros i Hi1 Hci Hp. pose proof (par_lt B HB i ltac:(lia) Hci). rewrite !Hne by lia. apply HJ; [lia|done|lia].
  - intros _. rewrite Hpn, upd_eq. by rewrite Hne by lia.
  - lia.
  - rewrite E. exists q', idx', kh', vh', h'. split; [done|]. split; [done|].
    split; [by eapply same_kind_trans|]. split; [lia|]. split; [done|]. split; [done|].
    split; [done|]. split; [done|]. split; [done|].
    intros X. rewrite Hit. apply moved_items; done || lia.
Qed.

(** [reschedule_top]'s descent: the hole ends where [t] belongs. *)
Lemma sink_to_ok fuel n kh vh h q idx (t : K) (v : V) :
  repr n kh vh h q -> n < 2 ^ 31 -> 1 <= idx < n -> cellB idx -> solid_but n idx kh -> solid_but n idx vh ->
  down_inv (keyf (upd h idx (t, v))) n idx -> (Z.to_nat (n - idx) < fuel)%nat ->
  exists q' idx' kh' vh' h', sink_to B ltb fuel q (n - 1) idx t = Ok (q', idx') /\
    repr n kh' vh' h' q' /\ same_kind q q' /\ 1 <= idx' < n /\ cellB idx' /\
    solid_but n idx' kh' /\ solid_but n idx' vh' /\ heap_ok (keyf (upd h' idx' (t, v))) n /\
    items B (upd h' idx' (t, v)) n ≡ₚ items B (upd h idx (t, v)) n.
Proof using HB.
  revert kh vh h q idx. induction fuel as [|fuel IH]; intros kh vh h q idx Hq Hn Hi Hc Hk Hv Hd Hf; [lia|].
  assert (forall i, i <> idx -> upd h idx (t, v) i = h i) as Hne by (intros; by apply upd_ne).
  assert ((forall i, 1 < i < n -> cellB i -> par B i = idx -> le t (fst (h i))) ->
    heap_ok (keyf (upd h idx (t, v))) n) as Hstop.
  { intros Hch. apply (down_done _ _ _ _ _ _ Hd). intros i Hi1 Hci Ei. cbn.
    pose proof (par_lt B HB i ltac:(lia) Hci). rewrite upd_eq, Hne by lia. by apply Hch. }
  cbn [sink_to]. rewrite (child_of_lchild B HB) by (lia || (apply addressable_small; lia)). cbn [res_bind].
  destruct (Z.ltb_spec (n - 1) (lchild B idx)) as [Hl|Hl].
  { exists q, idx, kh, vh, h. split_and!; try done; try lia. apply Hstop.
    intros i Hi1 Hci Ei. pose proof (lchild_sibling_pos B HB idx).
    destruct (par_children B HB i ltac:(lia) Hci) as [E|E]; rewrite Ei in E; lia. }
  destruct (pick_child n kh vh h q idx n Hq Hn ltac:(lia) Hc ltac:(lia) ltac:(lia) Hk)
    as (b & Eb & Hnx & Hcn & Hpn & Hmin).
  replace (u64 (lchild B idx + sibling_offset B idx) <=? n - 1)
    with (u64 (lchild B idx + sibling_offset B idx) <? n)
    by (apply Bool.eq_iff_eq_true; rewrite Z.ltb_lt, Z.leb_le; lia).
  rewrite Eb. cbn [res_bind]. set (next := if b then _ else _) in *.
  rewrite (get_key n kh vh h) by (done || lia || (apply Hk; lia)). cbn [res_bind].
  destruct (ltb t (fst (h next))) eqn:Hlt.
  { exists q, idx, kh, vh, h. split_and!; try done; try lia. apply Hstop. intros i Hi1 Hci Ei.
    transitivity (fst (h next)); [by apply ltb_le|by apply Hmin]. }
  destruct (move_node_ok n kh vh h q next idx) as (q1 & E1 & Hq1 & Hs1);
    [done|lia|lia|done|done|lia|apply Hk; lia|apply Hv; lia|]. step_ok E1.
  destruct (IH _ _ (upd h idx (h next)) q1 next Hq1) as
    (q' & idx' & kh' & vh' & h' & E & Hr & Hs & Hii & Hci & Hk' & Hv' & Hh' & Hit).
  - done.
  - lia.
  - done.
  - by apply moved_solid.
  - by apply moved_solid.
  - eapply down_inv_pw; [|apply (down_step _ _ _ (par_lt B HB) _ _ _ next Hd); try done; try lia].
    + intros i. cbn. rewrite <- moved_swap by lia. unfold swapf. by repeat destruct (_ =? _).
    + cbn. by rewrite upd_eq, Hne by lia.
    + intros i Hi1 Hci Ei. cbn. pose proof (par_lt B HB i ltac:(lia) Hci). rewrite !Hne by lia. by apply Hmin.
  - lia.
  - rewrite E. exists q', idx', kh', vh', h'. split; [done|]. split; [done|].
    split; [by eapply same_kind_trans|]. split; [lia|]. split; [done|]. split; [done|].
    split; [done|]. split; [done|]. rewrite Hit. apply moved_items; done || lia.
Qed.

(** ** The operations *)

(** [q] is a valid queue of the items [l]. *)
Definition bheap (q : queue) (l : list (K * V)) : Prop :=
  exists n h, repr n no_hole no_hole h q /\ n < 2 ^ 31 /\ heap_ok (keyf h) n /\ l ≡ₚ items B h n.

Lemma items_snoc {A} (h : Z -> A) n : 0 <= n -> cellB n -> items B h (n + 1) = items B h n ++ [h n].
Proof using.
  intros Hn Hc. unfold items. rewrite indices_S, decide_True by done. by rewrite fmap_app.
Qed.

Lemma items_skip {A} (h : Z -> A) n : 0 <= n -> ~ cellB n -> items B h (n + 1) = items B h n.
Proof using.
  intros Hn Hc. unfold items. rewrite indices_S, decide_False by done. by rewrite app_nil_r.
Qed.

Lemma items_ext {A} (g h : Z -> A) n : (forall i, 0 <= i < n -> g i = h i) -> items B g n = items B h n.
Proof using.
  intros E. apply list_fmap_ext. intros k i Hi. apply list_elem_of_lookup_2, indices_elem in Hi.
  apply E, Hi.
Qed.

(** One cell apart, the items do not depend on it. *)
Lemma items_upd n (h : Z -> K * V) b :
  0 <= b < n -> cellB b -> exists rest, forall X, items B (upd h b X) n ≡ₚ X :: rest.
Proof using.
  intros Hb Hc. assert (b ∈ indices B n) as Hin by (by apply indices_elem).
  apply elem_of_Permutation in Hin as [l Hl]. exists (h <$> l). intros X. unfold items.
  pose proof (NoDup_indices B n) as Hd. rewrite Hl in Hd |- *. cbn. rewrite upd_eq.
  apply NoDup_cons in Hd as [Hd _]. erewrite list_fmap_ext; [done|].
  intros k i Hi. apply list_elem_of_lookup_2 in Hi. rewrite upd_ne; [done|]. by intros ->.
Qed.

Lemma items_next {A} (h : Z -> A) n :
  0 <= n -> items B h (next_cell B n) = items B h n.
Proof using HB.
  intros Hn. unfold next_cell. destruct (Z.eqb_spec (n mod B) 0); [|done]. apply items_skip; [done|].
  unfold is_cell. lia.
Qed.

Lemma items_prev {A} (h : Z -> A) n : 0 < n - 1 -> cellB (n - 1) -> items B h (prev_end B n) = items B h (n - 1).
Proof using HB.
  intros Hn Hc. unfold prev_end. destruct (Z.eqb_spec ((n - 1) mod B) 1) as [E|E]; [|done].
  replace (n - 1) with (n - 2 + 1) by lia. symmetry. apply items_skip; [lia|].
  unfold is_cell. pose proof (block_facts B HB). destruct (block_split B HB (n - 1)) as [Es _].
  replace (n - 2) with ((n - 1) / B * B + 0) by lia.
  destruct (block_divmod B HB ((n - 1) / B) 0) as [_ Ez]; lia.
Qed.
End Spec.
