(* ===== verification/PrioProps.v ===== *)
(** * The B-heap queue is a priority queue

    [push], [top], [pop], [reschedule_top], [size] and the destructor on a valid queue,
    in terms of the items it holds. *)

From S2P Require Import Prelude Time HeapTheory PrioQueue PrioAddress PrioVector PrioGrow PrioSpec.

Section Ops.
Context {K V : Type} `{TimeOrder K} (B : Z) (HB : block_ok B) (kkind vkind : move_kind).
Notation queue := (prio_queue K V).
Notation cellB := (is_cell B).
Notation heap_ok := (heap_ok (K:=K) (is_cell B) 1 (par B)).
Notation keyf h := (fun i : Z => fst ((h : Z -> K * V) i)).
Notation valf h := (fun i : Z => snd ((h : Z -> K * V) i)).

(** The root's key is least. *)
Lemma first_least n (h : Z -> K * V) x :
  heap_ok (keyf h) n -> x ∈ items B h n -> le (fst (h 1)) (fst x).
Proof using HB.
  intros Hh Hx. apply list_elem_of_fmap in Hx as (i & -> & Hi). apply indices_elem in Hi as [Hc Hi].
  assert (i <> 0).
  { intros ->. unfold is_cell in Hc. rewrite Z.mod_0_l in Hc; [lia|]. pose proof (block_facts B HB). lia. }
  apply (root_least (is_cell B) 1 (par B) (par_lt B HB) (par_cell B HB) (keyf h) n i); [done|lia|done].
Qed.

Lemma cell_1 : cellB 1.
Proof using HB. unfold is_cell. pose proof (block_facts B HB). rewrite Z.mod_small; lia. Qed.

Lemma no_cell_0 : ~ cellB 0.
Proof using HB. unfold is_cell. pose proof (block_facts B HB). rewrite Z.mod_0_l; lia. Qed.

(** A queue that is not empty has an element in cell 1. *)
Lemma repr_end n kh vh (h : Z -> K * V) (q : queue) : repr B n kh vh h q -> end_ok B n.
Proof using. intros [Hk _]. apply (h_end_ok _ _ _ _ _ Hk). Qed.

Lemma end_pos n : end_ok B n -> n <> 0 -> 1 < n /\ cellB (n - 1).
Proof using HB.
  intros [H0 [H1|H1]] Hn; [lia|]. split; [|done].
  destruct (decide (n = 1)) as [->|]; [|lia]. destruct (no_cell_0 H1).
Qed.

Lemma items_nil n (h : Z -> K * V) : end_ok B n -> items B h n = [] <-> n = 0.
Proof using HB.
  intros He. split; [|by intros ->]. intros E. destruct (decide (n = 0)) as [|Hn]; [done|].
  destruct (end_pos n He Hn) as [Hn1 _].
  assert (h 1 ∈ items B h n) as Hin; [|rewrite E in Hin; by apply not_elem_of_nil in Hin].
  apply list_elem_of_fmap. exists 1. split; [done|]. apply indices_elem. split; [apply cell_1|lia].
Qed.

Lemma empty_end n kh vh (h : Z -> K * V) (q : queue) : repr B n kh vh h q -> empty q = (n =? 0).
Proof using. intros [Hk _]. unfold empty, empty_sv, size_sv. by rewrite (h_end _ _ _ _ _ Hk). Qed.

(** ** [push] *)

Lemma push_ok (q : queue) l k v :
  bheap B q l -> m_end (m_storage q) < 2 ^ 31 - 4 ->
  exists q', push B kkind vkind ltb q k (pay q v) = Ok q' /\ bheap B q' ((k, v) :: l) /\ same_kind q q'.
Proof using HB.
  intros (n & h & Hq & Hn & Hh & Hl) Hroom. pose proof (repr_end _ _ _ _ _ Hq) as He.
  destruct Hq as [Hk Hp]. rewrite (h_end _ _ _ _ _ Hk) in Hroom.
  destruct (next_cell_facts B HB n He (proj1 He)) as [Hc Hx]. set (i := next_cell B n) in *.
  pose proof (proj1 He) as Hn0. assert (i <> 0) by (intros E0; rewrite E0 in Hc; by apply no_cell_0 in Hc).
  destruct (push_back_holds B HB kkind n (keyf h) _ k Hk Hroom) as (s1 & E1 & Hs1). fold i in E1, Hs1.
  assert (forall j, no_hole j = false) as Hnh by done.
  destruct (take_back_holds B HB (i + 1) no_hole _ s1 Hs1) as (s2 & E2 & Hs2); [lia|lia|done|].
  replace (i + 1 - 1) with i in * by lia. rewrite upd_eq in E2.
  set (h1 := upd h i (k, v)).
  assert (exists p1 p2, (match pay q v with Some x => p_push_back B vkind (m_payload q) x | None => Ok (m_payload q) end) = Ok p1
    /\ p_take_back p1 = Ok (pay q v, p2) /\
    repr B (i + 1) (upd no_hole i true) (upd no_hole i true) h1 (mkPrio s2 p2) /\
    same_kind q (mkPrio s2 p2)) as (p1 & p2 & Ep1 & Ep2 & Hq2 & Hs).
  { unfold pay, same_kind, pay. destruct (m_payload q) as [w|].
    - destruct (push_back_holds B HB vkind n (valf h) w v Hp Hroom) as (w1 & F1 & Hw1). fold i in F1, Hw1.
      destruct (take_back_holds B HB (i + 1) no_hole _ w1 Hw1) as (w2 & F2 & Hw2); [lia|lia|done|].
      replace (i + 1 - 1) with i in * by lia. rewrite upd_eq in F2.
      exists (Some w1), (Some w2). cbn [p_push_back p_take_back]. rewrite F1. cbn [res_bind]. rewrite F2.
      split; [done|]. split; [done|]. split; [|done]. split; cbn [m_storage m_payload].
      + eapply holds_ext; [|exact Hs2]. intros j _ _. split; [done|]. intros _. unfold h1, upd. by destruct (j =? i).
      + eapply holds_ext; [|exact Hw2]. intros j _ _. split; [done|]. intros _. unfold h1, upd. by destruct (j =? i).
    - exists None, None. split; [done|]. split; [done|]. split; [|done]. split; [|done]. cbn [m_storage].
      eapply holds_ext; [|exact Hs2]. intros j _ _. split; [done|]. intros _. unfold h1, upd. by destruct (j =? i). }
  assert (push B kkind vkind ltb q k (pay q v) =
          rise B ltb (walk_fuel (mkPrio s2 p2)) (mkPrio s2 p2) i k (pay q v)) as ->.
  { unfold push, push_key. destruct (pay q v) as [x|]; [rewrite Ep1|injection Ep1 as ->];
      cbn [res_bind m_storage m_payload]; rewrite E1; cbn [res_bind]; rewrite E2; cbn [res_bind];
      rewrite Ep2; done. }
  rewrite <- (Hs v). change k with (fst (k, v)). change v with (snd (k, v)) at 1.
  assert (solid_but (i + 1) i (upd no_hole i true)) as Hsol by (intros j _ Hj; by rewrite upd_ne).
  destruct (rise_ok B HB (walk_fuel (mkPrio s2 p2)) (i + 1) (i + 1) _ _ h1 _ i (k, v) Hq2)
    as (q' & kh' & vh' & h' & E & Hr & Hs' & Hk' & Hv' & _ & Hh' & Hi).
  - lia.
  - lia.
  - lia.
  - done.
  - done.
  - done.
  - assert (heap_ok (keyf h) i) as Hhi.
    { unfold i, next_cell. destruct (Z.eqb_spec (n mod B) 0); [|done]. apply heap_ok_skip; [done|].
      unfold is_cell. lia. }
    eapply (append_up_inv _ _ _ (par_lt B HB) (keyf h)); [done|].
    intros j Hj. unfold h1. rewrite !upd_ne by lia. done.
  - unfold walk_fuel. cbn [m_storage]. rewrite (h_end _ _ _ _ _ Hs2). lia.
  - exists q'. split; [exact E|]. split; [|by eapply same_kind_trans]. exists (i + 1), h'. split.
    + eapply repr_ext; [|exact Hr]. intros j _ Hj. unfold no_hole. by rewrite Hk', Hv'.
    + split; [lia|]. split; [done|]. rewrite Hi, items_snoc by (done || lia). rewrite upd_eq.
      rewrite <- Permutation_cons_append, Hl. f_equiv.
      rewrite <- (items_next B HB h n Hn0). fold i. erewrite items_ext; [done|].
      intros j Hj. unfold h1. by rewrite !upd_ne by lia.
Qed.

(** ** [top] *)

Lemma top_ok (q : queue) n (h : Z -> K * V) :
  repr B n no_hole no_hole h q -> n <> 0 -> top B q = Ok (fst (h 1), pay q (snd (h 1))).
Proof using HB.
  intros Hq Hn. destruct (end_pos n (repr_end _ _ _ _ _ Hq) Hn) as [H1 _]. unfold top.
  rewrite (empty_end _ _ _ _ _ Hq), ASSERT_true by (apply negb_true_iff, Z.eqb_neq; done). cbn [res_bind].
  destruct Hq as [Hk Hp]. rewrite (get_holds B HB n _ _ _ 1 Hk) by (done || lia || apply cell_1). cbn [res_bind].
  unfold p_top, pay. destruct (m_payload q) as [w|]; [|done].
  by rewrite (get_holds B HB n _ _ w 1 Hp) by (done || lia || apply cell_1).
Qed.

(** ** [pop] *)

(** The end of [pop]: the last cells of both vectors go. *)
Lemma pop_backs_ok n kh vh h (q : queue) :
  repr B n kh vh h q -> n <> 0 -> n < 2 ^ 31 -> solid (n - 1) kh -> solid (n - 1) vh ->
  exists q', (let! s := pop_back B (m_storage q) in
              let! p := p_pop_back B (m_payload q) in Ok (mkPrio s p)) = Ok q' /\
    repr B (prev_end B n) no_hole no_hole h q' /\ same_kind q q'.
Proof using HB.
  intros [Hk Hp] Hn Hn' Hsk Hsv.
  assert (prev_end B n <= n - 1) as Hpe by (unfold prev_end; destruct (_ =? 1); lia).
  destruct (pop_back_holds B HB n kh _ _ Hk Hn ltac:(lia)) as (s & E & Hs). rewrite E. cbn [res_bind].
  unfold same_kind, pay. destruct (m_payload q) as [w|].
  - destruct (pop_back_holds B HB n vh _ w Hp Hn ltac:(lia)) as (w1 & E1 & Hw1). cbn [p_pop_back].
    rewrite E1. cbn [res_bind]. eexists. split; [reflexivity|]. split; [|done].
    apply (repr_ext B (prev_end B n) kh vh h); [|by split].
    intros i _ Hi. split; [|split; [|done]]; unfold no_hole; symmetry; [apply Hsk|apply Hsv]; lia.
  - cbn [p_pop_back res_bind]. eexists. split; [reflexivity|]. split; [|done].
    apply (repr_ext B (prev_end B n) kh vh h); [|by split].
    intros i _ Hi. split; [|split; [|done]]; unfold no_hole; symmetry; [apply Hsk|apply Hsv]; lia.
Qed.

(** What is left when the hole has sunk: the last element moved into it. *)
Lemma refill_ok n kh vh h (q : queue) idx X :
  repr B n kh vh h q -> n < 2 ^ 31 -> 1 <= idx < n -> cellB idx -> cellB (n - 1) -> n <= lchild B idx ->
  solid_but n idx kh -> solid_but n idx vh -> heap_ok (keyf h) (n - 1) ->
  exists q1 h' kh' vh', (if negb (idx =? n - 1) then
       let! (last, s) := take_back (m_storage q) in
       let! (last_val, p) := p_take_back (m_payload q) in
       rise B ltb (walk_fuel q) (mkPrio s p) idx last last_val
     else Ok q) = Ok q1 /\ repr B n kh' vh' h' q1 /\ same_kind q q1 /\
    solid (n - 1) kh' /\ solid (n - 1) vh' /\ heap_ok (keyf h') (n - 1) /\
    items B (upd h idx X) n ≡ₚ X :: items B h' (n - 1).
Proof using HB.
  intros Hq Hn Hi Hc Hcl Hleaf Hk Hv Hh.
  assert (items B (upd h idx X) n = items B (upd h idx X) (n - 1) ++ [upd h idx X (n - 1)]) as Eit.
  { replace n with (n - 1 + 1) at 1 by lia. rewrite items_snoc by (done || lia). done. }
  rewrite Eit. destruct (Z.eqb_spec idx (n - 1)) as [->|Hne]; cbn [negb].
  - exists q, h, kh, vh. split; [done|]. split; [done|]. split; [done|].
    split; [intros i Hi'; apply Hk; lia|]. split; [intros i Hi'; apply Hv; lia|]. split; [done|].
    rewrite upd_eq, <- Permutation_cons_append. f_equiv. erewrite items_ext; [done|].
    intros j Hj. by rewrite upd_ne by lia.
  - destruct Hq as [Hks Hps].
    destruct (take_back_holds B HB n kh _ _ Hks) as (s & E & Hs); [lia|lia|apply Hk; lia|].
    rewrite E. cbn [res_bind]. set (y := h (n - 1)).
    assert (exists p, p_take_back (m_payload q) = Ok (pay q (snd y), p) /\
      repr B n (upd kh (n - 1) true) (upd vh (n - 1) true) h (mkPrio s p) /\
      same_kind q (mkPrio s p)) as (p & Ep & Hq2 & Hsk).
    { unfold same_kind, pay. destruct (m_payload q) as [w|].
      - destruct (take_back_holds B HB n vh _ w Hps) as (w1 & E1 & Hw1); [lia|lia|apply Hv; lia|].
        cbn [p_take_back]. rewrite E1. eexists. split; [reflexivity|]. split; [by split|done].
      - exists None. split; [done|]. split; [by split|done]. }
    rewrite Ep. cbn [res_bind]. rewrite <- (Hsk (snd y)). change (fst (h (n - 1))) with (fst y).
    destruct (rise_ok B HB (walk_fuel q) n (n - 1) _ _ h _ idx y Hq2)
      as (q' & kh' & vh' & h' & E' & Hr & Hs' & Hk' & Hv' & _ & Hh' & Hit).
    + lia.
    + lia.
    + lia.
    + done.
    + intros j Hj Hj'. rewrite upd_ne by lia. apply Hk; lia.
    + intros j Hj Hj'. rewrite upd_ne by lia. apply Hv; lia.
    + apply (leaf_up_inv _ _ _ (keyf h)); [done| |].
      * intros j Hj. by rewrite upd_ne.
      * intros j Hj Hcj Ej. pose proof (lchild_sibling_pos B HB idx).
        destruct (par_children B HB j ltac:(lia) Hcj) as [Ec|Ec]; rewrite Ej in Ec; lia.
    + unfold walk_fuel. rewrite (h_end _ _ _ _ _ Hks). lia.
    + exists q', h', kh', vh'. split; [exact E'|]. split; [done|]. split; [by eapply same_kind_trans|].
      split; [done|]. split; [done|]. split; [done|]. rewrite upd_ne by lia. fold y.
      destruct (items_upd B (n - 1) h idx) as [rest Hrest]; [lia|done|].
      rewrite Hit, !Hrest. rewrite <- Permutation_cons_append. apply Permutation_swap.
Qed.

Lemma pop_ok (q : queue) l :
  bheap B q l -> l <> [] ->
  exists x l' q', top B q = Ok (fst x, pay q (snd x)) /\ pop B ltb q = Ok q' /\
    l ≡ₚ x :: l' /\ bheap B q' l' /\ same_kind q q' /\ Forall (fun y => le (fst x) (fst y)) l.
Proof using HB.
  intros (n & h & Hq & Hn & Hh & Hl) Hne. pose proof (repr_end _ _ _ _ _ Hq) as He.
  assert (n <> 0) as Hn0.
  { intros ->. apply Hne. rewrite (proj2 (items_nil 0 h He) eq_refl) in Hl. by apply Permutation_nil_r in Hl. }
  destruct (end_pos n He Hn0) as [Hn1 Hcl]. exists (h 1).
  assert (Forall (fun y => le (fst (h 1)) (fst y)) l) as Hleast.
  { apply Forall_forall. intros y Hy. rewrite Hl in Hy. by apply (first_least n h). }
  pose proof (top_ok q n h Hq Hn0) as Htop.
  unfold pop. rewrite (empty_end _ _ _ _ _ Hq), ASSERT_true by (by apply negb_true_iff, Z.eqb_neq).
  cbn [res_bind]. unfold size_sv. rewrite (h_end _ _ _ _ _ (r_keys _ _ _ _ _ _ Hq)).
  rewrite (u64_small (n - 1)) by lia.
  destruct (sink_ok B HB (walk_fuel q) n no_hole no_hole h q 1 Hq Hn) as
    (q1 & idx & kh & vh & h1 & E1 & Hq1 & Hs1 & Hi1 & Hc1 & Hl1 & Hk1 & Hv1 & Hh1 & Hit1).
  - lia.
  - apply cell_1.
  - done.
  - done.
  - intros i Hi Hc. apply Hh; [lia|done].
  - intros i Hi Hc _. by apply Hh.
  - lia.
  - unfold walk_fuel. rewrite (h_end _ _ _ _ _ (r_keys _ _ _ _ _ _ Hq)). lia.
  - rewrite E1. cbn [res_bind].
    destruct (refill_ok n kh vh h1 q1 idx (h 1)) as (q2 & h2 & kh2 & vh2 & E2 & Hq2 & Hs2 & Hk2 & Hv2 & Hh2 & Hit2);
      try done.
    rewrite E2. cbn [res_bind].
    destruct (pop_backs_ok n kh2 vh2 h2 q2 Hq2 Hn0 Hn Hk2 Hv2) as (q3 & E3 & Hq3 & Hs3).
    rewrite E3. exists (items B h2 (n - 1)), q3. split; [done|]. split; [done|]. split.
    + rewrite Hl, <- Hit2, Hit1. erewrite items_ext; [done|]. intros i _. unfold upd.
      by destruct (Z.eqb_spec i 1) as [->|].
    + split; [|split; [|done]].
      * assert (prev_end B n <= n - 1) as Hpe by (unfold prev_end; destruct (_ =? 1); lia).
        exists (prev_end B n), h2. split; [done|]. split; [lia|].
        split; [|rewrite items_prev by (done || lia); done].
        intros i Hi Hc. apply Hh2; [lia|done].
      * eapply same_kind_trans; [done|]. by eapply same_kind_trans.
Qed.

(** ** [reschedule_top] *)

Lemma reschedule_top_ok (q : queue) l t :
  bheap B q l -> l <> [] ->
  exists x l' q', top B q = Ok (fst x, pay q (snd x)) /\ l ≡ₚ x :: l' /\
    reschedule_top B ltb q t = Ok q' /\ bheap B q' ((t, snd x) :: l') /\ same_kind q q'.
Proof using HB.
  intros (n & h & Hq & Hn & Hh & Hl) Hne. pose proof (repr_end _ _ _ _ _ Hq) as He.
  assert (n <> 0) as Hn0.
  { intros ->. apply Hne. rewrite (proj2 (items_nil 0 h He) eq_refl) in Hl. by apply Permutation_nil_r in Hl. }
  destruct (end_pos n He Hn0) as [Hn1 Hcl]. pose proof (top_ok q n h Hq Hn0) as Htop.
  unfold reschedule_top. rewrite (empty_end _ _ _ _ _ Hq), ASSERT_true by (by apply negb_true_iff, Z.eqb_neq).
  cbn [res_bind]. set (v := snd (h 1)) in *.
  assert (exists p, p_take_top B (m_payload q) = Ok (pay q v, p) /\
    repr B n no_hole (upd no_hole 1 true) h (mkPrio (m_storage q) p) /\
    same_kind q (mkPrio (m_storage q) p)) as (p & Ep & Hq1 & Hs1).
  { destruct Hq as [Hk Hp]. unfold same_kind, pay. destruct (m_payload q) as [w|].
    - destruct (take_holds B HB n no_hole _ w 1 Hp) as (w1 & E1 & Hw1); [lia|apply cell_1|done|].
      cbn [p_take_top]. rewrite E1. eexists. split; [reflexivity|]. split; [by split|done].
    - exists None. split; [done|]. split; [by split|done]. }
  rewrite Ep. cbn [res_bind]. unfold do_reschedule_top, size_sv. cbn [m_storage].
  rewrite (h_end _ _ _ _ _ (r_keys _ _ _ _ _ _ Hq)). rewrite (u64_small (n - 1)) by lia.
  destruct (sink_to_ok B HB (walk_fuel (mkPrio (m_storage q) p)) n no_hole _ h _ 1 t v Hq1 Hn) as
    (q2 & idx & kh & vh & h2 & E2 & Hq2 & Hs2 & Hi2 & Hc2 & Hk2 & Hv2 & Hh2 & Hit2).
  - lia.
  - apply cell_1.
  - done.
  - intros i _ Hi. by rewrite upd_ne.
  - apply (replace_root_down_inv _ _ _ (par_lt B HB) (keyf h) _ n); [done|lia|].
    intros i Hi. by rewrite upd_ne by lia.
  - unfold walk_fuel. cbn [m_storage]. rewrite (h_end _ _ _ _ _ (r_keys _ _ _ _ _ _ Hq)). lia.
  - rewrite E2. cbn [res_bind].
    pose proof (store_node_ok B HB n kh vh h2 q2 idx (t, v) Hq2 ltac:(lia) Hc2) as (q3 & E3 & Hq3 & Hs3).
    unfold store_node in E3. cbn [fst snd] in E3.
    assert (pay q2 v = pay q v) as Epay by (rewrite (Hs2 v); apply Hs1). rewrite Epay in E3.
    apply res_bind_Ok in E3 as (s3 & Es3 & E3). rewrite Es3. cbn [res_bind m_payload m_storage].
    rewrite E3. destruct (items_upd B n h 1) as [rest Hrest]; [lia|apply cell_1|].
    exists (h 1), rest, q3. split; [done|]. split.
    + rewrite Hl, <- Hrest. erewrite items_ext; [done|]. intros i _. unfold upd.
      by destruct (Z.eqb_spec i 1) as [->|].
    + split; [done|]. split; [|eapply same_kind_trans; [done|]; by eapply same_kind_trans].
      exists n, (upd h2 idx (t, v)). split; [|split; [done|split; [done|by rewrite Hit2, Hrest]]].
      eapply repr_ext; [|exact Hq3]. intros i _ Hi. unfold no_hole, upd.
      destruct (Z.eqb_spec i idx); [done|]. by rewrite Hk2, Hv2.
Qed.

(** ** [size] *)

Lemma length_indices n : 0 <= n -> Z.of_nat (length (indices B n)) = n - (n + B - 1) / B.
Proof using HB.
  pose proof (block_facts B HB) as (E2 & HH & _). revert n. apply natlike_ind.
  - rewrite Z.div_small by lia. done.
  - intros n Hn IH. rewrite <- Z.add_1_r, indices_S, length_app, Nat2Z.inj_add, IH by done.
    destruct (block_split B HB n) as [En Hm].
    assert ((n + B - 1) / B = n / B + (if decide (cellB n) then 1 else 0)) as ->.
    { unfold is_cell. destruct (decide (0 < n mod B)).
      - replace (n + B - 1) with ((n / B + 1) * B + (n mod B - 1)) by lia.
        apply block_divmod; [done|lia].
      - replace (n + B - 1) with (n / B * B + (B - 1)) by lia. rewrite Z.add_0_r.
        apply block_divmod; [done|lia]. }
    replace (n + 1 + B - 1) with ((n / B + 1) * B + n mod B) by lia.
    destruct (block_divmod B HB (n / B + 1) (n mod B)) as [-> _]; [lia|].
    destruct (decide (cellB n)); cbn [length]; lia.
Qed.

(** ** New queues and the destructor *)

Lemma new_ok `{Inhabited K, Inhabited V} (payloads : bool) :
  bheap B (new_prio_queue payloads) ([] : list (K * V)).
Proof using.
  assert (forall T (f : Z -> T), holds B 0 no_hole f new_skip_vector) as Hnew.
  { intros T f. split; cbn; [done|split; [done|by left]|done|apply Zmod_0_l|done]. }
  exists 0, (fun _ => inhabitant). split; [|split; [lia|split; [intros i Hi; lia|done]]].
  split; cbn; [apply Hnew|]. destruct payloads; [apply Hnew|done].
Qed.

(** Both vectors are destroyed without touching a cell that holds no object. *)
Lemma delete_ok (q : queue) l :
  bheap B q l ->
  exists m, delete_skip_vector B kkind (m_storage q) = Ok m /\
    (kkind <> pod -> m = replicate (Z.to_nat (m_storage_size (m_storage q))) Raw) /\
    match m_payload q with
    | Some w => exists m', delete_skip_vector B vkind w = Ok m' /\
        (vkind <> pod -> m' = replicate (Z.to_nat (m_storage_size w)) Raw)
    | None => True
    end.
Proof using HB.
  intros (n & h & [Hk Hp] & _). destruct (delete_holds B HB kkind n _ _ _ Hk) as (m & E & Hm).
  exists m. split; [done|]. split; [done|]. destruct (m_payload q) as [w|]; [|done].
  destruct (delete_holds B HB vkind n _ _ w Hp) as (m' & E' & Hm'). by exists m'.
Qed.

Lemma size_ok (q : queue) l : bheap B q l -> size B q = Z.of_nat (length l).
Proof using HB.
  intros (n & h & Hq & Hn & _ & Hl). rewrite Hl. unfold items. rewrite length_fmap.
  destruct (repr_end _ _ _ _ _ Hq) as [H0 _]. rewrite length_indices by done.
  pose proof (block_facts B HB) as (E2 & HH & HM). unfold size, size_sv.
  rewrite (h_end _ _ _ _ _ (r_keys _ _ _ _ _ _ Hq)). rewrite (u64_small (n + B - 1)) by lia.
  apply u64_small. pose proof (Z.div_pos (n + B - 1) B).
  destruct (block_split B HB (n + B - 1)) as [Es Hs]. set (d := (n + B - 1) / B) in *.
  split; [|lia]. assert (d * B <= n * B + 0 \/ n = 0) as [Hd|Hd]; [|nia|].
  - destruct (decide (n = 0)) as [->|]; [by right|left]. nia.
  - subst n. unfold d. rewrite Z.div_small; lia.
Qed.
End Ops.

(** C15: [push] of the B-heap queue succeeds and adds exactly the pushed key and payload,
    through every case of growing the vectors; with a power of two from 2 on as block
    size, for queues with payloads and without. *)
Theorem push_correct {K V : Type} `{TimeOrder K} B (kkind vkind : move_kind) (q : prio_queue K V) l k v :
  block_ok B -> bheap B q l -> m_end (m_storage q) < 2 ^ 31 - 4 ->
  exists q', push B kkind vkind ltb q k (pay q v) = Ok q' /\ bheap B q' ((k, v) :: l).
Proof.
  intros HB Hq Hn. destruct (push_ok B HB kkind vkind q l k v Hq Hn) as (q' & E & Hq' & _). eauto.
Qed.

(** C14: [pop] of a queue that is not empty takes out exactly the item [top] shows,
    whose key no other key sorts before; the rest is a valid queue, and [size] counts
    it. *)
Theorem pop_correct {K V : Type} `{TimeOrder K} B (q : prio_queue K V) l :
  block_ok B -> bheap B q l -> l <> [] ->
  exists x l' q', top B q = Ok (fst x, pay q (snd x)) /\ pop B ltb q = Ok q' /\
    l ≡ₚ x :: l' /\ bheap B q' l' /\ Forall (fun y => le (fst x) (fst y)) l /\
    size B q' = Z.of_nat (length l').
Proof.
  intros HB Hq Hl. destruct (pop_ok B HB q l Hq Hl) as (x & l' & q' & E1 & E2 & Hp & Hq' & _ & Hle).
  exists x, l', q'. repeat (split; [done|]). by apply size_ok.
Qed.

(** [reschedule_top] gives the first item another key and leaves its payload and
    the other items alone. *)
Theorem reschedule_top_correct {K V : Type} `{TimeOrder K} B (q : prio_queue K V) l t :
  block_ok B -> bheap B q l -> l <> [] ->
  exists x l' q', top B q = Ok (fst x, pay q (snd x)) /\ l ≡ₚ x :: l' /\
    reschedule_top B ltb q t = Ok q' /\ bheap B q' ((t, snd x) :: l').
Proof.
  intros HB Hq Hl. destruct (reschedule_top_ok B HB q l t Hq Hl) as (x & l' & q' & E1 & Hp & E2 & Hq' & _).
  eauto 10.
Qed.

(** C16: The destructor of a queue destroys every key and every payload it holds, once:
    it destroys no cell without an object, and each of the two arrays is given back whole
    and without one.  (Trivially copyable types are left as they are.) *)
Theorem delete_correct {K V : Type} `{TimeOrder K} B (kkind vkind : move_kind) (q : prio_queue K V) l :
  block_ok B -> bheap B q l ->
  exists m, delete_skip_vector B kkind (m_storage q) = Ok m /\
    (kkind <> pod -> m = replicate (Z.to_nat (m_storage_size (m_storage q))) Raw) /\
    match m_payload q with
    | Some w => exists m', delete_skip_vector B vkind w = Ok m' /\
        (vkind <> pod -> m' = replicate (Z.to_nat (m_storage_size w)) Raw)
    | None => True
    end.
Proof. intros HB Hq. by apply (delete_ok B HB kkind vkind q l). Qed.

(** ** A queue of [double]s *)

(** The [double]s that are numbers, with their [<]. *)
Definition number : Type := { t : time_t | not_nan t = true }.
Definition number_ltb (a b : number) : bool := SFltb (`a) (`b).

#[export] Instance number_order : TimeOrder number.
Proof.
  refine {| ltb := number_ltb |}; unfold number_ltb.
  - intros [a Ha]. cbn. rewrite SFltb_rank by done. apply ltb_irrefl.
  - intros [a Ha] [b Hb]. cbn. rewrite !SFltb_rank by done. apply ltb_asym.
  - intros [a Ha] [b Hb] [c Hc]. cbn. rewrite !SFltb_rank by done. apply ltb_neg_trans.
Defined.

#[export] Instance number_inhabited : Inhabited number := populate (exist _ (S754_zero false) eq_refl).

Definition num (m : positive) : number := exist _ (S754_finite false m 0) eq_refl.

Definition pushed (q : prio_queue number nat) (k : number) (v : nat) : prio_queue number nat :=
  match push 8 pod pod ltb q k (pay q v) with Ok q' => q' | _ => q end.
Definition three_numbers : prio_queue number nat :=
  pushed (pushed (pushed (new_prio_queue true) (num 5) 0%nat) (num 2) 1%nat) (num 7) 2%nat.

Lemma block_8 : block_ok 8.
Proof. by exists 3. Qed.

Lemma pushed_ok q l k v :
  bheap 8 q l -> m_end (m_storage q) < 2 ^ 31 - 4 -> bheap 8 (pushed q k v) ((k, v) :: l).
Proof.
  intros Hq Hn. destruct (push_ok 8 block_8 pod pod q l k v Hq Hn) as (q' & E & Hq' & _).
  unfold pushed. by rewrite E.
Qed.

Lemma three_numbers_ok :
  bheap 8 three_numbers [(num 7, 2%nat); (num 2, 1%nat); (num 5, 0%nat)].
Proof.
  unfold three_numbers. apply pushed_ok; [apply pushed_ok; [apply pushed_ok; [exact (new_ok 8 true)|]|]|];
    apply Z.ltb_lt; vm_compute; reflexivity.
Qed.

Lemma push_correct_witness :
  exists q', push 8 pod pod ltb three_numbers (num 1) (Some 3%nat) = Ok q' /\
    bheap 8 q' [(num 1, 3%nat); (num 7, 2%nat); (num 2, 1%nat); (num 5, 0%nat)].
Proof. apply (push_correct 8 pod pod three_numbers _ (num 1) 3%nat block_8 three_numbers_ok). apply Z.ltb_lt. vm_compute. reflexivity. Defined.

Lemma Ok_pair_inj {A C : Type} (a c : A) (b d : C) : Ok (a, Some b) = Ok (c, Some d) -> a = c /\ b = d.
Proof. by intros [= -> ->]. Qed.

Lemma pop_correct_witness :
  exists l' q', pop 8 ltb three_numbers = Ok q' /\ bheap 8 q' l' /\
    [(num 7, 2%nat); (num 2, 1%nat); (num 5, 0%nat)] ≡ₚ (num 2, 1%nat) :: l'.
Proof.
  destruct (pop_correct 8 three_numbers _ block_8 three_numbers_ok ltac:(done))
    as ([k v] & l' & q' & E1 & E2 & Hp & Hq & _).
  assert (top 8 three_numbers = Ok (num 2, Some 1%nat)) as Et by reflexivity.
  assert (pay three_numbers v = Some v) as Ep by reflexivity.
  change (snd (k, v)) with v in E1. change (fst (k, v)) with k in E1. rewrite Et, Ep in E1.
  destruct (Ok_pair_inj _ _ _ _ E1) as [<- <-].
  exists l', q'. exact (conj E2 (conj Hq Hp)).
Defined.

Lemma reschedule_top_correct_witness :
  exists x l' q', reschedule_top 8 ltb three_numbers (num 6) = Ok q' /\
    [(num 7, 2%nat); (num 2, 1%nat); (num 5, 0%nat)] ≡ₚ x :: l' /\ bheap 8 q' ((num 6, snd x) :: l').
Proof.
  destruct (reschedule_top_correct 8 three_numbers _ (num 6) block_8 three_numbers_ok ltac:(done))
    as (x & l' & q' & _ & Hp & E & Hq). exists x, l', q'. exact (conj E (conj Hp Hq)).
Defined.

Lemma delete_correct_witness :
  delete_skip_vector 8 nothrow_move (m_storage three_numbers) = Ok (replicate 128 Raw).
Proof.
  destruct (delete_correct 8 nothrow_move pod three_numbers _ block_8 three_numbers_ok) as (m & E & Hm & _).
  rewrite E. f_equal. rewrite Hm by discriminate. vm_compute. reflexivity.
Defined.

(** ** Where it breaks *)

(** What [grow] returns when it moves trivially copyable elements. *)
Lemma grow_value {T : Type} B n D (x : T) v m :
  m_end v = n -> m_storage_size v = n -> m_ptr v = Some m -> n <> 0 -> D = u64 (n * 2) ->
  0 <= n + 1 < D -> u64 (n + 1) = n + 1 ->
  exists p, grow B pod v x = Ok (u64 (i32 (n + 1)), mkSkip p (u64 (i32 (i32 (n + 1) + 1))) D).
Proof.
  intros He Hs Hp Hn -> HD Hu. unfold grow. rewrite He, Hs, Hu.
  rewrite (proj2 (Z.eqb_neq n 0) Hn). cbn [negb].
  unfold construct, mem. destruct (Z.leb_spec 0 (n + 1)); [|lia].
  rewrite (lookup_replicate_2 (Z.to_nat (u64 (n * 2))) (Raw (T:=T)) (Z.to_nat (n + 1))) by lia.
  cbn [res_bind]. unfold ptr. rewrite Hp. cbn [res_bind move_to]. by eexists.
Qed.

(** [grow] counts in an [int]: with 2^31 cells in use the index of the new element
    and the end of the vector come out near 2^64, although the element is in cell
    2^31 + 1. *)
Theorem grow_truncates {T : Type} (x : T) v m :
  m_end v = 2 ^ 31 -> m_storage_size v = 2 ^ 31 -> m_ptr v = Some m ->
  exists p, push_back 8 pod v x = Ok (2 ^ 64 - 2 ^ 31 + 1, mkSkip p (2 ^ 64 - 2 ^ 31 + 2) (2 ^ 32)).
Proof.
  intros He Hs Hp. destruct (grow_value 8 (2 ^ 31) (2 ^ 32) x v m) as [p Ep]; try done.
  exists p. unfold push_back. rewrite He, Hs.
  change (negb (skipped 8 (2 ^ 31))) with false. rewrite Z.eqb_refl. exact Ep.
Qed.

Lemma grow_truncates_witness :
  exists p, push_back 8 pod (mkSkip (Some (layout (2 ^ 31) (state 8 (2 ^ 31) no_hole id))) (2 ^ 31) (2 ^ 31)) 0
    = Ok (2 ^ 64 - 2 ^ 31 + 1, mkSkip p (2 ^ 64 - 2 ^ 31 + 2) (2 ^ 32)).
Proof.
  exact (grow_truncates 0 (mkSkip (Some (layout (2 ^ 31) (state 8 (2 ^ 31) no_hole id))) (2 ^ 31) (2 ^ 31))
           _ eq_refl eq_refl eq_refl).
Defined.

(** A block size of 1 passes the assertion at compile time; the first [push] then
    fails one at run time. *)
Lemma block_size_1_aborts (x : number) :
  push 1 pod pod ltb (new_prio_queue false) x (None : option nat) = Abort.
Proof. reflexivity. Qed.
