(* ===== verification/PrioThrow.v ===== *)
(** * [skip_vector]: exceptions

    [push_back] and [grow] of [queue/prio_queue.hpp] with allocations and constructors that
    may throw, and their [catch] blocks.  Which of the calls throw is a list, in the order
    they are made; [PrioQueue] has the runs in which none does. *)

From S2P Require Import Prelude PrioQueue PrioAddress PrioVector PrioGrow.

Inductive outcome (A B : Type) := Returned (a : A) | Thrown (b : B).
Arguments Returned {A B} a.
Arguments Thrown {A B} b.

(** Whether the next call throws; behind the end of the list none does. *)
Definition throws (ts : list bool) : bool * list bool :=
  match ts with [] => (false, []) | t :: ts => (t, ts) end.

Section Throw.
Context {T : Type} (block_size : Z) (kind : move_kind).
(** Whether [A::deallocate] needs the size of the allocation, as that of [std::allocator]. *)
Context (sized : bool).

(** The block as it is given back. *)
Definition deallocate (p : list (cell T)) (n : Z) : res (list (cell T)) :=
  if sized && negb (Z.of_nat (length p) =? n) then UB else Ok p.

Definition construct_x (m : list (cell T)) (i : Z) (x : T) (ts : list bool)
    : res (outcome (list (cell T)) unit * list bool) :=
  let! m := construct m i x in
  let '(t, ts) := throws ts in
  Ok (if t : bool then Thrown tt else Returned m, ts).

(** The first loop of the copying [move_to]: what was thrown leaves the new memory and [i]
    for the [catch] block. *)
Fixpoint copy_loop_x (n : nat) (i : Z) (b ptr : list (cell T)) (ts : list bool)
    : res (outcome (list (cell T)) (list (cell T) * Z) * list bool) :=
  match n with
  | O => Ok (Returned ptr, ts)
  | S n =>
      if negb (skipped block_size i) then
        let! x := read b i in
        let! (r, ts) := construct_x ptr i x ts in
        match r with
        | Returned ptr => copy_loop_x n (i + 1) b ptr ts
        | Thrown _ => Ok (Thrown (ptr, i), ts)
        end
      else copy_loop_x n (i + 1) b ptr ts
  end.

Definition move_to_x (b : list (cell T)) (s : Z) (ptr : list (cell T)) (ts : list bool)
    : res (outcome (list (cell T)) (list (cell T)) * list bool) :=
  match kind with
  | may_throw =>
      let! (r, ts) := copy_loop_x (Z.to_nat (s - 1)) 1 b ptr ts in
      match r with
      | Returned ptr => let! _ := destroy_loop block_size (Z.to_nat s) b in Ok (Returned ptr, ts)
      | Thrown (ptr, i) => let! ptr := destroy_loop block_size (Z.to_nat i) ptr in Ok (Thrown ptr, ts)
      end
  | _ => let! ptr := move_to block_size kind b s ptr in Ok (Returned ptr, ts)
  end.

(** What was thrown leaves the vector and the new block as it is given back. *)
Definition grow_x (v : skip_vector T) (u : T) (ts : list bool)
    : res (outcome (Z * skip_vector T) (skip_vector T * list (cell T)) * list bool) :=
  let desired_size :=
    if negb (m_storage_size v =? 0) then u64 (m_storage_size v * 2) else u64 (block_size * 16) in
  let '(t, ts) := throws ts in
  if t : bool then Ok (Thrown (v, []), ts)
  else
    let p := replicate (Z.to_nat desired_size) Raw in
    let! (r, ts) := construct_x p (u64 (m_end v + 1)) u ts in
    match r with
    | Thrown _ => let! p := deallocate p (m_storage_size v) in Ok (Thrown (v, p), ts)
    | Returned p =>
        let idx := i32 (m_end v + 1) in
        let! (r, ts) :=
          (if negb (m_storage_size v =? 0) then let! b := ptr v in move_to_x b (m_end v) p ts
           else Ok (Returned p, ts)) in
        match r with
        | Returned p => Ok (Returned (u64 idx, mkSkip (Some p) (u64 (i32 (idx + 1))) desired_size), ts)
        | Thrown p =>
            let! p := (if negb (idx =? 0) then destroy_at p (u64 idx) else Ok p) in
            let! p := deallocate p (m_storage_size v) in
            Ok (Thrown (v, p), ts)
        end
    end.

Definition push_back_x (v : skip_vector T) (u : T) (ts : list bool)
    : res (outcome (Z * skip_vector T) (skip_vector T * list (cell T)) * list bool) :=
  if negb (skipped block_size (m_end v)) then
    let! m := ptr v in
    let! (r, ts) := construct_x m (m_end v) u ts in
    Ok (match r with
        | Returned m => Returned (m_end v, mkSkip (Some m) (u64 (m_end v + 1)) (m_storage_size v))
        | Thrown _ => Thrown (v, [])
        end, ts)
  else if m_end v =? m_storage_size v then grow_x v u ts
  else
    let i := u64 (m_end v + 1) in
    let! m := ptr v in
    let! (r, ts) := construct_x m i u ts in
    Ok (match r with
        | Returned m => Returned (i, mkSkip (Some m) (u64 (i + 1)) (m_storage_size v))
        | Thrown _ => Thrown (mkSkip (Some m) i (m_storage_size v), [])
        end, ts).
End Throw.

(** ** Without exceptions *)

Section Quiet.
Context {T : Type} (B : Z) (kind : move_kind) (sized : bool).

Lemma construct_x_returned (m : list (cell T)) i x ts m' ts' :
  construct_x m i x ts = Ok (Returned m', ts') -> construct m i x = Ok m'.
Proof using.
  unfold construct_x. destruct (construct m i x); [|done..]. cbn. destruct (throws ts) as [[] ?]; [done|].
  by intros [= <- _].
Qed.

Lemma copy_loop_x_returned n i (b p : list (cell T)) ts p' ts' :
  copy_loop_x B n i b p ts = Ok (Returned p', ts') -> copy_loop B n i b p = Ok p'.
Proof using.
  revert i p ts. induction n as [|n IH]; intros i p ts; cbn [copy_loop_x copy_loop]; [by intros [= <- _]|].
  destruct (negb (skipped B i)); cbn [res_bind]; [|apply IH].
  destruct (read b i); cbn [res_bind]; [|done..]. destruct (construct_x p i a ts) as [[[m'|] ts1]| | |] eqn:E; [|done..].
  rewrite (construct_x_returned _ _ _ _ _ _ E). cbn [res_bind]. apply IH.
Qed.

Lemma move_to_x_returned (b : list (cell T)) s p ts p' ts' :
  move_to_x B kind b s p ts = Ok (Returned p', ts') -> move_to B kind b s p = Ok p'.
Proof using.
  unfold move_to_x. destruct kind.
  - destruct (move_to _ _ _ _ _); [|done..]. by intros [= <- _].
  - destruct (move_to _ _ _ _ _); [|done..]. by intros [= <- _].
  - destruct (copy_loop_x _ _ _ _ _ _) as [[[q|[q i]] ts1]| | |] eqn:E; [| |done..]; cbn [res_bind].
    + cbn [move_to]. rewrite (copy_loop_x_returned _ _ _ _ _ _ _ E). cbn [res_bind].
      destruct (destroy_loop _ _ _); [|done..]. by intros [= <- _].
    + destruct (destroy_loop _ _ _); done.
Qed.

Lemma grow_x_returned v (x : T) ts r ts' :
  grow_x B kind sized v x ts = Ok (Returned r, ts') -> grow B kind v x = Ok r.
Proof using.
  unfold grow_x, grow. cbv zeta. destruct (throws ts) as [[] ts0]; [done|].
  destruct (construct_x _ _ _ _) as [[[p|] ts1]| | |] eqn:E; [| |done..]; cbn [res_bind];
    [|by destruct (deallocate _ _ _)].
  rewrite (construct_x_returned _ _ _ _ _ _ E). cbn [res_bind].
  destruct (negb (m_storage_size v =? 0)); cbn [res_bind]; [|by intros [= <- _]].
  destruct (ptr v) as [b| | |]; cbn [res_bind]; [|done..].
  destruct (move_to_x _ _ _ _ _ _) as [[[q|q] ts2]| | |] eqn:Em; [| |done..]; cbn [res_bind].
  - rewrite (move_to_x_returned _ _ _ _ _ _ Em). cbn [res_bind]. by intros [= <- _].
  - destruct (negb (_ =? 0)); cbn [res_bind]; [destruct (destroy_at _ _); cbn [res_bind]; [|done..]|];
      by destruct (deallocate _ _ _).
Qed.

(** A run in which nothing throws is that of [PrioQueue]. *)
Lemma push_back_x_returned v (x : T) ts r ts' :
  push_back_x B kind sized v x ts = Ok (Returned r, ts') -> push_back B kind v x = Ok r.
Proof using.
  unfold push_back_x, push_back. cbv zeta. destruct (negb (skipped B (m_end v))).
  - destruct (ptr v) as [m| | |]; cbn [res_bind]; [|done..].
    destruct (construct_x _ _ _ _) as [[[p|] ts1]| | |] eqn:E; [| |done..]; cbn [res_bind]; [|done].
    rewrite (construct_x_returned _ _ _ _ _ _ E). cbn [res_bind]. by intros [= <- _].
  - destruct (m_end v =? m_storage_size v); [apply grow_x_returned|].
    destruct (ptr v) as [m| | |]; cbn [res_bind]; [|done..].
    destruct (construct_x _ _ _ _) as [[[p|] ts1]| | |] eqn:E; [| |done..]; cbn [res_bind]; [|done].
    rewrite (construct_x_returned _ _ _ _ _ _ E). cbn [res_bind]. by intros [= <- _].
Qed.
End Quiet.

(** ** With exceptions *)

Section Exceptions.
Context {T : Type} (B : Z) (HB : block_ok B) (kind : move_kind).
Notation cellB := (is_cell B).
Notation state := (state (T:=T) B).
Notation holds := (holds (T:=T) B).
Notation filled := (filled (T:=T) B).

(** Constructing in a free cell does one or the other. *)
Lemma construct_x_cases (D i : Z) (G : Z -> cell T) x ts :
  0 <= i < D -> G i = Raw ->
  exists ts', construct_x (layout D G) i x ts = Ok (Returned (layout D (upd G i (Val x))), ts') \/
    construct_x (layout D G) i x ts = Ok (Thrown tt, ts').
Proof using.
  intros Hi HR. unfold construct_x. rewrite construct_layout by done. cbn [res_bind].
  destruct (throws ts) as [[] ts']; exists ts'; [by right|by left].
Qed.

(** Copying stops at a cell with those before it copied. *)
Lemma copy_loop_x_cases c i n S D f F G ts :
  i + Z.of_nat c = n -> 0 <= i -> n <= S -> n <= D ->
  (forall j, i <= j < n -> cellB j -> F j = Val (f j)) ->
  (forall j, i <= j < n -> cellB j -> G j = Raw) ->
  exists r ts', copy_loop_x B c i (layout S F) (layout D G) ts = Ok (r, ts') /\
    match r with
    | Returned p => p = layout D (filled i n f G)
    | Thrown (p, k) => i <= k < n /\ p = layout D (filled i k f G)
    end.
Proof using HB.
  revert i G ts. induction c as [|c IH]; intros i G ts En Hi HS HD HF HG; cbn [copy_loop_x].
  { eexists _, _. split; [reflexivity|]. apply layout_ext. intros j Hj. unfold PrioGrow.filled.
    destruct (Z.leb_spec i j), (Z.ltb_spec j n); try lia; done. }
  assert (forall k, i < k -> layout D (filled i k f G) =
    layout D (filled (i + 1) k f (if negb (skipped B i) then upd G i (Val (f i)) else G))) as Hstep.
  { intros k Hk. apply layout_ext. intros j _. by apply filled_step. }
  destruct (negb (skipped B i)) eqn:Es.
  - rewrite (skipped_mod B HB), negb_true_iff, Z.eqb_neq in Es.
    assert (cellB i) as Hc by (unfold is_cell; pose proof (block_split B HB i); lia).
    unfold read. rewrite mem_layout by lia. cbn [res_bind]. rewrite HF by (done || lia). cbn [res_bind].
    destruct (construct_x_cases D i G (f i) ts) as (ts1 & [-> | ->]); [lia|apply HG; [lia|done]| |]; cbn [res_bind].
    + destruct (IH (i + 1) (upd G i (Val (f i))) ts1) as (r & ts2 & E & Hr); try lia.
      * intros j Hj. apply HF. lia.
      * intros j Hj Hcj. rewrite upd_ne by lia. apply HG; [lia|done].
      * exists r, ts2. split; [exact E|]. destruct r as [p|[p k]]; [by rewrite Hstep by lia|].
        destruct Hr as [Hk ->]. split; [lia|]. by rewrite Hstep by lia.
    + eexists _, _. split; [reflexivity|]. split; [lia|]. apply layout_ext. intros j Hj. unfold PrioGrow.filled.
      destruct (Z.leb_spec i j), (Z.ltb_spec j i); try lia; done.
  - destruct (IH (i + 1) G ts) as (r & ts2 & E & Hr); try lia;
      [intros j Hj; apply HF; lia|intros j Hj; apply HG; lia|].
    exists r, ts2. split; [exact E|]. destruct r as [p|[p k]]; [by rewrite Hstep by lia|].
    destruct Hr as [Hk ->]. split; [lia|]. by rewrite Hstep by lia.
Qed.

(** The [catch] block of [move_to] leaves the new memory as it was. *)
Lemma move_to_x_cases n S D f G ts :
  0 < n -> n <= S -> n <= D -> (forall j, 0 <= j < n -> G j = Raw) ->
  exists r ts', move_to_x B kind (layout S (state n no_hole f)) n (layout D G) ts = Ok (r, ts') /\
    match r with Returned p => True | Thrown p => p = layout D G end.
Proof using HB.
  intros Hn HS HD HG. unfold move_to_x.
  destruct kind; [rewrite (move_to_ok B HB) by (done || lia); cbn [res_bind]; by eexists _, _..|].
  assert (forall j, 1 <= j < n -> cellB j -> state n no_hole f j = Val (f j)) as HF
    by (intros; apply state_cell; done || lia).
  destruct (copy_loop_x_cases (Z.to_nat (n - 1)) 1 n S D f (state n no_hole f) G ts) as (r & ts' & -> & Hr);
    try lia; [exact HF|intros; apply HG; lia|]. cbn [res_bind]. destruct r as [p|[p k]].
  - rewrite (destroy_loop_ok B HB); [by eexists _, _|lia|]. intros j Hj Hc. by rewrite state_cell by (done || lia).
  - destruct Hr as [Hk ->]. rewrite (destroy_loop_ok B HB); [|lia|].
    + cbn [res_bind]. eexists _, _. split; [reflexivity|]. apply layout_ext. intros j Hj. unfold PrioGrow.filled.
      rewrite Z2Nat.id by lia. destruct (Z.ltb_spec j k); cbn [andb].
      * destruct (Z.ltb_spec 0 (j mod B)); [symmetry; apply HG; lia|]. by rewrite andb_false_r.
      * by rewrite andb_false_r.
    + intros j Hj Hc. rewrite Z2Nat.id in Hj by lia. unfold PrioGrow.filled, is_cell in *.
      destruct (Z.leb_spec 1 j), (Z.ltb_spec j k), (Z.ltb_spec 0 (j mod B)); try lia; [done|].
      assert (j = 0) as -> by lia. rewrite Z.mod_0_l in Hc; [lia|pose proof (block_facts B HB); lia].
Qed.

Lemma raw_layout D : replicate (Z.to_nat D) (Raw (T:=T)) = layout D (fun _ => Raw).
Proof using.
  apply list_eq_same_length with (Z.to_nat D); [by rewrite length_layout|by rewrite length_replicate|].
  intros k a b Hk Ha Hb. apply lookup_replicate in Ha as [-> _].
  rewrite <- (Nat2Z.id k), layout_lookup in Hb by lia. congruence.
Qed.

Lemma layout_raw_Forall D F : (forall j, 0 <= j < D -> F j = Raw) -> Forall (fun c : cell T => c = Raw) (layout D F).
Proof using.
  intros HF. apply Forall_fmap, Forall_forall. intros j Hj. apply elem_of_seqZ in Hj. apply HF. lia.
Qed.

(** What a call comes to that gives a new block back with the wrong size. *)
Definition given_back {A} (sized : bool) (r : outcome A (skip_vector T * list (cell T))) (ts : list bool)
    : res (outcome A (skip_vector T * list (cell T)) * list bool) :=
  match r with
  | Thrown (_, _ :: _) => if sized then UB else Ok (r, ts)
  | _ => Ok (r, ts)
  end.

Lemma deallocate_wrong {A} sized (v : skip_vector T) D F n ts :
  0 < D -> D <> n ->
  (let! p := deallocate sized (layout D F) n in Ok (Thrown (v, p), ts)) =
    given_back (A := A) sized (Thrown (v, layout D F)) ts.
Proof using.
  intros H0 Hn. pose proof (length_layout D F) as Hl. unfold deallocate, given_back.
  rewrite Hl, Z2Nat.id by lia. destruct (Z.eqb_spec D n); [done|]. rewrite andb_true_r.
  destruct (layout D F); [cbn in Hl; lia|]. by destruct sized.
Qed.

(** When [grow] throws, the vector is as it was and the new block is given back with no
    object in it, provided that the allocator does not mind the wrong size. *)
Lemma grow_x_cases n f v x ts :
  holds n no_hole f v -> n = m_storage_size v -> n < 2 ^ 31 - 4 ->
  exists r ts', (forall sized, grow_x B kind sized v x ts = given_back sized r ts') /\
    match r with Returned _ => True | Thrown (v', p) => v' = v /\ Forall (fun c => c = Raw) p end.
Proof using HB.
  intros Hv En Hn. pose proof (block_facts B HB) as (E2 & HH & HM).
  destruct (h_end_ok _ _ _ _ _ Hv) as [Hn0 _].
  unfold grow_x. cbv zeta. destruct (throws ts) as [[] ts0]; [by exists (Thrown (v, [])), ts0|].
  rewrite (h_end _ _ _ _ _ Hv), <- En.
  set (D := if negb (n =? 0) then u64 (n * 2) else u64 (B * 16)).
  assert (D = if n =? 0 then B * 16 else n * 2) as ED.
  { unfold D. destruct (n =? 0); cbn [negb]; apply u64_small; lia. }
  assert (n mod B = 0) as Em by (rewrite En; apply (h_blocks _ _ _ _ _ Hv)).
  assert (n + 1 < D) as HD.
  { rewrite ED. destruct (Z.eqb_spec n 0) as [->|]; [lia|].
    destruct (block_split B HB n) as [Es _]. rewrite Em in Es. assert (1 <= n / B) by nia. nia. }
  rewrite raw_layout, (u64_small (n + 1)) by lia.
  destruct (construct_x_cases D (n + 1) (fun _ => Raw) x ts0) as (ts1 & [-> | ->]); [lia|done| |]; cbn [res_bind].
  - set (G := upd (fun _ => Raw) (n + 1) (Val x)). rewrite i32_small by lia.
    destruct (Z.eqb_spec n 0) as [->|E0]; cbn [negb res_bind]; [by eexists (Returned _), _|].
    unfold ptr. rewrite (holds_mem B n no_hole f v) by (done || lia). cbn [res_bind].
    destruct (move_to_x_cases n (m_storage_size v) D f G ts1) as (r & ts2 & Er & Hr); try lia.
    { intros j Hj. unfold G. by rewrite upd_ne by lia. }
    rewrite Er. cbn [res_bind]. destruct r as [p|p]; [by eexists (Returned _), _|]. subst p.
    destruct (Z.eqb_spec (n + 1) 0); [lia|]. cbn [negb]. rewrite u64_small by lia.
    unfold destroy_at. rewrite mem_layout by lia. cbn [res_bind]. unfold G at 1. rewrite upd_eq. cbn [res_bind].
    rewrite layout_insert by lia. eexists (Thrown (v, _)), _. split; [intros sized; apply deallocate_wrong; lia|].
    split; [done|]. apply layout_raw_Forall. intros j Hj. unfold G, upd. by destruct (j =? n + 1).
  - eexists (Thrown (v, _)), _. split; [intros sized; apply deallocate_wrong; lia|]. split; [done|].
    by apply layout_raw_Forall.
Qed.

(** C17: What an exception leaves of a [skip_vector]: [push_back] either does what it does
    without exceptions, or throws; then no object is left in a new block, and the vector
    is unchanged, unless the new element was to begin a block that is allocated: then the
    vector ends behind that block's unused cell, and [pop_back] destroys an object that is
    not there.  That is so on allocators that ignore the size given back; on those that
    use it, as [std::allocator] does, throwing after the allocation of a new block is
    undefined behaviour, and nothing else changes. *)
Theorem push_back_exceptions n f v x ts :
  holds n no_hole f v -> n < 2 ^ 31 - 4 ->
  exists r ts',
    (forall sized, push_back_x B kind sized v x ts =
       match r with
       | Thrown (_, _ :: _) => if sized then UB else Ok (r, ts')
       | _ => Ok (r, ts')
       end) /\
    match r with
    | Returned iv => push_back B kind v x = Ok iv
    | Thrown (v', p) =>
        Forall (fun c => c = Raw) p /\
        if (n mod B =? 0) && (n <? m_storage_size v) then
          v' = mkSkip (m_ptr v) (n + 1) (m_storage_size v) /\ pop_back B v' = UB
        else v' = v
    end.
Proof using HB.
  intros Hv Hn. destruct (h_end_ok _ _ _ _ _ Hv) as [Hn0 _]. pose proof (room B HB _ _ _ _ Hv) as Hroom.
  pose proof (h_room _ _ _ _ _ Hv) as Hle.
  enough (exists r ts', (forall sized, push_back_x B kind sized v x ts = given_back sized r ts') /\
    match r with Returned _ => True | Thrown (v', p) => Forall (fun c => c = Raw) p /\
        if (n mod B =? 0) && (n <? m_storage_size v) then
          v' = mkSkip (m_ptr v) (n + 1) (m_storage_size v) /\ pop_back B v' = UB
        else v' = v end) as (r & ts' & E & Hr).
  { exists r, ts'. split; [exact E|]. destruct r as [iv|]; [|done]. by eapply (push_back_x_returned B kind false), (E false). }
  unfold push_back_x. rewrite (h_end _ _ _ _ _ Hv), (skipped_mod B HB).
  assert (m_storage_size v <> 0 -> m_ptr v = Some (layout (m_storage_size v) (state n no_hole f))) as Hmem.
  { intros H0. rewrite (h_mem _ _ _ _ _ Hv). by rewrite (proj2 (Z.eqb_neq _ _) H0). }
  assert (forall i, n <= i -> state n no_hole f i = Raw) as HR by (intros; apply state_raw; by right).
  destruct (Z.eqb_spec (n mod B) 0) as [Em|Em]; cbn [negb andb].
  - destruct (Z.eqb_spec n (m_storage_size v)) as [Es|Es].
    { destruct (grow_x_cases n f v x ts Hv Es Hn) as (r & ts' & E & Hr). exists r, ts'. split; [exact E|].
      destruct r as [|[v' p]]; [done|]. destruct Hr as [-> Hp]. split; [done|].
      rewrite (proj2 (Z.ltb_ge _ _)) by lia. done. }
    destruct Hroom as [|Hroom]; [done|]. rewrite (proj2 (Z.ltb_lt _ _)) by lia.
    unfold ptr. rewrite Hmem by lia. cbn [res_bind].
    rewrite (u64_small (n + 1)) by lia.
    destruct (construct_x_cases (m_storage_size v) (n + 1) (state n no_hole f) x ts) as (ts1 & [-> | ->]);
      [lia|apply HR; lia| |]; cbn [res_bind]; [by eexists (Returned _), _|].
    eexists (Thrown (_, [])), _. split; [reflexivity|]. split; [constructor|]. split; [done|].
    unfold pop_back. cbn [m_end m_ptr ptr]. rewrite (proj2 (Z.eqb_neq (n + 1) 0)) by lia. cbn [negb ASSERT res_bind].
    replace (n + 1 - 1) with n by lia. rewrite u64_small by lia. unfold ptr. cbn [m_ptr res_bind].
    unfold destroy_at. rewrite mem_layout by lia. cbn [res_bind]. by rewrite HR by lia.
  - unfold ptr. rewrite Hmem by lia. cbn [res_bind].
    destruct (construct_x_cases (m_storage_size v) n (state n no_hole f) x ts) as (ts1 & [-> | ->]);
      [lia|apply HR; lia| |]; cbn [res_bind]; [by eexists (Returned _), _|].
    eexists (Thrown (_, [])), _. split; [reflexivity|]. by split; [constructor|].
Qed.

(** With [std::allocator] the [catch] block of [grow] is undefined: it gives the new block
    back with the size of the old one. *)
Lemma grow_catch_wrong_size n f v x ts :
  holds n no_hole f v -> n = m_storage_size v -> n < 2 ^ 31 - 4 ->
  grow_x B kind true v x (false :: true :: ts) = UB.
Proof using HB.
  intros Hv En Hn. pose proof (block_facts B HB) as (E2 & HH & HM). destruct (h_end_ok _ _ _ _ _ Hv) as [Hn0 _].
  unfold grow_x. cbv zeta. cbn [throws]. rewrite (h_end _ _ _ _ _ Hv), <- En.
  set (D := if negb (n =? 0) then u64 (n * 2) else u64 (B * 16)).
  assert (D = if n =? 0 then B * 16 else n * 2) as ED.
  { unfold D. destruct (n =? 0); cbn [negb]; apply u64_small; lia. }
  assert (n mod B = 0) as Em by (rewrite En; apply (h_blocks _ _ _ _ _ Hv)).
  assert (n + 1 < D) as HD.
  { rewrite ED. destruct (Z.eqb_spec n 0) as [->|]; [lia|].
    destruct (block_split B HB n) as [Es _]. rewrite Em in Es. assert (1 <= n / B) by nia. nia. }
  rewrite raw_layout, (u64_small (n + 1)) by lia. unfold construct_x. rewrite construct_layout by (done || lia).
  cbn [res_bind throws]. unfold deallocate. rewrite length_layout, Z2Nat.id by lia. cbn [andb].
  by rewrite (proj2 (Z.eqb_neq D n)) by lia.
Qed.
End Exceptions.

(** ** The queue *)

Section Queue.
Context {K V : Type} (block_size : Z) (kkind vkind : move_kind) (sized : bool).
Context (sorts_before : K -> K -> bool).

(** [push] of a key with a payload, up to the sifting, whose moves do not throw: the
    queue it leaves. *)
Definition push_x (q : prio_queue K V) (key : K) (value : V) (ts : list bool)
    : res (outcome (prio_queue K V) (prio_queue K V) * list bool) :=
  let! (r, ts) :=
    match m_payload q with
    | Some v =>
        let! (r, ts) := push_back_x block_size vkind sized v value ts in
        Ok (match r with Returned (_, v) => Returned (Some v) | Thrown (v, _) => Thrown (Some v) end, ts)
    | None => Ok (Returned None, ts)
    end in
  match r with
  | Thrown p => Ok (Thrown (mkPrio (m_storage q) p), ts)
  | Returned p =>
      let! (r, ts) := push_back_x block_size kkind sized (m_storage q) key ts in
      match r with
      | Thrown (s, _) => Ok (Thrown (mkPrio s p), ts)
      | Returned (hole_idx, s) =>
          let! (tmp, s) := take_back s in
          let! (val, p) := p_take_back p in
          let q := mkPrio s p in
          let! q := rise block_size sorts_before (walk_fuel q) q hole_idx tmp val in
          Ok (Returned q, ts)
      end
  end.

(** A push that returns is that of [PrioQueue]. *)
Lemma push_x_returned q key value ts q' ts' :
  push_x q key value ts = Ok (Returned q', ts') -> push block_size kkind vkind sorts_before q key (Some value) = Ok q'.
Proof using.
  unfold push_x, push, p_push_back, push_key.
  assert (forall r0 : res (outcome (payload V) (payload V) * list bool), forall p1,
    (forall p ts1, r0 = Ok (Returned p, ts1) -> p1 = Ok p) ->
    (let! (r, ts) := r0 in
     match r with
     | Thrown p => Ok (Thrown (mkPrio (m_storage q) p), ts)
     | Returned p =>
         let! (r, ts) := push_back_x block_size kkind sized (m_storage q) key ts in
         match r with
         | Thrown (s, _) => Ok (Thrown (mkPrio s p), ts)
         | Returned (hole_idx, s) =>
             let! (tmp, s) := take_back s in
             let! (val, p) := p_take_back p in
             let q := mkPrio s p in
             let! q := rise block_size sorts_before (walk_fuel q) q hole_idx tmp val in
             Ok (Returned q, ts)
         end
     end) = Ok (Returned q', ts') ->
    (let! p := p1 in
     let! (hole_idx, s) := push_back block_size kkind (m_storage q) key in
     let! (tmp, s) := take_back s in
     let! (val, p) := p_take_back p in
     let q := mkPrio s p in rise block_size sorts_before (walk_fuel q) q hole_idx tmp val) = Ok q') as Hmain.
  { intros r0 p1 Hp. destruct r0 as [[[p|p] ts1]| | |]; [|done..]. rewrite (Hp p ts1 eq_refl). cbn [res_bind].
    destruct (push_back_x _ _ _ _ _ _) as [[[[i s]|[s ?]] ts2]| | |] eqn:E; [|done..]. cbn [res_bind].
    rewrite (push_back_x_returned _ _ _ _ _ _ _ _ E). cbn [res_bind].
    destruct (take_back s) as [[tmp s']| | |]; [|done..]. cbn [res_bind].
    destruct (p_take_back p) as [[val p']| | |]; [|done..]. cbn [res_bind]. cbv zeta.
    destruct (rise _ _ _ _ _ _ _); [|done..]. by intros [= <- _]. }
  apply Hmain. intros p ts1. destruct (m_payload q) as [v|]; [|by intros [= <- _]].
  destruct (push_back_x _ _ _ _ _ _) as [[[[i s]|[s ?]] ts2]| | |] eqn:E; [|done..]. cbn [res_bind].
  intros [= <- _]. by rewrite (push_back_x_returned _ _ _ _ _ _ _ _ E).
Qed.
End Queue.

(** A vector that fills its first block of four, with room for more. *)
Definition demo_vector : skip_vector Z := mkSkip (Some (layout 64 (state 4 4 no_hole (fun i => 10 * i)))) 4 64.

Lemma push_back_exceptions_witness :
  exists r ts', push_back_x 4 may_throw true demo_vector 7 [true] = Ok (r, ts') /\
    match r with Thrown (v', _) => m_end v' = 5 /\ pop_back 4 v' = UB | Returned _ => False end.
Proof.
  assert (block_ok 4) as HB by (exists 2; lia).
  destruct (push_back_exceptions 4 HB may_throw 4 (fun i => 10 * i) demo_vector 7 [true]) as (r & ts' & E & Hr).
  - split; cbn; [done| |lia|done|done]. split; [lia|]. right. by unfold is_cell.
  - lia.
  - pose proof (E true) as Et. destruct r as [iv|[v' p]]; [by vm_compute in Et|].
    destruct p as [|c p]; [|by vm_compute in Et]. exists (Thrown (v', [])), ts'. split; [exact Et|].
    destruct Hr as [_ Hr]. cbn in Hr. destruct Hr as [-> Hr]. by split.
Defined.

(** When the constructor of a key throws, the payload pushed before it stays: from then on
    keys and payloads are out of step, and [pop] meets a payload that was moved away. *)
Example key_throws_payload_stays :
  (let! (r, _) := push_x 8 may_throw may_throw false Z.ltb (new_prio_queue true : prio_queue Z Z) 5 50 [] in
   match r with
   | Returned q =>
       let! (r, _) := push_x 8 may_throw may_throw false Z.ltb q 6 60 [false; true] in
       match r with
       | Thrown q =>
           let! q := push 8 may_throw may_throw Z.ltb q 7 (Some 70) in
           let! q := push 8 may_throw may_throw Z.ltb q 8 (Some 80) in
           let! e := top 8 q in
           Ok (e, size 8 q, match pop 8 Z.ltb q with UB => true | _ => false end)
       | Returned _ => Abort
       end
   | Thrown _ => Abort
   end) = Ok ((5, Some 50), 3, true).
Proof. vm_compute. reflexivity. Qed.
