(* ===== verification/QueueInstances.v ===== *)
(** * The queues are timer queues

    [PriorityQueue], [PriorityQueueUnrolled], [PriorityQueueVect] and
    [rollbear::prio_queue<B, double, PQ_Element*>] as instances of [TimerQueue]. *)

From S2P Require Import Prelude Time HeapTheory PQElement PriorityQueue PQUnrolled PQTheory PQSpec TimerQueue PQVect PrioQueue PrioAddress PrioVector PrioGrow PrioSpec PrioProps.

(** ** The heap of pointers *)

Definition pq_add (st : store) (q : PriorityQueue) (t : time_t) (e : nat) : res (store * PriorityQueue) :=
  let! (_, st, q) := PriorityQueue.Add st q e in Ok (st, q).

(** A queue does not look at elements it does not hold. *)
Lemma pq_inv_agree st st' q l :
  (forall e, e ∈ l -> st' !! e = st !! e) -> pq_inv st q l -> pq_inv st' q l.
Proof.
  intros Ha [[Hh Hel] Hn Hr Hl Ho]. split; try done.
  - split; [done|]. intros i e Hi. rewrite Ha; [by apply Hel|by apply list_elem_of_lookup_2 with i].
  - apply (heap_ok_ext (keys st l)); [|done]. intros i Hi. unfold keys, tm.
    rewrite Ha; [done|]. apply list_elem_of_lookup_2 with (Z.to_nat i). by apply llookup.
Qed.

Definition pq_holds (st : store) (q : PriorityQueue) (l : list nat) : Prop :=
  exists l', l' ≡ₚ l /\ pq_inv st q l'.

Lemma least_perm st e l l' : l ≡ₚ l' -> least st e l -> least st e l'.
Proof. intros Hp Hl x Hx. apply Hl. by rewrite Hp. Qed.

#[export] Instance pq_timer_queue : TimerQueue PriorityQueue.
Proof.
  refine {| tq_new := new_PriorityQueue 16; tq_add := pq_add; tq_remove := PriorityQueue.Remove;
            tq_holds := pq_holds |}; unfold pq_holds.
  - intros st. exists []. split; [done|]. by apply new_inv.
  - intros st q l l' Hp (k & Hk & I). exists k. split; [by rewrite Hk|done].
  - intros st st' q l Ha (k & Hk & I). exists k. split; [done|]. apply (pq_inv_agree st); [|done].
    intros e He. apply Ha. by rewrite <- Hk.
  - intros st q l (k & Hk & I). rewrite <- Hk. eapply shape_NoDup. apply I.
  - intros st q l e (k & Hk & I) He. rewrite <- Hk in He. apply list_elem_of_lookup in He as [i Hi].
    destruct (sh_elem _ _ _ (inv_shape _ _ _ I) i e Hi) as (x & Hx & _ & Hn). by exists x.
  - intros st q l e x (k & Hk & I) Hx Hn He Hcap.
    destruct (Add_ok st q k e I) as (st' & q' & k' & E & I' & Hp & Ht & _);
      [by exists x|by rewrite Hk|right; unfold llen; by rewrite Hk|].
    exists st', q'. unfold pq_add. rewrite E. split; [done|]. split; [|done]. exists k'. split; [by rewrite Hp, Hk|done].
  - intros st q (k & Hk & I). apply Permutation_nil_r in Hk as ->. unfold PriorityQueue.Remove.
    by rewrite (inv_size _ _ _ I).
  - intros st q l (k & Hk & I) Hl. destruct k as [|top k]; [destruct Hl; by apply Permutation_nil_l in Hk|].
    destruct (Remove_cons st q top k I) as (st' & q' & k' & E & I' & Hp & Ht & _).
    exists top, st', q', k'. split; [done|]. split; [by rewrite <- Hk, Hp|]. split; [by exists k'|].
    split; [|done]. apply (least_perm _ _ (top :: k)); [done|]. intros y Hy. by eapply root_least_elem.
Defined.

(** ** The unrolled heap, on the same state *)

Definition unrolled_add (st : store) (q : PriorityQueue) (t : time_t) (e : nat) : res (store * PriorityQueue) :=
  let! (_, st, q) := PQUnrolled.Add st q e in Ok (st, q).

Definition unrolled_timer_queue : TimerQueue PriorityQueue.
Proof.
  refine {| tq_new := new_PriorityQueue 16; tq_add := unrolled_add; tq_remove := PQUnrolled.Remove;
            tq_holds := pq_holds |}.
  - exact (tq_holds_new (Q:=PriorityQueue)).
  - exact (tq_holds_perm (Q:=PriorityQueue)).
  - exact (tq_holds_store (Q:=PriorityQueue)).
  - exact (tq_holds_nodup (Q:=PriorityQueue)).
  - exact (tq_holds_live (Q:=PriorityQueue)).
  - intros st q l e x. unfold unrolled_add. rewrite Add_same. exact (tq_add_ok (Q:=PriorityQueue) st q l e x).
  - intros st q. rewrite Remove_same. exact (tq_remove_nil (Q:=PriorityQueue) st q).
  - intros st q l. rewrite Remove_same. exact (tq_remove_ok (Q:=PriorityQueue) st q l).
Defined.

(** ** The sorted vector *)

Definition vect_add (st : store) (q : PriorityQueueVect) (t : time_t) (e : nat)
    : res (store * PriorityQueueVect) :=
  let! (_, st, q) := vAdd st q e in Ok (st, q).

Definition vect_holds (st : store) (q : PriorityQueueVect) (l : list nat) : Prop :=
  vect_inv st q /\ vheap q ≡ₚ l /\ NoDup l.

Lemma vect_inv_agree st st' q :
  (forall e, e ∈ vheap q -> st' !! e = st !! e) -> vect_inv st q -> vect_inv st' q.
Proof.
  intros Ha [Hl Hs]. split; [intros e He; rewrite Ha by done; by apply Hl|]. clear Hl.
  induction Hs as [|a l Hs IH Hall]; constructor.
  - apply IH. intros e He. apply Ha. by right.
  - apply Forall_forall. intros b Hb. rewrite Forall_forall in Hall. specialize (Hall b Hb).
    unfold not_before, tm in *. rewrite !Ha; [done|left|by right].
Qed.

Lemma snoc_perm {A} (l : list A) e : l ++ [e] ≡ₚ e :: l.
Proof. symmetry. apply Permutation_cons_append. Qed.

#[export] Instance vect_timer_queue : TimerQueue PriorityQueueVect.
Proof.
  refine {| tq_new := new_PriorityQueueVect; tq_add := vect_add; tq_remove := vRemove;
            tq_holds := vect_holds |}; unfold vect_holds.
  - intros st. split; [|split; [done|constructor]]. split; [|constructor].
    intros e He. by apply not_elem_of_nil in He.
  - intros st q l l' Hp (I & Hk & Hn). rewrite <- Hp. by split.
  - intros st st' q l Ha (I & Hk & Hn). split; [|done]. apply (vect_inv_agree st); [|done].
    intros e He. apply Ha. by rewrite <- Hk.
  - by intros st q l (_ & _ & Hn).
  - intros st q l e ([Hl _] & Hk & _) He. apply Hl. by rewrite Hk.
  - intros st q l e x (I & Hk & Hn) Hx Hnx He _.
    destruct (vAdd_ok st q e x I Hx Hnx) as (st' & q' & E & I' & Hp & Ht).
    exists st', q'. unfold vect_add. rewrite E. split; [done|]. split; [|done]. split; [done|].
    split; [by rewrite Hp, Hk|by constructor].
  - intros st q (_ & Hk & _). apply Permutation_nil_r in Hk. unfold vRemove. by rewrite Hk.
  - intros st q l (I & Hk & Hn) Hl. pose proof (vRemove_ok st q I) as H.
    destruct (vRemove st q) as [[[[e|] st'] q']| | |]; [| |done..].
    + destruct H as (I' & Hv & Ht & Hle). rewrite Hv in Hk.
      assert (l ≡ₚ e :: vheap q') as Hp by (by rewrite <- Hk, snoc_perm).
      exists e, st', q', (vheap q'). split; [done|]. split; [done|]. split; [|split; [|done]].
      * split; [done|]. split; [done|]. rewrite Hp in Hn. by apply NoDup_cons in Hn as [_ Hn].
      * intros y Hy. apply Hle. by rewrite Hv, Hk.
    + destruct H as (Hv & _). rewrite Hv in Hk. destruct Hl. by apply Permutation_nil_l in Hk.
Defined.

(** ** The B-heap *)

Notation timer_prio_queue := (prio_queue number nat).

(** A [double] as a key; NaN, which [operator<] does not order, is none. *)
Definition as_number (t : time_t) : option number :=
  match bool_dec (not_nan t) true with left H => Some (exist _ t H) | right _ => None end.

(** [q.push(t, e)]. *)
Definition prio_add (B : Z) (st : store) (q : timer_prio_queue) (t : time_t) (e : nat)
    : res (store * timer_prio_queue) :=
  match as_number t with
  | Some k => let! q := push B pod pod ltb q k (Some e) in Ok (st, q)
  | None => UB
  end.

(** [e = q.top(); q.pop();] of a queue that is not empty. *)
Definition prio_remove (B : Z) (st : store) (q : timer_prio_queue)
    : res (option nat * store * timer_prio_queue) :=
  if empty q then Ok (None, st, q)
  else
    let! (k, e) := top B q in
    let! q := pop B ltb q in
    match e with Some e => Ok (Some e, st, q) | None => UB end.

(** [items] are the elements of [l] under their times, and [q] holds them. *)
Record prio_items (B : Z) (st : store) (q : timer_prio_queue) (l : list nat)
    (items : list (number * nat)) : Prop := mkPrioItems {
  pi_heap : bheap B q items;
  pi_elems : items.*2 ≡ₚ l;
  pi_nodup : NoDup l;
  pi_times : forall k e, (k, e) ∈ items -> time <$> st !! e = Some (`k);
  pi_payload : forall x, pay q x = Some x
}.

Definition prio_holds (B : Z) (st : store) (q : timer_prio_queue) (l : list nat) : Prop :=
  exists items, prio_items B st q l items.

Lemma as_number_ok t (Ht : not_nan t = true) : exists k, as_number t = Some k /\ `k = t.
Proof.
  unfold as_number. destruct (bool_dec (not_nan t) true) as [H|]; [|done]. by exists (exist _ t H).
Qed.

Lemma number_le_rank (a b : number) : le a b -> le (rank (`a)) (rank (`b)).
Proof.
  destruct a as [a Ha], b as [b Hb]. unfold le. cbn. unfold number_ltb. cbn.
  by rewrite SFltb_rank.
Qed.

Section Prio.
Context (B : Z) (HB : block_ok B).

(** Few items end at a low cell. *)
Lemma end_small (q : timer_prio_queue) l :
  bheap B q l -> Z.of_nat (length l) < CAPACITY -> m_end (m_storage q) < 2 ^ 31 - 4.
Proof using HB.
  intros (n & h & Hq & Hn & _ & Hl) Hlen. unfold CAPACITY in Hlen.
  rewrite (h_end _ _ _ _ _ (r_keys _ _ _ _ _ _ Hq)).
  destruct (repr_end _ _ _ _ _ _ Hq) as [H0 _].
  rewrite Hl in Hlen. unfold items in Hlen. rewrite length_fmap, length_indices in Hlen by done.
  pose proof (block_facts B HB) as (E2 & HH & _).
  pose proof (Z.div_le_compat_l (n + B - 1) 2 2). destruct (block_split B HB (n + B - 1)) as [Es Hs].
  set (d := (n + B - 1) / B) in *. assert (2 <= B) by lia. nia.
Qed.

Lemma prio_items_times st q l items k e :
  prio_items B st q l items -> (k, e) ∈ items -> e ∈ l /\ tm st e = rank (`k).
Proof using.
  intros [_ He _ Ht _] Hin. split.
  - rewrite <- He. by apply (list_elem_of_fmap_2 snd _ (k, e)).
  - unfold tm. by rewrite (Ht k e Hin).
Qed.

Lemma prio_items_elem st q l items e :
  prio_items B st q l items -> e ∈ l -> exists k, (k, e) ∈ items.
Proof using.
  intros [_ He _ _ _] Hin. rewrite <- He in Hin. apply list_elem_of_fmap in Hin as ([k e'] & -> & Hin).
  by exists k.
Qed.

Lemma prio_add_ok st q l e x :
  prio_holds B st q l -> st !! e = Some x -> not_nan (time x) = true -> e ∉ l ->
  Z.of_nat (length l) < CAPACITY ->
  exists q', prio_add B st q (time x) e = Ok (st, q') /\ prio_holds B st q' (e :: l).
Proof using HB.
  intros (items & [Hq He Hn Ht Hp]) Hx Hnx Hel Hlen.
  destruct (as_number_ok _ Hnx) as (k & Ek & Hk). unfold prio_add. rewrite Ek.
  assert (length items = length l) as Hll by (rewrite <- He; by rewrite length_fmap).
  destruct (push_ok B HB pod pod q items k e Hq) as (q' & E & Hq' & Hs).
  { apply (end_small q items); [done|by rewrite Hll]. }
  rewrite Hp in E. rewrite E. exists q'. split; [done|]. exists ((k, e) :: items). split.
  - done.
  - cbn. by rewrite He.
  - by constructor.
  - intros k' e' Hin. apply elem_of_cons in Hin as [[= -> ->]|Hin]; [by rewrite Hx, Hk|by apply Ht].
  - intros y. by rewrite Hs.
Qed.

Lemma prio_remove_ok st q l :
  prio_holds B st q l -> l <> [] ->
  exists k e q' l', top B q = Ok (k, Some e) /\ pop B ltb q = Ok q' /\ empty q = false /\
    l ≡ₚ e :: l' /\ prio_holds B st q' l' /\ least st e l /\ time <$> st !! e = Some (`k).
Proof using HB.
  intros (items & I) Hl. pose proof I as [Hq He Hn Ht Hp].
  assert (items <> []) as Hit by (intros ->; apply Hl; by apply Permutation_nil_l in He).
  destruct (pop_ok B HB q items Hq Hit) as ([k e] & items' & q' & E1 & E2 & Hpi & Hq' & Hs & Hle).
  cbn [fst snd] in *. rewrite Hp in E1. exists k, e, q', (items'.*2). split; [done|]. split; [done|].
  assert (l ≡ₚ e :: items'.*2) as Hpl by (rewrite <- He, Hpi; done).
  assert ((k, e) ∈ items) as Hin1 by (rewrite Hpi; left).
  split; [|split; [done|split; [|split; [|by apply Ht]]]].
  - unfold top in E1. by destruct (empty q).
  - exists items'. split; [done|done| | |by intros y; rewrite Hs].
    + rewrite Hpl in Hn. by apply NoDup_cons in Hn as [_ Hn].
    + intros k' e' Hin. apply Ht. rewrite Hpi. by right.
  - intros y Hy. destruct (prio_items_elem _ _ _ _ _ I Hy) as [ky Hin].
    destruct (prio_items_times _ _ _ _ _ _ I Hin) as [_ ->].
    destruct (prio_items_times _ _ _ _ _ _ I Hin1) as [_ ->].
    rewrite Forall_forall in Hle. apply number_le_rank. exact (Hle _ Hin).
Qed.

Lemma prio_empty st q : prio_holds B st q [] -> empty q = true.
Proof using HB.
  intros (items & [Hq He _ _ _]). symmetry in He. apply Permutation_nil_l in He.
  destruct items; [|done]. destruct Hq as (n & h & Hq & _ & _ & Hl).
  rewrite (empty_end B n no_hole no_hole h q Hq). apply Z.eqb_eq.
  apply (items_nil B HB n h (repr_end _ _ _ _ _ _ Hq)). by apply Permutation_nil_l in Hl.
Qed.

Definition prio_timer_queue : TimerQueue timer_prio_queue.
Proof using HB.
  refine {| tq_new := new_prio_queue true; tq_add := prio_add B; tq_remove := prio_remove B;
            tq_holds := prio_holds B |}.
  - intros st. exists []. split; [exact (new_ok B true)|done|constructor| |done].
    intros k e He. by apply not_elem_of_nil in He.
  - intros st q l l' Hp (items & [Hq He Hn Ht Hy]). exists items. split; try done; by rewrite <- Hp.
  - intros st st' q l Ha (items & I). exists items. pose proof I as [Hq He Hn Ht Hy]. split; try done.
    intros k e Hin. rewrite Ha; [by apply Ht|]. by eapply prio_items_times.
  - by intros st q l (items & [_ _ Hn _ _]).
  - intros st q l e (items & I) He. destruct (prio_items_elem _ _ _ _ _ I He) as [k Hin].
    pose proof (pi_times _ _ _ _ _ I _ _ Hin) as Hx. destruct (st !! e) as [x|] eqn:E; [|done].
    exists x. split; [done|]. injection Hx as ->. by destruct k.
  - intros st q l e x Hq Hx Hn He Hlen. destruct (prio_add_ok st q l e x Hq Hx Hn He Hlen) as (q' & E & Hq').
    by exists st, q'.
  - intros st q Hq. unfold prio_remove. by rewrite (prio_empty st q Hq).
  - intros st q l Hq Hl. destruct (prio_remove_ok st q l Hq Hl) as (k & e & q' & l' & E1 & E2 & E3 & Hp & Hq' & Hle & _).
    exists e, st, q', l'. unfold prio_remove. rewrite E3, E1. cbn [res_bind]. rewrite E2. by cbn [res_bind].
Defined.
End Prio.
