(* ===== verification/QueueMain.v ===== *)
(** * The programs of [queue/main.cc]

    [quick_test] and [ordering] print what the queues give back, [benchmark] times eight
    containers on the same shuffled elements.  What they print is a list of [line]s; the
    clock and the shuffle are arguments, and [absl::btree_set] is any instance of the
    class [OrderedSet] that [std::set] is one of. *)

From stdpp Require Import strings.
From S2P Require Import Prelude Time Doubles PQElement PriorityQueue PQTheory PQSpec TimerQueue PQVect PrioQueue PrioAddress PrioProps QueueInstances.

(** ** What is printed *)

Inductive line : Type :=
| HeapSize (heap_size max_size : Z)
| Offset_Time (off : Z) (t : time_t)
| Time_line (t : time_t)
| Size_line (n : Z)
| Int_line (n : Z)
| Blank
| Stock_row (add_time remove_time total : time_t)
| Row (where_ : string) (add_time add_ratio remove_time remove_ratio total total_ratio : time_t)
| Differ_in_size
| Index_differs (i : nat) (stock output : time_t).

(** ** The clock *)

Record timeval := mkTimeval { tv_sec : Z; tv_usec : Z }.

Definition seconds (t : timeval) : time_t :=
  double_add (int_double (tv_sec t)) (double_div (int_double (tv_usec t)) (int_double 1000000)).

Definition time_diff (start end_ : timeval) : time_t := double_sub (seconds end_) (seconds start).

(** The loop of [diagnostics]: the first index where the two differ. *)
Fixpoint first_difference (i : nat) (output stock : list time_t) : list line :=
  match output, stock with
  | o :: output, s :: stock =>
      if negb (SFeqb o s) then [Index_differs i s o] else first_difference (S i) output stock
  | _, _ => []
  end.

Definition diagnostics (where_ : string) (start mid end_ : timeval) (stock output : list time_t)
    (stock_add stock_remove : time_t) : list line :=
  let add_time := time_diff start mid in
  let remove_time := time_diff mid end_ in
  let total := double_add add_time remove_time in
  if SFeqb stock_add (S754_zero false) then [Stock_row add_time remove_time total]
  else
    (if negb (Nat.eqb (length output) (length stock)) then [Differ_in_size]
     else if negb (Nat.eqb (length output) 0) then first_difference 0 output stock
     else [])
    ++ [Row where_ add_time (double_div add_time stock_add)
          remove_time (double_div remove_time stock_remove)
          total (double_div total (double_add stock_add stock_remove))].

(** ** The containers of the standard library *)

(** [Comparer]. *)
Definition Comparer (st : store) (l r : nat) : res bool :=
  let! tl := Time st l in let! tr := Time st r in Ok (SFltb tl tr).

(** [StdPQ], [std::priority_queue<PQ_Element*, std::vector<PQ_Element*>, Comparer>]: [top]
    is an element that [Comparer] puts before no other; which one, among equals, the
    standard leaves open. *)
Fixpoint greatest (st : store) (best : nat) (l : list nat) : res nat :=
  match l with
  | [] => Ok best
  | x :: l => let! b := Comparer st best x in greatest st (if b : bool then x else best) l
  end.

Definition StdPQ_top (st : store) (q : list nat) : res nat :=
  match q with [] => UB | x :: l => greatest st x l end.
Definition StdPQ_pop (st : store) (q : list nat) : res (list nat) :=
  let! e := StdPQ_top st q in
  match erase_first e q with Some q => Ok q | None => UB end.

(** [insert] of [std::set]: before the first element not before [e], unless that one is
    equivalent; the elements are in order. *)
Fixpoint set_insert (st : store) (e : nat) (l : list nat) : res (list nat) :=
  match l with
  | [] => Ok [e]
  | x :: l' =>
      let! before := Comparer st x e in
      if before : bool then let! r := set_insert st e l' in Ok (x :: r)
      else
        let! after := Comparer st e x in
        Ok (if after : bool then e :: x :: l' else x :: l')
  end.

(** [insert] of [std::multiset]: behind the elements that are equivalent. *)
Fixpoint multiset_insert (st : store) (e : nat) (l : list nat) : res (list nat) :=
  match l with
  | [] => Ok [e]
  | x :: l' =>
      let! after := Comparer st e x in
      if after : bool then Ok (e :: x :: l')
      else let! r := multiset_insert st e l' in Ok (x :: r)
  end.

(** A set ordered by [Comparer]: what its documentation says of [insert], [begin] and
    [erase(begin())]. *)
Class OrderedSet (S : Type) := {
  os_empty : S;
  os_elems : S -> list nat;
  os_insert : store -> nat -> S -> res S;
  os_begin : S -> option nat;
  os_erase_begin : S -> S;
  os_empty_elems : os_elems os_empty = [];
  os_insert_elems : forall st e s l, set_insert st e (os_elems s) = Ok l ->
    exists s', os_insert st e s = Ok s' /\ os_elems s' = l;
  os_begin_elems : forall s, os_begin s = head (os_elems s);
  os_erase_elems : forall s, os_elems (os_erase_begin s) = tail (os_elems s)
}.

(** [std::set<PQ_Element*, Comparer>]. *)
#[refine] Instance std_set : OrderedSet (list nat) := {|
  os_empty := []; os_elems := id; os_insert := set_insert; os_begin := head; os_erase_begin := tail
|}.
Proof. all: try done. intros st e s l E. by exists l. Defined.

(** [for (auto r : randoms) { auto* e = new PQ_Element(r); q.insert(e); }] *)
Fixpoint fill_with {Q} (insert : store -> nat -> Q -> res Q) (w : world) (q : Q) (ts : list time_t)
    : res (world * Q) :=
  match ts with
  | [] => Ok (w, q)
  | t :: ts =>
      let '(e, w) := new_element w t in
      let! q := insert (objects w) e q in
      fill_with insert w q ts
  end.

(** ** The loops that empty them *)

(** [while (!q.empty()) { auto e = q.top(); delete e.second; q.pop(); }], and what it
    shows of each key. *)
Fixpoint rollbear_empty (B : Z) (show : number -> list line) (fuel : nat) (w : world) (q : timer_prio_queue)
    : res (list line * world * timer_prio_queue) :=
  match fuel with
  | O => NoFuel
  | S fuel =>
      if empty q then Ok ([], w, q)
      else
        let! (k, v) := top B q in
        let! w := (match v with Some e => delete_element w e | None => UB end) in
        let! q := pop B ltb q in
        let! (ls, w, q) := rollbear_empty B show fuel w q in
        Ok (show k ++ ls, w, q)
  end.

Fixpoint StdPQ_empty (fuel : nat) (w : world) (q : list nat) : res world :=
  match fuel with
  | O => NoFuel
  | S fuel =>
      match q with
      | [] => Ok w
      | _ =>
          let! e := StdPQ_top (objects w) q in
          let! q := StdPQ_pop (objects w) q in
          let! w := delete_element w e in
          StdPQ_empty fuel w q
      end
  end.

(** [while (!q.empty()) { t = *(q.begin()); q.erase(q.begin()); delete t; }] *)
Fixpoint btree_empty {S} `{OrderedSet S} (fuel : nat) (w : world) (q : S) : res world :=
  match fuel with
  | O => NoFuel
  | Datatypes.S fuel =>
      match os_begin q with
      | None => Ok w
      | Some t => let! w := delete_element w t in btree_empty fuel w (os_erase_begin q)
      end
  end.

(** [while (!q.empty()) q.erase(q.begin());] *)
Fixpoint set_empty (fuel : nat) (q : list nat) : res (list nat) :=
  match fuel with
  | O => NoFuel
  | S fuel => match os_begin q with None => Ok q | Some _ => set_empty fuel (os_erase_begin q) end
  end.

(** ** The blocks of [benchmark]: the destructor of [q] ends each. *)

Definition ordered_block (w : world) (ts : list time_t) : res (list time_t * world) :=
  let! (w, q) := fill w (new_PriorityQueue 16) ts in
  let! (ordered, w, q) := empty_out (S (length ts)) w q in
  let! st := destroy (objects w) q in
  Ok (ordered, set_objects st w).

Definition StdPQ_block (w : world) (ts : list time_t) : res world :=
  let! (w, q) := fill_with (fun _ e q => Ok (e :: q)) w [] ts in
  StdPQ_empty (S (length ts)) w q.

Definition btree_block {S} `{OrderedSet S} (w : world) (ts : list time_t) : res world :=
  let! (w, q) := fill_with os_insert w (os_empty (S:=S)) ts in
  btree_empty (Datatypes.S (length ts)) w q.

Definition set_block (w : world) (ts : list time_t) : res world :=
  let! (w, q) := fill_with os_insert w (os_empty (S:=list nat)) ts in
  let! q := set_empty (S (length ts)) q in
  Ok w.

(** The queue is freed, the elements it points at are not touched. *)
Definition destroy_prio (B : Z) (q : timer_prio_queue) : res unit :=
  let! _ := delete_skip_vector B pod (m_storage q) in
  match m_payload q with
  | Some v => let! _ := delete_skip_vector B pod v in Ok tt
  | None => Ok tt
  end.

Definition rollbear_block (B : Z) (HB : block_ok B) (show : number -> list line) (w : world) (ts : list time_t)
    : res (list line * world) :=
  let! (w, q) := @fill _ (prio_timer_queue B HB) w (new_prio_queue true) ts in
  let! (ls, w, q) := rollbear_empty B show (S (length ts)) w q in
  let! _ := destroy_prio B q in
  Ok (ls, w).

Lemma block_16 : block_ok 16.
Proof. by exists 4. Qed.
Lemma block_32 : block_ok 32.
Proof. by exists 5. Qed.
Lemma block_64 : block_ok 64.
Proof. by exists 6. Qed.

Definition rollbear_8 := rollbear_block 8 block_8 (fun _ => []).
Definition rollbear_16 := rollbear_block 16 block_16 (fun _ => []).
Definition rollbear_32 := rollbear_block 32 block_32 (fun _ => []).
Definition rollbear_64 := rollbear_block 64 block_64 (fun _ => []).

(** ** [benchmark] *)
Section Benchmark.
(** [std::shuffle], and the readings of [gettimeofday] in their order. *)
Context (shuffle : list Z -> list Z) (clock : nat -> timeval).
Context {btree_set : Type} `{OrderedSet btree_set}.

Definition generate_randoms (size : Z) : list Z := shuffle (seqZ 1 size).

(** The row for block [n]; its readings are [3 n] to [3 n + 2]. *)
Definition report (n : nat) (where_ : string) (stock_add stock_remove : time_t) : list line :=
  diagnostics where_ (clock (3 * n)) (clock (3 * n + 1)) (clock (3 * n + 2)) [] [] stock_add stock_remove.

Definition zero : time_t := S754_zero false.

(** [benchmark], with the number of elements as an argument: what [ordered] holds, the
    heap at the end, and what was printed. *)
Definition benchmark_of (size : Z) : res (list time_t * world * list line) :=
  let ts := int_double <$> generate_randoms size in
  let! (ordered, w) := ordered_block empty_world ts in
  let stock_add := time_diff (clock 0) (clock 1) in
  let stock_remove := time_diff (clock 1) (clock 2) in
  let! w := StdPQ_block w ts in
  let! w := btree_block (S:=btree_set) w ts in
  let! w := set_block w ts in
  let! (_, w) := rollbear_8 w ts in
  let! (_, w) := rollbear_16 w ts in
  let! (_, w) := rollbear_32 w ts in
  let! (_, w) := rollbear_64 w ts in
  Ok (ordered, w,
      report 0 "PQ" zero zero ++
      report 1 "StdPQ" stock_add stock_remove ++
      report 2 "absl::btree_set" stock_add stock_remove ++
      report 3 "std::multiset" stock_add stock_remove ++
      report 4 "rollbear-8" zero zero ++ report 5 "rollbear-16" zero zero ++
      report 6 "rollbear-32" zero zero ++ report 7 "rollbear-64" zero zero).

Definition benchmark : res (list time_t * world * list line) := benchmark_of 200000.
End Benchmark.

(** ** [quick_test] and [ordering] *)

(** [PriorityQueue::Output]. *)
Fixpoint Output_loop (n : nat) (i : Z) (st : store) (q : PriorityQueue) : res (list line) :=
  match n with
  | O => Ok []
  | S n =>
      let! e := heap_at q i in
      let! off := Offset st e in
      let! t := Time st e in
      let! ls := Output_loop n (i + 1) st q in
      Ok (Offset_Time off t :: ls)
  end.
Definition Output (st : store) (q : PriorityQueue) : res (list line) :=
  let! ls := Output_loop (Z.to_nat (heap_size q)) 0 st q in
  Ok (HeapSize (heap_size q) (max_heap_size q) :: ls).

(** The elements [e1] to [e5], with times 1, 3, 2, 5 and 4. *)
Fixpoint new_elements (w : world) (ts : list time_t) : list nat * world :=
  match ts with
  | [] => ([], w)
  | t :: ts =>
      let '(e, w) := new_element w t in
      let '(es, w) := new_elements w ts in (e :: es, w)
  end.
Fixpoint add_elements {Q} `{TimerQueue Q} (st : store) (q : Q) (es : list nat) : res (store * Q) :=
  match es with
  | [] => Ok (st, q)
  | e :: es =>
      let! t := Time st e in
      let! (st, q) := tq_add st q t e in add_elements st q es
  end.
Fixpoint delete_elements (w : world) (es : list nat) : res world :=
  match es with [] => Ok w | e :: es => let! w := delete_element w e in delete_elements w es end.

Definition quick_test : res (list line * world) :=
  let ts := int_double <$> [1; 3; 2; 5; 4] in
  let '(es, w) := new_elements empty_world ts in
  let! (st, q) := add_elements (objects w) (new_PriorityQueue 16) es in
  let! (ts1, st, q) := print_out 6 st q in
  let '(e2s, w) := new_elements (set_objects st w) ts in
  let! (st, q3) := add_elements (objects w) new_PriorityQueueVect e2s in
  let! (ts2, st, q3) := print_out 6 st q3 in
  let! (st, q4) := @add_elements _ (prio_timer_queue 16 block_16) st (new_prio_queue true) e2s in
  let! (ts3, st, q4) := @print_out _ (prio_timer_queue 16 block_16) 6 st q4 in
  let! _ := destroy_prio 16 q4 in
  let! st := delete_all st (Some <$> vheap q3) in
  let! w := delete_elements (set_objects st w) (rev es) in
  let! st := destroy (objects w) q in
  Ok ((Time_line <$> ts1) ++ [Blank] ++ (Time_line <$> ts2) ++ [Blank] ++ (Time_line <$> ts3) ++ [Int_line 0],
      set_objects st w).

(** The second block of [ordering]: the set is printed after every insertion. *)
Fixpoint print_times (st : store) (es : list nat) : res (list line) :=
  match es with
  | [] => Ok []
  | e :: es => let! t := Time st e in let! ls := print_times st es in Ok (Time_line t :: ls)
  end.
Fixpoint multiset_trace (w : world) (q : list nat) (ts : list time_t) : res (list line * world) :=
  match ts with
  | [] => Ok ([], w)
  | t :: ts =>
      let '(e, w) := new_element w t in
      let! q := multiset_insert (objects w) e q in
      let! ls := print_times (objects w) q in
      let! (rest, w) := multiset_trace w q ts in
      Ok (Size_line (Z.of_nat (length q)) :: ls ++ rest, w)
  end.

(** Of the element that [Remove] gives the first block nothing more is heard. *)
Definition ordering_of (values : list Z) : res (list line * world) :=
  let ts := int_double <$> values in
  let! (w, q) := fill empty_world (new_PriorityQueue 16) ts in
  let! ls1 := Output (objects w) q in
  let! (_, st, q) := PriorityQueue.Remove (objects w) q in
  let! st := destroy st q in
  let! (ls2, w) := multiset_trace (set_objects st w) [] ts in
  let! (ls3, w) := rollbear_block 8 block_8 (fun k => [Time_line (`k)]) w ts in
  Ok (ls1 ++ [Blank] ++ ls2 ++ ls3, w).
Definition ordering : res (list line * world) := ordering_of [9; 4; 8; 1; 6; 7; 2; 5; 10; 3].
