(* ===== verification/QueueMainProps.v ===== *)
(** * What [queue/main.cc] shows of the queues

    The benchmark's [ordered] is the sequence of the numbers shuffled, every block but
    one frees what it allocates, and all queues give back the same sequence. *)

From stdpp Require Import strings.
From S2P Require Import Prelude Time Doubles PQElement PriorityQueue PQTheory PQSpec TimerQueue PQVect PrioQueue PrioAddress PrioSpec PrioProps QueueInstances QueueMain.

(** ** Elements that come and go *)

(** The elements [l] of [st] are gone in [st'], the others are not touched. *)
Record cleared (st st' : store) (l : list nat) : Prop := mkCleared {
  cl_gone : forall e, e ∈ l -> st' !! e = None;
  cl_kept : forall e, e ∉ l -> time <$> st' !! e = time <$> st !! e
}.

Lemma cleared_nil st : cleared st st [].
Proof. split; [intros e He; by apply not_elem_of_nil in He|done]. Qed.

Lemma cleared_cons st st' e l l1 :
  l ≡ₚ e :: l1 -> e ∉ l1 -> cleared (delete e st) st' l1 -> cleared st st' l.
Proof.
  intros Hp Hne [Hg Hk]. split; intros y Hy; rewrite Hp in Hy.
  - apply elem_of_cons in Hy as [->|Hy]; [|by apply Hg].
    pose proof (Hk e Hne) as E. rewrite lookup_delete_eq in E. by destruct (st' !! e).
  - apply not_elem_of_cons in Hy as [Hye Hy]. by rewrite Hk, lookup_delete_ne.
Qed.

Lemma removed_cleared st st' l ts : removed st st' l ts -> cleared st st' l.
Proof. by intros [_ _ Hg Hk]. Qed.

Lemma created_cleared st st1 st2 es ts : created st st1 es ts -> cleared st1 st2 es -> same_times st st2.
Proof.
  intros [Hn Ho _] [Hg Hk] e. destruct (decide (e ∈ es)) as [He|He].
  - by rewrite (Hg e He), (Hn e He).
  - by rewrite (Hk e He), (Ho e He).
Qed.

Lemma created_same st st1 st2 es ts : created st st1 es ts -> same_times st1 st2 -> created st st2 es ts.
Proof.
  intros [Hn Ho Ht] Hs. split; [done|intros e He; by rewrite Hs, Ho|].
  rewrite <- Ht. apply list_fmap_ext. intros i e _. apply Hs.
Qed.

Lemma same_created st st1 st2 es ts : same_times st st1 -> created st1 st2 es ts -> created st st2 es ts.
Proof.
  intros Hs [Hn Ho Ht]. split; [|intros e He; by rewrite Ho, Hs|done].
  intros e He. apply (same_times_None _ _ e Hs). by apply Hn.
Qed.

(** ** The containers of the standard library *)

(** A container that lists its elements as [l'] holds [l], all of them live. *)
Record bag (st : store) (l' l : list nat) : Prop := mkBag {
  bag_perm : l' ≡ₚ l;
  bag_nodup : NoDup l;
  bag_live : forall e, e ∈ l -> addable st e
}.

Lemma bag_of_perm st q l l' : l ≡ₚ l' -> bag st q l -> bag st q l'.
Proof.
  intros E [Hp Hn Hl]. split; [by rewrite Hp|by rewrite <- E|]. intros e He. apply Hl. by rewrite E.
Qed.

Lemma bag_agree st st' l' l : (forall e, e ∈ l -> st' !! e = st !! e) -> bag st l' l -> bag st' l' l.
Proof.
  intros Ha [Hp Hn Hl]. split; [done|done|]. intros e He. unfold addable. rewrite Ha by done. by apply Hl.
Qed.

Lemma bag_cons st l' l e :
  bag st l' l -> e ∉ l -> addable st e -> bag st (e :: l') (e :: l).
Proof.
  intros [Hp Hn Hl] He Hx. split; [by rewrite Hp|by constructor|].
  intros y Hy. apply elem_of_cons in Hy as [->|Hy]; auto.
Qed.

Lemma bag_remove st l' l1' l e :
  bag st l' l -> l' ≡ₚ e :: l1' -> bag (delete e st) l1' l1' /\ e ∉ l1' /\ l ≡ₚ e :: l1'.
Proof.
  intros [Hp Hn Hl] He. rewrite He in Hp. rewrite <- Hp in Hn. apply NoDup_cons in Hn as [Hne Hn].
  split; [|by split]. apply (bag_agree st).
  - intros y Hy. apply lookup_delete_ne. congruence.
  - split; [done|done|]. intros y Hy. apply Hl. rewrite <- Hp. by right.
Qed.

Lemma Comparer_ok st l r :
  addable st l -> addable st r -> Comparer st l r = Ok (ltb (tm st l) (tm st r)).
Proof.
  intros (x & Hx & Nx) (y & Hy & Ny). unfold Comparer. rewrite (Time_ok _ _ _ Hx), (Time_ok _ _ _ Hy).
  cbn [res_bind]. rewrite SFltb_rank by done. unfold tm. by rewrite Hx, Hy.
Qed.

(** [StdPQ] is a queue with the latest time on top. *)
Lemma greatest_ok st best l :
  addable st best -> (forall e, e ∈ l -> addable st e) ->
  exists e, greatest st best l = Ok e /\ e ∈ best :: l /\ forall y, y ∈ best :: l -> le (tm st y) (tm st e).
Proof.
  revert best. induction l as [|x l IH]; intros best Hb Hl; cbn [greatest].
  { exists best. split; [done|]. split; [left|]. intros y Hy. by apply list_elem_of_singleton in Hy as ->. }
  rewrite Comparer_ok by (done || apply Hl; left). cbn [res_bind].
  set (b := if ltb _ _ then x else best).
  destruct (IH b) as (e & E & He & Hle); [destruct (ltb _ _); [apply Hl; left|done]|intros y Hy; apply Hl; by right|].
  exists e. split; [done|]. split.
  { apply elem_of_cons in He as [->|He]; [|by right; right]. unfold b. destruct (ltb _ _); [right; left|left]. }
  assert (le (tm st best) (tm st b) /\ le (tm st x) (tm st b)) as [H1 H2].
  { unfold b. destruct (ltb (tm st best) (tm st x)) eqn:Elt; split; try reflexivity; [by apply ltb_le|done]. }
  pose proof (Hle b ltac:(left)) as Hbe.
  intros y Hy. apply elem_of_cons in Hy as [->|Hy]; [by transitivity (tm st b)|].
  apply elem_of_cons in Hy as [->|Hy]; [by transitivity (tm st b)|]. apply Hle. by right.
Qed.

Lemma erase_first_ok e l : e ∈ l -> exists l', erase_first e l = Some l' /\ l ≡ₚ e :: l'.
Proof.
  induction l as [|x l IH]; intros He; [by apply not_elem_of_nil in He|]. cbn [erase_first].
  destruct (Nat.eqb_spec x e) as [->|Hne]; [by exists l|].
  apply elem_of_cons in He as [|He]; [congruence|]. destruct (IH He) as (l' & -> & Hp).
  exists (x :: l'). split; [done|]. rewrite Hp. apply Permutation_swap.
Qed.

Lemma StdPQ_empty_ok w q l :
  world_ok w -> bag (objects w) q l ->
  exists w', StdPQ_empty (S (length q)) w q = Ok w' /\ world_ok w' /\ cleared (objects w) (objects w') l.
Proof.
  remember (length q) as n eqn:Hn. revert w q l Hn. induction n as [|n IH]; intros w q l Hn Hw Hb.
  { destruct q; [|done]. exists w. split; [done|]. split; [done|].
    destruct Hb as [Hp _ _]. apply Permutation_nil_l in Hp as <-. apply cleared_nil. }
  destruct q as [|x q]; [done|].
  assert (forall e, e ∈ x :: q -> addable (objects w) e) as Hlive
    by (intros e He; apply (bag_live _ _ _ Hb); by rewrite <- (bag_perm _ _ _ Hb)).
  destruct (greatest_ok (objects w) x q) as (e & E & He & _); [apply Hlive; left|intros y Hy; apply Hlive; by right|].
  destruct (erase_first_ok e (x :: q) He) as (q' & Eq & Hp).
  destruct (bag_remove _ _ _ _ _ Hb Hp) as (Hb' & Hne & Hl).
  change (StdPQ_empty (S (S n)) w (x :: q)) with
    (let! e := StdPQ_top (objects w) (x :: q) in
     let! q := StdPQ_pop (objects w) (x :: q) in
     let! w := delete_element w e in StdPQ_empty (S n) w q).
  unfold StdPQ_pop, StdPQ_top. rewrite E. cbn [res_bind]. rewrite Eq. cbn [res_bind].
  destruct (Hlive e He) as (y & Hy & _). rewrite delete_element_ok by (by exists y). cbn [res_bind].
  destruct (IH (set_objects (delete e (objects w)) w) q' q') as (w' & E' & Hw' & Hc); [|by apply world_ok_delete|done|].
  { apply Permutation_length in Hp. cbn in Hp, Hn. lia. }
  exists w'. split; [done|]. split; [done|]. by apply (cleared_cons _ _ e _ q').
Qed.

(** ** Sets *)

Definition before (st : store) (a b : nat) : Prop := ltb (tm st a) (tm st b) = true.

Lemma rank_trichotomy (a b : Z * Z * Z) : a <> b -> ltb a b = false -> ltb b a = true.
Proof.
  intros Hne H. destruct (ltb b a) eqn:E; [done|]. destruct Hne. by apply (anti_symm le).
Qed.

Lemma set_insert_ok st e l :
  addable st e -> (forall y, y ∈ l -> addable st y /\ tm st y <> tm st e) -> StronglySorted (before st) l ->
  exists r, set_insert st e l = Ok r /\ r ≡ₚ e :: l /\ StronglySorted (before st) r.
Proof.
  intros He Hl Hs. induction Hs as [|x l Hs IH Hall]; cbn [set_insert].
  { exists [e]. split; [done|]. split; [done|]. constructor; constructor. }
  destruct (Hl x ltac:(left)) as [Hx Hne].
  rewrite Comparer_ok by done. cbn [res_bind]. destruct (ltb (tm st x) (tm st e)) eqn:E.
  - destruct IH as (r & Er & Hp & Hr); [intros y Hy; apply Hl; by right|]. rewrite Er. cbn [res_bind].
    exists (x :: r). split; [done|]. split; [by rewrite Hp; apply Permutation_swap|].
    constructor; [done|]. apply Forall_forall. intros y Hy. rewrite Hp in Hy.
    apply elem_of_cons in Hy as [->|Hy]; [done|]. rewrite Forall_forall in Hall. by apply Hall.
  - rewrite Comparer_ok by done. cbn [res_bind]. pose proof (rank_trichotomy _ _ Hne E) as E'. rewrite E'.
    exists (e :: x :: l). split; [done|]. split; [done|].
    constructor; [by constructor|]. constructor; [done|]. apply Forall_forall. intros y Hy.
    rewrite Forall_forall in Hall. specialize (Hall y Hy). unfold before in *.
    destruct (ltb (tm st e) (tm st y)) eqn:Ey; [done|].
    pose proof (ltb_neg_trans _ _ _ (ltb_asym _ _ Hall) Ey) as H. congruence.
Qed.

Definition set_holds {S} `{OrderedSet S} (st : store) (s : S) (l : list nat) : Prop :=
  bag st (os_elems s) l /\ StronglySorted (before st) (os_elems s).

(** What [fill_with] needs of a container. *)
Record container {Q} (insert : store -> nat -> Q -> res Q) (holds : store -> Q -> list nat -> Prop) : Prop := {
  co_live : forall st q l e, holds st q l -> e ∈ l -> addable st e;
  co_perm : forall st q l l', l ≡ₚ l' -> holds st q l -> holds st q l';
  co_agree : forall st st' q l, (forall e, e ∈ l -> st' !! e = st !! e) -> holds st q l -> holds st' q l;
  co_insert : forall st q l e, holds st q l -> addable st e -> e ∉ l ->
    (forall y, y ∈ l -> tm st y <> tm st e) ->
    exists q', insert st e q = Ok q' /\ holds st q' (e :: l)
}.

Lemma set_container {S} `{OrderedSet S} : container os_insert (set_holds (S:=S)).
Proof.
  split.
  - intros st s l e [Hb _]. apply (bag_live _ _ _ Hb).
  - intros st s l l' E [Hb Hs]. split; [by apply (bag_of_perm _ _ l)|done].
  - intros st st' s l Ha [Hb Hs]. split; [by apply (bag_agree st)|].
    assert (forall e, e ∈ os_elems s -> st' !! e = st !! e) as Ha'
      by (intros e He; apply Ha; by rewrite <- (bag_perm _ _ _ Hb)).
    clear -Hs Ha'. induction Hs as [|x l' Hs IH Hall]; constructor.
    + apply IH. intros e He. apply Ha'. by right.
    + apply Forall_forall. intros y Hy. rewrite Forall_forall in Hall. specialize (Hall y Hy).
      unfold before, tm in *. rewrite !Ha'; [done|by right|left].
  - intros st s l e [Hb Hs] He Hne Htm.
    destruct (set_insert_ok st e (os_elems s)) as (r & Er & Hp & Hr); [done| |done|].
    { intros y Hy. rewrite (bag_perm _ _ _ Hb) in Hy. split; [by apply (bag_live _ _ _ Hb)|by apply Htm]. }
    destruct (os_insert_elems st e s r Er) as (s' & Es & Es'). exists s'. split; [done|].
    unfold set_holds. rewrite Es'. split; [|done].
    destruct (bag_cons _ _ _ e Hb Hne He) as [Hp' Hn' Hl']. split; [by rewrite Hp|done|done].
Qed.

Lemma StdPQ_container : container (fun _ e q => Ok (e :: q)) bag.
Proof.
  split.
  - intros st q l e Hb. apply (bag_live _ _ _ Hb).
  - apply bag_of_perm.
  - apply bag_agree.
  - intros st q l e Hb He Hne _. exists (e :: q). split; [done|]. by apply bag_cons.
Qed.

Lemma tm_new st e t : tm (<[e := new_PQ_Element t]> st) e = rank t.
Proof. unfold tm. by rewrite lookup_insert_eq. Qed.

Lemma fill_with_ok {Q} insert (holds : store -> Q -> list nat -> Prop) w q l ts :
  container insert holds -> world_ok w -> holds (objects w) q l ->
  Forall (fun t => not_nan t = true) ts -> NoDup (rank <$> ts) ->
  (forall y, y ∈ l -> tm (objects w) y ∉ rank <$> ts) ->
  exists w' q' es, fill_with insert w q ts = Ok (w', q') /\ world_ok w' /\ holds (objects w') q' (es ++ l) /\
    created (objects w) (objects w') es ts /\ length es = length ts.
Proof.
  intros Hc. revert w q l. induction ts as [|t ts IH]; intros w q l Hw Hq Hnan Hnd Hfar; cbn [fill_with].
  { exists w, q, []. do 3 (split; [done|]). split; [by apply created_nil|done]. }
  apply Forall_cons in Hnan as [Ht Hnan]. apply NoDup_cons in Hnd as [Htn Hnd]. cbn [new_element].
  set (e := fresh w). set (w1 := mkWorld (<[e := new_PQ_Element t]> (objects w)) (S e)).
  assert (objects w !! e = None) as He by (by apply Hw).
  assert (forall y, y ∈ l -> y <> e) as Hye.
  { intros y Hy ->. destruct (co_live _ _ Hc _ _ _ _ Hq Hy) as (x & Hx & _). by rewrite He in Hx. }
  assert (forall y, y ∈ l -> objects w1 !! y = objects w !! y) as Ha.
  { intros y Hy. cbn. apply lookup_insert_ne. symmetry. by apply Hye. }
  assert (forall y, y ∈ l -> tm (objects w1) y = tm (objects w) y) as Htm
    by (intros y Hy; unfold tm; by rewrite Ha).
  destruct (co_insert _ _ Hc (objects w1) q l e) as (q' & E & Hq').
  - by apply (co_agree _ _ Hc (objects w)).
  - exists (new_PQ_Element t). split; [apply lookup_insert_eq|done].
  - intros Hel. by apply (Hye e).
  - intros y Hy. rewrite Htm by done. cbn. rewrite tm_new. intros Ey. apply (Hfar y Hy). rewrite Ey. cbn. left.
  - rewrite E. cbn [res_bind].
    destruct (IH w1 q' (e :: l)) as (w' & q2 & es & E' & Hw' & Hq2 & Hcr & Hlen); try done.
    + by apply (world_ok_new w t).
    + intros y Hy. apply elem_of_cons in Hy as [->|Hy]; [by cbn; rewrite tm_new|].
      rewrite Htm by done. intros Hin. apply (Hfar y Hy). cbn. by right.
    + exists w', q2, (e :: es). split; [done|]. split; [done|]. split.
      { apply (co_perm _ _ Hc _ _ (es ++ e :: l)); [|done]. by rewrite <- Permutation_middle. }
      split; [|cbn; by rewrite Hlen]. by apply (created_cons _ (objects w1) (objects w1)).
Qed.

(** ** Emptying the sets *)

Lemma btree_empty_ok {S} `{OrderedSet S} w (s : S) l :
  world_ok w -> bag (objects w) (os_elems s) l ->
  exists w', btree_empty (Datatypes.S (length l)) w s = Ok w' /\ world_ok w' /\ cleared (objects w) (objects w') l.
Proof.
  remember (length l) as n eqn:Hn. revert w s l Hn. induction n as [|n IH]; intros w s l Hn Hw Hb;
    pose proof (Permutation_length (bag_perm _ _ _ Hb)) as Hlen; rewrite <- Hn in Hlen.
  - destruct l; [|done]. exists w. cbn [btree_empty]. rewrite os_begin_elems.
    destruct (os_elems s); [|done]. split; [done|]. split; [done|]. apply cleared_nil.
  - change (btree_empty (Datatypes.S (Datatypes.S n)) w s) with
      (match os_begin s with
       | None => Ok w
       | Some t => let! w := delete_element w t in btree_empty (Datatypes.S n) w (os_erase_begin s)
       end).
    rewrite os_begin_elems. destruct (os_elems s) as [|e q] eqn:Es; [done|]. cbn [head].
    destruct (bag_remove _ _ q _ e Hb) as (Hb' & Hne & Hl); [done|].
    destruct (bag_live _ _ _ Hb e) as (y & Hy & _); [rewrite Hl; left|].
    rewrite delete_element_ok by (by exists y). cbn [res_bind].
    destruct (IH (set_objects (delete e (objects w)) w) (os_erase_begin s) q) as (w' & E' & Hw' & Hc).
    + by injection Hlen.
    + by apply world_ok_delete.
    + rewrite os_erase_elems, Es. exact Hb'.
    + exists w'. split; [done|]. split; [done|]. by apply (cleared_cons _ _ e _ q).
Qed.

Lemma set_empty_ok (q : list nat) n : (length q < n)%nat -> set_empty n q = Ok [].
Proof.
  revert q. induction n as [|n IH]; intros [|e q] Hn; cbn in *; [lia|lia|done|]. apply IH. lia.
Qed.

(** ** The B-heap's blocks *)

Section Rollbear.
Context (B : Z) (HB : block_ok B) (show : number -> list line).

Lemma rollbear_empty_S fuel w q :
  rollbear_empty B show (S fuel) w q =
    if empty q then Ok ([], w, q)
    else
      let! (k, v) := top B q in
      let! w := (match v with Some e => delete_element w e | None => UB end) in
      let! q := pop B ltb q in
      let! (ls, w, q) := rollbear_empty B show fuel w q in Ok (show k ++ ls, w, q).
Proof. done. Qed.

Lemma prio_holds_delete st q l e : e ∉ l -> prio_holds B st q l -> prio_holds B (delete e st) q l.
Proof using HB.
  intros He Hq. apply (@tq_holds_store _ (prio_timer_queue B HB) st); [|done].
  intros y Hy. apply lookup_delete_ne. congruence.
Qed.

Lemma rollbear_empty_ok w q l :
  world_ok w -> prio_holds B (objects w) q l ->
  exists ks w' q', rollbear_empty B show (S (length l)) w q = Ok (mjoin (show <$> ks), w', q') /\
    removed (objects w) (objects w') l ((fun k : number => `k) <$> ks) /\ world_ok w' /\ prio_holds B (objects w') q' [].
Proof using HB.
  remember (length l) as n eqn:Hn. revert w q l Hn. induction n as [|n IH]; intros w q l Hn Hw Hq;
    rewrite rollbear_empty_S.
  { destruct l; [|done]. rewrite (prio_empty B HB _ _ Hq). exists [], w, q.
    split; [done|]. split; [apply removed_nil|]. by split. }
  destruct (prio_remove_ok B HB _ _ _ Hq) as (k & e & q1 & l1 & E1 & E2 & E3 & Hp & Hq1 & Hle & Hke); [by intros ->|].
  rewrite E3, E1. cbn [res_bind].
  destruct (objects w !! e) as [x|] eqn:Hx; [|done].
  rewrite delete_element_ok by (by exists x). cbn [res_bind]. rewrite E2. cbn [res_bind].
  assert (NoDup (e :: l1)) as Hnd by (rewrite <- Hp; by destruct Hq as (items & [_ _ Hnd _ _])).
  apply NoDup_cons in Hnd as [Hne Hnd].
  destruct (IH (set_objects (delete e (objects w)) w) q1 l1) as (ks & w' & q' & E & Hr & Hw' & Hq').
  - apply Permutation_length in Hp. cbn in Hp. lia.
  - by apply world_ok_delete.
  - by apply prio_holds_delete.
  - rewrite E. cbn [res_bind]. exists (k :: ks), w', q'. split; [done|]. split; [|done].
    apply (removed_cons _ (objects w) _ e _ _ l1); try done. by rewrite Hx.
Qed.

Lemma destroy_prio_ok q l st : prio_holds B st q l -> destroy_prio B q = Ok tt.
Proof using HB.
  intros (items & [Hq _ _ _ _]). destruct (delete_ok B HB pod pod q items Hq) as (m & E & _ & Hm).
  unfold destroy_prio. rewrite E. cbn [res_bind]. destruct (m_payload q) as [v|]; [|done].
  destruct Hm as (m' & Em & _). by rewrite Em.
Qed.

(** A block shows the times in order and leaves nothing behind. *)
Lemma rollbear_block_ok w ts :
  world_ok w -> Forall (fun t => not_nan t = true) ts -> Z.of_nat (length ts) <= CAPACITY ->
  exists ks w', rollbear_block B HB show w ts = Ok (mjoin (show <$> ks), w') /\ world_ok w' /\
    same_times (objects w) (objects w') /\ (fun k : number => `k) <$> ks ≡ₚ ts /\
    StronglySorted time_le ((fun k : number => `k) <$> ks).
Proof.
  intros Hw Hnan Hcap. unfold rollbear_block.
  destruct (@fill_ok _ (prio_timer_queue B HB) w (new_prio_queue true) [] ts Hw
              (@tq_holds_new _ (prio_timer_queue B HB) _) Hnan Hcap) as (w1 & q1 & es & E1 & Hw1 & Hq1 & Hc).
  rewrite E1. cbn [res_bind]. rewrite app_nil_r in Hq1.
  destruct (rollbear_empty_ok w1 q1 es Hw1 Hq1) as (ks & w2 & q2 & E2 & Hr & Hw2 & Hq2).
  pose proof (cr_times _ _ _ _ Hc) as Hts.
  assert (length es = length ts) as Hlen by (rewrite <- (length_fmap Some ts), <- Hts; by rewrite length_fmap).
  rewrite <- Hlen, E2. cbn [res_bind]. rewrite (destroy_prio_ok q2 [] (objects w2) Hq2). cbn [res_bind].
  exists ks, w2. split; [done|]. split; [done|]. split.
  { eapply created_cleared; [exact Hc|by eapply removed_cleared]. }
  destruct Hr as [(es' & Hp & Hts') Hs _ _]. split; [|done].
  apply Some_perm. rewrite <- Hts', <- Hts. by rewrite Hp.
Qed.
End Rollbear.

(** ** The other blocks *)

Section Blocks.
Context (w : world) (ts : list time_t) (Hw : world_ok w).
Context (Hnan : Forall (fun t => not_nan t = true) ts) (Hcap : Z.of_nat (length ts) <= CAPACITY).
Context (Hnd : NoDup (rank <$> ts)).

Lemma ordered_block_ok :
  exists ordered w', ordered_block w ts = Ok (ordered, w') /\ world_ok w' /\
    same_times (objects w) (objects w') /\ ordered ≡ₚ ts /\ StronglySorted time_le ordered.
Proof using Hw Hnan Hcap.
  destruct (sort_times_ok w (new_PriorityQueue 16) ts Hw (@tq_holds_new _ pq_timer_queue _) Hnan Hcap)
    as (w1 & q1 & ordered & w2 & q2 & E1 & E2 & Hp & Hs & Ht & Hw2 & (k & Hk & I)).
  unfold ordered_block. rewrite E1. cbn [res_bind]. rewrite E2. cbn [res_bind].
  apply Permutation_nil_r in Hk as ->. unfold destroy. rewrite (inv_size _ _ _ I).
  change (Z.to_nat (llen [])) with 0%nat. rewrite take_0. cbn [delete_all res_bind].
  exists ordered, (set_objects (objects w2) w2). by split.
Qed.

Lemma StdPQ_block_ok :
  exists w', StdPQ_block w ts = Ok w' /\ world_ok w' /\ same_times (objects w) (objects w').
Proof using Hw Hnan Hnd.
  destruct (fill_with_ok _ _ w [] [] ts StdPQ_container Hw) as (w1 & q & es & E & Hw1 & Hb & Hc & Hlen); try done.
  { split; [done|constructor|]. intros e He. by apply not_elem_of_nil in He. }
  { intros y Hy. by apply not_elem_of_nil in Hy. }
  rewrite app_nil_r in Hb. unfold StdPQ_block. rewrite E. cbn [res_bind].
  destruct (StdPQ_empty_ok w1 q es Hw1 Hb) as (w2 & E2 & Hw2 & Hcl).
  rewrite <- Hlen, <- (Permutation_length (bag_perm _ _ _ Hb)), E2.
  exists w2. split; [done|]. split; [done|]. by eapply created_cleared.
Qed.

Lemma set_holds_empty {S} `{OrderedSet S} st : set_holds st (os_empty (S:=S)) [].
Proof using.
  unfold set_holds. rewrite os_empty_elems. split; [|constructor]. split; [done|constructor|].
  intros e He. by apply not_elem_of_nil in He.
Qed.

Lemma btree_block_ok {S} `{OrderedSet S} :
  exists w', btree_block (S:=S) w ts = Ok w' /\ world_ok w' /\ same_times (objects w) (objects w').
Proof using Hw Hnan Hnd.
  destruct (fill_with_ok _ _ w (os_empty (S:=S)) [] ts set_container Hw (set_holds_empty _))
    as (w1 & q & es & E & Hw1 & [Hb _] & Hc & Hlen); try done.
  { intros y Hy. by apply not_elem_of_nil in Hy. }
  rewrite app_nil_r in Hb. unfold btree_block. rewrite E. cbn [res_bind].
  destruct (btree_empty_ok w1 q es Hw1 Hb) as (w2 & E2 & Hw2 & Hcl). rewrite <- Hlen, E2.
  exists w2. split; [done|]. split; [done|]. by eapply created_cleared.
Qed.

(** The block of [std::set] erases the pointers and deletes nothing. *)
Lemma set_block_ok :
  exists w' es, set_block w ts = Ok w' /\ world_ok w' /\ created (objects w) (objects w') es ts.
Proof using Hw Hnan Hnd.
  destruct (fill_with_ok _ _ w (os_empty (S:=list nat)) [] ts set_container Hw (set_holds_empty _))
    as (w1 & q & es & E & Hw1 & [Hb _] & Hc & Hlen); try done.
  { intros y Hy. by apply not_elem_of_nil in Hy. }
  rewrite app_nil_r in Hb. unfold set_block. rewrite E. cbn [res_bind].
  pose proof (Permutation_length (bag_perm _ _ _ Hb)) as Hl. cbn [os_elems std_set id] in Hl.
  rewrite (set_empty_ok q (S (length ts))) by lia. cbn [res_bind].
  exists w1, es. by split.
Qed.

Lemma rollbear_blocks_ok :
  exists w' ls8 ls16 ls32 ls64 w1 w2 w3,
    rollbear_8 w ts = Ok (ls8, w1) /\ rollbear_16 w1 ts = Ok (ls16, w2) /\
    rollbear_32 w2 ts = Ok (ls32, w3) /\ rollbear_64 w3 ts = Ok (ls64, w') /\
    world_ok w' /\ same_times (objects w) (objects w').
Proof using Hw Hnan Hcap.
  destruct (rollbear_block_ok 8 block_8 (fun _ => []) w ts Hw Hnan Hcap) as (k1 & w1 & E1 & Hw1 & S1 & _).
  destruct (rollbear_block_ok 16 block_16 (fun _ => []) w1 ts Hw1 Hnan Hcap) as (k2 & w2 & E2 & Hw2 & S2 & _).
  destruct (rollbear_block_ok 32 block_32 (fun _ => []) w2 ts Hw2 Hnan Hcap) as (k3 & w3 & E3 & Hw3 & S3 & _).
  destruct (rollbear_block_ok 64 block_64 (fun _ => []) w3 ts Hw3 Hnan Hcap) as (k4 & w4 & E4 & Hw4 & S4 & _).
  eexists w4, _, _, _, _, w1, w2, w3. do 4 (split; [eassumption|]). split; [done|].
  eauto using same_times_trans.
Qed.
End Blocks.

(** ** The numbers that are shuffled *)

Definition in_range (z : Z) : Prop := 0 < z < 2 ^ 53.

Lemma int_double_rank_inj a b : in_range a -> in_range b -> rank (int_double a) = rank (int_double b) -> a = b.
Proof.
  unfold in_range. intros Ha Hb E. pose proof (int_double_ltb a b Ha Hb) as H1.
  pose proof (int_double_ltb b a Hb Ha) as H2. rewrite E, ltb_irrefl in H1. rewrite E, ltb_irrefl in H2. lia.
Qed.

Lemma int_doubles_not_nan zs : Forall (fun t => not_nan t = true) (int_double <$> zs).
Proof. apply Forall_fmap, Forall_forall. intros z _. apply int_double_not_nan. Qed.

Lemma int_doubles_nodup zs : Forall in_range zs -> NoDup zs -> NoDup (rank <$> (int_double <$> zs)).
Proof.
  intros Hr Hn. induction Hn as [|z zs Hz Hn IH]; cbn; [constructor|].
  apply Forall_cons in Hr as [Hz' Hr]. constructor; [|by apply IH].
  intros Hin. apply list_elem_of_fmap in Hin as (t & E & Hin). apply list_elem_of_fmap in Hin as (y & -> & Hin).
  rewrite Forall_forall in Hr. apply int_double_rank_inj in E as ->; [done|done|by apply Hr].
Qed.

Lemma int_doubles_sorted zs ts :
  Forall in_range zs -> StronglySorted Z.le zs -> ts ≡ₚ int_double <$> zs -> StronglySorted time_le ts ->
  ts = int_double <$> zs.
Proof.
  intros Hr Hz Hp Hs. apply Permutation_map_inv in Hp as (ys & -> & Hp).
  assert (Forall in_range ys) as Hry by (by rewrite <- Hp). change (map int_double ys) with (int_double <$> ys) in *.
  f_equal. apply (StronglySorted_unique Z.le); [|done|by symmetry]. clear -Hs Hry.
  induction ys as [|y ys IH]; [constructor|]. apply Forall_cons in Hry as [Hy Hry].
  apply StronglySorted_inv in Hs as [Hs Hall]. constructor; [by apply IH|].
  apply Forall_forall. intros x Hx. pose proof (proj1 (Forall_forall _ _) Hry x Hx) as Hxr.
  apply (int_double_le y x Hy Hxr). rewrite Forall_forall in Hall. apply Hall. by apply (list_elem_of_fmap_2 int_double).
Qed.

Lemma seqZ_sorted m n : StronglySorted Z.le (seqZ m n).
Proof.
  destruct (Z.le_gt_cases 0 n) as [Hn|Hn]; [|rewrite seqZ_nil by lia; constructor].
  revert m. pattern n. apply natlike_ind; [intros m; rewrite seqZ_nil by lia; constructor| |done].
  clear n Hn. intros n Hn IH m. rewrite seqZ_cons, Z.pred_succ by lia. constructor; [apply IH|].
  apply Forall_forall. intros z Hz. apply elem_of_seqZ in Hz. lia.
Qed.

(** ** The theorems *)

Section Main.
Context (shuffle : list Z -> list Z) (clock : nat -> timeval).
Context {btree_set : Type} `{OrderedSet btree_set}.

Lemma randoms_ok size :
  (forall l, shuffle l ≡ₚ l) -> size <= CAPACITY ->
  let ts := int_double <$> generate_randoms shuffle size in
  Forall (fun t => not_nan t = true) ts /\ Z.of_nat (length ts) <= CAPACITY /\ NoDup (rank <$> ts) /\
  ts ≡ₚ int_double <$> seqZ 1 size /\ Forall in_range (seqZ 1 size).
Proof using.
  intros Hsh Hsize ts. unfold CAPACITY in *.
  assert (Forall in_range (seqZ 1 size)) as Hr.
  { apply Forall_forall. intros z Hz. apply elem_of_seqZ in Hz. unfold in_range. lia. }
  assert (generate_randoms shuffle size ≡ₚ seqZ 1 size) as Hg by apply Hsh.
  split; [apply int_doubles_not_nan|]. split.
  { unfold ts. rewrite length_fmap, (Permutation_length Hg), length_seqZ. lia. }
  split; [|split; [unfold ts; by rewrite Hg|done]].
  apply int_doubles_nodup; [by rewrite Hg|]. rewrite Hg. apply NoDup_seqZ.
Qed.

(** The row a block prints that is not given the times to compare with. *)
Definition unnamed_row (n : nat) : line :=
  let add_time := time_diff (clock (3 * n)) (clock (3 * n + 1)) in
  let remove_time := time_diff (clock (3 * n + 1)) (clock (3 * n + 2)) in
  Stock_row add_time remove_time (double_add add_time remove_time).
End Main.

(** C27: [benchmark] runs through for every shuffle, clock and implementation of
    [absl::btree_set]: the [PriorityQueue] gives the numbers back in their order, each
    block but that of [std::set] deletes every element it made exactly once and touches
    no other, and what is left at the end are the elements of that block, all of them.
    The rows of the four [rollbear] blocks carry the name Stock. *)
Theorem benchmark_correct (shuffle : list Z -> list Z) (clock : nat -> timeval)
    {btree_set : Type} `{OrderedSet btree_set} size :
  (forall l, shuffle l ≡ₚ l) -> size <= CAPACITY ->
  exists w es front, benchmark_of (btree_set:=btree_set) shuffle clock size =
      Ok (int_double <$> seqZ 1 size, w, front ++ (unnamed_row clock <$> [4; 5; 6; 7]%nat)) /\
    created ∅ (objects w) es (int_double <$> generate_randoms shuffle size).
Proof.
  intros Hsh Hsize. destruct (randoms_ok shuffle size Hsh Hsize) as (Hnan & Hcap & Hnd & Hp & Hr).
  unfold benchmark_of. set (ts := int_double <$> generate_randoms shuffle size) in *.
  destruct (ordered_block_ok empty_world ts ltac:(done) Hnan Hcap) as (o & w1 & E1 & Hw1 & S1 & Ho & Hs).
  rewrite E1. cbn [res_bind].
  rewrite (int_doubles_sorted (seqZ 1 size) o) by (done || apply seqZ_sorted || by rewrite Ho).
  destruct (StdPQ_block_ok w1 ts Hw1 Hnan Hnd) as (w2 & E2 & Hw2 & S2). rewrite E2. cbn [res_bind].
  destruct (btree_block_ok (S:=btree_set) w2 ts Hw2 Hnan Hnd) as (w3 & E3 & Hw3 & S3). rewrite E3. cbn [res_bind].
  destruct (set_block_ok w3 ts Hw3 Hnan Hnd) as (w4 & es & E4 & Hw4 & Hc). rewrite E4. cbn [res_bind].
  destruct (rollbear_blocks_ok w4 ts Hw4 Hnan Hcap)
    as (w5 & l1 & l2 & l3 & l4 & v1 & v2 & v3 & F1 & F2 & F3 & F4 & _ & S5).
  rewrite F1. cbn [res_bind]. rewrite F2. cbn [res_bind]. rewrite F3. cbn [res_bind]. rewrite F4. cbn [res_bind].
  set (sa := time_diff (clock 0%nat) (clock 1%nat)). set (sr := time_diff (clock 1%nat) (clock 2%nat)).
  exists w5, es, (report clock 0%nat "PQ" zero zero ++ report clock 1%nat "StdPQ" sa sr ++
    report clock 2%nat "absl::btree_set" sa sr ++ report clock 3%nat "std::multiset" sa sr).
  split; [by rewrite <- !app_assoc|].
  apply (created_same _ (objects w4)); [|done]. apply (same_created _ (objects w3)); [|done].
  eauto using same_times_trans.
Qed.

Lemma benchmark_correct_witness :
  exists w es front, benchmark_of (btree_set:=list nat) (@rev Z) (fun n => mkTimeval (Z.of_nat n) 500000) 6 =
      Ok (int_double <$> seqZ 1 6, w, front) /\ length es = 6%nat /\
    created ∅ (objects w) es (int_double <$> [6; 5; 4; 3; 2; 1]).
Proof.
  destruct (benchmark_correct (btree_set:=list nat) (@rev Z) (fun n => mkTimeval (Z.of_nat n) 500000) 6)
    as (w & es & front & E & Hc).
  - intros l. symmetry. apply Permutation_rev.
  - done.
  - exists w, es, (front ++ (unnamed_row (fun n => mkTimeval (Z.of_nat n) 500000) <$> [4; 5; 6; 7]%nat)).
    split; [exact E|]. split; [|exact Hc].
    pose proof (cr_times _ _ _ _ Hc) as Ht. apply (f_equal length) in Ht. by rewrite !length_fmap in Ht.
Defined.

(** What a queue gives back, filled with [ts]. *)
Definition drained (Q : Type) `{TimerQueue Q} (ts : list time_t) : res (list time_t) :=
  let! (w, q) := fill empty_world (tq_new (Q:=Q)) ts in
  let! (out, _, _) := empty_out (S (length ts)) w q in Ok out.

Lemma drained_ok (Q : Type) `{TimerQueue Q} ts :
  Forall (fun t => not_nan t = true) ts -> Z.of_nat (length ts) <= CAPACITY ->
  exists out, drained Q ts = Ok out /\ out ≡ₚ ts /\ StronglySorted time_le out.
Proof.
  intros Hnan Hcap.
  destruct (sort_times_ok empty_world (tq_new (Q:=Q)) ts ltac:(done) (tq_holds_new _) Hnan Hcap)
    as (w1 & q1 & out & w1' & q1' & E & F & P & S & _).
  exists out. unfold drained. rewrite E. cbn [res_bind]. by rewrite F.
Qed.

(** C28: All queues agree: filled with the same times, [PriorityQueue],
    [PriorityQueueUnrolled], [PriorityQueueVect] and the B-heap with any block size from 2
    on give back the same sequence, which is the times sorted (equal times being those
    that differ at most in the sign of zero). *)
Theorem queues_agree B (HB : block_ok B) ts :
  Forall (fun t => not_nan t = true) ts -> Z.of_nat (length ts) <= CAPACITY ->
  exists a b c d,
    drained PriorityQueue ts = Ok a /\ @drained PriorityQueue unrolled_timer_queue ts = Ok b /\
    drained PriorityQueueVect ts = Ok c /\ @drained _ (prio_timer_queue B HB) ts = Ok d /\
    a ≡ₚ ts /\ StronglySorted time_le a /\
    rank <$> b = rank <$> a /\ rank <$> c = rank <$> a /\ rank <$> d = rank <$> a.
Proof.
  intros Hnan Hcap.
  destruct (drained_ok PriorityQueue ts Hnan Hcap) as (a & Ea & Pa & Sa).
  destruct (@drained_ok _ unrolled_timer_queue ts Hnan Hcap) as (b & Eb & Pb & Sb).
  destruct (drained_ok PriorityQueueVect ts Hnan Hcap) as (c & Ec & Pc & Sc).
  destruct (@drained_ok _ (prio_timer_queue B HB) ts Hnan Hcap) as (d & Ed & Pd & Sd).
  exists a, b, c, d. do 6 (split; [done|]).
  split; [|split]; apply sorted_ranks_unique; try done; by rewrite Pa.
Qed.

Lemma queues_agree_witness :
  exists a d, drained PriorityQueue (int_double <$> [3; 1; 2; 2]) = Ok a /\
    @drained _ (prio_timer_queue 8 block_8) (int_double <$> [3; 1; 2; 2]) = Ok d /\
    rank <$> d = rank <$> a.
Proof.
  destruct (queues_agree 8 block_8 (int_double <$> [3; 1; 2; 2])) as (a & b & c & d & Ea & _ & _ & Ed & _ & _ & _ & _ & E).
  - apply int_doubles_not_nan.
  - done.
  - exists a, d. exact (conj Ea (conj Ed E)).
Defined.

(** ** The runs of the other two programs *)

Definition live (w : world) : list nat := (map_to_list (objects w)).*1.

(** [quick_test] prints 1 to 5 three times; the five elements made with [new] are left. *)
Example quick_test_prints :
  exists w, let five := Time_line <$> (int_double <$> seqZ 1 5) in
    quick_test = Ok (five ++ [Blank] ++ five ++ [Blank] ++ five ++ [Int_line 0], w) /\ length (live w) = 5%nat.
Proof. eexists. split; vm_compute; reflexivity. Qed.

(** [ordering] ends with the numbers from 1 to 10; eleven elements are left. *)
Example ordering_prints :
  exists w front, ordering = Ok (front ++ (Time_line <$> (int_double <$> seqZ 1 10)), w) /\
    length (live w) = 11%nat /\ head front = Some (HeapSize 10 16).
Proof.
  set (r := ordering). vm_compute in r.
  match eval cbv delta [r] in r with Ok (?ls, ?w) => exists w, (take 77 ls) end.
  split; [|split]; vm_compute; reflexivity.
Qed.
