(* ===== verification/ZeekList.v ===== *)
(** * [dict/List.h]: a growing array

    [entries] is the allocated array, [None] in a cell that was not written; [n]
    entries are in use.  [null_val] is what [0] and [nullptr] are as a [T]. *)

From S2P Require Import Prelude.

Record List (T : Type) := mkList {
  entries : option (list (option T));
  max_entries : Z;
  num_entries : Z
}.
Arguments mkList {T} _ _ _.
Arguments entries {T} _.
Arguments max_entries {T} _.
Arguments num_entries {T} _.

Section List.
Context {T : Type} (null_val : T) (eqb : T -> T -> bool).

Definition DEFAULT_LIST_SIZE : Z := 10.
Definition LIST_GROWTH_FACTOR : Z := 2.

(** [safe_malloc]: fresh cells.  No cells at all is taken for a valid array. *)
Definition malloc_cells (n : Z) : list (option T) := replicate (Z.to_nat n) None.

(** [entries[i]] read and written. *)
Definition cell (l : List T) (i : Z) : res T :=
  match entries l with
  | Some m =>
      if 0 <=? i then match m !! Z.to_nat i with Some (Some x) => Ok x | _ => UB end else UB
  | None => UB
  end.
Definition set_cell (l : List T) (i : Z) (x : T) : res (List T) :=
  match entries l with
  | Some m =>
      if (0 <=? i) && (i <? Z.of_nat (length m))
      then Ok (mkList (Some (<[Z.to_nat i := Some x]> m)) (max_entries l) (num_entries l)) else UB
  | None => UB
  end.
Definition set_num (n : Z) (l : List T) : List T := mkList (entries l) (max_entries l) n.

(** ** Construction *)

Definition new_List (size : Z) : List T :=
  if size <=? 0 then mkList None 0 0 else mkList (Some (malloc_cells size)) size 0.

(** The loop that copies [n] entries from [i] on. *)
Fixpoint copy_entries (n : nat) (i : Z) (b l : List T) : res (List T) :=
  match n with
  | O => Ok l
  | S n =>
      let! x := cell b i in
      let! l := set_cell l i x in copy_entries n (i + 1) b l
  end.

(** [List(const List&)], and [operator=] from another list after [free]. *)
Definition copy_List (b : List T) : res (List T) :=
  let l := mkList (if negb (max_entries b =? 0) then Some (malloc_cells (max_entries b)) else None)
             (max_entries b) (num_entries b) in
  copy_entries (Z.to_nat (num_entries b)) 0 b l.

(** [List(List&&)] and [operator=(List&&)]: the new list and what is left of [b]. *)
Definition move_List (b : List T) : List T * List T := (b, mkList None 0 0).

(** [List(const T* arr, int n)]. *)
Definition List_of_array (arr : list T) : List T :=
  mkList (Some (Some <$> arr)) (Z.of_nat (length arr)) (Z.of_nat (length arr)).

Definition clear : List T := mkList None 0 0.

(** ** Size *)

(** [safe_realloc]: the old cells, as far as they fit, then fresh ones. *)
Definition realloc_cells (m : option (list (option T))) (n : Z) : list (option T) :=
  let m := default [] m in
  take (Z.to_nat n) m ++ malloc_cells (n - Z.of_nat (length m)).

Definition resize (l : List T) (new_size : Z) : List T :=
  let new_size := if new_size <? num_entries l then num_entries l else new_size in
  if negb (new_size =? max_entries l)
  then mkList (Some (realloc_cells (entries l) new_size)) new_size (num_entries l)
  else l.

(** What [insert], [sortedinsert] and [append] begin with. *)
Definition make_room (l : List T) : List T :=
  if num_entries l =? max_entries l then
    resize l (if negb (max_entries l =? 0) then i32 (max_entries l * LIST_GROWTH_FACTOR)
              else DEFAULT_LIST_SIZE)
  else l.

(** ** Insertion *)

(** [for (i = n; i > 0; --i) entries[i] = entries[i-1]]. *)
Fixpoint shift_up (i : nat) (l : List T) : res (List T) :=
  match i with
  | O => Ok l
  | S j =>
      let! x := cell l (Z.of_nat j) in
      let! l := set_cell l (Z.of_nat i) x in shift_up j l
  end.

Definition insert (l : List T) (a : T) : res (List T) :=
  let l := make_room l in
  let! l := shift_up (Z.to_nat (num_entries l)) l in
  set_cell (set_num (num_entries l + 1) l) 0 a.

Definition append (l : List T) (a : T) : res (List T) :=
  let l := make_room l in
  let n := num_entries l in
  set_cell (set_num (n + 1) l) n a.

(** The new element moves to the front while it compares greater. *)
Fixpoint settle (i : nat) (l : List T) (cmp_func : T -> T -> Z) : res (List T) :=
  match i with
  | O => Ok l
  | S j =>
      let! x := cell l (Z.of_nat i) in
      let! y := cell l (Z.of_nat j) in
      if cmp_func x y <=? 0 then Ok l
      else
        let! l := set_cell l (Z.of_nat i) y in
        let! l := set_cell l (Z.of_nat j) x in
        settle j l cmp_func
  end.

Definition sortedinsert (l : List T) (a : T) (cmp_func : T -> T -> Z) : res (List T) :=
  let! l := append l a in
  settle (Z.to_nat (num_entries l - 1)) l cmp_func.

(** ** Removal *)

(** [for (; n < num_entries; ++n) entries[n] = entries[n+1]]: [k] rounds. *)
Fixpoint shift_down (k : nat) (n : Z) (l : List T) : res (List T) :=
  match k with
  | O => Ok l
  | S k =>
      let! x := cell l (n + 1) in
      let! l := set_cell l n x in shift_down k (n + 1) l
  end.

Definition remove_nth (l : List T) (n : Z) : res (T * List T) :=
  assert! (0 <=? n) && (n <? num_entries l) in
  let! old_ent := cell l n in
  let l := set_num (num_entries l - 1) l in
  let! l := shift_down (Z.to_nat (num_entries l - n)) n l in
  Ok (old_ent, l).

(** The searching loops of [remove] and [member_pos]: the first index from [i] on
    whose entry equals [a], [n] entries are left. *)
Fixpoint find_entry (n : nat) (i : Z) (l : List T) (a : T) : res (option Z) :=
  match n with
  | O => Ok None
  | S n =>
      let! x := cell l i in
      if eqb a x then Ok (Some i) else find_entry n (i + 1) l a
  end.

Definition remove (l : List T) (a : T) : res (bool * List T) :=
  let! pos := find_entry (Z.to_nat (num_entries l)) 0 l a in
  match pos with
  | Some i => let! (_, l) := remove_nth l i in Ok (true, l)
  | None => Ok (false, l)
  end.

(** [pop_front], but for the [delete] of pointers. *)
Definition pop_front (l : List T) : res (List T) := let! (_, l) := remove_nth l 0 in Ok l.

Definition get (l : List T) : res (T * List T) :=
  assert! 0 <? num_entries l in
  let l := set_num (num_entries l - 1) l in
  let! x := cell l (num_entries l) in Ok (x, l).

(** ** Access *)

Definition last (l : List T) : res T := cell l (num_entries l - 1).

Definition member_pos (l : List T) (e : T) : res Z :=
  let! pos := find_entry (Z.to_nat (num_entries l)) 0 l e in Ok (default (-1) pos).

Definition is_member (l : List T) (a : T) : res bool :=
  let! pos := member_pos l a in Ok (negb (pos =? -1)).

(** [entries[i] = nullptr] for [k] entries from [i] on. *)
Fixpoint fill_null (k : nat) (i : Z) (l : List T) : res (List T) :=
  match k with
  | O => Ok l
  | S k => let! l := set_cell l i null_val in fill_null k (i + 1) l
  end.

Definition replace (l : List T) (ent_index : Z) (new_ent : T) : res (T * List T) :=
  if ent_index <? 0 then Ok (null_val, l)
  else
    let! (old_ent, l) :=
      (if num_entries l - 1 <? ent_index then
         let l := resize l (i32 (ent_index + 1)) in
         let! l := fill_null (Z.to_nat (max_entries l - num_entries l)) (num_entries l) l in
         Ok (null_val, set_num (max_entries l) l)
       else let! x := cell l ent_index in Ok (x, l)) in
    let! l := set_cell l ent_index new_ent in
    Ok (old_ent, l).

(** [begin()] to [end()]. *)
Fixpoint iterate (n : nat) (i : Z) (l : List T) : res (list T) :=
  match n with
  | O => Ok []
  | S n => let! x := cell l i in let! xs := iterate n (i + 1) l in Ok (x :: xs)
  end.
Definition to_list (l : List T) : res (list T) := iterate (Z.to_nat (num_entries l)) 0 l.
End List.
