(* ===== verification/ListSpec.v ===== *)
(** * [List.h] implements a sequence

    [repr l xs]: the array of [l] holds the entries [xs] and, behind them, [max_entries]
    minus their number of spare cells. *)

From S2P Require Import Prelude ZeekList.

Section Spec.
Context {T : Type} `{!EqDecision T} (null_val : T).
Notation eqb := (fun a b : T => bool_decide (a = b)).

Definition cells (l : List T) : list (option T) := default [] (entries l).

Record repr (l : List T) (xs : list T) : Prop := mkRepr {
  r_num : num_entries l = Z.of_nat (length xs);
  r_cells : exists rest, cells l = (Some <$> xs) ++ rest;
  r_max : Z.of_nat (length (cells l)) = max_entries l
}.

(** Lists short enough to grow within an [int]. *)
Definition small (xs : list T) : Prop := Z.of_nat (length xs) < 2 ^ 30.

(** ** Cells *)

Lemma cell_cells (l : List T) i x : cells l !! i = Some (Some x) -> cell l (Z.of_nat i) = Ok x.
Proof using.
  unfold cells, cell. destruct (entries l) as [m|]; [|done]. cbn. intros E.
  destruct (Z.leb_spec 0 (Z.of_nat i)); [|lia]. by rewrite Nat2Z.id, E.
Qed.

Lemma set_cell_cells (l : List T) i x :
  (i < length (cells l))%nat ->
  exists l', set_cell l (Z.of_nat i) x = Ok l' /\ cells l' = <[i := Some x]> (cells l) /\
    num_entries l' = num_entries l /\ max_entries l' = max_entries l.
Proof using.
  unfold cells, set_cell. destruct (entries l) as [m|]; cbn; [|lia]. intros Hi.
  rewrite (proj2 (andb_true_iff _ _)) by (rewrite Z.leb_le, Z.ltb_lt; lia).
  eexists. split; [reflexivity|]. cbn. by rewrite Nat2Z.id.
Qed.

(** The same list of cells seen at a place. *)
Lemma set_cell_at (l : List T) pre c post x i :
  cells l = pre ++ c :: post -> i = Z.of_nat (length pre) ->
  exists l', set_cell l i x = Ok l' /\ cells l' = pre ++ Some x :: post /\
    num_entries l' = num_entries l /\ max_entries l' = max_entries l.
Proof using.
  intros E ->. destruct (set_cell_cells l (length pre) x) as (l' & E1 & E2 & E3);
    [rewrite E, length_app; cbn; lia|].
  exists l'. split; [done|]. split; [|done]. rewrite E2, E, insert_app_r_alt, Nat.sub_diag by done. done.
Qed.

Lemma cell_at (l : List T) pre x post i :
  cells l = pre ++ Some x :: post -> i = Z.of_nat (length pre) -> cell l i = Ok x.
Proof using. intros E ->. apply cell_cells. by rewrite E, list_lookup_middle. Qed.

Lemma set_num_cells n (l : List T) : cells (set_num n l) = cells l.
Proof using. done. Qed.

(** ** The loops *)

Lemma shift_up_ok ys (l : List T) x0 tail :
  cells l = (Some <$> ys) ++ x0 :: tail ->
  exists l', shift_up (length ys) l = Ok l' /\
    cells l' = default x0 (head (Some <$> ys)) :: (Some <$> ys) ++ tail /\
    num_entries l' = num_entries l /\ max_entries l' = max_entries l.
Proof using.
  revert l x0 tail. induction ys as [|y ys IH] using rev_ind; intros l x0 tail E; [by exists l|].
  rewrite length_app, Nat.add_1_r. cbn [shift_up].
  rewrite fmap_app, <- app_assoc in E. cbn in E.
  rewrite (cell_at l (Some <$> ys) y (x0 :: tail)) by (done || by rewrite length_fmap). cbn [res_bind].
  destruct (set_cell_at l ((Some <$> ys) ++ [Some y]) x0 tail y (Z.of_nat (S (length ys))))
    as (l1 & E1 & C1 & N1 & M1);
    [by rewrite <- app_assoc|rewrite length_app, length_fmap; cbn; lia|].
  rewrite E1. cbn [res_bind]. rewrite <- app_assoc in C1. cbn in C1.
  destruct (IH l1 (Some y) (Some y :: tail) C1) as (l' & E' & C' & N' & M').
  exists l'. split; [done|]. split; [|by rewrite N', M'].
  rewrite C', fmap_app, <- app_assoc. f_equal. by destruct ys.
Qed.

Lemma shift_down_ok ys (l : List T) pre x0 tail n :
  cells l = pre ++ x0 :: (Some <$> ys) ++ tail -> n = Z.of_nat (length pre) ->
  exists l' z, shift_down (length ys) n l = Ok l' /\
    cells l' = pre ++ (Some <$> ys) ++ z :: tail /\
    num_entries l' = num_entries l /\ max_entries l' = max_entries l.
Proof using.
  revert l pre x0 n. induction ys as [|y ys IH]; intros l pre x0 n E ->; [by exists l, x0|].
  cbn [length shift_down]. cbn in E.
  rewrite (cell_at l (pre ++ [x0]) y ((Some <$> ys) ++ tail))
    by (rewrite <- ?app_assoc, ?length_app; done || (cbn; lia)). cbn [res_bind].
  destruct (set_cell_at l pre x0 (Some y :: (Some <$> ys) ++ tail) y _ E eq_refl) as (l1 & E1 & C1 & N1 & M1).
  rewrite E1. cbn [res_bind].
  destruct (IH l1 (pre ++ [Some y]) (Some y) (Z.of_nat (length pre) + 1)) as (l' & z & E' & C' & N' & M').
  { by rewrite <- app_assoc. }
  { rewrite length_app. cbn. lia. }
  exists l', z. split; [done|]. split; [|by rewrite N', M']. by rewrite C', <- app_assoc.
Qed.

Lemma find_entry_ok ys (l : List T) pre tail a i :
  cells l = pre ++ (Some <$> ys) ++ tail -> i = Z.of_nat (length pre) ->
  find_entry eqb (length ys) i l a =
    Ok ((fun p => i + Z.of_nat p.1) <$> list_find (eq a) ys).
Proof using.
  revert pre i. induction ys as [|y ys IH]; intros pre i E ->; [done|]. cbn [length find_entry].
  cbn in E. rewrite (cell_at l pre y ((Some <$> ys) ++ tail)) by done. cbn [res_bind].
  cbn [list_find]. case_bool_decide as Ha.
  - rewrite decide_True by done. cbn. do 2 f_equal. lia.
  - rewrite decide_False by done.
    rewrite (IH (pre ++ [Some y])) by (rewrite <- ?app_assoc, ?length_app; done || (cbn; lia)).
    f_equal. destruct (list_find (eq a) ys) as [[j z]|]; [|done]. cbn. f_equal. lia.
Qed.

Lemma iterate_ok ys (l : List T) pre tail i :
  cells l = pre ++ (Some <$> ys) ++ tail -> i = Z.of_nat (length pre) ->
  iterate (length ys) i l = Ok ys.
Proof using.
  revert pre i. induction ys as [|y ys IH]; intros pre i E ->; [done|]. cbn [length iterate].
  cbn in E. rewrite (cell_at l pre y ((Some <$> ys) ++ tail)) by done. cbn [res_bind].
  by rewrite (IH (pre ++ [Some y])) by (rewrite <- ?app_assoc, ?length_app; done || (cbn; lia)).
Qed.

(** ** Room *)

Lemma resize_ok (l : List T) xs n :
  repr l xs -> repr (resize l n) xs /\ max_entries (resize l n) = Z.max n (Z.of_nat (length xs)).
Proof using.
  intros Hr. pose proof Hr as [En [rest Ec] Em]. unfold resize. rewrite En.
  assert ((if n <? Z.of_nat (length xs) then Z.of_nat (length xs) else n) = Z.max n (Z.of_nat (length xs))) as ->.
  { destruct (Z.ltb_spec n (Z.of_nat (length xs))); lia. }
  destruct (Z.eqb_spec (Z.max n (Z.of_nat (length xs))) (max_entries l)) as [E|E]; cbn [negb]; [by rewrite E|].
  split; [|done]. set (k := Z.max n (Z.of_nat (length xs))) in *.
  assert (cells (mkList (Some (realloc_cells (entries l) k)) k (num_entries l))
          = take (Z.to_nat k) (cells l) ++ malloc_cells (k - Z.of_nat (length (cells l)))) as Ek by done.
  rewrite En in Ek. split; cbn [num_entries max_entries].
  - done.
  - exists (take (Z.to_nat k - length xs) rest ++ malloc_cells (k - Z.of_nat (length (cells l)))).
    rewrite Ek, Ec, take_app, length_fmap, app_assoc. f_equal.
    by rewrite take_ge by (rewrite length_fmap; lia).
  - rewrite Ek, length_app, length_take. unfold malloc_cells. rewrite length_replicate. lia.
Qed.

Lemma make_room_ok (l : List T) xs :
  repr l xs -> small xs ->
  repr (make_room l) xs /\ Z.of_nat (length xs) < max_entries (make_room l).
Proof using.
  intros Hr Hs. pose proof Hr as [En [rest Ec] Em]. unfold make_room, small in *.
  assert (Z.of_nat (length xs) <= max_entries l) by (rewrite <- Em, Ec, length_app, length_fmap; lia).
  rewrite En. destruct (Z.eqb_spec (Z.of_nat (length xs)) (max_entries l)) as [E|E]; [|by split; [|lia]].
  destruct (resize_ok l xs (if negb (max_entries l =? 0) then i32 (max_entries l * LIST_GROWTH_FACTOR) else DEFAULT_LIST_SIZE) Hr)
    as [Hr' ->]. split; [done|]. unfold LIST_GROWTH_FACTOR, DEFAULT_LIST_SIZE.
  destruct (Z.eqb_spec (max_entries l) 0); cbn [negb]; [lia|].
  unfold i32, swrap. rewrite Z.mod_small by lia. destruct (Z.ltb_spec (max_entries l * 2) (2 ^ (32 - 1))); lia.
Qed.

(** The spare cell behind the entries. *)
Lemma spare (l : List T) xs :
  repr l xs -> Z.of_nat (length xs) < max_entries l ->
  exists c tail, cells l = (Some <$> xs) ++ c :: tail.
Proof using.
  intros [En [rest Ec] Em] Hm. rewrite Ec, length_app, length_fmap in Em.
  destruct rest as [|c tail]; [cbn in Em; lia|]. by exists c, tail.
Qed.

Lemma repr_intro (l : List T) xs rest n :
  cells l = (Some <$> xs) ++ rest -> num_entries l = Z.of_nat (length xs) ->
  max_entries l = n -> Z.of_nat (length (cells l)) = n -> repr l xs.
Proof using. intros Ec En Em El. split; [done|by exists rest|by rewrite El, Em]. Qed.
End Spec.
