(* ===== verification/ListProps.v ===== *)
(** * The operations of [List.h] against a list *)

From S2P Require Import Prelude ZeekList ListSpec.

Section Ops.
Context {T : Type} `{!EqDecision T} (null_val : T).
Notation eqb := (fun a b : T => bool_decide (a = b)).

(** ** Operations and what they return *)

Inductive op : Type :=
| Insert (a : T) | Append (a : T) | RemoveNth (n : Z) | Remove (a : T) | PopFront | Get | Last
| MemberPos (a : T) | Replace (i : Z) (x : T) | Resize (n : Z) | Clear | Copy | ToList.

Inductive out : Type :=
| Unit | Elem (x : T) | Found (b : bool) | Pos (z : Z) | Elems (xs : list T).

Definition exec (l : List T) (o : op) : res (out * List T) :=
  match o with
  | Insert a => let! l := insert l a in Ok (Unit, l)
  | Append a => let! l := append l a in Ok (Unit, l)
  | RemoveNth n => let! (x, l) := remove_nth l n in Ok (Elem x, l)
  | Remove a => let! (b, l) := remove eqb l a in Ok (Found b, l)
  | PopFront => let! l := pop_front l in Ok (Unit, l)
  | Get => let! (x, l) := get l in Ok (Elem x, l)
  | Last => let! x := last l in Ok (Elem x, l)
  | MemberPos a => let! p := member_pos eqb l a in Ok (Pos p, l)
  | Replace i x => let! (y, l) := replace null_val l i x in Ok (Elem y, l)
  | Resize n => let l := resize l n in Ok (Pos (max_entries l), l)
  | Clear => Ok (Unit, clear)
  | Copy => let! l := copy_List l in Ok (Unit, l)
  | ToList => let! xs := to_list l in Ok (Elems xs, l)
  end.

(** The same on a list. *)
Definition spec (xs : list T) (o : op) : res (out * list T) :=
  let len := Z.of_nat (length xs) in
  match o with
  | Insert a => Ok (Unit, a :: xs)
  | Append a => Ok (Unit, xs ++ [a])
  | RemoveNth n =>
      if 0 <=? n then
        match xs !! Z.to_nat n with
        | Some x => Ok (Elem x, base.delete (Z.to_nat n) xs)
        | None => Abort
        end
      else Abort
  | Remove a =>
      match list_find (eq a) xs with
      | Some (i, _) => Ok (Found true, base.delete i xs)
      | None => Ok (Found false, xs)
      end
  | PopFront => match xs with x :: xs => Ok (Unit, xs) | [] => Abort end
  | Get => match list.last xs with Some x => Ok (Elem x, removelast xs) | None => Abort end
  | Last => match list.last xs with Some x => Ok (Elem x, xs) | None => UB end
  | MemberPos a =>
      Ok (Pos (match list_find (eq a) xs with Some (i, _) => Z.of_nat i | None => -1 end), xs)
  | Replace i x =>
      if i <? 0 then Ok (Elem null_val, xs)
      else if len <=? i then
        Ok (Elem null_val, xs ++ replicate (Z.to_nat (i - len)) null_val ++ [x])
      else match xs !! Z.to_nat i with
           | Some y => Ok (Elem y, <[Z.to_nat i := x]> xs)
           | None => UB
           end
  | Resize n => Ok (Pos (Z.max n len), xs)
  | Clear => Ok (Unit, [])
  | Copy => Ok (Unit, xs)
  | ToList => Ok (Elems xs, xs)
  end.

(** ** One lemma for each *)

Lemma insert_ok (l : List T) xs a :
  repr l xs -> small xs -> exists l', insert l a = Ok l' /\ repr l' (a :: xs).
Proof using.
  intros Hr Hs. destruct (make_room_ok l xs Hr Hs) as [Hr1 Hm]. unfold insert.
  set (l1 := make_room l) in *. destruct (spare l1 xs Hr1 Hm) as (c & tail & Ec).
  pose proof Hr1 as [En _ Em]. rewrite En, Nat2Z.id.
  destruct (shift_up_ok xs l1 c tail Ec) as (l2 & E2 & C2 & N2 & M2). rewrite E2. cbn [res_bind].
  destruct (set_cell_at (set_num (num_entries l2 + 1) l2) [] _ _ a 0 C2 eq_refl) as (l3 & E3 & C3 & N3 & M3).
  rewrite E3. exists l3. split; [done|]. cbn in C3, N3, M3.
  apply (repr_intro _ _ tail (max_entries l1)); [done|cbn; lia|by rewrite M3, M2|].
  rewrite C3, <- Em, Ec. cbn. rewrite !length_app. cbn. lia.
Qed.

Lemma append_ok (l : List T) xs a :
  repr l xs -> small xs -> exists l', append l a = Ok l' /\ repr l' (xs ++ [a]).
Proof using.
  intros Hr Hs. destruct (make_room_ok l xs Hr Hs) as [Hr1 Hm]. unfold append.
  set (l1 := make_room l) in *. destruct (spare l1 xs Hr1 Hm) as (c & tail & Ec).
  pose proof Hr1 as [En _ Em].
  destruct (set_cell_at (set_num (num_entries l1 + 1) l1) _ _ _ a (num_entries l1) Ec)
    as (l3 & E3 & C3 & N3 & M3); [by rewrite En, length_fmap|].
  rewrite E3. exists l3. split; [done|]. cbn in N3, M3.
  apply (repr_intro _ _ tail (max_entries l1)); [by rewrite fmap_app, <- app_assoc| |done|].
  - rewrite length_app. cbn. lia.
  - rewrite C3, <- Em, Ec, !length_app. cbn. lia.
Qed.

Lemma remove_nth_ok (l : List T) xs i x :
  repr l xs -> xs !! i = Some x ->
  exists l', remove_nth l (Z.of_nat i) = Ok (x, l') /\ repr l' (base.delete i xs).
Proof using.
  intros [En [rest Ec] Em] Hx. pose proof (lookup_lt_Some _ _ _ Hx) as Hi. unfold remove_nth.
  rewrite En, ASSERT_true by (rewrite andb_true_iff, Z.leb_le, Z.ltb_lt; lia). cbn [res_bind].
  pose proof (take_drop_middle xs i x Hx) as Exs.
  assert (cells l = (Some <$> take i xs) ++ Some x :: (Some <$> drop (S i) xs) ++ rest) as Ec'.
  { rewrite Ec. rewrite <- Exs at 1. by rewrite fmap_app, <- app_assoc. }
  assert (length (take i xs) = i) as Et by (rewrite length_take; lia).
  rewrite (cell_at l _ _ _ (Z.of_nat i) Ec') by (by rewrite length_fmap, Et). cbn [res_bind].
  replace (Z.to_nat (num_entries (set_num (Z.of_nat (length xs) - 1) l) - Z.of_nat i))
    with (length (drop (S i) xs)) by (rewrite length_drop; cbn; lia).
  destruct (shift_down_ok (drop (S i) xs) (set_num (Z.of_nat (length xs) - 1) l) _ _ _ (Z.of_nat i) Ec')
    as (l' & z & E' & C' & N' & M'); [by rewrite length_fmap, Et|].
  rewrite E'. cbn [res_bind]. exists l'. split; [done|].
  apply (repr_intro _ _ (z :: rest) (max_entries l)).
  - rewrite C', delete_take_drop, fmap_app, <- app_assoc. done.
  - rewrite N'. cbn. rewrite length_delete by done. lia.
  - done.
  - rewrite C', <- Em, Ec'. rewrite !length_app. cbn. rewrite !length_app. cbn. lia.
Qed.

Lemma find_ok (l : List T) xs a :
  repr l xs ->
  find_entry eqb (Z.to_nat (num_entries l)) 0 l a = Ok ((fun p => Z.of_nat p.1) <$> list_find (eq a) xs).
Proof using.
  intros [En [rest Ec] Em]. rewrite En, Nat2Z.id.
  by rewrite (find_entry_ok xs l [] rest a 0).
Qed.

Lemma get_ok (l : List T) xs x : repr l (xs ++ [x]) -> exists l', get l = Ok (x, l') /\ repr l' xs.
Proof using.
  intros [En [rest Ec] Em]. rewrite length_app in En. cbn in En. unfold get.
  rewrite ASSERT_true by (apply Z.ltb_lt; lia). cbn [res_bind].
  rewrite fmap_app, <- app_assoc in Ec. cbn in Ec.
  rewrite (cell_at _ (Some <$> xs) x rest) by (done || (rewrite length_fmap; cbn; lia)). cbn [res_bind].
  eexists. split; [reflexivity|]. apply (repr_intro _ _ (Some x :: rest) (max_entries l)); [done|cbn; lia|done|done].
Qed.

Lemma last_ok (l : List T) xs x : repr l (xs ++ [x]) -> last l = Ok x.
Proof using.
  intros [En [rest Ec] Em]. rewrite length_app in En. cbn in En. unfold last.
  rewrite fmap_app, <- app_assoc in Ec. cbn in Ec.
  apply (cell_at _ (Some <$> xs) x rest); [done|rewrite length_fmap; lia].
Qed.

Lemma fill_null_ok k (l : List T) pre rest i :
  cells l = pre ++ rest -> (k <= length rest)%nat -> i = Z.of_nat (length pre) ->
  exists l', fill_null null_val k i l = Ok l' /\
    cells l' = pre ++ (Some <$> replicate k null_val) ++ drop k rest /\
    num_entries l' = num_entries l /\ max_entries l' = max_entries l.
Proof using.
  revert l pre rest i. induction k as [|k IH]; intros l pre rest i E Hk ->; [by exists l|].
  destruct rest as [|c rest]; [cbn in Hk; lia|]. cbn in Hk. cbn [fill_null].
  destruct (set_cell_at l pre c rest null_val _ E eq_refl) as (l1 & E1 & C1 & N1 & M1).
  rewrite E1. cbn [res_bind].
  destruct (IH l1 (pre ++ [Some null_val]) rest (Z.of_nat (length pre) + 1)) as (l' & E' & C' & N' & M').
  { by rewrite <- app_assoc. }
  { lia. }
  { rewrite length_app. cbn. lia. }
  exists l'. split; [done|]. split; [|by rewrite N', M']. by rewrite C', <- app_assoc.
Qed.

Lemma repr_set (l : List T) xs i x :
  repr l xs -> 0 <= i < Z.of_nat (length xs) ->
  exists l', set_cell l i x = Ok l' /\ repr l' (<[Z.to_nat i := x]> xs).
Proof using.
  intros [En [rest Ec] Em] Hi.
  destruct (set_cell_cells l (Z.to_nat i) x) as (l' & E & C & N & M).
  { rewrite Ec, length_app, length_fmap. lia. }
  rewrite Z2Nat.id in E by lia. exists l'. split; [done|].
  apply (repr_intro _ _ rest (max_entries l)).
  - rewrite C, Ec, list_fmap_insert. rewrite insert_app_l by (rewrite length_fmap; lia). done.
  - by rewrite N, length_insert.
  - done.
  - by rewrite C, length_insert.
Qed.

Lemma replace_beyond (l : List T) xs i x :
  repr l xs -> Z.of_nat (length xs) <= i < 2 ^ 31 - 1 ->
  exists l', replace null_val l i x = Ok (null_val, l') /\
    repr l' (xs ++ replicate (Z.to_nat (i - Z.of_nat (length xs))) null_val ++ [x]).
Proof using.
  intros Hr Hi. unfold replace. destruct (Z.ltb_spec i 0); [lia|].
  pose proof (r_num _ _ Hr) as En. rewrite En.
  destruct (Z.ltb_spec (Z.of_nat (length xs) - 1) i); [|lia].
  assert (i32 (i + 1) = i + 1) as ->.
  { unfold i32, swrap. rewrite Z.mod_small by lia. destruct (Z.ltb_spec (i + 1) (2 ^ (32 - 1))); lia. }
  destruct (resize_ok l xs (i + 1) Hr) as [Hr1 Hm]. set (l1 := resize l (i + 1)) in *.
  rewrite Z.max_l in Hm by lia.
  destruct Hr1 as [En1 [rest Ec] Em]. rewrite Hm in *. rewrite En1.
  assert (length rest = Z.to_nat (i + 1 - Z.of_nat (length xs))) as Hrest.
  { rewrite Ec, length_app, length_fmap in Em. lia. }
  destruct (fill_null_ok (length rest) l1 (Some <$> xs) rest (Z.of_nat (length xs)) Ec ltac:(lia))
    as (l2 & E2 & C2 & N2 & M2); [by rewrite length_fmap|].
  rewrite Hrest in E2. rewrite E2. cbn [res_bind]. rewrite drop_all, app_nil_r in C2.
  set (ys := xs ++ replicate (length rest) null_val).
  assert (repr (set_num (max_entries l2) l2) ys) as Hr2.
  { apply (repr_intro _ _ [] (i + 1)); cbn [max_entries set_num num_entries].
    - change (cells (set_num (max_entries l2) l2)) with (cells l2). rewrite C2, app_nil_r.
      unfold ys. by rewrite fmap_app.
    - rewrite M2, Hm. unfold ys. rewrite length_app, length_replicate. lia.
    - by rewrite M2.
    - change (cells (set_num (max_entries l2) l2)) with (cells l2).
      rewrite C2, length_app, !length_fmap, length_replicate. lia. }
  destruct (repr_set _ ys i x Hr2) as (l3 & E3 & Hr3).
  { unfold ys. rewrite length_app, length_replicate. lia. }
  rewrite E3. cbn [res_bind]. exists l3. split; [done|].
  replace (xs ++ replicate (Z.to_nat (i - Z.of_nat (length xs))) null_val ++ [x])
    with (<[Z.to_nat i := x]> ys); [done|].
  unfold ys. rewrite insert_app_r_alt by lia. f_equal.
  replace (length rest) with (Z.to_nat (i - Z.of_nat (length xs)) + 1)%nat by lia.
  rewrite replicate_add, insert_app_r_alt by (rewrite length_replicate; lia).
  rewrite length_replicate. by replace (Z.to_nat i - length xs - Z.to_nat (i - Z.of_nat (length xs)))%nat with 0%nat by lia.
Qed.

Lemma copy_entries_ok ys (b l : List T) pre rest tail i :
  cells b = pre ++ (Some <$> ys) ++ tail -> cells l = pre ++ rest -> (length ys <= length rest)%nat ->
  i = Z.of_nat (length pre) ->
  exists l', copy_entries (length ys) i b l = Ok l' /\
    cells l' = pre ++ (Some <$> ys) ++ drop (length ys) rest /\
    num_entries l' = num_entries l /\ max_entries l' = max_entries l.
Proof using.
  revert l pre rest i. induction ys as [|y ys IH]; intros l pre rest i Eb E Hk ->; [by exists l|].
  destruct rest as [|c rest]; [cbn in Hk; lia|]. cbn in Hk, Eb. cbn [length copy_entries].
  rewrite (cell_at b pre y _ _ Eb eq_refl). cbn [res_bind].
  destruct (set_cell_at l pre c rest y _ E eq_refl) as (l1 & E1 & C1 & N1 & M1). rewrite E1. cbn [res_bind].
  destruct (IH l1 (pre ++ [Some y]) rest (Z.of_nat (length pre) + 1)) as (l' & E' & C' & N' & M').
  { by rewrite <- app_assoc. }
  { by rewrite <- app_assoc. }
  { lia. }
  { rewrite length_app. cbn. lia. }
  exists l'. split; [done|]. split; [|by rewrite N', M']. by rewrite C', <- app_assoc.
Qed.

Lemma copy_ok (l : List T) xs : repr l xs -> exists l', copy_List l = Ok l' /\ repr l' xs.
Proof using.
  intros [En [rest Ec] Em]. unfold copy_List. rewrite En, Nat2Z.id.
  set (l0 := mkList _ _ _). assert (cells l0 = malloc_cells (max_entries l)) as E0.
  { unfold l0, cells. cbn. destruct (Z.eqb_spec (max_entries l) 0) as [->|]; done. }
  assert (length (cells l0) = length (cells l)) as El.
  { rewrite E0. unfold malloc_cells. rewrite length_replicate. lia. }
  destruct (copy_entries_ok xs l l0 [] (cells l0) rest 0) as (l' & E' & C' & N' & M'); try done.
  { rewrite El, Ec, length_app, length_fmap. lia. }
  exists l'. split; [done|]. apply (repr_intro _ _ (drop (length xs) (cells l0)) (max_entries l)); [done|done|done|].
  rewrite C', !length_app, length_fmap, length_drop, El, <- Em, Ec, length_app, length_fmap. cbn [length]. lia.
Qed.

(** ** All of them *)

(** An operation whose index arithmetic stays within an [int]. *)
Definition op_fits (o : op) : Prop :=
  match o with Replace i _ => i < 2 ^ 31 - 1 | _ => True end.

(** The operation's outcome [r] is that of the specification. *)
Definition refines (r : res (out * List T)) (s : res (out * list T)) : Prop :=
  match s with
  | Ok (o, ys) => exists l', r = Ok (o, l') /\ repr l' ys
  | Abort => r = Abort
  | UB => r = UB
  | NoFuel => False
  end.

Lemma remove_nth_refines (l : List T) xs n :
  repr l xs ->
  refines (let! (x, l) := remove_nth l n in Ok (Elem x, l)) (spec xs (RemoveNth n)).
Proof using.
  intros Hr. cbn [spec]. pose proof (r_num _ _ Hr) as En.
  assert (~ 0 <= n < Z.of_nat (length xs) -> remove_nth l n = Abort) as Hout.
  { intros Hn. unfold remove_nth. rewrite En.
    destruct (Z.leb_spec 0 n), (Z.ltb_spec n (Z.of_nat (length xs))); try lia; done. }
  destruct (Z.leb_spec 0 n) as [H0|H0]; [|cbn; rewrite Hout by lia; done].
  destruct (xs !! Z.to_nat n) as [x|] eqn:Ex.
  - destruct (remove_nth_ok l xs _ x Hr Ex) as (l' & E & Hr'). rewrite Z2Nat.id in E by lia.
    rewrite E. cbn. by exists l'.
  - apply lookup_ge_None in Ex. cbn. rewrite Hout by lia. done.
Qed.

Lemma replace_refines (l : List T) xs i x :
  repr l xs -> i < 2 ^ 31 - 1 ->
  refines (let! (y, l) := replace null_val l i x in Ok (Elem y, l)) (spec xs (Replace i x)).
Proof using.
  intros Hr Hi. cbn [spec]. destruct (Z.ltb_spec i 0) as [H0|H0].
  { unfold replace. destruct (Z.ltb_spec i 0); [|lia]. cbn. by exists l. }
  destruct (Z.leb_spec (Z.of_nat (length xs)) i).
  { destruct (replace_beyond l xs i x Hr ltac:(lia)) as (l' & E & Hr'). rewrite E. cbn. by exists l'. }
  destruct (lookup_lt_is_Some_2 xs (Z.to_nat i)) as [y Ey]; [lia|]. rewrite Ey.
  destruct (repr_set l xs i x Hr ltac:(lia)) as (l' & E & Hr').
  unfold replace. destruct (Z.ltb_spec i 0); [lia|]. rewrite (r_num _ _ Hr).
  destruct (Z.ltb_spec (Z.of_nat (length xs) - 1) i); [lia|].
  destruct (r_cells _ _ Hr) as [rest Ec]. rewrite <- (Z2Nat.id i) at 1 by lia.
  rewrite (cell_cells l (Z.to_nat i) y).
  - cbn [res_bind]. rewrite E. cbn. by exists l'.
  - rewrite Ec, lookup_app_l by (rewrite length_fmap; lia). by rewrite list_lookup_fmap, Ey.
Qed.

Lemma last_cases (xs : list T) :
  (xs = [] /\ list.last xs = None) \/ exists ys x, xs = ys ++ [x] /\ list.last xs = Some x /\ removelast xs = ys.
Proof using.
  destruct xs as [|x ys _] using rev_ind; [by left|right]. exists ys, x.
  by rewrite last_snoc, removelast_last.
Qed.

Lemma exec_refines (l : List T) xs o :
  repr l xs -> small xs -> op_fits o -> refines (exec l o) (spec xs o).
Proof using.
  intros Hr Hs Hf. pose proof (r_num _ _ Hr) as En.
  destruct o as [a|a|n|a| | | |a|i x|n| | |]; cbn [exec].
  - destruct (insert_ok l xs a Hr Hs) as (l' & E & Hr'). rewrite E. by exists l'.
  - destruct (append_ok l xs a Hr Hs) as (l' & E & Hr'). rewrite E. by exists l'.
  - by apply remove_nth_refines.
  - cbn [spec]. unfold remove. rewrite (find_ok l xs a Hr). cbn [res_bind].
    destruct (list_find (eq a) xs) as [[i z]|] eqn:Ef; cbn; [|by exists l].
    apply list_find_Some in Ef as (Ez & _ & _).
    destruct (remove_nth_ok l xs i z Hr Ez) as (l' & E & Hr'). rewrite E. cbn. by exists l'.
  - pose proof (remove_nth_refines l xs 0 Hr) as H. unfold pop_front. cbn [spec] in *.
    destruct xs as [|x xs]; cbn in H |- *; [by destruct (remove_nth l 0) as [[]| | |]|].
    destruct H as (l' & E & Hr'). exists l'. by destruct (remove_nth l 0) as [[]| | |]; [injection E as -> ->|..].
  - cbn [spec]. destruct (last_cases xs) as [[-> ->]|(ys & x & -> & -> & ->)].
    + cbn. unfold get. by rewrite En.
    + destruct (get_ok l ys x Hr) as (l' & E & Hr'). rewrite E. by exists l'.
  - cbn [spec]. destruct (last_cases xs) as [[-> ->]|(ys & x & -> & -> & _)].
    + cbn. unfold last, cell. rewrite En. by destruct (entries l).
    + rewrite (last_ok l ys x Hr). by exists l.
  - cbn [spec]. unfold member_pos. rewrite (find_ok l xs a Hr). cbn.
    exists l. by destruct (list_find (eq a) xs) as [[i z]|].
  - by apply replace_refines.
  - destruct (resize_ok l xs n Hr) as [Hr' Em]. rewrite Em. by eexists.
  - cbn. eexists. split; [reflexivity|]. split; [done|by exists []|done].
  - destruct (copy_ok l xs Hr) as (l' & E & Hr'). rewrite E. by exists l'.
  - cbn [spec]. destruct Hr as [_ [rest Ec] Em]. unfold to_list. rewrite En, Nat2Z.id.
    rewrite (iterate_ok xs l [] rest 0) by done. cbn. exists l. split; [done|].
    split; [done|by exists rest|done].
Qed.

(** ** Sorted insertion *)

(** Where [a] stops on its way to the front of [ys]. *)
Lemma settle_ok (cmp : T -> T -> Z) ys (l : List T) a zs :
  repr l (ys ++ a :: zs) ->
  exists l' us vs, settle (length ys) l cmp = Ok l' /\ ys = us ++ vs /\ repr l' (us ++ a :: vs ++ zs) /\
    Forall (fun v => 0 < cmp a v) vs /\ (forall u, list.last us = Some u -> cmp a u <= 0).
Proof using.
  revert l zs. induction ys as [|y ys IH] using rev_ind; intros l zs Hr; [by exists l, [], []|].
  rewrite length_app, Nat.add_1_r. cbn [settle]. pose proof Hr as [_ [rest Ec] _].
  rewrite <- app_assoc in Hr, Ec. cbn in Hr, Ec. rewrite !fmap_app, <- app_assoc in Ec. cbn in Ec.
  rewrite (cell_at l ((Some <$> ys) ++ [Some y]) a ((Some <$> zs) ++ rest))
    by (rewrite <- ?app_assoc, ?length_app, ?length_fmap; done || (cbn; lia)). cbn [res_bind].
  rewrite (cell_at l (Some <$> ys) y (Some a :: (Some <$> zs) ++ rest))
    by (done || by rewrite length_fmap). cbn [res_bind].
  destruct (Z.leb_spec (cmp a y) 0) as [Hc|Hc].
  { exists l, (ys ++ [y]), []. split; [done|]. split; [by rewrite app_nil_r|].
    split; [by rewrite <- app_assoc|]. split; [done|]. intros u Hu. rewrite last_snoc in Hu. by injection Hu as <-. }
  assert (length ys < length (ys ++ y :: a :: zs))%nat by (rewrite length_app; cbn; lia).
  destruct (repr_set l _ (Z.of_nat (S (length ys))) y Hr) as (l1 & E1 & Hr1); [rewrite length_app; cbn; lia|].
  rewrite E1. cbn [res_bind].
  destruct (repr_set l1 _ (Z.of_nat (length ys)) a Hr1) as (l2 & E2 & Hr2);
    [rewrite length_insert, length_app; cbn; lia|].
  rewrite E2. cbn [res_bind]. rewrite !Nat2Z.id in Hr2.
  replace (<[length ys:=a]> (<[S (length ys):=y]> (ys ++ y :: a :: zs))) with (ys ++ a :: y :: zs) in Hr2.
  2:{ rewrite !insert_app_r_alt by lia. rewrite Nat.sub_diag.
      by replace (S (length ys) - length ys)%nat with 1%nat by lia. }
  destruct (IH l2 (y :: zs) Hr2) as (l' & us & vs & E' & -> & Hr' & Hf & Hu).
  exists l', us, (vs ++ [y]). split; [done|]. split; [by rewrite app_assoc|].
  split; [by rewrite <- app_assoc|]. split; [|done]. apply Forall_app. by split; [|constructor].
Qed.

Lemma sortedinsert_ok (cmp : T -> T -> Z) (l : List T) xs a :
  repr l xs -> small xs ->
  exists l' us vs, sortedinsert l a cmp = Ok l' /\ xs = us ++ vs /\ repr l' (us ++ a :: vs) /\
    Forall (fun v => 0 < cmp a v) vs /\ (forall u, list.last us = Some u -> cmp a u <= 0).
Proof using.
  intros Hr Hs. unfold sortedinsert. destruct (append_ok l xs a Hr Hs) as (l1 & E1 & Hr1).
  rewrite E1. cbn [res_bind]. rewrite (r_num _ _ Hr1), length_app.
  replace (Z.to_nat (Z.of_nat (length xs + length [a]) - 1)) with (length xs) by (cbn; lia).
  destruct (settle_ok cmp xs l1 a [] Hr1) as (l' & us & vs & E & -> & Hr' & Hf & Hu).
  exists l', us, vs. rewrite app_nil_r in Hr'. done.
Qed.
End Ops.
Arguments op : clear implicits.
Arguments out : clear implicits.

(** C18: Every operation of a [List] does what it does on a list: insertion at either
    end, removal by position and by value, [get], [last], [replace] inside and beyond
    the end, [resize], [clear], copying and iteration, with their failed assertions
    and their undefined case; the array grows and shrinks as needed. *)
Theorem List_refines {T : Type} `{!EqDecision T} (null_val : T) (l : List T) xs o :
  repr l xs -> small xs -> op_fits o -> refines (exec null_val l o) (spec null_val xs o).
Proof. apply exec_refines. Qed.

(** [sortedinsert] keeps a list sorted whose entries descend in the order of
    [cmp_func], and adds just the new entry. *)
Theorem sortedinsert_descending {T : Type} `{!EqDecision T} (cmp : T -> T -> Z) (l : List T) xs a :
  repr l xs -> small xs -> (forall x y, 0 < cmp x y -> cmp y x <= 0) ->
  Sorted (fun x y => cmp y x <= 0) xs ->
  exists l' ys, sortedinsert l a cmp = Ok l' /\ repr l' ys /\ ys ≡ₚ a :: xs /\
    Sorted (fun x y => cmp y x <= 0) ys.
Proof.
  intros Hr Hs Hasym Hsorted. destruct (sortedinsert_ok cmp l xs a Hr Hs) as (l' & us & vs & E & -> & Hr' & Hf & Hu).
  exists l', (us ++ a :: vs). split; [done|]. split; [done|]. split; [by rewrite <- Permutation_middle|].
  clear E Hr Hr' Hs. induction us as [|u us IH]; cbn in *.
  - constructor; [done|]. destruct vs as [|v vs]; constructor. inversion Hf; subst. by apply Hasym.
  - inversion Hsorted as [|? ? Hs Hd]; subst. constructor.
    + apply IH; [done|]. intros w Hw. apply Hu. destruct us; [done|]. exact Hw.
    + destruct us as [|u' us]; cbn.
      * constructor. by apply Hu.
      * constructor. by inversion Hd.
Qed.

(** ** On numbers *)

Lemma array_ok {T : Type} (xs : list T) : repr (List_of_array xs) xs.
Proof.
  apply (repr_intro _ _ [] (Z.of_nat (length xs))); cbn; [by rewrite app_nil_r|done|done|].
  by rewrite length_fmap.
Qed.

Lemma List_refines_witness :
  exists l', exec 0 (List_of_array [5; 7; 9]) (Replace 4 1) = Ok (Elem 0, l') /\ repr l' [5; 7; 9; 0; 1].
Proof. apply (List_refines 0 (List_of_array [5; 7; 9]) [5; 7; 9] (Replace 4 1) (array_ok _)); reflexivity. Defined.

Lemma sortedinsert_descending_witness :
  exists l' ys, sortedinsert (List_of_array [9; 5; 2]) 7 Z.sub = Ok l' /\ repr l' ys /\ ys ≡ₚ [7; 9; 5; 2] /\
    Sorted (fun x y => y - x <= 0) ys.
Proof.
  apply (sortedinsert_descending Z.sub (List_of_array [9; 5; 2]) [9; 5; 2] 7 (array_ok _)).
  - reflexivity.
  - intros x y H. lia.
  - repeat constructor; lia.
Defined.

(** [sort] with the same function puts the list in ascending order ([qsort]); an
    element inserted into that by [sortedinsert] does not get to its place. *)
Lemma sortedinsert_after_sort :
  (let! l := sortedinsert (List_of_array [1; 3]) 2 Z.sub in to_list l) = Ok [1; 3; 2].
Proof. reflexivity. Qed.
