(* ===== verification/Base64.v ===== *)
(** * [sha256-ssh-key-hashing.cc]: base64

    [b64_pton] decodes and [b64_ntop] encodes; characters and bytes are numbers below
    256, a C string is the list of its characters before the NUL.  The counters are
    [int]s, whose overflow is undefined. *)

From S2P Require Import Prelude.

Definition EQUALS : Z := 61.

(** [isspace] of the C locale. *)
Definition isspace (c : Z) : bool := (c =? 32) || ((9 <=? c) && (c <=? 13)).

(** [b64_tbl], row by row. *)
Definition b64_tbl : list Z :=
  replicate 43 255 ++ [62; 255; 255; 255; 63] ++
  [52; 53; 54; 55; 56; 57; 58; 59; 60; 61; 255; 255; 255; 0; 255; 255] ++
  [255; 0; 1; 2; 3; 4; 5; 6; 7; 8; 9; 10; 11; 12; 13; 14] ++
  [15; 16; 17; 18; 19; 20; 21; 22; 23; 24; 25; 255; 255; 255; 255; 255] ++
  [255; 26; 27; 28; 29; 30; 31; 32; 33; 34; 35; 36; 37; 38; 39; 40] ++
  [41; 42; 43; 44; 45; 46; 47; 48; 49; 50; 51] ++ replicate 133 255.

(** ["ABC...xyz0123456789+/"]. *)
Definition b64str : list Z :=
  (Z.add 65 <$> seqZ 0 26) ++ (Z.add 97 <$> seqZ 0 26) ++ (Z.add 48 <$> seqZ 0 10) ++ [43; 47].

(** [dst[k] = v]: [dst] may be [NULL]. *)
Definition store (dst : option (list Z)) (k : Z) (v : Z) : res (option (list Z)) :=
  match dst with
  | None => Ok None
  | Some d =>
      if (0 <=? k) && (k <? Z.of_nat (length d)) then Ok (Some (<[Z.to_nat k := u8 v]> d)) else UB
  end.

(** The loop of [b64_pton]; [None] is [return (-1)]. *)
Fixpoint pton_loop (src : list Z) (i j k val3 : Z) (dst : option (list Z)) (dstsiz : Z)
    : res (option (Z * Z) * option (list Z)) :=
  match src with
  | [] => Ok (Some (j, k), dst)
  | c :: src =>
      if isspace c then let! i := int_of (i + 1) in pton_loop src i j k val3 dst dstsiz
      else
        let t := b64_tbl !!! Z.to_nat c in
        if t =? 255 then Ok (None, dst)
        else
          let val3 := Z.lor val3 t in
          if negb (c =? EQUALS) && bool_decide (dst <> None) && (swrap 64 dstsiz <=? k) then Ok (None, dst)
          else
            let! (k, dst) :=
              (if negb (c =? EQUALS) then
                 if j mod 4 =? 1 then
                   let! dst := store dst k (Z.shiftr val3 4) in
                   let! k := int_of (k + 1) in Ok (k, dst)
                 else if j mod 4 =? 2 then
                   let! dst := store dst k (Z.shiftr val3 2) in
                   let! k := int_of (k + 1) in Ok (k, dst)
                 else if j mod 4 =? 3 then
                   let! dst := store dst k val3 in
                   let! k := int_of (k + 1) in Ok (k, dst)
                 else Ok (k, dst)
               else Ok (k, dst)) in
            let! j := int_of (j + 1) in
            let! i := int_of (i + 1) in
            pton_loop src i j k (u32 (Z.shiftl val3 6)) dst dstsiz
  end.

Definition b64_pton (src : list Z) (dst : option (list Z)) (dstsiz : Z)
    : res (Z * option (list Z)) :=
  let! (r, dst) := pton_loop src 0 0 0 0 dst dstsiz in
  match r with
  | Some (j, k) => Ok (if negb (j mod 4 =? 0) then -1 else k, dst)
  | None => Ok (-1, dst)
  end.

(** One round of the loop of [b64_ntop]: the four characters for [src[i]] and what
    there is of [src[i+1]] and [src[i+2]]. *)
Definition b64_char (v : Z) : Z := b64str !!! Z.to_nat v.
Definition ntop_quad (a : Z) (b c : option Z) : list Z :=
  let bit24 := Z.shiftl a 16 in
  let bit24 := match b with Some b => Z.lor bit24 (Z.shiftl b 8) | None => bit24 end in
  let bit24 := match c with Some c => Z.lor bit24 c | None => bit24 end in
  [b64_char (Z.shiftr (Z.land bit24 0xfc0000) 18);
   b64_char (Z.shiftr (Z.land bit24 0x03f000) 12);
   match b with Some _ => b64_char (Z.shiftr (Z.land bit24 0x000fc0) 6) | None => EQUALS end;
   match c with Some _ => b64_char (Z.land bit24 0x00003f) | None => EQUALS end].

(** The loop: what is written to [target] from [j] on, and the last [j]. *)
Fixpoint ntop_for (src : list Z) (i j : Z) : res (list Z * Z) :=
  match src with
  | [] => Ok ([], j)
  | a :: src1 =>
      let quad := ntop_quad a (head src1) (head (tail src1)) in
      let! j := int_of (j + 4) in
      let! i := int_of (i + 3) in
      let! (t, j) :=
        (match src1 with _ :: _ :: src => ntop_for src i j | _ => Ok ([], j) end) in
      Ok (quad ++ t, j)
  end.

(** [target] is [NULL] or has [target_size] characters; what it holds afterwards up to
    the NUL. *)
Definition b64_ntop (src : list Z) (target : option unit) (target_size : Z)
    : res (Z * option (list Z)) :=
  let expect_siz := u64 (u64 (Z.of_nat (length src) + 2) / 3 * 4 + 1) in
  match target with
  | None => Ok (i32 expect_siz, None)
  | Some _ =>
      if target_size <? expect_siz then Ok (-1, None)
      else let! (t, j) := ntop_for src 0 0 in Ok (j, Some t)
  end.

(** The text without the counters. *)
Fixpoint ntop_loop (src : list Z) : list Z :=
  match src with
  | [] => []
  | [a] => ntop_quad a None None
  | [a; b] => ntop_quad a (Some b) None
  | a :: b :: c :: src => ntop_quad a (Some b) (Some c) ++ ntop_loop src
  end.

(** ** The tables *)

Lemma b64_tbl_256 : length b64_tbl = 256%nat.
Proof. reflexivity. Qed.

(** A character of the alphabet decodes to its value. *)
Lemma tbl_of_char v :
  0 <= v < 64 ->
  let c := b64_char v in
  isspace c = false /\ b64_tbl !!! Z.to_nat c = v /\ c <> EQUALS /\ 0 < c < 128.
Proof.
  assert (forallb (fun v => let c := b64_char v in
    negb (isspace c) && (b64_tbl !!! Z.to_nat c =? v) && negb (c =? EQUALS) && (0 <? c) && (c <? 128))
    (seqZ 0 64) = true) as H by (vm_compute; reflexivity).
  intros Hv c. rewrite forallb_forall in H. specialize (H v).
  rewrite !andb_true_iff, !negb_true_iff, Z.eqb_eq, Z.eqb_neq, !Z.ltb_lt in H.
  destruct H as ((((H1 & H2) & H3) & H4) & H5); [|by split_and!].
  apply list_elem_of_In, elem_of_seqZ. lia.
Qed.

(** ** Bits *)

(** Six bits of [x], [n] bits up. *)
Lemma six_bits x n m : 0 <= n -> Z.shiftr m n = 63 -> Z.shiftr (Z.land x m) n = x / 2 ^ n mod 64.
Proof.
  intros Hn Em. rewrite Z.shiftr_land, Em. change 63 with (Z.ones 6).
  by rewrite Z.land_ones, Z.shiftr_div_pow2.
Qed.

(** The characters of a group of three bytes. *)
Lemma ntop_quad_chars a b c :
  byte_ok a -> byte_ok (default 0 b) -> byte_ok (default 0 c) -> (b = None -> c = None) ->
  ntop_quad a b c =
    [b64_char (a / 4); b64_char (a mod 4 * 16 + default 0 b / 16);
     if b then b64_char (default 0 b mod 16 * 4 + default 0 c / 64) else EQUALS;
     if c then b64_char (default 0 c mod 64) else EQUALS].
Proof.
  unfold byte_ok. intros Ha Hb Hc Hbc. unfold ntop_quad.
  assert ((match c with Some c => Z.lor (match b with Some b => Z.lor (Z.shiftl a 16) (Z.shiftl b 8)
             | None => Z.shiftl a 16 end) c
           | None => match b with Some b => Z.lor (Z.shiftl a 16) (Z.shiftl b 8) | None => Z.shiftl a 16 end end)
          = a * 65536 + default 0 b * 256 + default 0 c) as ->.
  { assert (forall y, 0 <= y < 2 ^ 8 -> Z.lor (Z.shiftl a 16) (Z.shiftl y 8) = a * 65536 + y * 256) as E.
    { intros y Hy. rewrite !Z.shiftl_mul_pow2 by lia. apply (lor_low _ _ 16); [lia|by apply Z.mod_mul|lia]. }
    assert (Z.shiftl a 16 = a * 65536) as E0 by (rewrite Z.shiftl_mul_pow2 by lia; lia).
    destruct b as [b|], c as [c|]; cbn [default from_option id] in *; try (by specialize (Hbc eq_refl)).
    - rewrite E by lia. apply (lor_low _ _ 8); [lia|dlia|lia].
    - rewrite E by lia. lia.
    - lia. }
  rewrite (six_bits _ 18), (six_bits _ 12), (six_bits _ 6) by done.
  replace (Z.land _ 63) with ((a * 65536 + default 0 b * 256 + default 0 c) mod 64)
    by (change 63 with (Z.ones 6); by rewrite Z.land_ones).
  change (2 ^ 18) with 262144. change (2 ^ 12) with 4096. change (2 ^ 6) with 64. f_equal; [f_equal; dlia|].
  f_equal; [f_equal; dlia|]. destruct b as [b|], c as [c|]; cbn [default from_option id] in *;
    try (by specialize (Hbc eq_refl)); repeat (f_equal; try dlia).
Qed.

(** ** Decoding what was encoded *)

Definition put (d : list Z) (k : Z) (v : Z) : list Z := <[Z.to_nat k := v]> d.

Lemma swrap_64 n : 0 <= n < 2 ^ 63 -> swrap 64 n = n.
Proof.
  intros Hn. unfold swrap. rewrite Z.mod_small by lia. destruct (Z.ltb_spec n (2 ^ (64 - 1))); lia.
Qed.

(** One character of the alphabet. *)
Lemma pton_char t src i j k val3 d n :
  0 <= t < 64 -> val3 mod 64 = 0 -> 0 <= k < n -> Z.of_nat (length d) = n ->
  n < 2 ^ 63 -> 0 <= i < 2 ^ 31 - 1 -> 0 <= j < 2 ^ 31 - 1 -> k < 2 ^ 31 - 1 ->
  pton_loop (b64_char t :: src) i j k val3 (Some d) n =
    let v := val3 + t in
    let '(k', d') :=
      if j mod 4 =? 1 then (k + 1, put d k (u8 (v / 16)))
      else if j mod 4 =? 2 then (k + 1, put d k (u8 (v / 4)))
      else if j mod 4 =? 3 then (k + 1, put d k (u8 v))
      else (k, d) in
    pton_loop src (i + 1) (j + 1) k' (u32 (v * 64)) (Some d') n.
Proof.
  intros Ht Hv Hk Hd Hn Hi Hj Hk31. destruct (tbl_of_char t Ht) as (Hs & Htbl & Hne & _).
  cbn [pton_loop]. rewrite Hs, Htbl. rewrite (proj2 (Z.eqb_neq t 255)) by lia.
  rewrite (proj2 (Z.eqb_neq _ EQUALS)) by done.
  rewrite swrap_64, (proj2 (Z.leb_gt n k)) by lia. rewrite andb_false_r. cbn [negb].
  rewrite (lor_low val3 t 6) by (done || lia).
  unfold store, put. rewrite (proj2 (andb_true_iff _ _)) by (rewrite Z.leb_le, Z.ltb_lt; lia).
  rewrite !Z.shiftr_div_pow2, Z.shiftl_mul_pow2 by lia. cbn [res_bind].
  rewrite !int_of_ok by lia. cbn [res_bind].
  destruct (j mod 4 =? 1), (j mod 4 =? 2), (j mod 4 =? 3); done.
Qed.

(** A padding character. *)
Lemma pton_equals src i j k val3 d n :
  val3 mod 64 = 0 -> 0 <= i < 2 ^ 31 - 1 -> 0 <= j < 2 ^ 31 - 1 ->
  pton_loop (EQUALS :: src) i j k val3 (Some d) n =
    pton_loop src (i + 1) (j + 1) k (u32 (val3 * 64)) (Some d) n.
Proof.
  intros Hv Hi Hj. cbn [pton_loop]. change (isspace EQUALS) with false. cbv iota.
  change (b64_tbl !!! Z.to_nat EQUALS) with 0. rewrite Z.lor_0_r. cbn [negb Z.eqb andb res_bind].
  rewrite Z.eqb_refl. cbn [negb andb res_bind].
  rewrite !int_of_ok by lia. cbn [res_bind]. by rewrite Z.shiftl_mul_pow2 by lia.
Qed.

(** Four characters give back up to three bytes. *)
Lemma pton_quad a b c src i j k val3 d n :
  byte_ok a -> byte_ok (default 0 b) -> byte_ok (default 0 c) -> (b = None -> c = None) ->
  val3 mod 64 = 0 -> j mod 4 = 0 -> 0 <= k -> Z.of_nat (length d) = n -> n < 2 ^ 63 ->
  0 <= i < 2 ^ 31 - 4 -> 0 <= j < 2 ^ 31 - 4 -> k < 2 ^ 31 - 4 ->
  let len := 1 + (if b then 1 else 0) + (if c then 1 else 0) in
  k + len <= n ->
  exists val3', val3' mod 64 = 0 /\
    pton_loop (ntop_quad a b c ++ src) i j k val3 (Some d) n =
    pton_loop src (i + 4) (j + 4) (k + len) val3'
      (Some (let d := put d k a in
             let d := match b with Some b => put d (k + 1) b | None => d end in
             match c with Some c => put d (k + 2) c | None => d end)) n.
Proof.
  intros Ha Hb Hc Hbc Hv Hj Hk Hd Hn63 Hi31 Hj31 Hk31 len Hn. unfold byte_ok in *. rewrite ntop_quad_chars by done.
  assert (forall x, u32 (x * 64) mod 64 = 0) as H64.
  { intros x. unfold u32. rewrite Z.mod_mod_divide; [by apply Z.mod_mul|]. by exists (2 ^ 26). }
  assert (length (put d k a) = length d) as Hp by (unfold put; by rewrite length_insert).
  assert (forall x i y, length (put x i y) = length x) as Hpl by (intros; unfold put; by rewrite length_insert).
  assert (forall x t, x mod 64 = 0 -> 0 <= t < 64 -> exists q, u32 ((x + t) * 64) = q * 64 /\ q mod 64 = t) as Hq.
  { intros x t Hx Ht. exists ((x + t) mod 2 ^ 26). split; [unfold u32; dlia|].
    rewrite Z.mod_mod_divide; [dlia|by exists (2 ^ 20)]. }
  assert ((j + 1) mod 4 = 1 /\ (j + 1 + 1) mod 4 = 2 /\ (j + 1 + 1 + 1) mod 4 = 3) as (J1 & J2 & J3) by dlia.
  set (t1 := a / 4). set (t2 := a mod 4 * 16 + default 0 b / 16).
  set (t3 := default 0 b mod 16 * 4 + default 0 c / 64). set (t4 := default 0 c mod 64).
  assert (0 <= t1 < 64 /\ 0 <= t2 < 64 /\ 0 <= t3 < 64 /\ 0 <= t4 < 64) as (T1 & T2 & T3 & T4)
    by (unfold t1, t2, t3, t4; split_and!; dlia).
  cbn [app]. rewrite (pton_char t1) by (done || lia || (subst len; destruct b, c; lia)).
  cbv zeta. rewrite Hj. cbn [Z.eqb].
  destruct (Hq val3 t1 Hv T1) as (q1 & Eq1 & Q1). rewrite Eq1.
  rewrite (pton_char t2) by (done || lia || (by apply Z.mod_mul) || (subst len; destruct b, c; lia)).
  cbv zeta. rewrite J1. cbn [Z.eqb Pos.eqb].
  destruct (Hq (q1 * 64) t2 ltac:(by apply Z.mod_mul) T2) as (q2 & Eq2 & Q2). rewrite Eq2.
  assert (u8 ((q1 * 64 + t2) / 16) = a) as ->.
  { clear - Q1 Ha Hb. unfold u8, t1, t2 in *. dlia. }
  assert (forall x, x * 64 mod 64 = 0) as H64' by (intros; by apply Z.mod_mul).
  assert (j + 4 = j + 1 + 1 + 1 + 1) as -> by lia.
  assert (i + 4 = i + 1 + 1 + 1 + 1) as -> by lia.
  destruct b as [b|]; cbn [app default from_option id] in *; subst len.
  - rewrite (pton_char t3) by (done || lia || apply H64' || (rewrite ?Hp; destruct c; lia) || by rewrite Hp).
    cbv zeta. rewrite J2. cbn [Z.eqb Pos.eqb].
    destruct (Hq (q2 * 64) t3 (H64' _) T3) as (q3 & Eq3 & Q3). rewrite Eq3.
    assert (u8 ((q2 * 64 + t3) / 4) = b) as ->.
    { clear - Q2 Hb Hc Ha. unfold u8, t2, t3 in *. dlia. }
    destruct c as [c|]; cbn [app default from_option id] in *.
    + rewrite (pton_char t4) by (done || lia || apply H64' || (cbn in Hn; lia) || by rewrite Hpl, Hp).
      cbv zeta. rewrite J3. cbn [Z.eqb Pos.eqb].
      assert (u8 (q3 * 64 + t4) = c) as ->.
      { clear - Q3 Hb Hc. unfold u8, t3, t4 in *. dlia. }
      replace (k + 1 + 1) with (k + 2) by lia. replace (k + 2 + 1) with (k + (1 + 1 + 1)) by lia.
      eexists. split; [apply H64|]. done.
    + rewrite pton_equals by (apply H64' || lia). replace (k + (1 + 1 + 0)) with (k + 1 + 1) by lia.
      eexists. split; [apply H64|]. done.
  - rewrite (Hbc eq_refl) in *. cbn [app] in *. rewrite pton_equals by (apply H64' || lia). rewrite pton_equals by (apply H64 || lia).
    replace (k + (1 + 0 + 0)) with (k + 1) by lia. eexists. split; [apply H64|]. done.
Qed.

(** The bytes [bs] written over [d] from [k] on. *)
Definition written (d : list Z) (k : Z) (bs : list Z) : list Z :=
  take (Z.to_nat k) d ++ bs ++ drop (Z.to_nat k + length bs) d.

Lemma written_nil d k : written d k [] = d.
Proof. unfold written. cbn. rewrite Nat.add_0_r. apply take_drop. Qed.

Lemma written_cons d k a bs :
  0 <= k < Z.of_nat (length d) -> written (put d k a) (k + 1) bs = written d k (a :: bs).
Proof.
  intros Hk. unfold written, put. rewrite insert_take_drop by lia.
  replace (Z.to_nat (k + 1)) with (S (Z.to_nat k)) by lia.
  assert (length (take (Z.to_nat k) d) = Z.to_nat k) as Hl by (rewrite length_take; lia).
  rewrite take_app, drop_app, Hl. replace (S (Z.to_nat k) - Z.to_nat k)%nat with 1%nat by lia.
  rewrite take_ge by lia. rewrite (drop_ge (take _ _)) by (rewrite Hl; lia).
  replace (S (Z.to_nat k) + length bs - Z.to_nat k)%nat with (S (length bs)) by lia.
  cbn [take drop app length]. rewrite drop_drop, <- app_assoc. cbn [app].
  rewrite take_0. cbn [app]. by replace (S (Z.to_nat k) + length bs)%nat with (Z.to_nat k + S (length bs))%nat by lia.
Qed.

Lemma length_put d k v : length (put d k v) = length d.
Proof. unfold put. by rewrite length_insert. Qed.

Lemma pton_ntop bs :
  bytes_ok bs -> forall i j k val3 d n, val3 mod 64 = 0 -> j mod 4 = 0 -> 0 <= k <= j ->
  Z.of_nat (length d) = n -> k + Z.of_nat (length bs) <= n -> n < 2 ^ 63 ->
  0 <= i <= j -> j + (Z.of_nat (length bs) + 2) / 3 * 4 < 2 ^ 31 ->
  exists j', j' mod 4 = 0 /\ pton_loop (ntop_loop bs) i j k val3 (Some d) n =
    Ok (Some (j', k + Z.of_nat (length bs)), Some (written d k bs)).
Proof.
  remember (length bs) as m eqn:Hm. revert bs Hm. induction m as [m IH] using lt_wf_ind.
  intros bs Hm Hok i j k val3 d n Hv Hj Hk Hd Hn Hn63 Hi Hj31. unfold bytes_ok in *. assert (byte_ok 0) as H0 by done.
  destruct bs as [|a [|b [|c bs]]]; cbn [length] in Hm; subst m; cbn [ntop_loop];
    rewrite ?Forall_cons in Hok; try destruct Hok as [Ha Hok]; try destruct Hok as [Hb Hok];
    try destruct Hok as [Hc Hok].
  - exists j. split; [done|]. cbn. by rewrite written_nil, Z.add_0_r.
  - rewrite <- (app_nil_r (ntop_quad _ _ _)).
    destruct (pton_quad a None None [] i j k val3 d n) as (v & Ev & E); try done; try lia; try dlia.
    rewrite E. exists (j + 4). split; [dlia|]. cbn [pton_loop].
    rewrite <- written_cons, written_nil by lia. done.
  - rewrite <- (app_nil_r (ntop_quad _ _ _)).
    destruct (pton_quad a (Some b) None [] i j k val3 d n) as (v & Ev & E); try done; try lia; try dlia.
    rewrite E. exists (j + 4). split; [dlia|]. cbn [pton_loop].
    rewrite <- !written_cons, written_nil by (rewrite ?length_put; lia). done.
  - destruct (pton_quad a (Some b) (Some c) (ntop_loop bs) i j k val3 d n) as (v & Ev & E); try done; try lia; try dlia.
    rewrite E. cbv zeta.
    destruct (IH (length bs) ltac:(lia) bs eq_refl) with (i := i + 4) (j := j + 4) (k := k + (1 + 1 + 1)) (val3 := v)
      (d := put (put (put d k a) (k + 1) b) (k + 2) c) (n := n) as (j' & Hj' & E').
    { done. }
    { done. }
    { dlia. }
    { lia. }
    { by rewrite !length_put. }
    { lia. }
    { done. }
    { lia. }
    { dlia. }
    exists j'. split; [done|]. rewrite E'.
    replace (k + Z.of_nat (S (S (S (length bs))))) with (k + (1 + 1 + 1) + Z.of_nat (length bs)) by lia.
    replace (k + (1 + 1 + 1)) with (k + 1 + 1 + 1) by lia. replace (k + 2) with (k + 1 + 1) by lia.
    rewrite <- !written_cons by (rewrite ?length_put; lia). reflexivity.
Qed.

(** The length [b64_ntop] announces is the length it writes, with the NUL. *)
Lemma ntop_length bs : Z.of_nat (length (ntop_loop bs)) = (Z.of_nat (length bs) + 2) / 3 * 4.
Proof.
  remember (length bs) as m eqn:Hm. revert bs Hm. induction m as [m IH] using lt_wf_ind.
  intros bs ->. destruct bs as [|a [|b [|c bs]]]; cbn [ntop_loop]; try done.
  rewrite length_app, Nat2Z.inj_add, (IH (length bs)) by (cbn; lia || done).
  cbn [length ntop_quad]. rewrite !Nat2Z.inj_succ. dlia.
Qed.

(** The loop of [b64_ntop] with its counters. *)
Lemma ntop_for_ok bs i j :
  0 <= i <= j -> j + (Z.of_nat (length bs) + 2) / 3 * 4 < 2 ^ 31 ->
  ntop_for bs i j = Ok (ntop_loop bs, j + (Z.of_nat (length bs) + 2) / 3 * 4).
Proof.
  remember (length bs) as m eqn:Hm. revert bs Hm i j. induction m as [m IH] using lt_wf_ind.
  intros bs -> i j Hi Hj. destruct bs as [|a [|b [|c bs]]]; cbn [ntop_for ntop_loop head tail]; cbn [length] in *.
  - do 2 f_equal. dlia.
  - rewrite !int_of_ok by dlia. by rewrite ?app_nil_r.
  - rewrite !int_of_ok by dlia. by rewrite ?app_nil_r.
  - rewrite !int_of_ok by dlia. cbn [res_bind].
    rewrite (IH (length bs)) by (done || dlia). cbn [res_bind]. do 2 f_equal. dlia.
Qed.

(** Decoding into a buffer that is large enough. *)
Lemma b64_roundtrip_at bs d :
  bytes_ok bs -> Z.of_nat (length bs) <= Z.of_nat (length d) < 2 ^ 63 ->
  (Z.of_nat (length bs) + 2) / 3 * 4 < 2 ^ 31 ->
  b64_pton (ntop_loop bs) (Some d) (Z.of_nat (length d)) =
    Ok (Z.of_nat (length bs), Some (bs ++ drop (length bs) d)).
Proof.
  intros Hok Hd Hb.
  destruct (pton_ntop bs Hok 0 0 0 0 d (Z.of_nat (length d))) as (j' & Hj' & E); try done; try lia.
  unfold b64_pton. rewrite E. cbn [res_bind]. rewrite Hj'. done.
Qed.

Lemma b64_ntop_ok bs target_size :
  (Z.of_nat (length bs) + 2) / 3 * 4 + 1 < 2 ^ 31 ->
  (Z.of_nat (length bs) + 2) / 3 * 4 + 1 <= target_size ->
  b64_ntop bs (Some tt) target_size = Ok (Z.of_nat (length (ntop_loop bs)), Some (ntop_loop bs)).
Proof.
  intros Hb Ht. unfold b64_ntop. rewrite (u64_small (_ + 2)), u64_small by dlia.
  rewrite (proj2 (Z.ltb_ge _ _)), ntop_for_ok, ntop_length by lia. done.
Qed.

(** C21: For up to about 1.6 * 10^9 bytes, whose text and its NUL an [int] counts:
    [b64_ntop] without a target announces a size, with a target of at least that size it
    writes a text that fills it together with the NUL, and returns the text's length; and
    [b64_pton] of the text gives the bytes back and their number, in any buffer that has
    room for them, the rest of which it leaves alone. *)
Theorem b64_roundtrip bs d target_size :
  bytes_ok bs -> Z.of_nat (length bs) <= Z.of_nat (length d) < 2 ^ 63 ->
  let announced := (Z.of_nat (length bs) + 2) / 3 * 4 + 1 in
  announced < 2 ^ 31 -> announced <= target_size ->
  b64_ntop bs None 0 = Ok (announced, None) /\
  exists t, b64_ntop bs (Some tt) target_size = Ok (Z.of_nat (length t), Some t) /\
    Z.of_nat (length t) + 1 = announced /\
    b64_pton t (Some d) (Z.of_nat (length d)) =
      Ok (Z.of_nat (length bs), Some (bs ++ drop (length bs) d)).
Proof.
  intros Hok Hd announced Ha Hts. subst announced. split.
  - unfold b64_ntop. rewrite (u64_small (_ + 2)), u64_small, i32_small by dlia. done.
  - exists (ntop_loop bs). split; [by apply b64_ntop_ok|]. split; [by rewrite ntop_length|].
    apply b64_roundtrip_at; [done|done|lia].
Qed.

Lemma b64_roundtrip_witness :
  b64_ntop [77; 97; 110; 255] None 0 = Ok (9, None) /\
  exists t, b64_ntop [77; 97; 110; 255] (Some tt) 128 = Ok (Z.of_nat (length t), Some t) /\
    b64_pton t (Some (replicate 6 0)) 6 = Ok (4, Some ([77; 97; 110; 255] ++ [0; 0])).
Proof.
  destruct (b64_roundtrip [77; 97; 110; 255] (replicate 6 0) 128) as (E0 & t & E1 & _ & E2).
  - repeat constructor; lia.
  - cbn. lia.
  - reflexivity.
  - apply Z.leb_le. reflexivity.
  - split; [exact E0|]. exists t. exact (conj E1 E2).
Defined.

(** [b64_pton] never writes outside [dst], whatever the string of fewer than 2^31
    characters. *)
Theorem b64_pton_safe src d :
  Z.of_nat (length src) < 2 ^ 31 -> Z.of_nat (length d) < 2 ^ 63 ->
  exists r d', b64_pton src (Some d) (Z.of_nat (length d)) = Ok (r, Some d') /\ length d' = length d /\
    -1 <= r <= Z.of_nat (length d).
Proof.
  intros Hs Hd63. unfold b64_pton.
  assert (forall i j k val3 d', length d' = length d -> 0 <= k <= Z.of_nat (length d) ->
    0 <= i -> i + Z.of_nat (length src) < 2 ^ 31 -> 0 <= k <= j -> j <= i -> exists r d2,
    pton_loop src i j k val3 (Some d') (Z.of_nat (length d)) = Ok (r, Some d2) /\ length d2 = length d /\
    match r with Some (_, k') => 0 <= k' <= Z.of_nat (length d) | None => True end) as Hl.
  { clear Hs. induction src as [|c src IH]; intros i j k val3 d' Hd Hk Hi Hb Hkj Hji; cbn [pton_loop];
      [by exists (Some (j, k)), d'|]. cbn [length] in Hb.
    rewrite (int_of_ok (i + 1)), (int_of_ok (j + 1)), (int_of_ok (k + 1)) by lia. cbn [res_bind].
    destruct (isspace c); [apply IH; lia|]. destruct (_ =? 255); [by exists None, d'|].
    set (v := Z.lor _ _). clearbody v. rewrite bool_decide_eq_true_2 by done. rewrite andb_true_r, swrap_64 by lia.
    destruct (c =? EQUALS); cbn [negb andb res_bind]; [apply IH; lia|].
    destruct (Z.leb_spec (Z.of_nat (length d)) k) as [|Hlt]; [by exists None, d'|].
    assert (forall x, store (Some d') k x = Ok (Some (<[Z.to_nat k := u8 x]> d'))) as Es.
    { intros x. unfold store. rewrite (proj2 (andb_true_iff _ _)); [done|]. rewrite Z.leb_le, Z.ltb_lt. lia. }
    rewrite !Es. cbn [res_bind].
    destruct (j mod 4 =? 1), (j mod 4 =? 2), (j mod 4 =? 3); cbn [res_bind]; apply IH; rewrite ?length_insert; done || lia. }
  destruct (Hl 0 0 0 0 d eq_refl) as (r & d2 & E & El & Hr); [lia..|]. rewrite E. cbn [res_bind].
  destruct r as [[j k]|]; eexists _, d2; (split; [reflexivity|split; [done|]]); [destruct (negb _)|]; lia.
Qed.
