(* ===== verification/SshKey.v ===== *)
(** * [sha256-ssh-key-hashing.cc]: the fingerprint of a public key

    [main] reads the first 128 bytes of a key file, decodes what is between the first two
    spaces, hashes it and prints the hash in base64.  OpenSSL's SHA-256 is a parameter. *)

From S2P Require Import Prelude Base64.

(** What [fread] leaves in the buffer when the file is shorter than the one element that
    is asked for: the standard calls the partial element indeterminate, C libraries store
    the bytes that there are. *)
Class Fread := partial_element : list Z -> list Z.
Definition stored : Fread := id.

Section SshKey.
Context {F : Fread}.
(** [EVP_sha256] on a message, [SHA256_DIGEST_LENGTH] bytes. *)
Context (sha256 : list Z -> list Z).

Definition SHA256_DIGEST_LENGTH : Z := 32.

(** [fread(input, 128, 1, f)]: the bytes of [input] that are written. *)
Definition fread_input (file : list Z) : list Z :=
  if (128 <=? length file)%nat then take 128 file else partial_element file.

(** [strchr(p, 0x20)] from position [i] of [input], whose other bytes nobody wrote:
    [None] is a null pointer. *)
Fixpoint strchr_space (input : list Z) (i : Z) : res (option Z) :=
  match input with
  | [] => UB
  | c :: input => if c =? 32 then Ok (Some i) else if c =? 0 then Ok None else strchr_space input (i + 1)
  end.

(** [strncpy(data, p, n)] and the NUL behind: the string that [data] is then. *)
Fixpoint until_nul (s : list Z) : list Z :=
  match s with [] => [] | c :: s => if c =? 0 then [] else c :: until_nul s end.
Definition strncpy (p : list Z) (n : Z) : list Z := until_nul (take (Z.to_nat n) p).

(** [hash_sha256(input, input_len, output)]. *)
Definition hash_sha256 (input : list Z) (input_len : Z) : list Z := sha256 (take (Z.to_nat input_len) input).

(** What [main] prints: a message, or the encoded hash. *)
Inductive output := OpenFailed | PtonFailed | Output (encoded : list Z).

(** The file, if it opens; what is printed and the exit status.  [decoded0] is what the
    stack holds in [decoded]. *)
Definition main (decoded0 : list Z) (file : option (list Z)) : res (output * Z) :=
  match file with
  | None => Ok (OpenFailed, 1)
  | Some file =>
      let input := fread_input file in
      let! space := strchr_space input 0 in
      match space with
      | None => UB
      | Some space =>
          let data_ptr := space + 1 in
          let! data_end := strchr_space (drop (Z.to_nat data_ptr) input) data_ptr in
          match data_end with
          | None => UB
          | Some data_end =>
              let data_len := data_end - data_ptr in
              let data := strncpy (drop (Z.to_nat data_ptr) input) data_len in
              let! (decoded_length, decoded) := b64_pton data (Some decoded0) 128 in
              if decoded_length =? -1 then Ok (PtonFailed, 1)
              else
                let sha := hash_sha256 (default [] decoded) decoded_length in
                let! (_, encoded) := b64_ntop sha (Some tt) 128 in
                match encoded with
                | Some encoded => Ok (Output encoded, 0)
                | None => UB
                end
          end
      end
  end.

(** ** A key that fits *)

Definition word (s : list Z) : Prop := Forall (fun c => c <> 32 /\ c <> 0) s.

Lemma strchr_space_word s rest i :
  word s -> strchr_space (s ++ 32 :: rest) i = Ok (Some (i + Z.of_nat (length s))).
Proof using.
  intros Hs. revert i. induction Hs as [|c s [H1 H2] Hs IH]; intros i; cbn [app strchr_space].
  - rewrite Z.eqb_refl. do 2 f_equal. cbn. lia.
  - destruct (Z.eqb_spec c 32), (Z.eqb_spec c 0); [done..|]. rewrite IH. do 2 f_equal. cbn. lia.
Qed.

Lemma strchr_space_none s i : word s -> strchr_space s i = UB.
Proof using.
  intros Hs. revert i. induction Hs as [|c s [H1 H2] Hs IH]; intros i; cbn [strchr_space]; [done|].
  destruct (Z.eqb_spec c 32), (Z.eqb_spec c 0); [done..|]. apply IH.
Qed.

Lemma until_nul_word s : word s -> until_nul s = s.
Proof using.
  intros Hs. induction Hs as [|c s [H1 H2] Hs IH]; [done|]. cbn.
  destruct (Z.eqb_spec c 0); [done|]. by rewrite IH.
Qed.

Lemma b64_char_word v : 0 <= v < 64 -> b64_char v <> 32 /\ b64_char v <> 0.
Proof using.
  intros Hv. destruct (tbl_of_char v Hv) as (H1 & _ & _ & H2). split; [|lia].
  intros E. by rewrite E in H1.
Qed.

Lemma ntop_quad_word a b c :
  byte_ok a -> byte_ok (default 0 b) -> byte_ok (default 0 c) -> (b = None -> c = None) ->
  word (ntop_quad a b c).
Proof using.
  intros Ha Hb Hc Hbc. rewrite ntop_quad_chars by done. unfold byte_ok in *.
  repeat constructor; try (apply b64_char_word; dlia);
    (destruct b + destruct c); (apply b64_char_word; dlia) || done.
Qed.

Lemma ntop_word bs : bytes_ok bs -> word (ntop_loop bs).
Proof using.
  remember (length bs) as m eqn:Hm. revert bs Hm. induction m as [m IH] using lt_wf_ind.
  intros bs -> Hok. destruct bs as [|a [|b [|c bs]]]; cbn [ntop_loop]; [constructor|..].
  - apply Forall_cons in Hok as [Ha _]. apply ntop_quad_word; done.
  - apply Forall_cons in Hok as [Ha [Hb _]%Forall_cons]. apply ntop_quad_word; done.
  - apply Forall_cons in Hok as [Ha [Hb [Hc Hok]%Forall_cons]%Forall_cons].
    apply Forall_app. split; [by apply ntop_quad_word|]. apply (IH (length bs)); [cbn; lia|done|done].
Qed.
End SshKey.

#[local] Existing Instance stored.

Lemma fread_stored file : fread_input file = take 128 file.
Proof.
  unfold fread_input, partial_element, stored. destruct (Nat.leb_spec 128 (length file)); [done|].
  by rewrite take_ge by lia.
Qed.

Lemma take_past {A} (l r : list A) n : (length l <= n)%nat -> take n (l ++ r) = l ++ take (n - length l) r.
Proof. apply take_app_ge. Qed.

(** C22: For a key file whose first two spaces are within the 128 bytes that [main] reads
    (with an [fread] that stores what there is of them), the program prints, in base64, the
    SHA-256 of the bytes that the text between the spaces encodes. *)
Theorem fingerprint_printed sha256 kind bs rest decoded0 :
  word kind -> bytes_ok bs -> length decoded0 = 128%nat -> (length bs <= 128)%nat ->
  (length kind + length (ntop_loop bs) + 2 <= 128)%nat ->
  length (sha256 bs) = 32%nat ->
  main sha256 decoded0 (Some (kind ++ 32 :: ntop_loop bs ++ 32 :: rest)) =
    Ok (Output (ntop_loop (sha256 bs)), 0).
Proof.
  intros Hk Hb Hd Hl Hfit Hsha. pose proof (ntop_word bs Hb) as Ht. set (t := ntop_loop bs) in *.
  set (rest' := take (128 - length (kind ++ 32 :: t ++ [32])) rest).
  assert (fread_input (kind ++ 32 :: t ++ 32 :: rest) = kind ++ 32 :: t ++ 32 :: rest') as Ein.
  { rewrite fread_stored. replace (kind ++ 32 :: t ++ 32 :: rest) with ((kind ++ 32 :: t ++ [32]) ++ rest).
    - rewrite take_past by (rewrite !length_app; cbn; rewrite length_app; cbn; lia).
      rewrite <- app_assoc. cbn. by rewrite <- app_assoc.
    - rewrite <- app_assoc. cbn. by rewrite <- app_assoc. }
  unfold main. rewrite Ein. rewrite strchr_space_word by done. cbn [res_bind].
  replace (drop (Z.to_nat (0 + Z.of_nat (length kind) + 1)) (kind ++ 32 :: t ++ 32 :: rest')) with (t ++ 32 :: rest').
  2:{ replace (Z.to_nat (0 + Z.of_nat (length kind) + 1)) with (length (kind ++ [32])) by (rewrite length_app; cbn; lia).
      replace (kind ++ 32 :: t ++ 32 :: rest') with ((kind ++ [32]) ++ t ++ 32 :: rest') by by rewrite <- app_assoc.
      by rewrite drop_app_length. }
  rewrite strchr_space_word by done. cbn [res_bind].
  replace (strncpy (t ++ 32 :: rest') _) with t.
  2:{ unfold strncpy. set (n := Z.to_nat _). replace n with (length t) by lia.
      by rewrite take_app_length, until_nul_word. }
  pose proof (b64_roundtrip_at bs decoded0 Hb ltac:(lia) ltac:(dlia)) as E. fold t in E. rewrite Hd in E. change (Z.of_nat 128) with 128 in E.
  step_ok E. destruct (Z.eqb_spec (Z.of_nat (length bs)) (-1)); [lia|].
  unfold hash_sha256. cbn [default from_option id]. rewrite Nat2Z.id, take_app_length.
  rewrite b64_ntop_ok by (rewrite Hsha; done). done.
Qed.

(** A key whose text goes beyond the first 128 bytes: the search for its end leaves what
    was read. *)
Theorem long_key_undefined sha256 kind text decoded0 :
  word kind -> word text -> (length kind < 128)%nat -> (128 <= length kind + 1 + length text)%nat ->
  main sha256 decoded0 (Some (kind ++ 32 :: text)) = UB.
Proof.
  intros Hk Ht Hl Hlong. unfold main. rewrite fread_stored, take_past by lia.
  destruct (128 - length kind)%nat as [|n] eqn:En; [lia|]. cbn [take].
  rewrite strchr_space_word by done. cbn [res_bind].
  replace (drop (Z.to_nat (0 + Z.of_nat (length kind) + 1)) (kind ++ 32 :: take n text)) with (take n text).
  - rewrite strchr_space_none; [done|]. by apply Forall_take.
  - replace (Z.to_nat (0 + Z.of_nat (length kind) + 1)) with (length (kind ++ [32])) by (rewrite length_app; cbn; lia).
    replace (kind ++ 32 :: take n text) with ((kind ++ [32]) ++ take n text) by by rewrite <- app_assoc.
    by rewrite drop_app_length.
Qed.

(** A file without a space before its first NUL. *)
Theorem no_space_undefined sha256 kind rest decoded0 :
  word kind -> main sha256 decoded0 (Some (kind ++ 0 :: rest)) = UB.
Proof.
  intros Hk. unfold main. rewrite fread_stored.
  assert (forall n i, strchr_space (take n (kind ++ 0 :: rest)) i = UB \/
    strchr_space (take n (kind ++ 0 :: rest)) i = Ok None) as H.
  { induction Hk as [|c s [H1 H2] Hs IH]; intros [|n] i; cbn; try by left.
    - by right.
    - destruct (Z.eqb_spec c 32), (Z.eqb_spec c 0); [done..|]. apply IH. }
  by destruct (H 128%nat 0) as [-> | ->].
Qed.

(** "ssh-ed25519 AAAAC3Nz ..." with a toy hash. *)
Lemma fingerprint_printed_witness :
  main (fun _ => replicate 32 7) (replicate 128 9)
    (Some ([115; 115; 104] ++ 32 :: ntop_loop [0; 0; 0; 11; 115] ++ 32 :: [99; 10])) =
  Ok (Output (ntop_loop (replicate 32 7)), 0).
Proof.
  apply (fingerprint_printed (fun _ => replicate 32 7)); try reflexivity.
  - repeat constructor; discriminate.
  - repeat constructor; lia.
  - cbn. lia.
  - cbn. lia.
Defined.
