(* ===== verification/HashKey.v ===== *)
(** * [dict/Hash.h], [Hash.cc] and [util.cc]: hash keys

    A [HashKey] points to its bytes: in its own union, or in a block of memory that it
    owns or that the caller does.  The keys of the hash functions and the MD5 of
    OpenSSL are parameters. *)

From stdpp Require Export fin_sets gmap.
From S2P Require Import Prelude SipHash.

Definition UHASH_KEY_SIZE : Z := 36.

(** [pad_size]. *)
Definition pad_size (size : Z) : Z :=
  if size =? 0 then 0
  else
    let pad := 8 in
    if size <? 12 then 2 * pad else u64 ((u64 (size + 3) / pad + 1) * pad).

(** The allocated blocks by address. *)
Notation memory := (gmap nat (list Z)).

(** [new char[s]]: a fresh block of [s] bytes, filled by the [memcpy] that follows.
    [free] is [delete[]] of a block. *)
Definition alloc (m : memory) (bytes : list Z) : nat * memory :=
  let a := fresh (dom m) in (a, <[a := bytes]> m).
Definition free (m : memory) (a : nat) : res memory :=
  match m !! a with Some _ => Ok (delete a m) | None => UB end.

(** [delete] of a pointer that came from [new[]] is undefined by the language.  There
    are implementations in which the two forms release [char]s alike; the code works on
    those only, and what is proved of it says so. *)
Class Implementation := delete_takes_arrays : bool.
Definition delete_scalar `{Implementation} (m : memory) (a : nat) : res memory :=
  if delete_takes_arrays then free m a else UB.
Definition releasing : Implementation := true.

Inductive key_ptr : Set := KeyU | Ptr (a : nat).

Record HashKey := mkHashKey {
  key_u : list Z;
  key : key_ptr;
  is_our_dynamic : bool;
  size : Z;
  hash : Z
}.

(** [memcpy] from [p]: the [n] bytes there. *)
Definition read (m : memory) (u : list Z) (p : key_ptr) (n : Z) : res (list Z) :=
  match (match p with KeyU => Some u | Ptr a => m !! a end) with
  | Some b => if (0 <=? n) && (n <=? Z.of_nat (length b)) then Ok (take (Z.to_nat n) b) else UB
  | None => UB
  end.

Definition Key (m : memory) (h : HashKey) : res (list Z) := read m (key_u h) (key h) (size h).

Section Hashing.
Context (shared_siphash_key shared_hmac_md5_key : list Z) (internal_md5 : list Z -> list Z).

(** [hmac_md5]: the digest, a byte at a time XORed with the key, digested again. *)
Definition hmac_md5 (bytes : list Z) : list Z :=
  let digest := internal_md5 bytes in
  internal_md5 (zip_with Z.lxor digest shared_hmac_md5_key).

(** [HashBytes]: [bytes] are the [size] bytes. *)
Definition HashBytes (bytes : list Z) (size : Z) : Z :=
  if size <=? UHASH_KEY_SIZE then siphash bytes (u64 size) shared_siphash_key
  else U8TO64_LE (hmac_md5 bytes).

(** ** The constructors *)

(** [i], [u], [u32], [d] and [p]: the value is put into the union.  A [double] is its
    64 bits, a pointer its address. *)
Definition HashKey_value (bytes : list Z) : HashKey :=
  let n := Z.of_nat (length bytes) in mkHashKey bytes KeyU false n (HashBytes bytes n).
Definition HashKey_int (i : Z) : HashKey := HashKey_value (U64TO8_LE (u64 i)).
Definition HashKey_uint (u : Z) : HashKey := HashKey_value (U64TO8_LE (u64 u)).
Definition HashKey_u32 (u : Z) : HashKey := HashKey_value (U32TO8_LE (u32 u)).
Definition HashKey_double (bits : Z) : HashKey := HashKey_value (U64TO8_LE bits).
Definition HashKey_ptr (p : Z) : HashKey := HashKey_value (U64TO8_LE p).

(** [HashKey(const uint32 u[], int n)] and [HashKey(const char* s)]: the caller's
    bytes. *)
Definition HashKey_array (m : memory) (u : nat) (n : Z) : res HashKey :=
  let! b := read m [] (Ptr u) (n * 4) in
  Ok (mkHashKey [] (Ptr u) false (n * 4) (HashBytes b (n * 4))).

(** [strlen]: the bytes before the first 0. *)
Fixpoint strlen (b : list Z) : option Z :=
  match b with
  | [] => None
  | c :: b => if c =? 0 then Some 0 else Z.succ <$> strlen b
  end.
Definition HashKey_string (m : memory) (s : nat) : res HashKey :=
  match m !! s ≫= strlen with
  | Some n => let! b := read m [] (Ptr s) n in Ok (mkHashKey [] (Ptr s) false n (HashBytes b n))
  | None => UB
  end.

(** [HashKey(int copy_key, void* key, int size)]. *)
Definition HashKey_given (m : memory) (copy_key : bool) (arg_key : nat) (arg_size : Z)
    : res (HashKey * memory) :=
  let! b := read m [] (Ptr arg_key) arg_size in
  let '(k, m) := if copy_key then alloc m b else (arg_key, m) in
  Ok (mkHashKey [] (Ptr k) true arg_size (HashBytes b arg_size), m).

Definition CopyKey (m : memory) (u : list Z) (k : key_ptr) (s : Z) : res (nat * memory) :=
  let! b := read m u k s in Ok (alloc m b).

(** [HashKey(const void* key, int size, hash_t hash)]. *)
Definition HashKey_hashed (m : memory) (arg_key : nat) (arg_size arg_hash : Z)
    : res (HashKey * memory) :=
  let! (k, m) := CopyKey m [] (Ptr arg_key) arg_size in
  Ok (mkHashKey [] (Ptr k) true arg_size arg_hash, m).

(** The same with [dont_copy]. *)
Definition HashKey_dont_copy (arg_key : nat) (arg_size arg_hash : Z) : HashKey :=
  mkHashKey [] (Ptr arg_key) false arg_size arg_hash.

(** [HashKey(const void* bytes, int size)]. *)
Definition HashKey_bytes (m : memory) (bytes : nat) (arg_size : Z) : res (HashKey * memory) :=
  let! (k, m) := CopyKey m [] (Ptr bytes) arg_size in
  let! b := read m [] (Ptr k) arg_size in
  Ok (mkHashKey [] (Ptr k) true arg_size (HashBytes b arg_size), m).

(** [~HashKey]: a dynamic key is never in the union. *)
Definition delete_HashKey (m : memory) (h : HashKey) : res memory :=
  if is_our_dynamic h then
    match key h with Ptr a => free m a | KeyU => UB end
  else Ok m.

Definition TakeKey (m : memory) (h : HashKey) : res (nat * HashKey * memory) :=
  if is_our_dynamic h then
    match key h with
    | Ptr a => Ok (a, mkHashKey (key_u h) (key h) false (size h) (hash h), m)
    | KeyU => UB
    end
  else
    let! (k, m) := CopyKey m (key_u h) (key h) (size h) in Ok (k, h, m).

(** ** What every constructor promises *)

(** The key can be read, is hashed as its bytes ask for, and its memory, if owned, is
    a block. *)
Record key_ok (m : memory) (h : HashKey) (bytes : list Z) : Prop := mkKeyOk {
  ko_read : Key m h = Ok bytes;
  ko_hash : hash h = HashBytes bytes (size h);
  ko_size : size h = Z.of_nat (length bytes);
  ko_dyn : is_our_dynamic h = true -> exists a, key h = Ptr a
}.

Lemma read_all m u a b : m !! a = Some b -> read m u (Ptr a) (Z.of_nat (length b)) = Ok b.
Proof using.
  intros E. unfold read. rewrite E, (proj2 (andb_true_iff _ _)) by (rewrite !Z.leb_le; lia).
  rewrite Nat2Z.id. by rewrite take_ge by lia.
Qed.

Lemma read_length m u p n b : read m u p n = Ok b -> n = Z.of_nat (length b).
Proof using.
  unfold read. destruct (match p with KeyU => Some u | Ptr a => m !! a end) as [c|]; [|done].
  destruct (Z.leb_spec 0 n), (Z.leb_spec n (Z.of_nat (length c))); cbn [andb]; try done.
  intros [= <-]. rewrite length_take. lia.
Qed.

Lemma alloc_fresh m b a m' : alloc m b = (a, m') -> m !! a = None /\ m' = <[a := b]> m.
Proof using.
  unfold alloc. intros [= <- <-]. split; [|done]. apply not_elem_of_dom, is_fresh.
Qed.

Lemma read_insert m u p n a b :
  m !! a = None -> (exists x, read m u p n = Ok x) -> read (<[a := b]> m) u p n = read m u p n.
Proof using.
  intros Ha [x Hx]. destruct p as [|a']; [done|]. unfold read in *.
  destruct (decide (a' = a)) as [->|Hne]; [by rewrite Ha in Hx|]. by rewrite lookup_insert_ne.
Qed.

Lemma value_key_ok m bytes : key_ok m (HashKey_value bytes) bytes.
Proof using.
  unfold HashKey_value. split; try done. unfold Key, read. cbn.
  rewrite (proj2 (andb_true_iff _ _)) by (rewrite !Z.leb_le; lia).
  rewrite Nat2Z.id. by rewrite take_ge by lia.
Qed.

(** Signed and unsigned keys, and keys of a pointer, are the same key when their 64
    bits are. *)
Lemma int_uint_same i : HashKey_int i = HashKey_uint (u64 i).
Proof using. unfold HashKey_int, HashKey_uint, u64. by rewrite Z.mod_mod. Qed.

Lemma string_key_ok m s h :
  HashKey_string m s = Ok h -> exists bytes, key_ok m h bytes /\ is_our_dynamic h = false.
Proof using.
  unfold HashKey_string. destruct (m !! s ≫= strlen) as [n|]; [|done].
  destruct (read m [] (Ptr s) n) as [b| | |] eqn:E; try done. cbn. intros [= <-]. exists b.
  split; [|done]. split; cbn; [done|done|by apply read_length in E|done].
Qed.

Lemma array_key_ok m u n h : HashKey_array m u n = Ok h -> exists bytes, key_ok m h bytes.
Proof using.
  unfold HashKey_array. destruct (read m [] (Ptr u) (n * 4)) as [b| | |] eqn:E; try done. cbn.
  intros [= <-]. exists b. split; cbn; [done|done|by apply read_length in E|done].
Qed.

Lemma given_key_ok m copy_key a n h m' :
  HashKey_given m copy_key a n = Ok (h, m') -> exists bytes, key_ok m' h bytes /\ is_our_dynamic h = true.
Proof using.
  unfold HashKey_given. destruct (read m [] (Ptr a) n) as [b| | |] eqn:E; try done. cbn.
  pose proof (read_length _ _ _ _ _ E) as ->. destruct copy_key.
  - destruct (alloc m b) as [k m1] eqn:Ea. intros [= <- <-]. apply alloc_fresh in Ea as [_ ->].
    exists b. split; [|done]. split; cbn; [|done|done|by exists k].
    unfold Key. cbn. apply read_all. by rewrite lookup_insert_eq.
  - intros [= <- <-]. exists b. split; [|done]. by split; cbn; [..|exists a].
Qed.

Lemma bytes_key_ok m a n h m' :
  HashKey_bytes m a n = Ok (h, m') -> exists bytes, key_ok m' h bytes /\ is_our_dynamic h = true.
Proof using.
  unfold HashKey_bytes, CopyKey. destruct (read m [] (Ptr a) n) as [b| | |] eqn:E; try done. cbn [res_bind].
  pose proof (read_length _ _ _ _ _ E) as ->.
  destruct (alloc m b) as [k m1] eqn:Ea. apply alloc_fresh in Ea as [_ ->]. cbn [res_bind].
  rewrite (read_all _ [] k b) by (by rewrite lookup_insert_eq). cbn [res_bind]. intros [= <- <-]. exists b.
  split; [|done]. split; cbn; [|done|done|by exists k]. unfold Key. cbn. apply read_all.
  by rewrite lookup_insert_eq.
Qed.
End Hashing.

(** [TakeKey] hands over a block with the key's bytes: the [HashKey] still reads
    the same bytes and hash, its destructor frees nothing any more, and the caller can
    free the block; a key that was not dynamic is copied, one that was is passed on. *)
Theorem TakeKey_hands_over K5 K6 md5 m h bytes :
  key_ok K5 K6 md5 m h bytes ->
  exists a h' m', TakeKey m h = Ok (a, h', m') /\ key_ok K5 K6 md5 m' h' bytes /\
    read m' [] (Ptr a) (size h) = Ok bytes /\
    delete_HashKey m' h' = Ok m' /\
    (if is_our_dynamic h then m' = m /\ key h = Ptr a else m !! a = None /\ m' = <[a := bytes]> m) /\
    exists m'', free m' a = Ok m'' /\ dom m'' = if is_our_dynamic h then dom m ∖ {[a]} else dom m.
Proof.
  intros [Hr Hh Hs Hd]. unfold TakeKey. unfold Key in Hr. destruct (is_our_dynamic h) eqn:Edyn.
  - destruct (Hd eq_refl) as [a Ek]. rewrite Ek in *. eexists a, _, m. split; [reflexivity|].
    split; [by split|]. split; [by destruct h|]. split; [done|]. split; [done|].
    unfold free. unfold read in Hr. destruct (m !! a) as [b|]; [|done]. eexists. split; [done|].
    by rewrite dom_delete_L.
  - unfold CopyKey. rewrite Hr. cbn [res_bind]. destruct (alloc m bytes) as [a m'] eqn:Ea.
    apply alloc_fresh in Ea as [Hf ->]. eexists a, h, _. split; [reflexivity|]. split.
    { split; try done; [|by rewrite Edyn]. unfold Key. rewrite <- Hr. apply read_insert; [done|by eexists]. }
    split; [rewrite Hs; apply read_all; by rewrite lookup_insert_eq|].
    split; [unfold delete_HashKey; by rewrite Edyn|]. split; [done|].
    unfold free. rewrite lookup_insert_eq. eexists. split; [reflexivity|].
    by rewrite delete_insert_id by done.
Qed.

Lemma TakeKey_hands_over_witness :
  exists a h' m', TakeKey {[3%nat := [104; 105; 0]]} (mkHashKey [] (Ptr 3) false 2 (HashBytes (seqZ 0 16) [] id [104; 105] 2))
      = Ok (a, h', m') /\ delete_HashKey m' h' = Ok m' /\ read m' [] (Ptr a) 2 = Ok [104; 105].
Proof.
  destruct (TakeKey_hands_over (seqZ 0 16) [] id {[3%nat := [104; 105; 0]]}
    (mkHashKey [] (Ptr 3) false 2 (HashBytes (seqZ 0 16) [] id [104; 105] 2)) [104; 105])
    as (a & h' & m' & E & _ & Hr & Hd & _).
  - split; [reflexivity|reflexivity|reflexivity|discriminate].
  - exists a, h', m'. exact (conj E (conj Hd Hr)).
Defined.
