(* ===== verification/DictDebug.v ===== *)
(** * Checking, measuring and dumping a dictionary

    The debugging half of [dict/OpenDict.cc]: [AssertValid] of the table and of a cookie,
    [MemoryAllocation], [DumpKeys], [Dump], and the small accessors of [dict/OpenDict.h].
    [AssertValid] is shown to decide the invariant of the proofs. *)

From S2P Require Import Prelude SipHash HashKey DictTable Dictionary DictInv DictReloc DictWf DictOps DictCheck DictSpec DictFindings.

(** ** [AssertValid] *)

(** [for(int i=Capacity()-1; i>=0; i--) if( table && !table[i].Empty()) n--]: the argument
    is [i + 1]. *)
Fixpoint count_down (d : Dictionary) (i : nat) (n : Z) : Z :=
  match i with
  | O => n
  | S i => count_down d i (if has_table d && negb (Empty (tbl d (Z.of_nat i))) then n - 1 else n)
  end.

(** One round of the second loop.  [bucket i] is the field [table[i].bucket], which the
    entries have in a debug build only. *)
Definition pair_valid (bucket : Z -> Z) (d : Dictionary) (i : Z) : bool :=
  if Empty (tbl d i) then true
  else if Empty (tbl d (i - 1)) then distance (tbl d i) =? 0
  else (bucket (i - 1) <=? bucket i) &&
       (if bucket i =? bucket (i - 1)
        then distance (tbl d i) =? distance (tbl d (i - 1)) + 1
        else distance (tbl d i) <=? distance (tbl d (i - 1))).

Fixpoint AssertValid_loop (bucket : Z -> Z) (d : Dictionary) (fuel : nat) (i : Z) : res unit :=
  match fuel with
  | O => Ok tt
  | S n =>
      if i <? Capacity d false then
        assert! pair_valid bucket d i in AssertValid_loop bucket d n (i + 1)
      else Ok tt
  end.

Definition AssertValid (bucket : Z -> Z) (d : Dictionary) : res unit :=
  assert! (count_down d (Z.to_nat (Capacity d false)) (num_entries d) =? 0) in
  AssertValid_loop bucket d (steps_to d 1) 1.

(** [IterCookie::AssertValid]. *)
Definition is_set {A} (o : option A) : bool := match o with Some _ => true | None => false end.
Definition AssertValid_cookie (d : Dictionary) (c : nat) : res unit :=
  let! k := get_cookie d c in
  assert! (-1 <=? next k) && (next k <=? Capacity d false) in
  assert! (negb (robust k) && negb (is_set (inserted k)) && negb (is_set (visited k)))
          || (robust k && is_set (inserted k) && is_set (visited k)) in
  Ok tt.

(** [IterCookie::MakeRobust()]: the dictionary must have its vector of cookies. *)
Definition MakeRobust (d : Dictionary) (c : nat) : res Dictionary :=
  let! k := get_cookie d c in
  assert! next k <? 0 in
  assert! is_set (cookies d) in
  let d := put_cookie d c (mkCookie true (next k) (Some []) (Some [])) in
  Ok (set_cookies ((fun cs => cs ++ [c]) <$> cookies d) d).

(** ** Accessors *)

Definition Length (d : Dictionary) : Z := num_entries d.
Definition MaxLength (d : Dictionary) : Z := max_entries d.
Definition NumCumulativeInserts (d : Dictionary) : Z := cum_entries d.
Definition IsOrdered (d : Dictionary) : bool := is_set (order d).
Definition NthValue (d : Dictionary) (n : Z) : Z := (NthEntry d n).1.
Definition SetDeleteFunc (f : bool) (d : Dictionary) : Dictionary :=
  mkDict (remaps d) (log2_buckets d) (num_iterators d) (remap_end d) (num_entries d)
    (max_entries d) (cum_entries d) f (table d) (cookies d) (order d) (cookie_heap d) (next_cookie d).
(** [1.0 - 1.0 / (1<<DICT_LOAD_FACTOR_BITS)], as numerator and denominator. *)
Definition GetThreshold : Z * Z :=
  let n := Z.shiftl 1 DICT_LOAD_FACTOR_BITS in (n - 1, n).
(** [operator!=] of entries. *)
Definition entry_neqb (e r : DictEntry) : bool := negb (Equal e (GetKey r) (key_size r) (hash r)).
(** [generic_delete_func]. *)
Definition generic_delete_func (m : memory) (v : nat) : res memory := free m v.

(** ** [MemoryAllocation] *)

Section Sizes.
(** [sizeof] of a dictionary, of an entry and of a vector. *)
Variables (sizeof_Dictionary sizeof_DictEntry sizeof_vector : Z).
(** [order->capacity()]: chosen by the library. *)
Variable capacity : Z.

Definition padded_sizeof (n : Z) : Z := pad_size n.

(** The keys of more than 8 bytes, from the last slot to the first; [i] is the position
    after the next one. *)
Fixpoint key_memory (d : Dictionary) (i : nat) (size : Z) : Z :=
  match i with
  | O => size
  | S i =>
      let e := tbl d (Z.of_nat i) in
      key_memory d i (if negb (Empty e) && (8 <? key_size e)
                      then i32 (size + pad_size (key_size e)) else size)
  end.

Definition MemoryAllocation (d : Dictionary) : Z :=
  let size := i32 (padded_sizeof sizeof_Dictionary) in
  let size :=
    if has_table d then
      let size := i32 (size + pad_size (Capacity d false * sizeof_DictEntry)) in
      key_memory d (Z.to_nat (Capacity d false)) size
    else size in
  let size :=
    if is_set (order d)
    then i32 (size + (padded_sizeof sizeof_vector + pad_size (sizeof_DictEntry * capacity)))
    else size in
  u32 size.

(** ** [DumpKeys] *)

(** [isprint] of the C locale. *)
Definition isprint (c : Z) : bool := (32 <=? c) && (c <=? 126).

(** The first entry in use.  The test of the slot comes before the test of the index, so
    on a table without entries it reads past the end. *)
Definition first_used (d : Dictionary) : res Z :=
  let i := scan (fun i => (i <? Capacity d false) && Empty (tbl d i)) (steps_to d 0) 0 in
  if i <? Capacity d false then Ok i else UB.

Definition key_of (e : DictEntry) : list Z := take (Z.to_nat (key_size e)) (GetKey e).
Definition binary_key (e : DictEntry) : bool := existsb (fun c => negb (isprint c)) (key_of e).

(** [f.write((const char* )&key_size, sizeof(int))]: little endian. *)
Definition int_bytes (n : Z) : list Z :=
  (fun i => Z.shiftr n (8 * i) mod 256) <$> [0; 1; 2; 3].

(** The bodies of the two loops. *)
Definition write_binary (e : DictEntry) : list Z := int_bytes (key_size e) ++ key_of e.
Definition write_text (e : DictEntry) : list Z := key_of e ++ [10].

Fixpoint write_keys (d : Dictionary) (write : DictEntry -> list Z) (fuel : nat) (i : Z) : list Z :=
  match fuel with
  | O => []
  | S n =>
      if i <? Capacity d false then
        (if Empty (tbl d i) then [] else write (tbl d i)) ++ write_keys d write n (i + 1)
      else []
  end.

(** The file: the numbers of its name, the letter or number at the end of the name, the
    bytes written. *)
Record key_dump := mkKeyDump {
  kd_length : Z; kd_max_distance : Z; kd_per_entry : Z;
  kd_tag : Z + Z;
  kd_bytes : list Z
}.

(** [rnd] is the answer of [rand()]. *)
Definition DumpKeys (d : Dictionary) (rnd : Z) : res (option key_dump) :=
  if has_table d then
    let! i := first_used d in
    let binary := binary_key (tbl d i) in
    let max_distance := (DistanceStats d 0).1 in
    let per_entry := i32 (MemoryAllocation d / u32 (Length d)) in
    if Length d =? 0 then UB
    else if binary then
      Ok (Some (mkKeyDump (Length d) max_distance per_entry (inl (rnd mod 26 + 65))
                  (write_keys d write_binary (steps_to d 0) 0)))
    else
      Ok (Some (mkKeyDump (Length d) max_distance per_entry (inr (rnd mod 26 + 65))
                  (write_keys d write_text (steps_to d 0) 0)))
  else Ok None.

(** ** [Dump] *)

Definition DICT_NUM_DISTANCES : Z := 5.

(** The first loop: the padded sizes of all keys, also of those the entry holds. *)
Fixpoint dump_key_size (d : Dictionary) (fuel : nat) (i size : Z) : Z :=
  match fuel with
  | O => size
  | S n =>
      if i <? Capacity d false then
        dump_key_size d n (i + 1)
          (if Empty (tbl d i) then size else i32 (size + pad_size (key_size (tbl d i))))
      else size
  end.

Record dump_head := mkDumpHead {
  dh_capacity : Z; dh_length : Z; dh_max_length : Z;
  dh_load : Z * Z;
  dh_max_distance : Z; dh_memory : Z; dh_memory_entry : Z; dh_key_entry : Z;
  dh_log2 : Z; dh_remaps : Z; dh_remap_end : Z;
  dh_percent : list Z
}.
(** A line of the table: nothing but the index for an empty slot. *)
Inductive dump_row :=
| RowEmpty (i : Z)
| RowEntry (i : Z) (old : bool) (bucket dist off hash fib fib8 size : Z).

Fixpoint dump_rows (d : Dictionary) (fuel : nat) (i : Z) : res (list dump_row) :=
  match fuel with
  | O => Ok []
  | S n =>
      if i <? Capacity d false then
        let e := tbl d i in
        let! row :=
          (if Empty e then Ok (RowEmpty i)
           else let! off := OffsetInClusterByPosition d i in
                Ok (RowEntry i (i <=? remap_end d) (BucketByPosition d i) (distance e) off
                      (DictTable.hash e) (FibHash (DictTable.hash e))
                      (Z.land (i32 (FibHash (DictTable.hash e))) 0xFF) (key_size e))) in
        let! rows := dump_rows d n (i + 1) in
        Ok (row :: rows)
      else Ok []
  end.

(** [C]'s division of an [int], which rounds to zero. *)
Definition Dump (d : Dictionary) (level : Z) : res (dump_head * list dump_row) :=
  let key_size := dump_key_size d (steps_to d 0) 0 0 in
  let '(max_distance, distances) := DistanceStats d DICT_NUM_DISTANCES in
  let per := if Length d =? 0 then 1 else Length d in
  let head :=
    mkDumpHead (Capacity d false) (Length d) (MaxLength d)
      (Length d, if has_table d then Capacity d false else 1)
      max_distance (i32 (MemoryAllocation d)) (i32 (MemoryAllocation d / u32 per))
      (Z.quot key_size per) (log2_buckets d) (remaps d) (remap_end d)
      (if 0 <? Length d then (fun n => Z.quot (100 * n) (Length d)) <$> distances else []) in
  if 1 <=? level then
    let! rows := dump_rows d (steps_to d 0) 0 in Ok (head, rows)
  else Ok (head, []).

End Sizes.

(** ** What [AssertValid] decides *)

Lemma contents_take_S t i : (i < length t)%nat ->
  contents (take (S i) t) = contents (take i t) ++ slot (tget t (Z.of_nat i)).
Proof.
  intros Hi. unfold tget. rewrite Nat2Z.id.
  destruct (lookup_lt_is_Some_2 t i Hi) as [x Hx].
  rewrite (take_S_r t i x Hx), contents_app, contents_cons, (list_lookup_total_correct _ _ _ Hx).
  by rewrite app_nil_r.
Qed.

Lemma count_down_spec d t i n :
  view d t -> (i <= length t)%nat ->
  count_down d i n = n - Z.of_nat (length (contents (take i t))).
Proof.
  intros Hv. revert n. induction i as [|i IH]; intros n Hi.
  { cbn [count_down]. rewrite take_0. unfold contents. rewrite filter_nil. cbn. lia. }
  cbn [count_down]. rewrite (view_has _ _ Hv), (view_tbl _ _ _ Hv), IH by lia.
  rewrite contents_take_S, length_app by lia. unfold slot.
  destruct (Empty (tget t (Z.of_nat i))); cbn; lia.
Qed.

Lemma AssertValid_loop_ok bucket d fuel i :
  Capacity d false - i <= Z.of_nat fuel ->
  AssertValid_loop bucket d fuel i = Ok tt <->
  (forall j, i <= j < Capacity d false -> pair_valid bucket d j = true).
Proof.
  revert i. induction fuel as [|n IH]; intros i Hf; cbn [AssertValid_loop].
  { split; [intros _ j; lia|done]. }
  destruct (Z.ltb_spec i (Capacity d false)); [|split; [intros _ j; lia|done]].
  destruct (pair_valid bucket d i) eqn:E; cbn [ASSERT res_bind].
  - rewrite IH by lia. split; intros H' j Hj; [|apply H'; lia].
    destruct (decide (j = i)) as [->|]; [done|apply H'; lia].
  - split; [done|]. intros H'. rewrite H' in E; [done|lia].
Qed.

(** The debug field of every slot in use is its bucket.  [InsertRelocateAndAdjust] and
    [Remap] set it to the bucket that the distance is counted from, and then it moves
    with its entry. *)
Definition debug_buckets (bucket : Z -> Z) (t : list DictEntry) : Prop :=
  forall i, occ t i -> bucket i = bkt t i.

Lemma debug_buckets_inserted bucket bucket' t e b p last t' :
  debug_buckets bucket t -> inserted_at t e b p last t' -> distance e = p - b ->
  bucket' p = b ->
  (forall i j, occ t j -> same_entry t t' j i -> i <> p -> bucket' i = bucket j) ->
  debug_buckets bucket' t'.
Proof.
  intros H I Hd Hp Hm i Hi. destruct (decide (i = p)) as [->|Hne].
  - rewrite Hp. unfold bkt. rewrite (proj2 (ins_at _ _ _ _ _ _ I)). lia.
  - destruct (ins_moved _ _ _ _ _ _ I i Hi) as [|(j & Hj & Hs & _)]; [done|].
    rewrite (Hm i j Hj Hs Hne), (proj2 Hs). by apply H.
Qed.

Lemma debug_buckets_removed bucket bucket' t p last t' :
  debug_buckets bucket t -> removed_at t p last t' ->
  (forall i j, occ t j -> same_entry t t' j i -> bucket' i = bucket j) ->
  debug_buckets bucket' t'.
Proof.
  intros H R Hm i Hi. destruct (rem_moved _ _ _ _ R i Hi) as (j & Hj & _ & Hs & _).
  rewrite (Hm i j Hj Hs), (proj2 Hs). by apply H.
Qed.

(** What one round accepts, for a slot in use. *)
Lemma pair_valid_spec bucket d t i :
  view d t -> debug_buckets bucket t -> 1 <= i -> occ t i -> 0 <= distance (tget t (i - 1)) -> 0 <= distance (tget t i) ->
  pair_valid bucket d i = true <->
  (distance (tget t i) = 0 \/ occ t (i - 1) /\ bkt t (i - 1) <= bkt t i).
Proof.
  intros Hv Hb Hi [Hr Ho] Hp Hd. unfold pair_valid.
  rewrite !(view_tbl _ _ _ Hv), Ho, (Hb i) by by split.
  destruct (Empty (tget t (i - 1))) eqn:Ep.
  - rewrite Z.eqb_eq. split; [by left|]. intros [|[[_ ?] _]]; [done|congruence].
  - assert (occ t (i - 1)) as Hq by (split; [lia|done]).
    rewrite (Hb (i - 1) Hq), andb_true_iff, Z.leb_le. unfold bkt.
    destruct (Z.eqb_spec (i - distance (tget t i)) (i - 1 - distance (tget t (i - 1))));
      rewrite ?Z.eqb_eq, ?Z.leb_le; (split; [intros [? ?]; right; split; [done|lia]|]);
      intros [|[_ ?]]; lia.
Qed.

(** Distances are [uint16_t]. *)
Definition distances_unsigned (t : list DictEntry) : Prop := forall i, 0 <= distance (tget t i).

(** C40: The debug check [Dictionary::AssertValid] decides the invariant of the proofs on
    tables whose first slot, which its loop leaves out, is free or holds an entry of
    distance 0, and whose debug fields are the buckets of their entries: it passes
    exactly when the table is clustered and the count of entries is the number of slots
    in use. *)
Theorem AssertValid_decides bucket d t :
  view d t -> distances_unsigned t -> debug_buckets bucket t ->
  (occ t 0 -> distance (tget t 0) = 0) ->
  AssertValid bucket d = Ok tt <-> clustered t /\ num_entries d = Z.of_nat (length (contents t)).
Proof.
  intros Hv Hd Hb H0. unfold AssertValid. rewrite (view_cap _ _ Hv).
  rewrite (count_down_spec _ _ _ _ Hv), firstn_all2 by (unfold len; lia).
  destruct (Z.eqb_spec (num_entries d - Z.of_nat (length (contents t))) 0) as [E|E];
    cbn [ASSERT res_bind]; [|split; [done|intros [_ ?]; lia]].
  rewrite AssertValid_loop_ok, (view_cap _ _ Hv) by (unfold steps_to; rewrite (view_cap _ _ Hv); lia).
  split.
  - intros H. split; [|lia]. intros i Hi. split; [apply Hd|].
    destruct (decide (i = 0)) as [->|]; [left; by apply H0|].
    apply (pair_valid_spec bucket _ _ _ Hv Hb); [destruct Hi; lia|done|apply Hd|apply Hd|].
    apply H. destruct Hi; lia.
  - intros [Hc _] j Hj. destruct (occ_dec t j) as [Ho|Hn].
    + apply (pair_valid_spec bucket _ _ _ Hv Hb); [lia|done|apply Hd|apply Hd|by apply Hc].
    + unfold pair_valid. rewrite (view_tbl _ _ _ Hv).
      destruct (Empty (tget t j)) eqn:Ee; [done|]. destruct Hn. split; [lia|done].
Qed.

Lemma clustered_unsigned t : clustered t -> distances_unsigned t.
Proof.
  intros Hc i. assert (tget t i = tget t (Z.of_nat (Z.to_nat i))) as ->.
  { unfold tget. by rewrite Nat2Z.id. }
  destruct (occ_dec t (Z.of_nat (Z.to_nat i))) as [Ho|Hn]; [by destruct (Hc _ Ho)|].
  destruct (Empty (tget t (Z.of_nat (Z.to_nat i)))) eqn:E.
  - unfold Empty, TOO_FAR_TO_REACH in E. lia.
  - destruct (decide (Z.of_nat (Z.to_nat i) < len t)); [by destruct Hn; split; [lia|]|].
    unfold tget, len in *. rewrite list_lookup_total_alt, lookup_ge_None_2 by lia. done.
Qed.

Lemma clustered_first t : clustered t -> occ t 0 -> distance (tget t 0) = 0.
Proof. intros Hc Ho. pose proof (clustered_bkt_nonneg t 0 Hc Ho). destruct (Hc 0 Ho). unfold bkt in *. lia. Qed.

(** Every check in the source of a dictionary between two operations passes. *)
Theorem AssertValid_wf bucket d :
  wf d -> debug_buckets bucket (entries d) -> AssertValid bucket d = Ok tt.
Proof.
  intros Hwf Hb. unfold wf in Hwf. destruct (table d) as [t|] eqn:Et.
  - destruct Hwf as [C Hn]. unfold entries in Hb. rewrite Et in Hb. cbn in Hb.
    pose proof (core_view _ _ C) as Hv. pose proof (core_clustered _ _ C) as Hc.
    unfold AssertValid. rewrite (view_cap _ _ Hv).
    rewrite (count_down_spec _ _ _ _ Hv), firstn_all2 by (unfold len; lia).
    step_assert; [|lia].
    apply AssertValid_loop_ok; [unfold steps_to; lia|]. rewrite (view_cap _ _ Hv). intros j Hj.
    destruct (occ_dec t j) as [Ho|Ho].
    + apply (pair_valid_spec bucket _ _ _ Hv Hb);
        [lia|done|by apply clustered_unsigned|by apply clustered_unsigned|by apply Hc].
    + unfold pair_valid. rewrite (view_tbl _ _ _ Hv).
      destruct (Empty (tget t j)) eqn:Ee; [done|]. destruct Ho. split; [lia|done].
  - destruct Hwf as (Hl & Hr & He & Hn). unfold AssertValid, Capacity, has_table. rewrite Et, Hn.
    cbn [Z.to_nat count_down]. step_assert; [|done].
    apply AssertValid_loop_ok; [unfold Capacity, has_table; rewrite Et; lia|].
    unfold Capacity, has_table. rewrite Et. lia.
Qed.

Lemma checked_sample_core : core sample_dict (entries sample_dict).
Proof. apply coreb_sound; vm_compute; reflexivity. Qed.

Lemma checked_sample_wf : wf sample_dict.
Proof. apply (wf_intro _ _ checked_sample_core). vm_compute. reflexivity. Qed.

Lemma AssertValid_wf_witness :
  wf sample_dict /\ AssertValid (bkt (entries sample_dict)) sample_dict = Ok tt.
Proof.
  split; [exact checked_sample_wf|].
  exact (AssertValid_wf (bkt (entries sample_dict)) _ checked_sample_wf (fun _ _ => eq_refl)).
Defined.

Lemma AssertValid_decides_witness : AssertValid (bkt (entries sample_dict)) sample_dict = Ok tt.
Proof.
  apply (AssertValid_decides (bkt (entries sample_dict)) sample_dict (entries sample_dict)).
  - exact (core_view _ _ checked_sample_core).
  - exact (clustered_unsigned _ (core_clustered _ _ checked_sample_core)).
  - exact (fun _ _ => eq_refl).
  - exact (clustered_first _ (core_clustered _ _ checked_sample_core)).
  - split; [exact (core_clustered _ _ checked_sample_core)|vm_compute; reflexivity].
Defined.

(** The distance of the first slot is not looked at: a table of one entry that claims to
    be 5 slots away from its bucket passes. *)
Definition first_slot_wrong : Dictionary :=
  mkDict 0 0 0 (-1) 1 1 1 false (Some [mkEntry 5 1 0 1 [7]]) None None ∅ 0.

Lemma AssertValid_misses_first :
  AssertValid (bkt (entries first_slot_wrong)) first_slot_wrong = Ok tt /\
  ~ clustered (entries first_slot_wrong).
Proof.
  split; [reflexivity|]. intros Hc. specialize (clustered_first _ Hc). intros H.
  discriminate H. by split.
Qed.

(** ** What the dumps hold *)

Definition used (t : list DictEntry) : list DictEntry := filter (fun e => Empty e = false) t.

Lemma used_drop t i : (i < length t)%nat ->
  used (drop i t) = (if Empty (tget t (Z.of_nat i)) then [] else [tget t (Z.of_nat i)]) ++ used (drop (S i) t).
Proof.
  intros Hi. unfold tget. rewrite Nat2Z.id.
  destruct (lookup_lt_is_Some_2 t i Hi) as [x Hx].
  rewrite (drop_S t x i Hx), (list_lookup_total_correct _ _ _ Hx). unfold used.
  destruct (Empty x) eqn:E; [rewrite filter_cons_False by congruence|rewrite filter_cons_True by done]; done.
Qed.

Lemma write_keys_spec d t write fuel i :
  view d t -> (length t <= i + fuel)%nat ->
  write_keys d write fuel (Z.of_nat i) = concat (write <$> used (drop i t)).
Proof.
  intros Hv. revert i. induction fuel as [|n IH]; intros i Hf; cbn [write_keys].
  { rewrite drop_ge by lia. unfold used. by rewrite filter_nil. }
  rewrite (view_cap _ _ Hv), (view_tbl _ _ _ Hv). unfold len.
  destruct (Z.ltb_spec (Z.of_nat i) (Z.of_nat (length t))).
  - replace (Z.of_nat i + 1) with (Z.of_nat (S i)) by lia. rewrite IH, (used_drop t i) by lia.
    by destruct (Empty (tget t (Z.of_nat i))).
  - rewrite drop_ge by lia. unfold used. by rewrite filter_nil.
Qed.

(** Reading the two kinds of file back. *)
Fixpoint read_key_file (fuel : nat) (bytes : list Z) : option (list (list Z)) :=
  match fuel, bytes with
  | _, [] => Some []
  | S fuel, b0 :: b1 :: b2 :: b3 :: rest =>
      let n := Z.to_nat (b0 + 256 * (b1 + 256 * (b2 + 256 * b3))) in
      if (n <=? length rest)%nat
      then (fun ks => take n rest :: ks) <$> read_key_file fuel (drop n rest)
      else None
  | _, _ => None
  end.
Fixpoint read_lines (line bytes : list Z) : list (list Z) :=
  match bytes with
  | [] => []
  | b :: bytes => if b =? 10 then line :: read_lines [] bytes else read_lines (line ++ [b]) bytes
  end.

Lemma int_bytes_value n : 0 <= n < 2 ^ 32 ->
  exists b0 b1 b2 b3, int_bytes n = [b0; b1; b2; b3] /\ b0 + 256 * (b1 + 256 * (b2 + 256 * b3)) = n.
Proof.
  intros Hn. unfold int_bytes. cbn [fmap list_fmap]. do 4 eexists. split; [reflexivity|].
  rewrite !Z.shiftr_div_pow2 by lia. change (2 ^ (8 * 0)) with 1. change (2 ^ (8 * 1)) with 256.
  change (2 ^ (8 * 2)) with 65536. change (2 ^ (8 * 3)) with 16777216. dlia.
Qed.

(** A 16-bit size that is the length of the key. *)
Definition sized (e : DictEntry) : Prop := key_size e = Z.of_nat (length (key_bytes e)) /\ key_size e <= 0xFFFF.

Lemma sized_key e : sized e -> key_of e = key_bytes e.
Proof. intros [E _]. unfold key_of, GetKey. rewrite E, Nat2Z.id. by apply firstn_all. Qed.

Lemma read_key_file_written es fuel :
  Forall sized es -> (length es <= fuel)%nat ->
  read_key_file fuel (concat (write_binary <$> es)) = Some (key_bytes <$> es).
Proof.
  intros H. revert fuel. induction H as [|e es He Hes IH]; intros fuel Hf; [by destruct fuel|].
  destruct fuel as [|fuel]; cbn in Hf; [lia|]. cbn [fmap list_fmap concat]. unfold write_binary at 1.
  destruct (int_bytes_value (key_size e)) as (b0 & b1 & b2 & b3 & -> & E).
  { destruct He as [E ?]. rewrite E in *. lia. }
  rewrite (sized_key _ He). cbn [app read_key_file]. rewrite E. destruct He as [Es _].
  rewrite Es, Nat2Z.id, length_app.
  destruct (Nat.leb_spec (length (key_bytes e)) (length (key_bytes e) + length (concat (write_binary <$> es)))); [|lia].
  rewrite drop_app_length, take_app_length, IH by lia. done.
Qed.

Lemma read_lines_line line k rest :
  10 ∉ k -> read_lines line (k ++ 10 :: rest) = (line ++ k) :: read_lines [] rest.
Proof.
  revert line. induction k as [|b k IH]; intros line Hk; cbn [app read_lines].
  { by rewrite Z.eqb_refl, app_nil_r. }
  apply not_elem_of_cons in Hk as [Hb Hk]. destruct (Z.eqb_spec b 10); [done|].
  rewrite IH by done. by rewrite <- app_assoc.
Qed.

Lemma read_lines_written es :
  Forall sized es -> Forall (fun e => 10 ∉ key_bytes e) es ->
  read_lines [] (concat (write_text <$> es)) = key_bytes <$> es.
Proof.
  intros H. induction H as [|e es He Hes IH]; intros Hk; [done|].
  apply Forall_cons in Hk as [Hk Hks]. cbn [fmap list_fmap concat]. unfold write_text at 1.
  rewrite <- app_assoc. cbn [app]. rewrite (sized_key _ He), read_lines_line, IH by done. done.
Qed.

Lemma used_contents t : contents t = set_distance 0 <$> used t.
Proof. done. Qed.

(** Where the search for the first slot in use ends. *)
Lemma first_used_scan d t :
  view d t -> exists j, first_used d = (if j <? len t then Ok j else UB) /\ 0 <= j /\
    (j < len t -> Empty (tget t j) = false) /\ (forall k, 0 <= k < j -> k < len t -> Empty (tget t k) = true).
Proof.
  intros Hv. unfold first_used.
  set (p := fun i => (i <? Capacity d false) && Empty (tbl d i)).
  destruct (scan_spec p (len t) (steps_to d 0) 0) as (H1 & H2 & H3 & H4).
  { intros k Hk. unfold p. rewrite (view_cap _ _ Hv). by destruct (Z.ltb_spec k (len t)); [lia|]. }
  { unfold steps_to. rewrite (view_cap _ _ Hv). lia. }
  exists (scan p (steps_to d 0) 0). rewrite (view_cap _ _ Hv). split; [done|]. split; [done|]. split.
  - intros Hj. unfold p at 1 in H3. rewrite (view_cap _ _ Hv), (view_tbl _ _ _ Hv) in H3.
    by destruct (Z.ltb_spec (scan p (steps_to d 0) 0) (len t)); [|lia].
  - intros k Hk Hkl. specialize (H4 k Hk). unfold p in H4.
    rewrite (view_cap _ _ Hv), (view_tbl _ _ _ Hv), andb_true_iff in H4. apply H4.
Qed.

Lemma elem_of_used t e : e ∈ used t <-> exists i, occ t i /\ e = tget t i.
Proof.
  unfold used. rewrite list_elem_of_filter, list_elem_of_lookup. split.
  - intros (He & n & Hn). exists (Z.of_nat n). pose proof (lookup_lt_Some _ _ _ Hn).
    unfold occ, tget, len. rewrite Nat2Z.id, (list_lookup_total_correct _ _ _ Hn). split; [split; [lia|done]|done].
  - intros (i & [Hr Ho] & ->). split; [done|]. exists (Z.to_nat i).
    apply list_lookup_lookup_total_lt. unfold len in *. lia.
Qed.

Lemma first_used_none d t : view d t -> used t = [] -> first_used d = UB.
Proof.
  intros Hv E. destruct (first_used_scan d t Hv) as (j & -> & H0 & Hj & _).
  destruct (Z.ltb_spec j (len t)) as [Hl|]; [|done].
  assert (tget t j ∈ used t) as Hin by (apply elem_of_used; exists j; repeat split; auto).
  rewrite E in Hin. by apply elem_of_nil in Hin.
Qed.

Lemma first_used_some d t :
  view d t -> used t <> [] -> exists i, first_used d = Ok i /\ tget t i ∈ used t.
Proof.
  intros Hv Hne. destruct (first_used_scan d t Hv) as (j & -> & H0 & Hj & Hk).
  destruct (Z.ltb_spec j (len t)) as [Hl|Hl].
  - exists j. split; [done|]. apply elem_of_used. exists j. repeat split; auto.
  - destruct Hne. destruct (used t) as [|e es] eqn:Eu; [done|].
    assert (e ∈ used t) as Hin by (rewrite Eu; left).
    apply elem_of_used in Hin as (i & [Hr Ho] & _). rewrite Hk in Ho by lia. done.
Qed.

Section Dumps.
Context (sizeof_Dictionary sizeof_DictEntry sizeof_vector capacity : Z).
Notation DumpKeys := (DumpKeys sizeof_Dictionary sizeof_DictEntry sizeof_vector capacity).

(** The key file that [DumpKeys] writes can be read back: in the binary format, which is
    chosen when the first key has an unprintable byte, reading sizes and bytes gives the
    keys in the order of the table; in the text format reading lines does, if no key has a
    newline. *)
Theorem DumpKeys_readable d t rnd :
  wf d -> table d = Some t -> used t <> [] -> Forall sized (used t) ->
  exists f, DumpKeys d rnd = Ok (Some f) /\ kd_length f = Z.of_nat (length (used t)) /\
    match kd_tag f with
    | inl _ => read_key_file (length (used t)) (kd_bytes f) = Some (key_bytes <$> used t)
    | inr _ => Forall (fun e => 10 ∉ key_bytes e) (used t) ->
               read_lines [] (kd_bytes f) = key_bytes <$> used t
    end.
Proof.
  intros Hwf Et Hne Hs. destruct (wf_table d t Hwf Et) as (C & Hn & _).
  pose proof (core_view _ _ C) as Hv. rewrite used_contents, length_fmap in Hn.
  destruct (first_used_some d t Hv Hne) as (i & Ei & _).
  unfold DictDebug.DumpKeys. rewrite (view_has _ _ Hv). step_ok Ei. unfold Length. rewrite Hn.
  destruct (Z.eqb_spec (Z.of_nat (length (used t))) 0) as [E|_]; [by destruct (used t)|].
  assert (forall w, write_keys d w (steps_to d 0) 0 = concat (w <$> used t)) as Ew.
  { intros w. change (write_keys d w (steps_to d 0) (Z.of_nat 0) = concat (w <$> used t)).
    rewrite (write_keys_spec d t w (steps_to d 0) 0 Hv); [by rewrite drop_0|].
    unfold steps_to. rewrite (view_cap _ _ Hv). unfold len. lia. }
  rewrite !Ew.
  destruct (binary_key (tbl d i)); eexists; (split; [reflexivity|]); (split; [done|]); cbn [kd_tag kd_bytes].
  - by apply read_key_file_written.
  - by apply read_lines_written.
Qed.

(** On a table without entries [DumpKeys] reads past the end of the table. *)
Theorem DumpKeys_no_entries d t rnd :
  view d t -> used t = [] -> DumpKeys d rnd = UB.
Proof.
  intros Hv E. unfold DictDebug.DumpKeys. rewrite (view_has _ _ Hv).
  by rewrite (first_used_none d t Hv E).
Qed.

Lemma Offset_ok d t i :
  view d t -> clustered t -> occ t i -> exists off, OffsetInClusterByPosition d i = Ok off.
Proof.
  intros Hv Hc Ho. unfold OffsetInClusterByPosition, HeadOfClusterByPosition.
  step_assert; [|by apply (in_table_occ _ _ _ Hv)]. rewrite (view_bkt _ _ _ Hv).
  pose proof (clustered_bkt_le t i Hc Ho).
  destruct (HeadOfClusterByPosition_loop_spec d t i (S (S (Z.to_nat (i - bkt t i)))) i Hv Hc Ho)
    as (h & E & _); [lia|intros; lia|lia|].
  step_ok E. by eexists.
Qed.

Lemma dump_rows_ok d t fuel i :
  view d t -> clustered t -> 0 <= i -> i + Z.of_nat fuel = len t ->
  exists rows, dump_rows d fuel i = Ok rows /\ length rows = fuel.
Proof.
  intros Hv Hc. revert i. induction fuel as [|n IH]; intros i Hi Hf; cbn [dump_rows]; [by exists []|].
  rewrite (view_cap _ _ Hv). destruct (Z.ltb_spec i (len t)); [|lia].
  destruct (IH (i + 1)) as (rows & E & El); [lia|lia|].
  destruct (Empty (tbl d i)) eqn:Ee; cbn [res_bind].
  - step_ok E. eexists. split; [done|]. cbn. by rewrite El.
  - destruct (Offset_ok d t i Hv Hc) as [off Eo].
    { split; [lia|]. by rewrite <- (view_tbl _ _ _ Hv). }
    step_ok Eo. step_ok E. eexists. split; [done|]. cbn. by rewrite El.
Qed.

Lemma dump_rows_all d : wf d ->
  exists rows, dump_rows d (steps_to d 0) 0 = Ok rows /\ length rows = Z.to_nat (Capacity d false).
Proof.
  intros Hwf. unfold steps_to. rewrite Z.sub_0_r. destruct (table d) as [t|] eqn:Et.
  - destruct (wf_table d t Hwf Et) as (C & _). pose proof (core_view _ _ C) as Hv.
    rewrite (view_cap _ _ Hv). apply (dump_rows_ok d t); [done|apply C|done|unfold len; lia].
  - unfold Capacity, has_table. rewrite Et. by exists [].
Qed.

(** [Dump] reaches the end on every dictionary: no row's assertion fails. *)
Theorem Dump_returns d level :
  wf d -> exists head rows,
    Dump sizeof_Dictionary sizeof_DictEntry sizeof_vector capacity d level = Ok (head, rows) /\
    (1 <= level -> length rows = Z.to_nat (Capacity d false)) /\ dh_length head = num_entries d.
Proof.
  intros Hwf. unfold Dump. destruct (DistanceStats d DICT_NUM_DISTANCES) as [mx ds].
  destruct (Z.leb_spec 1 level).
  - destruct (dump_rows_all d Hwf) as (rows & E & El). step_ok E. do 2 eexists. by split.
  - do 2 eexists. split; [done|]. split; [lia|done].
Qed.
End Dumps.

(** Three entries, with a first key that is not printable. *)
Definition small_dict : Dictionary :=
  Eval vm_compute in get (let! d := new_Dictionary UNORDERED 0 in insert_all (sample 3) d).

Lemma small_wf : wf small_dict.
Proof. apply (wf_intro _ (entries small_dict)); [by apply coreb_sound|done]. Qed.

Lemma DumpKeys_readable_witness :
  exists f, DumpKeys 56 24 24 0 small_dict 3 = Ok (Some f) /\ kd_length f = 3 /\
    read_key_file 3 (kd_bytes f) = Some (key_bytes <$> used (entries small_dict)).
Proof.
  assert (Forall sized (used (entries small_dict))) as Hs by (unfold sized; repeat constructor; discriminate).
  destruct (DumpKeys_readable 56 24 24 0 small_dict (entries small_dict) 3 small_wf)
    as (f & E & En & Hf); [reflexivity|discriminate|exact Hs|].
  exists f. split; [exact E|]. split; [exact En|].
  vm_compute in E. injection E as <-. exact Hf.
Defined.

Lemma DumpKeys_no_entries_witness :
  DumpKeys 56 24 24 0 (get (new_Dictionary UNORDERED 8)) 3 = UB.
Proof.
  apply (DumpKeys_no_entries 56 24 24 0 _ (entries (get (new_Dictionary UNORDERED 8)))).
  - split; [reflexivity|reflexivity|split; discriminate].
  - vm_compute. reflexivity.
Defined.

Lemma Dump_returns_witness : exists head rows,
  Dump 56 24 24 0 sample_dict 1 = Ok (head, rows) /\ length rows = Z.to_nat (Capacity sample_dict false) /\ dh_length head = 54.
Proof.
  destruct (Dump_returns 56 24 24 0 sample_dict 1 checked_sample_wf) as (head & rows & E & H1 & H2).
  exists head, rows. split; [exact E|]. split; [apply H1; lia|exact H2].
Defined.
