(* ===== verification/ListMemory.v ===== *)
(** * The memory of the lists of [dict/List.h]

    [ZeekList] has the list as a value.  Here lists are objects with a pointer to an array
    of the C heap: construction, assignment (also of a list to itself), [clear] and the
    destructor, which allocate and free the arrays.  The operations of [ZeekList] run on
    the list that an object and its array make up. *)

From stdpp Require Import fin_maps gmap.
From S2P Require Import Prelude ZeekList ListSpec ListProps.
From S2P Require HashKey.

Section Memory.
Context {T : Type} `{!EqDecision T} (null_val : T).

Record ListObj := mkObj { o_entries : option nat; o_max : Z; o_num : Z }.

(** The allocated arrays by address, the live lists by address. *)
Notation arrays := (gmap nat (list (option T))).
Record lists := mkLists { heap : arrays; objects : gmap nat ListObj }.

Definition object (s : lists) (a : nat) : res ListObj :=
  match objects s !! a with Some o => Ok o | None => UB end.

(** The list that an object is, with the cells of its array. *)
Definition load (A : arrays) (o : ListObj) : res (List T) :=
  match o_entries o with
  | Some p => match A !! p with Some c => Ok (mkList (Some c) (o_max o) (o_num o)) | None => UB end
  | None => Ok (mkList None (o_max o) (o_num o))
  end.

(** [free(entries)]: a null pointer may be freed, an array once. *)
Definition free_array (A : arrays) (p : option nat) : res arrays :=
  match p with
  | Some p => match A !! p with Some _ => Ok (delete p A) | None => UB end
  | None => Ok A
  end.

(** The fields of a list whose array was just allocated. *)
Definition place (s : lists) (this : nat) (l : List T) : lists :=
  match entries l with
  | Some c =>
      let p := fresh (dom (heap s)) in
      mkLists (<[p := c]> (heap s)) (<[this := mkObj (Some p) (max_entries l) (num_entries l)]> (objects s))
  | None => mkLists (heap s) (<[this := mkObj None (max_entries l) (num_entries l)]> (objects s))
  end.

(** ** Construction, assignment, destruction *)

(** [List(int size)]. *)
Definition construct (s : lists) (this : nat) (size : Z) : lists := place s this (new_List size).

(** [List(const T* arr, int n)]. *)
Definition construct_array (s : lists) (this : nat) (arr : list T) : lists :=
  place s this (List_of_array arr).

(** [List(const List& b)]. *)
Definition copy_construct (s : lists) (this b : nat) : res lists :=
  let! o := object s b in
  let! l := load (heap s) o in
  let! l := copy_List l in Ok (place s this l).

(** [List(List&& b)]. *)
Definition move_construct (s : lists) (this b : nat) : res lists :=
  let! o := object s b in
  Ok (mkLists (heap s) (<[b := mkObj None 0 0]> (<[this := o]> (objects s)))).

(** [operator=(const List& b)]. *)
Definition copy_assign (s : lists) (this b : nat) : res lists :=
  if (this =? b)%nat then Ok s
  else
    let! o := object s this in
    let! A := free_array (heap s) (o_entries o) in
    let s := mkLists A (objects s) in
    let! ob := object s b in
    let! l := load (heap s) ob in
    let! l := copy_List l in Ok (place s this l).

(** [operator=(List&& b)]. *)
Definition move_assign (s : lists) (this b : nat) : res lists :=
  if (this =? b)%nat then Ok s
  else
    let! o := object s this in
    let! A := free_array (heap s) (o_entries o) in
    let s := mkLists A (objects s) in
    let! ob := object s b in
    Ok (mkLists (heap s) (<[b := mkObj None 0 0]> (<[this := ob]> (objects s)))).

(** [clear()]. *)
Definition clear_at (s : lists) (this : nat) : res lists :=
  let! o := object s this in
  let! A := free_array (heap s) (o_entries o) in
  Ok (mkLists A (<[this := mkObj None 0 0]> (objects s))).

(** [~List()]. *)
Definition destroy (s : lists) (this : nat) : res lists :=
  let! o := object s this in
  let! A := free_array (heap s) (o_entries o) in
  Ok (mkLists A (delete this (objects s))).

(** An operation of [ZeekList] on the list at [this].  [resize] may move the array:
    wherever [realloc] puts it, it is not another list's. *)
Definition on_list {R : Type} (s : lists) (this : nat) (f : List T -> res (R * List T))
    : res (R * lists) :=
  let! o := object s this in
  let! l := load (heap s) o in
  let! (r, l) := f l in
  let! A := free_array (heap s) (o_entries o) in
  Ok (r, place (mkLists A (objects s)) this l).

(** ** The rest of the interface *)

Definition length_of (l : List T) : Z := num_entries l.
Definition max (l : List T) : Z := max_entries l.

(** [sort]: [qsort] of the C library on the entries in use. *)
Definition sort (qsort : list T -> list T) (l : List T) : res (List T) :=
  let! xs := to_list l in
  Ok (mkList ((fun c => (Some <$> qsort xs) ++ drop (Z.to_nat (num_entries l)) c) <$> entries l)
        (max_entries l) (num_entries l)).

Definition push_back (l : List T) (a : T) : res (List T) := append l a.
Definition push_front (l : List T) (a : T) : res (List T) := insert l a.

(** [rbegin()] to [rend()]. *)
Fixpoint iterate_down (n : nat) (l : List T) : res (list T) :=
  match n with
  | O => Ok []
  | S n => let! x := cell l (Z.of_nat n) in let! xs := iterate_down n l in Ok (x :: xs)
  end.
Definition reverse_list (l : List T) : res (list T) := iterate_down (Z.to_nat (num_entries l)) l.

(** [MemoryAllocation()], with [sizeof(List<T>)] and [sizeof(T)]. *)
Definition MemoryAllocation (sizeof_List sizeof_T : Z) (l : List T) : Z :=
  i32 (HashKey.pad_size sizeof_List + HashKey.pad_size (max_entries l * sizeof_T)).

(** ** Who owns which array *)

(** Every array that a list points to is allocated, no two lists share one, and every
    allocated array is a list's. *)
Record owned (A : arrays) (O : gmap nat ListObj) : Prop := mkOwned {
  ow_live : forall a o p, O !! a = Some o -> o_entries o = Some p -> is_Some (A !! p);
  ow_alone : forall a a' o o' p, O !! a = Some o -> O !! a' = Some o' ->
    o_entries o = Some p -> o_entries o' = Some p -> a = a';
  ow_all : forall p, is_Some (A !! p) -> exists a o, O !! a = Some o /\ o_entries o = Some p
}.

(** The lists that the objects are. *)
Definition models (A : arrays) (O : gmap nat ListObj) (M : gmap nat (list T)) : Prop :=
  forall a, match O !! a, M !! a with
            | Some o, Some xs => exists l, load A o = Ok l /\ repr l xs
            | None, None => True
            | _, _ => False
            end.

Definition good (s : lists) (M : gmap nat (list T)) : Prop :=
  owned (heap s) (objects s) /\ models (heap s) (objects s) M.

Lemma models_object A O M a xs :
  models A O M -> M !! a = Some xs -> exists o l, O !! a = Some o /\ load A o = Ok l /\ repr l xs.
Proof using.
  intros H E. specialize (H a). rewrite E in H. destruct (O !! a) as [o|]; [|done].
  destruct H as (l & H1 & H2). by exists o, l.
Qed.

(** Loading depends on the object's own array only. *)
Lemma load_same (A A' : arrays) o :
  (forall p, o_entries o = Some p -> A' !! p = A !! p) -> load A' o = load A o.
Proof using. intros H. unfold load. destruct (o_entries o) as [p|]; [|done]. by rewrite (H p). Qed.

(** A list loses its array. *)
Lemma free_owned A O M this o :
  owned A O -> models A O M -> O !! this = Some o ->
  exists A', free_array A (o_entries o) = Ok A' /\ owned A' (delete this O) /\
    models A' (delete this O) (delete this M).
Proof using.
  intros [Hl Ha Hall] HM Eo.
  assert (exists A', free_array A (o_entries o) = Ok A' /\
    forall p, A' !! p = if decide (o_entries o = Some p) then None else A !! p) as (A' & E & HA').
  { unfold free_array. destruct (o_entries o) as [p|] eqn:Ep.
    - destruct (Hl this o p Eo Ep) as [c Ec]. rewrite Ec. eexists. split; [done|]. intros q.
      case_decide as D; [injection D as ->; apply lookup_delete_eq|].
      apply lookup_delete_ne. congruence.
    - eexists. split; [done|]. intros q. by rewrite decide_False. }
  assert (forall a o' p, a <> this -> O !! a = Some o' -> o_entries o' = Some p -> A' !! p = A !! p) as Hkeep.
  { intros a o' p Hne Eo' Ep. rewrite HA', decide_False; [done|]. intros E'.
    apply Hne. by apply (Ha a this o' o p). }
  exists A'. split; [done|]. split; [split|].
  - intros a o' p Hd Ep. apply lookup_delete_Some in Hd as [Hne Eo'].
    rewrite (Hkeep a o' p) by done. by apply (Hl a o' p).
  - intros a a' o1 o2 p [_ H1]%lookup_delete_Some [_ H2]%lookup_delete_Some. by apply (Ha a a' o1 o2 p).
  - intros p Hp. rewrite HA' in Hp. case_decide as D; [by destruct Hp|].
    destruct (Hall p Hp) as (a & o' & Eo' & Ep). exists a, o'. split; [|done].
    apply lookup_delete_Some. split; [|done]. intros <-. congruence.
  - intros a. destruct (decide (a = this)) as [->|Hne]; [by rewrite !lookup_delete_eq|].
    rewrite !lookup_delete_ne by done. specialize (HM a). destruct (O !! a) as [o'|] eqn:Eo'; [|done].
    destruct (M !! a) as [ys|]; [|done]. destruct HM as (l & El & Hr). exists l. split; [|done].
    rewrite <- El. apply load_same. intros p Ep. by apply (Hkeep a o').
Qed.

(** A list gets a fresh array. *)
Lemma place_owned A O0 M0 O M this l xs :
  delete this O0 = O -> delete this M0 = M -> owned A O -> models A O M -> repr l xs ->
  good (place (mkLists A O0) this l) (<[this := xs]> M0).
Proof using.
  intros <- <- [Hl Ha Hall] HM Hr. unfold place, good. cbn [heap objects].
  assert (forall o, <[this := o]> O0 = <[this := o]> (delete this O0)) as EO
    by (intros; by rewrite insert_delete_eq).
  rewrite <- (insert_delete_eq M0).
  set (O := delete this O0) in *. set (M := delete this M0) in *.
  assert (O !! this = None) as EOt by apply lookup_delete_eq.
  destruct (entries l) as [c|] eqn:Ec; cbn [heap objects]; rewrite EO.
  - set (p := fresh (dom A)).
    assert (A !! p = None) as Hp by (apply not_elem_of_dom, is_fresh).
    assert (forall a o q, O !! a = Some o -> o_entries o = Some q -> q <> p) as Hq.
    { intros a o q Eo Eq ->. destruct (Hl a o p Eo Eq). congruence. }
    split; [split|].
    + intros a o q [[<- <-]|[Hne Eo]]%lookup_insert_Some Eq.
      * injection Eq as <-. rewrite lookup_insert_eq. by eexists.
      * rewrite lookup_insert_ne by (symmetry; by apply (Hq a o)). by apply (Hl a o).
    + intros a a' o o' q [[<- <-]|[Hne Eo]]%lookup_insert_Some [[<- <-]|[Hne' Eo']]%lookup_insert_Some Eq Eq'.
      * done.
      * injection Eq as Eq. by destruct (Hq a' o' q Eo' Eq').
      * injection Eq' as Eq'. by destruct (Hq a o q Eo Eq).
      * by apply (Ha a a' o o' q).
    + intros q [c' [[<- _]|[Hne Hq']]%lookup_insert_Some].
      * eexists this, _. rewrite lookup_insert_eq. by split.
      * destruct (Hall q) as (a & o & Eo & Eq); [by exists c'|]. exists a, o. split; [|done].
        rewrite lookup_insert_ne; [done|]. intros <-. congruence.
    + intros a. destruct (decide (a = this)) as [->|Hne].
      * rewrite !lookup_insert_eq. exists (mkList (Some c) (max_entries l) (num_entries l)).
        unfold load. cbn. rewrite lookup_insert_eq. split; [done|].
        destruct l as [e mx n]. cbn in *. by subst e.
      * rewrite !lookup_insert_ne by done. specialize (HM a). destruct (O !! a) as [o|] eqn:Eo; [|done].
        destruct (M !! a) as [ys|]; [|done]. destruct HM as (l' & El & Hr'). exists l'. split; [|done].
        rewrite <- El. apply load_same. intros q Eq. apply lookup_insert_ne.
        symmetry. by apply (Hq a o).
  - split; [split|].
    + intros a o q [[<- <-]|[Hne Eo]]%lookup_insert_Some Eq; [done|]. by apply (Hl a o).
    + intros a a' o o' q [[<- <-]|[Hne Eo]]%lookup_insert_Some [[<- <-]|[Hne' Eo']]%lookup_insert_Some Eq Eq';
        [done..|]. by apply (Ha a a' o o' q).
    + intros q Hq. destruct (Hall q Hq) as (a & o & Eo & Eq). exists a, o. split; [|done].
      rewrite lookup_insert_ne; [done|]. intros <-. congruence.
    + intros a. destruct (decide (a = this)) as [->|Hne].
      * rewrite !lookup_insert_eq. exists (mkList None (max_entries l) (num_entries l)).
        split; [done|]. destruct l as [e mx n]. cbn in *. by subst e.
      * rewrite !lookup_insert_ne by done. apply HM.
Qed.


(** A list takes over the array of another one, which becomes empty. *)
Lemma hand_over A O M this b o ys :
  owned A O -> models A O M -> this <> b -> O !! this = None -> M !! this = None -> O !! b = Some o -> M !! b = Some ys ->
  good (mkLists A (<[b := mkObj None 0 0]> (<[this := o]> O))) (<[b := []]> (<[this := ys]> M)).
Proof using.
  intros [Hl Ha Hall] HM Hne Ht HMt Eo EM.
  assert (forall a o' p, <[b := mkObj None 0 0]> (<[this := o]> O) !! a = Some o' -> o_entries o' = Some p ->
    (a = this /\ o' = o) \/ (a <> this /\ a <> b /\ O !! a = Some o')) as Hcase.
  { intros a o' p [[<- <-]|[Hb [[<- <-]|[Hn Eo']]%lookup_insert_Some]]%lookup_insert_Some Ep; [done|by left|by right]. }
  split; [split|]; cbn [heap objects].
  - intros a o' p Eo' Ep. destruct (Hcase a o' p Eo' Ep) as [[-> ->]|(_ & _ & E)]; by eapply Hl.
  - intros a a' o1 o2 p E1 E2 Ep1 Ep2.
    destruct (Hcase _ _ _ E1 Ep1) as [[-> ->]|(Hn1 & Hb1 & F1)], (Hcase _ _ _ E2 Ep2) as [[-> ->]|(Hn2 & Hb2 & F2)];
      [done| | |by apply (Ha a a' o1 o2 p)].
    + by destruct Hb2, (Ha b a' o o2 p Eo F2 Ep1 Ep2).
    + by destruct Hb1, (Ha b a o o1 p Eo F1 Ep2 Ep1).
  - intros p Hp. destruct (Hall p Hp) as (a & o' & Eo' & Ep). destruct (decide (a = b)) as [->|Hb].
    + exists this, o. rewrite lookup_insert_ne, lookup_insert_eq by done. split; [done|]. congruence.
    + exists a, o'. rewrite lookup_insert_ne by done. rewrite lookup_insert_ne; [done|]. intros <-. congruence.
  - intros a. destruct (decide (a = b)) as [->|Hb]; [|destruct (decide (a = this)) as [->|Hn]].
    + rewrite !lookup_insert_eq. exists (mkList None 0 0). split; [done|].
      apply (repr_intro _ _ [] 0); done.
    + rewrite !(lookup_insert_ne _ b this) by done. rewrite !lookup_insert_eq.
      specialize (HM b). by rewrite Eo, EM in HM.
    + rewrite !(lookup_insert_ne _ b a) by done. rewrite !(lookup_insert_ne _ this a) by done. apply HM.
Qed.

Lemma to_list_ok (l : List T) xs : repr l xs -> to_list l = Ok xs.
Proof using.
  intros [En [rest Ec] _]. unfold to_list. rewrite En, Nat2Z.id. by apply (iterate_ok xs l [] rest 0).
Qed.

Lemma sort_ok qsort (l : List T) xs :
  repr l xs -> (forall ys, qsort ys ≡ₚ ys) -> exists l', sort qsort l = Ok l' /\ repr l' (qsort xs).
Proof using.
  intros Hr Hq. unfold sort. step_ok (to_list_ok l xs Hr). eexists. split; [done|].
  destruct Hr as [En [rest Ec] Em]. assert (length (qsort xs) = length xs) as El by by rewrite (Hq xs).
  unfold cells in *. destruct (entries l) as [c|] eqn:Ee; cbn in *.
  - apply (repr_intro _ _ rest (max_entries l)); cbn.
    + by rewrite Ec, En, Nat2Z.id, drop_app_length'; rewrite ?length_fmap.
    + by rewrite El.
    + done.
    + rewrite Ec, En, Nat2Z.id, drop_app_length' by by rewrite length_fmap.
      rewrite length_app, length_fmap, El, <- Em, Ec, length_app, length_fmap. lia.
  - symmetry in Ec. apply app_nil in Ec as [Ex ->]. apply fmap_nil_inv in Ex as ->.
    assert (qsort [] = []) as -> by by apply Permutation_nil_r.
    apply (repr_intro _ _ [] (max_entries l)); done.
Qed.

Lemma reverse_list_ok (l : List T) xs : repr l xs -> reverse_list l = Ok (reverse xs).
Proof using.
  intros [En [rest Ec] _]. unfold reverse_list. rewrite En, Nat2Z.id. clear En. revert rest Ec.
  induction xs as [|x xs IH] using rev_ind; intros rest Ec; [done|].
  rewrite length_app, Nat.add_comm. cbn [length Nat.add iterate_down].
  rewrite fmap_app, <- app_assoc in Ec.
  rewrite (cell_at l (Some <$> xs) x rest) by (done || by rewrite length_fmap). cbn [res_bind].
  rewrite (IH _ Ec). cbn [res_bind]. by rewrite reverse_app.
Qed.

(** Without lists there are no arrays: nothing leaks. *)
Lemma nothing_left s : good s ∅ -> heap s = ∅.
Proof using.
  intros [[_ _ Hall] HM]. apply map_empty. intros p. destruct (heap s !! p) as [c|] eqn:E; [|done].
  destruct (Hall p) as (a & o & Eo & _); [by eexists|]. specialize (HM a). by rewrite Eo, lookup_empty in HM.
Qed.

Lemma load_this s M a xs :
  good s M -> M !! a = Some xs ->
  exists o l, objects s !! a = Some o /\ object s a = Ok o /\ load (heap s) o = Ok l /\ repr l xs.
Proof using.
  intros [_ HM] E. destruct (models_object _ _ _ _ _ HM E) as (o & l & Eo & El & Hr).
  exists o, l. unfold object. by rewrite Eo.
Qed.

Lemma copy_assign_ok s M this b xs ys :
  good s M -> M !! this = Some xs -> M !! b = Some ys ->
  exists s', copy_assign s this b = Ok s' /\ good s' (<[this := ys]> M).
Proof using.
  intros G E Eb. unfold copy_assign. destruct (Nat.eqb_spec this b) as [<-|Hne].
  { exists s. split; [done|]. rewrite insert_id; done. }
  destruct (load_this s M this xs G E) as (o & _ & Eo & Ho & _ & _). step_ok Ho.
  destruct G as [HO HM]. destruct (free_owned _ _ _ this o HO HM Eo) as (A & Ef & HO' & HM'). step_ok Ef.
  destruct (models_object _ _ _ b ys HM') as (ob & l & Eob & El & Hr); [by rewrite lookup_delete_ne|].
  rewrite lookup_delete_ne in Eob by done. unfold object. cbn [objects heap]. rewrite Eob. cbn [res_bind].
  step_ok El. destruct (copy_ok l ys Hr) as (l' & Ec & Hr'). step_ok Ec. eexists. split; [done|].
  by apply (place_owned _ _ _ _ _ _ _ _ eq_refl eq_refl HO' HM').
Qed.

Lemma move_assign_ok s M this b xs ys :
  good s M -> M !! this = Some xs -> M !! b = Some ys ->
  exists s', move_assign s this b = Ok s' /\
    good s' (if decide (this = b) then M else <[b := []]> (<[this := ys]> M)).
Proof using.
  intros G E Eb. unfold move_assign. destruct (Nat.eqb_spec this b) as [<-|Hne].
  { exists s. by rewrite decide_True. }
  rewrite decide_False by done.
  destruct (load_this s M this xs G E) as (o & _ & Eo & Ho & _ & _). step_ok Ho.
  destruct G as [HO HM]. destruct (free_owned _ _ _ this o HO HM Eo) as (A & Ef & HO' & HM'). step_ok Ef.
  destruct (models_object _ _ _ b ys HM) as (ob & _ & Eob & _); [done|].
  unfold object. cbn [objects heap]. rewrite Eob. cbn [res_bind]. eexists. split; [done|].
  rewrite <- (insert_delete_eq (objects s)), <- (insert_delete_eq M).
  apply hand_over; try done; try apply lookup_delete_eq; by rewrite lookup_delete_ne.
Qed.

Lemma construct_from_ok s M new b ys :
  good s M -> M !! new = None -> M !! b = Some ys ->
  (exists s', copy_construct s new b = Ok s' /\ good s' (<[new := ys]> M)) /\
  (exists s', move_construct s new b = Ok s' /\ good s' (<[b := []]> (<[new := ys]> M))).
Proof using.
  intros G En Eb. assert (objects s !! new = None) as Eo.
  { destruct G as [_ HM]. specialize (HM new). rewrite En in HM. by destruct (objects s !! new). }
  destruct (load_this s M b ys G Eb) as (o & l & Eob & Ho & El & Hr). destruct G as [HO HM].
  unfold copy_construct, move_construct. rewrite Ho. cbn [res_bind]. rewrite El. cbn [res_bind]. split.
  - destruct (copy_ok l ys Hr) as (l' & Ec & Hr'). step_ok Ec. eexists. split; [done|].
    destruct s as [A O]. by apply (place_owned A O M O M); [apply delete_id|apply delete_id|..].
  - eexists. split; [done|]. apply hand_over; [done..|congruence|done|done|done|done].
Qed.

Lemma clear_destroy_ok s M this xs :
  good s M -> M !! this = Some xs ->
  (exists s', clear_at s this = Ok s' /\ good s' (<[this := []]> M)) /\
  (exists s', destroy s this = Ok s' /\ good s' (delete this M)).
Proof using.
  intros G E. destruct (load_this s M this xs G E) as (o & _ & Eo & Ho & _ & _). destruct G as [HO HM].
  destruct (free_owned _ _ _ this o HO HM Eo) as (A & Ef & HO' & HM').
  unfold clear_at, destroy. rewrite Ho. cbn [res_bind]. rewrite Ef. cbn [res_bind]. split; eexists; (split; [done|]).
  - apply (place_owned A (objects s) M _ _ this (mkList None 0 0) [] eq_refl eq_refl HO' HM').
    by apply (repr_intro _ _ [] 0).
  - done.
Qed.

Lemma on_list_ok s M this xs o r ys :
  good s M -> M !! this = Some xs -> small xs -> op_fits o -> spec null_val xs o = Ok (r, ys) ->
  exists s', on_list s this (fun l => exec null_val l o) = Ok (r, s') /\ good s' (<[this := ys]> M).
Proof using.
  intros G E Hs Hf Espec. destruct (load_this s M this xs G E) as (ob & l & Eo & Ho & El & Hr).
  unfold on_list. rewrite Ho. cbn [res_bind]. step_ok El.
  pose proof (exec_refines null_val l xs o Hr Hs Hf) as H. rewrite Espec in H.
  destruct H as (l' & Ex & Hr'). step_ok Ex.
  destruct G as [HO HM]. destruct (free_owned _ _ _ this ob HO HM Eo) as (A & Ef & HO' & HM'). step_ok Ef.
  eexists. split; [done|]. by apply (place_owned _ _ _ _ _ _ _ _ eq_refl eq_refl HO' HM').
Qed.
End Memory.
Arguments lists T : clear implicits.

(** [pop_front()] of a list of pointers, which deletes what the first one points to:
    [pointees] are the live objects. *)
Definition pop_front_delete (pointees : gmap nat unit) (l : List nat) : res (gmap nat unit * List nat) :=
  let! (val, l) := remove_nth l 0 in
  match pointees !! val with
  | Some _ => Ok (delete val pointees, l)
  | None => if (val =? 0)%nat then Ok (pointees, l) else UB
  end.

(** The first element leaves the list and what it points to is deleted. *)
Lemma pop_front_delete_ok pointees (l : List nat) x xs :
  repr l (x :: xs) -> pointees !! x = Some tt ->
  exists l', pop_front_delete pointees l = Ok (delete x pointees, l') /\ repr l' xs.
Proof.
  intros Hr Hx. unfold pop_front_delete. destruct (remove_nth_ok l (x :: xs) 0 x Hr eq_refl) as (l' & E & Hr').
  change (Z.of_nat 0) with 0 in E. step_ok E. rewrite Hx. by exists l'.
Qed.

(** C19: Lists own their arrays.  Whatever is called on one list (an operation of the class,
    copy or move assignment, also to itself, [clear], the destructor) and however one list
    is constructed from another, the other lists keep their entries, no array is freed
    twice or shared, and none is left without a list. *)
Theorem lists_own_their_arrays {T : Type} `{!EqDecision T} (null_val : T) s (M : gmap nat (list T)) this b xs ys :
  good s M -> M !! this = Some xs -> M !! b = Some ys ->
  (exists s', copy_assign s this b = Ok s' /\ good s' (<[this := ys]> M)) /\
  (exists s', move_assign s this b = Ok s' /\
     good s' (if decide (this = b) then M else <[b := []]> (<[this := ys]> M))) /\
  (exists s', clear_at s this = Ok s' /\ good s' (<[this := []]> M)) /\
  (exists s', destroy s this = Ok s' /\ good s' (delete this M) /\ (delete this M = ∅ -> heap s' = ∅)) /\
  (forall o r zs, small xs -> op_fits o -> spec null_val xs o = Ok (r, zs) ->
     exists s', on_list s this (fun l => exec null_val l o) = Ok (r, s') /\ good s' (<[this := zs]> M)) /\
  (forall new, M !! new = None ->
     (exists s', copy_construct s new b = Ok s' /\ good s' (<[new := ys]> M)) /\
     (exists s', move_construct s new b = Ok s' /\ good s' (<[b := []]> (<[new := ys]> M)))).
Proof.
  intros G E Eb. destruct (clear_destroy_ok s M this xs G E) as [Hc (s' & Ed & Gd)].
  split; [by apply (copy_assign_ok s M this b xs ys)|]. split; [by apply (move_assign_ok s M this b xs ys)|].
  split; [done|]. split.
  { exists s'. split; [done|]. split; [done|]. intros Em. apply nothing_left. by rewrite <- Em. }
  split; [intros; by apply (on_list_ok null_val s M this xs)|].
  intros new En. by apply (construct_from_ok s M new b ys).
Qed.

(** Two lists in memory. *)
Definition two_lists : lists Z :=
  construct_array (construct_array (mkLists ∅ ∅) 1 [5; 7]) 2 [9].

Lemma no_lists_good {T : Type} : good (mkLists ∅ ∅) (∅ : gmap nat (list T)).
Proof.
  split; [split|]; cbn [heap objects].
  - intros a o p Eo. by rewrite lookup_empty in Eo.
  - intros a a' o o' p Eo. by rewrite lookup_empty in Eo.
  - intros p [c Ec]. by rewrite lookup_empty in Ec.
  - intros a. by rewrite !lookup_empty.
Qed.

(** A new list beside the others. *)
Lemma construct_good {T : Type} s (M : gmap nat (list T)) new l xs :
  good s M -> M !! new = None -> repr l xs -> good (place s new l) (<[new := xs]> M).
Proof.
  intros [HO HM] En Hr. assert (objects s !! new = None) as Eo.
  { specialize (HM new). rewrite En in HM. by destruct (objects s !! new). }
  destruct s as [A O]. by apply (place_owned A O M O M); [apply delete_id|apply delete_id|..].
Qed.

Lemma two_lists_good : good two_lists (<[2%nat := [9]]> (<[1%nat := [5; 7]]> ∅)).
Proof. apply construct_good; [apply construct_good; [apply no_lists_good|..]|..]; (done || apply array_ok). Qed.

Lemma lists_own_their_arrays_witness :
  exists s', move_assign two_lists 1 2 = Ok s' /\
    good s' (<[2%nat := []]> (<[1%nat := [9]]> (<[2%nat := [9]]> (<[1%nat := [5; 7]]> ∅)))).
Proof.
  destruct (lists_own_their_arrays 0 two_lists _ 1 2 [5; 7] [9] two_lists_good) as (_ & H & _);
    [reflexivity|reflexivity|]. exact H.
Defined.
