(* ===== verification/DictKeys.v ===== *)
(** * The memory of the dictionary's keys

    An entry owns its key: up to 8 bytes are in the entry, a longer key is a block that
    the entry points to.  [DictEntry] of [DictTable] holds the bytes; here the dictionary
    comes with [key_block], the pointer in the entry of each long key, and the operations
    of [OpenDict.h] and [OpenDict.cc] that take, copy and free key memory do so on the
    store of blocks of [HashKey]. *)

From S2P Require Import Prelude SipHash HashKey DictTable Dictionary DictInv DictReloc DictWf DictOps DictCheck DictSpec DictProps.

Record keyed := mkKeyed { dict : Dictionary; key_block : gmap (list Z * Z) nat }.

Definition new_keyed (ordering : dict_order) (initial_size : Z) : res keyed :=
  let! d := new_Dictionary ordering initial_size in Ok (mkKeyed d ∅).

Section Keyed.
Context {Impl : Implementation}.

(** The union of a new [DictEntry]: where the key is if it is long.  A short key that
    is not copied goes with a [delete] of [arg_key]. *)
Definition own_key (m : memory) (arg_key : nat) (bytes : list Z) (key_size : Z) (copy_key : bool)
    : res (option nat * memory) :=
  if key_size <=? 8 then
    if copy_key then Ok (None, m) else let! m := delete_scalar m arg_key in Ok (None, m)
  else if copy_key then let '(k, m) := alloc m bytes in Ok (Some k, m)
  else Ok (Some arg_key, m).

(** Whether the search of [Insert] or [Remove] finds the key. *)
Definition found (d : Dictionary) (bytes : list Z) (key_size h : Z) : res bool :=
  let! (position, _, _) := LookupIndex LOOKUP_FUEL d bytes key_size h in Ok (0 <=? position).

(** [Insert(key, key_size, hash, val, copy_key)]. *)
Definition Insert_keyed (m : memory) (o : keyed) (arg_key : nat) (key_size h val : Z) (copy_key : bool)
    : res (Z * keyed * memory) :=
  let! bytes := read m [] (Ptr arg_key) key_size in
  let! there := found (dict o) bytes key_size h in
  let! (v, d) := Insert (dict o) bytes key_size h val in
  if there then
    let! m := (if copy_key then Ok m else delete_scalar m arg_key) in Ok (v, mkKeyed d (key_block o), m)
  else
    let! (block, m) := own_key m arg_key bytes key_size copy_key in
    Ok (v, mkKeyed d (match block with
                      | Some b => <[(bytes, u32 h) := b]> (key_block o)
                      | None => key_block o
                      end), m).

(** [DictEntry::Clear()] frees the key of an entry that is longer than 8 bytes, with
    [delete key]. *)
Definition free_key (m : memory) (blocks : gmap (list Z * Z) nat) (k : list Z * Z) (key_size : Z)
    : res memory :=
  if 8 <? key_size then match blocks !! k with Some b => delete_scalar m b | None => UB end else Ok m.

(** [Remove(key, key_size, hash)]: [bytes] are those at [key], which stay the caller's. *)
Definition Remove_keyed (m : memory) (o : keyed) (bytes : list Z) (key_size h : Z)
    : res (Z * keyed * memory) :=
  let! there := found (dict o) bytes key_size h in
  let! (v, d) := Remove (dict o) bytes key_size h false in
  if there then
    let! m := free_key m (key_block o) (bytes, u32 h) key_size in
    Ok (v, mkKeyed d (delete (bytes, u32 h) (key_block o)), m)
  else Ok (v, mkKeyed d (key_block o), m).

(** The loop of [Clear()]: the keys of the entries, from the last slot to the first. *)
Fixpoint free_keys (m : memory) (blocks : gmap (list Z * Z) nat) (es : list DictEntry) : res memory :=
  match es with
  | [] => Ok m
  | e :: es => let! m := free_key m blocks (ekey e) (key_size e) in free_keys m blocks es
  end.
Definition Clear_keyed (m : memory) (o : keyed) : res (list Z * keyed * memory) :=
  let '(deleted, d) := Clear (dict o) in
  let! m := free_keys m (key_block o) (reverse (filter (fun e => Empty e = false) (entries (dict o)))) in
  Ok (deleted, mkKeyed d ∅, m).

(** [~Dictionary()]. *)
Definition delete_Dictionary (m : memory) (o : keyed) : res (list Z * memory) :=
  let! (deleted, _, m) := Clear_keyed m o in Ok (deleted, m).

End Keyed.

(** ** Who owns which block *)

(** Every long key of the map has a block of its own with its bytes, and [key_block] has
    no others. *)
Record owns (m : memory) (o : keyed) : Prop := mkOwns {
  own_dom : forall k, is_Some (key_block o !! k) <-> is_Some (abs (dict o) !! k) /\ (8 < length k.1)%nat;
  own_bytes : forall k b, key_block o !! k = Some b -> m !! b = Some k.1;
  own_alone : forall k k' b, key_block o !! k = Some b -> key_block o !! k' = Some b -> k = k'
}.

(** The blocks of the dictionary. *)
Definition blocks (o : keyed) : gset nat := map_img (key_block o).

Lemma elem_of_blocks o b : b ∈ blocks o <-> exists k, key_block o !! k = Some b.
Proof. apply elem_of_map_img. Qed.

Lemma found_map d key h :
  wf d -> num_entries d <= MAX_ENTRIES -> log2_buckets d < MAX_LOG2 -> lookup_safe d (entries d) ->
  found d key (Z.of_nat (length key)) h = Ok (bool_decide (is_Some (abs d !! (key, u32 h)))).
Proof.
  intros Hwf Hmax Hlog Hsafe. unfold found. destruct (table d) as [t|] eqn:Et.
  - destruct (wf_table d t Hwf Et) as (C & Hn & Ha & Een). rewrite Een in Hsafe.
    destruct (LookupIndex_spec d t key h C Hlog ltac:(lia) Hsafe)
      as (pos & out & d' & t' & E & C' & _ & _ & P & H). step_ok E. rewrite Ha.
    destruct H as [(Hp & Hh)|(-> & -> & -> & Hk & _)].
    + assert (tmap t' = tmap t) as Em by (apply tmap_perm; [apply C|done]).
      rewrite <- Em, (tmap_holds t' _ pos) by (done || apply C').
      rewrite bool_decide_eq_true_2 by done. by destruct (Z.leb_spec 0 pos); [|lia].
    + rewrite tmap_fresh by done. by rewrite bool_decide_eq_false_2 by (by intros []).
  - unfold LOOKUP_FUEL. cbn [LookupIndex]. unfold has_table. rewrite Et. cbn.
    rewrite abs_no_table by done. by rewrite bool_decide_eq_false_2 by (by intros []).
Qed.

Lemma ready_found d key h :
  ready d -> found d key (Z.of_nat (length key)) h = Ok (bool_decide (is_Some (abs d !! (key, u32 h)))).
Proof. intros [Hwf Hmax Hlog Hsafe]. apply found_map; [done|lia|lia|done]. Qed.

(** The memory that is not the dictionary's. *)
Definition foreign (m : memory) (o : keyed) : memory := filter (fun kv => kv.1 ∉ blocks o) m.

Lemma foreign_lookup m o b : foreign m o !! b = if decide (b ∈ blocks o) then None else m !! b.
Proof.
  unfold foreign. rewrite map_lookup_filter. destruct (m !! b); cbn; [|by case_decide].
  destruct (decide (b ∈ blocks o)); [by rewrite option_guard_False by tauto|by rewrite option_guard_True].
Qed.

Lemma owned_alive m o b : owns m o -> b ∈ blocks o -> is_Some (m !! b).
Proof. intros O (k & Hk)%elem_of_blocks. rewrite (own_bytes _ _ O _ _ Hk). by eexists. Qed.

(** The map changed, the blocks did not, nor did what is in them. *)
Lemma owns_same m m' o d' :
  owns m o -> (forall k, is_Some (abs d' !! k) /\ (8 < length k.1)%nat <-> is_Some (abs (dict o) !! k) /\ (8 < length k.1)%nat) ->
  (forall b, b ∈ blocks o -> m' !! b = m !! b) -> owns m' (mkKeyed d' (key_block o)).
Proof.
  intros [O1 O2 O3] Hd Hm. split; cbn [key_block dict].
  - intros k. by rewrite Hd, O1.
  - intros k b Hk. rewrite Hm; [by apply O2|]. apply elem_of_blocks. by exists k.
  - exact O3.
Qed.

(** A long key is added with the block [b]. *)
Lemma owns_add m m' o d' k b :
  owns m o -> (8 < length k.1)%nat -> abs (dict o) !! k = None ->
  (forall k', is_Some (abs d' !! k') <-> k' = k \/ is_Some (abs (dict o) !! k')) ->
  b ∉ blocks o -> m' !! b = Some k.1 -> (forall c, c ∈ blocks o -> m' !! c = m !! c) ->
  let o' := mkKeyed d' (<[k := b]> (key_block o)) in
  owns m' o' /\ forall c, c ∈ blocks o' <-> c = b \/ c ∈ blocks o.
Proof.
  intros [O1 O2 O3] Hl Hk Hd Hb Hmb Hm o'.
  assert (key_block o !! k = None) as Hno.
  { apply eq_None_not_Some. rewrite O1, Hk. intros [[] _]. done. }
  assert (forall k' c, key_block o !! k' = Some c -> c ∈ blocks o) as Hin by (intros k' c Hc; apply elem_of_blocks; by exists k').
  split; [split; subst o'; cbn [key_block dict]|].
  - intros k'. rewrite lookup_insert_is_Some, Hd, O1. destruct (decide (k = k')) as [<-|]; naive_solver.
  - intros k' c. rewrite lookup_insert_Some. intros [[<- <-]|[_ Hc]]; [done|]. rewrite Hm by eauto. by apply O2.
  - intros k1 k2 c. rewrite !lookup_insert_Some. intros [[<- <-]|[H1 Hc1]] [[<- Hc2]|[H2 Hc2]]; try done.
    + by apply Hin in Hc2.
    + subst. by apply Hin in Hc1.
    + by apply (O3 _ _ c).
  - intros c. rewrite !elem_of_blocks. subst o'. cbn [key_block]. setoid_rewrite lookup_insert_Some.
    split; [naive_solver|]. intros [->|(k' & Hc)]; [by exists k; left|].
    exists k'. right. split; [|done]. by intros <-; rewrite Hno in Hc.
Qed.

(** A long key is dropped with its block. *)
Lemma owns_drop m m' o d' k b :
  owns m o -> key_block o !! k = Some b ->
  (forall k', is_Some (abs d' !! k') <-> k' <> k /\ is_Some (abs (dict o) !! k')) ->
  (forall c, c ∈ blocks o -> c <> b -> m' !! c = m !! c) ->
  let o' := mkKeyed d' (delete k (key_block o)) in
  owns m' o' /\ forall c, c ∈ blocks o' <-> c <> b /\ c ∈ blocks o.
Proof.
  intros [O1 O2 O3] Hk Hd Hm o'. split; [split; subst o'; cbn [key_block dict]|].
  - intros k'. rewrite lookup_delete_is_Some, Hd, O1. naive_solver.
  - intros k' c (Hne & Hc)%lookup_delete_Some. rewrite Hm; [by apply O2| |].
    + apply elem_of_blocks. by exists k'.
    + intros ->. by apply Hne, (O3 _ _ b).
  - intros k1 k2 c (_ & H1)%lookup_delete_Some (_ & H2)%lookup_delete_Some. by apply (O3 _ _ c).
  - intros c. rewrite !elem_of_blocks. subst o'. cbn [key_block]. setoid_rewrite lookup_delete_Some. split.
    + intros (k' & Hne & Hc). split; [|by exists k']. intros ->. by apply Hne, (O3 _ _ b).
    + intros (Hne & k' & Hc). exists k'. split; [|done]. intros <-. by rewrite Hk in Hc; injection Hc as ->.
Qed.

(** ** The operations *)

(** [o'] and [m'] are what an operation leaves of [o]: the blocks are right and the
    memory of others is [f]. *)
Definition keeps (m' : memory) (o' : keyed) (f : memory) : Prop :=
  wf (dict o') /\ quiet (dict o') /\ owns m' o' /\ foreign m' o' = f.

(** A block that is not the dictionary's is freed, or nothing is. *)
Lemma owns_free m o d' a :
  owns m o -> a ∉ blocks o ->
  (forall k, is_Some (abs d' !! k) /\ (8 < length k.1)%nat <-> is_Some (abs (dict o) !! k) /\ (8 < length k.1)%nat) ->
  owns (delete a m) (mkKeyed d' (key_block o)) /\
  foreign (delete a m) (mkKeyed d' (key_block o)) = delete a (foreign m o).
Proof.
  intros O Ha Hd. split.
  - apply (owns_same m); [done|done|]. intros b Hb. rewrite lookup_delete_ne; [done|]. by intros ->.
  - apply map_eq. intros b. rewrite foreign_lookup. unfold blocks. cbn [key_block].
    destruct (decide (b = a)) as [->|Hne].
    + rewrite !lookup_delete_eq. by case_decide.
    + by rewrite !lookup_delete_ne, foreign_lookup by done.
Qed.

(** A block that is new to the store is not the dictionary's. *)
Lemma alloc_foreign m o bytes a m' :
  alloc m bytes = (a, m') -> owns m o ->
  a ∉ blocks o /\ owns m' o /\ foreign m' o = <[a := bytes]> (foreign m o) /\
  m' !! a = Some bytes /\ foreign m o !! a = None.
Proof.
  intros [Hf ->]%alloc_fresh O.
  assert (a ∉ blocks o) as Ha by (intros Ha; destruct (owned_alive _ _ _ O Ha) as [x Hx]; by rewrite Hf in Hx).
  split; [done|]. split; [|split; [|split]].
  - destruct o as [d bl]. apply (owns_same m _ (mkKeyed d bl) d); [done|done|].
    intros c Hc. rewrite lookup_insert_ne; [done|]. by intros ->.
  - apply map_eq. intros c. rewrite foreign_lookup. destruct (decide (c = a)) as [->|Hne].
    + by rewrite !lookup_insert_eq, decide_False.
    + by rewrite !lookup_insert_ne, foreign_lookup by done.
  - apply lookup_insert_eq.
  - rewrite foreign_lookup. by rewrite decide_False.
Qed.

Section Releasing.
Context {Impl : Implementation} (Himpl : delete_takes_arrays = true).

Lemma delete_scalar_free m a : delete_scalar m a = free m a.
Proof using Himpl. unfold delete_scalar. by rewrite Himpl. Qed.

(** The insertion of a key that is not there, in the block [own_key] leaves. *)
Lemma own_key_ok m o d' a bytes h copy block m' :
  owns m o -> m !! a = Some bytes -> abs (dict o) !! (bytes, h) = None ->
  (copy = false -> a ∉ blocks o) ->
  (forall k', is_Some (abs d' !! k') <-> k' = (bytes, h) \/ is_Some (abs (dict o) !! k')) ->
  own_key m a bytes (Z.of_nat (length bytes)) copy = Ok (block, m') ->
  let o' := mkKeyed d' (match block with Some b => <[(bytes, h) := b]> (key_block o) | None => key_block o end) in
  owns m' o' /\ foreign m' o' = if copy then foreign m o else delete a (foreign m o).
Proof using Himpl.
  intros O Ha Hno Hcopy Hd. unfold own_key. destruct (Z.leb_spec (Z.of_nat (length bytes)) 8) as [Hs|Hl].
  - assert (forall k, is_Some (abs d' !! k) /\ (8 < length k.1)%nat <-> is_Some (abs (dict o) !! k) /\ (8 < length k.1)%nat) as Hd'.
    { intros k. rewrite Hd. split; [|tauto]. intros [[->|?] ?]; [|done]. cbn in *. lia. }
    destruct copy.
    + intros [= <- <-]. split; [by apply (owns_same m)|done].
    + rewrite delete_scalar_free. unfold free. rewrite Ha. intros [= <- <-]. by apply (owns_free m o); [done|apply Hcopy|].
  - assert (8 < length (bytes, h).1)%nat as Hl' by (cbn; lia). destruct copy.
    + destruct (alloc m bytes) as [b m1] eqn:Ea. intros [= <- <-]. apply alloc_fresh in Ea as [Hf ->].
      assert (b ∉ blocks o) as Hb.
      { intros Hb. destruct (owned_alive _ _ _ O Hb) as [x Hx]. by rewrite Hf in Hx. }
      destruct (owns_add m (<[b := bytes]> m) o d' (bytes, h) b O Hl' Hno Hd Hb) as [O' Hin].
      { by rewrite lookup_insert_eq. }
      { intros c Hc. rewrite lookup_insert_ne; [done|]. by intros ->. }
      split; [done|]. apply map_eq. intros c. rewrite !foreign_lookup.
      destruct (decide (c = b)) as [->|Hne].
      * rewrite decide_True by (apply Hin; by left). by rewrite decide_False.
      * rewrite lookup_insert_ne by done. apply decide_ext. rewrite Hin. naive_solver.
    + intros [= <- <-]. specialize (Hcopy eq_refl).
      destruct (owns_add m m o d' (bytes, h) a O Hl' Hno Hd Hcopy) as [O' Hin]; [done|done|].
      split; [done|]. apply map_eq. intros c. rewrite foreign_lookup. destruct (decide (c = a)) as [->|Hne].
      * rewrite lookup_delete_eq. by rewrite decide_True by (apply Hin; by left).
      * rewrite lookup_delete_ne, foreign_lookup by done. apply decide_ext. rewrite Hin. naive_solver.
Qed.

Lemma Insert_keyed_ok m o a bytes h v copy :
  ready (dict o) -> quiet (dict o) -> owns m o -> m !! a = Some bytes ->
  Z.of_nat (length bytes) < 2 ^ 16 -> (copy = false -> a ∉ blocks o) ->
  exists o' m', Insert_keyed m o a (Z.of_nat (length bytes)) h v copy =
      Ok (default 0 (abs (dict o) !! (bytes, u32 h)), o', m') /\
    abs (dict o') = <[(bytes, u32 h) := v]> (abs (dict o)) /\
    keeps m' o' (if copy then foreign m o else delete a (foreign m o)).
Proof using Himpl.
  intros Hready Hq O Ha Hlen Hcopy. unfold Insert_keyed. rewrite (read_all _ [] _ _ Ha). cbn [res_bind].
  rewrite (ready_found _ _ _ Hready). cbn [res_bind].
  destruct (insert_map (dict o) bytes h v Hready Hq Hlen) as (d' & E & Hwf & Hq' & Hm & _). step_ok E.
  assert (forall k, is_Some (abs d' !! k) <-> k = (bytes, u32 h) \/ is_Some (abs (dict o) !! k)) as Hd.
  { intros k. rewrite Hm, lookup_insert_is_Some. destruct (decide ((bytes, u32 h) = k)); naive_solver. }
  case_bool_decide as Hthere.
  - assert (forall k, is_Some (abs d' !! k) /\ (8 < length k.1)%nat <-> is_Some (abs (dict o) !! k) /\ (8 < length k.1)%nat) as Hd'.
    { intros k. rewrite Hd. naive_solver. }
    destruct copy.
    + exists (mkKeyed d' (key_block o)), m. split; [done|]. split; [done|].
      split_and!; try done. by apply (owns_same m).
    + rewrite delete_scalar_free. unfold free. rewrite Ha. cbn [res_bind].
      destruct (owns_free m o d' a O (Hcopy eq_refl) Hd') as [O' F].
      exists (mkKeyed d' (key_block o)), (delete a m). split; [done|]. split; [done|]. by split_and!.
  - apply eq_None_not_Some in Hthere.
    destruct (own_key m a bytes (Z.of_nat (length bytes)) copy) as [[block m']| | |] eqn:Eo.
    2,3,4: unfold own_key in Eo; revert Eo; destruct (_ <=? 8), copy; cbn; rewrite ?delete_scalar_free; unfold free; rewrite ?Ha; done.
    destruct (own_key_ok m o d' a bytes (u32 h) copy block m' O Ha Hthere Hcopy Hd Eo) as [O' F].
    eexists _, m'. split; [done|]. split; [done|]. by split_and!.
Qed.

Lemma Remove_keyed_ok m o bytes h :
  ready (dict o) -> quiet (dict o) -> owns m o ->
  exists o' m', Remove_keyed m o bytes (Z.of_nat (length bytes)) h =
      Ok (default 0 (abs (dict o) !! (bytes, u32 h)), o', m') /\
    abs (dict o') = delete (bytes, u32 h) (abs (dict o)) /\ keeps m' o' (foreign m o).
Proof using Himpl.
  intros Hready Hq O. unfold Remove_keyed.
  rewrite (ready_found _ _ _ Hready). cbn [res_bind].
  destruct (remove_map (dict o) bytes h Hready Hq) as (d' & E & Hwf & Hq' & Hm & _). step_ok E.
  set (k := (bytes, u32 h)) in *.
  assert (forall k', is_Some (abs d' !! k') <-> k' <> k /\ is_Some (abs (dict o) !! k')) as Hd.
  { intros k'. rewrite Hm, lookup_delete_is_Some. naive_solver. }
  assert (forall k', ~ (is_Some (abs (dict o) !! k) /\ (8 < length k.1)%nat) ->
    is_Some (abs d' !! k') /\ (8 < length k'.1)%nat <-> is_Some (abs (dict o) !! k') /\ (8 < length k'.1)%nat) as Hd'.
  { intros k' Hk. rewrite Hd. split; [tauto|]. intros [H1 H2]. split; [|done]. split; [|done]. intros ->. by apply Hk. }
  case_bool_decide as Hthere.
  - unfold free_key. destruct (Z.ltb_spec 8 (Z.of_nat (length bytes))) as [Hl|Hs].
    + destruct (proj2 (own_dom _ _ O k)) as [b Hb]; [split; [done|cbn; lia]|].
      rewrite Hb, delete_scalar_free. unfold free. rewrite (own_bytes _ _ O _ _ Hb). cbn [res_bind].
      destruct (owns_drop m (delete b m) o d' k b O Hb Hd) as [O' Hin].
      { intros c _ Hne. by rewrite lookup_delete_ne. }
      eexists _, (delete b m). split; [done|]. split; [done|]. split_and!; try done.
      apply map_eq. intros c. rewrite !foreign_lookup. destruct (decide (c = b)) as [->|Hne].
      * rewrite lookup_delete_eq. rewrite (decide_True (P := b ∈ blocks o)); [by case_decide|].
        apply elem_of_blocks. by exists k.
      * rewrite lookup_delete_ne by done. apply decide_ext. rewrite Hin. tauto.
    + cbn [res_bind]. assert (key_block o !! k = None) as Hno.
      { apply eq_None_not_Some. rewrite (own_dom _ _ O). intros [_ H]. cbn in H. lia. }
      rewrite delete_id by done. eexists _, m. split; [done|]. split; [done|]. split_and!; try done.
      apply (owns_same m); [done| |done]. intros k'. apply Hd'. cbn. lia.
  - eexists _, m. split; [done|]. split; [done|]. split_and!; try done.
    apply (owns_same m); [done| |done]. intros k'. apply Hd'. tauto.
Qed.

(** ** [Clear] and the destructor *)

(** The blocks that the entries [es] point to. *)
Definition blocks_of (bl : gmap (list Z * Z) nat) (es : list DictEntry) : list nat :=
  omap (fun e => if 8 <? key_size e then bl !! ekey e else None) es.

Lemma free_keys_ok m bl es :
  NoDup (blocks_of bl es) -> (forall b, b ∈ blocks_of bl es -> is_Some (m !! b)) ->
  Forall (fun e => 8 < key_size e -> is_Some (bl !! ekey e)) es ->
  free_keys m bl es = Ok (filter (fun kv => kv.1 ∉ blocks_of bl es) m).
Proof using Himpl.
  revert m. induction es as [|e es IH]; intros m Hnd Hin Hall; cbn [free_keys].
  - f_equal. symmetry. apply map_filter_id. intros b x _ H. by apply elem_of_nil in H.
  - apply Forall_cons in Hall as [He Hall]. unfold blocks_of in *. cbn [omap list_omap] in *.
    unfold free_key. destruct (Z.ltb_spec 8 (key_size e)) as [Hl|_]; [|by apply IH].
    destruct (He Hl) as [b Hb]. rewrite Hb in *. apply NoDup_cons in Hnd as [Hnin Hnd].
    rewrite delete_scalar_free. unfold free. destruct (Hin b) as [x Hx]; [left|]. rewrite Hx. cbn [res_bind]. rewrite IH; [|done| |done].
    + f_equal. apply map_eq. intros c. apply option_eq. intros y.
      rewrite !map_lookup_filter_Some, lookup_delete_Some. cbn [fst]. rewrite not_elem_of_cons. naive_solver.
    + intros c Hc. rewrite lookup_delete_ne; [apply Hin; by right|]. by intros ->.
Qed.

(** The entries in use, as [Clear] walks them. *)
Definition used_backwards (d : Dictionary) : list DictEntry :=
  reverse (filter (fun e => Empty e = false) (entries d)).

Lemma used_backwards_keys d : ekey <$> used_backwards d ≡ₚ keys (entries d).
Proof using.
  unfold used_backwards, keys, contents. rewrite reverse_Permutation, <- list_fmap_compose. by apply reflexive_eq.
Qed.

Lemma wf_keys d : wf d -> NoDup (keys (entries d)).
Proof using.
  intros Hwf. destruct (table d) as [t|] eqn:Et.
  - destruct (wf_table d t Hwf Et) as (C & _ & _ & ->). apply C.
  - unfold entries. rewrite Et. constructor.
Qed.

Lemma wf_used d e : wf d -> e ∈ used_backwards d -> key_size e = Z.of_nat (length (key_bytes e)) /\ is_Some (abs d !! ekey e).
Proof using.
  intros Hwf He.
  assert (ekey e ∈ keys (entries d)) as Hk by (rewrite <- used_backwards_keys; by apply list_elem_of_fmap_2).
  split.
  - destruct (table d) as [t|] eqn:Et; [|unfold used_backwards, entries in He; rewrite Et in He; cbn in He; by apply elem_of_nil in He].
    destruct (wf_table d t Hwf Et) as (C & _ & _ & Een).
    unfold used_backwards in He. rewrite elem_of_reverse, Een in He.
    enough (entry_ok (set_distance 0 e)) as [H _] by exact H.
    eapply Forall_forall; [apply C|]. unfold contents. by apply list_elem_of_fmap_2.
  - unfold abs. apply elem_of_keys in Hk as [i Hi]. rewrite (tmap_holds _ _ i) by (done || by apply wf_keys). by eexists.
Qed.

Lemma elem_of_used_blocks m o b :
  wf (dict o) -> owns m o -> b ∈ blocks_of (key_block o) (used_backwards (dict o)) <-> b ∈ blocks o.
Proof using.
  intros Hwf O. unfold blocks_of. rewrite list_elem_of_omap, elem_of_blocks. split.
  - intros (e & _ & He). destruct (8 <? key_size e); [|done]. by eexists.
  - intros (k & Hk). destruct (proj1 (own_dom _ _ O k)) as [Hd Hl]; [by eexists|].
    assert (k ∈ ekey <$> used_backwards (dict o)) as (e & -> & He)%list_elem_of_fmap.
    { rewrite used_backwards_keys. destruct (decide (k ∈ keys (entries (dict o)))) as [|Hno]; [done|].
      unfold abs in Hd. rewrite tmap_fresh in Hd by done. by destruct Hd. }
    exists e. split; [done|]. destruct (wf_used _ e Hwf He) as [Hs _]. cbn in Hl.
    destruct (Z.ltb_spec 8 (key_size e)); [done|lia].
Qed.

(** A key's block is met once. *)
Lemma blocks_of_NoDup bl es :
  NoDup (ekey <$> es) -> (forall k k' b, bl !! k = Some b -> bl !! k' = Some b -> k = k') ->
  NoDup (blocks_of bl es).
Proof using.
  intros Hnd Hinj. unfold blocks_of. induction es as [|e es IH]; [constructor|].
  cbn [omap list_omap]. cbn in Hnd. apply NoDup_cons in Hnd as [Hnin Hnd].
  destruct (8 <? key_size e); [|by apply IH]. destruct (bl !! ekey e) as [b|] eqn:Eb; [|by apply IH].
  apply NoDup_cons. split; [|by apply IH]. rewrite list_elem_of_omap. intros (e' & He' & E').
  destruct (8 <? key_size e'); [|done]. apply Hnin. rewrite (Hinj _ _ _ Eb E').
  by apply list_elem_of_fmap_2.
Qed.

(** The destructor frees the blocks of the dictionary, each one once, and nothing else. *)
Lemma delete_Dictionary_ok m o :
  wf (dict o) -> owns m o -> delete_Dictionary m o = Ok ((Clear (dict o)).1, foreign m o).
Proof using Himpl.
  intros Hwf O. unfold delete_Dictionary, Clear_keyed. destruct (Clear (dict o)) as [deleted d'].
  fold (used_backwards (dict o)). rewrite free_keys_ok.
  - cbn [res_bind fst]. f_equal. f_equal. unfold foreign. apply map_filter_ext. intros b x _. cbn [fst].
    by rewrite elem_of_used_blocks.
  - apply blocks_of_NoDup; [|apply (own_alone _ _ O)]. rewrite used_backwards_keys. by apply wf_keys.
  - intros b Hb. apply (owned_alive m o); [done|]. by apply (elem_of_used_blocks m).
  - apply Forall_forall. intros e He Hl. destruct (wf_used _ e Hwf He) as [Hs Hd]. rewrite (own_dom _ _ O).
    split; [done|]. cbn. lia.
Qed.

(** ** Clients *)

(** The runs of a client of one dictionary: [mine] are the blocks the client has, [m] is
    the store.  The client may use blocks of its own, hand some of them over with their
    keys, and look keys up, add and remove them while the dictionary is [ready]. *)
Inductive runs : memory -> memory -> keyed -> Prop :=
| run_new m initial_size o :
    0 <= initial_size < 2 ^ 27 -> new_keyed UNORDERED initial_size = Ok o -> runs m m o
| run_alloc mine m o bytes :
    runs mine m o -> runs (<[(alloc m bytes).1 := bytes]> mine) (alloc m bytes).2 o
| run_free mine m o a m' :
    runs mine m o -> is_Some (mine !! a) -> free m a = Ok m' -> runs (delete a mine) m' o
| run_lookup mine m o bytes h v d' :
    runs mine m o -> ready (dict o) -> Lookup (dict o) bytes (Z.of_nat (length bytes)) h = Ok (v, d') ->
    runs mine m (mkKeyed d' (key_block o))
| run_insert mine m o a bytes h v copy_key old o' m' :
    runs mine m o -> ready (dict o) -> mine !! a = Some bytes -> Z.of_nat (length bytes) < 2 ^ 16 ->
    Insert_keyed m o a (Z.of_nat (length bytes)) h v copy_key = Ok (old, o', m') ->
    runs (if copy_key then mine else delete a mine) m' o'
| run_remove mine m o bytes h old o' m' :
    runs mine m o -> ready (dict o) ->
    Remove_keyed m o bytes (Z.of_nat (length bytes)) h = Ok (old, o', m') -> runs mine m' o'.

Lemma foreign_some m o a bytes : foreign m o !! a = Some bytes -> m !! a = Some bytes /\ a ∉ blocks o.
Proof using. rewrite foreign_lookup. by case_decide. Qed.

Lemma new_keyed_ok m initial_size o :
  0 <= initial_size < 2 ^ 27 -> new_keyed UNORDERED initial_size = Ok o -> keeps m o m.
Proof using.
  intros Hs. unfold new_keyed. destruct (new_Dictionary_ready UNORDERED initial_size Hs) as (d & -> & (R & Ha & Hi & Hc) & Ho & _).
  intros [= <-].
  split; [apply R|]. split; [split_and!; [done|done|by apply Ho]|]. split; [split; cbn [key_block dict]|].
  - intros k. rewrite lookup_empty, Ha, lookup_empty. split; [by intros []|by intros [[] _]].
  - done.
  - done.
  - apply map_filter_id. intros b x _ Hb. cbn [fst] in *. by apply elem_of_blocks in Hb as (k & Hk).
Qed.

Lemma runs_keeps mine m o : runs mine m o -> keeps m o mine.
Proof using Himpl.
  induction 1 as [m s o Hs E|mine m o bytes _ IH|mine m o a m' _ IH Ha E|mine m o bytes h v d' _ IH R E
    |mine m o a bytes h v copy old o' m' _ IH R Ha Hl E|mine m o bytes h old o' m' _ IH R E].
  - by apply (new_keyed_ok m s).
  - destruct IH as (Hwf & Hq & O & <-). destruct (alloc m bytes) as [b m'] eqn:Ea. cbn [fst snd].
    destruct (alloc_foreign _ _ _ _ _ Ea O) as (_ & O' & F & _). by split_and!.
  - destruct IH as (Hwf & Hq & O & <-). destruct Ha as [x [Hm Hb]%foreign_some]. unfold free in E. rewrite Hm in E.
    injection E as <-. destruct o as [d bl]. destruct (owns_free m (mkKeyed d bl) d a O Hb) as [O' F]; [done|].
    by split_and!.
  - destruct IH as (Hwf & Hq & O & F). destruct R as [_ Hmax Hlog Hsafe].
    destruct (lookup_map (dict o) bytes h Hwf ltac:(lia) ltac:(lia) Hsafe) as (d1 & E1 & Hwf' & Ha & Hfr & _).
    rewrite E1 in E. injection E as _ <-. split_and!; [done|by apply (frame_quiet (dict o))| |done].
    apply (owns_same m); [done|by rewrite Ha|done].
  - destruct IH as (Hwf & Hq & O & <-). apply foreign_some in Ha as [Hm Hb].
    destruct (Insert_keyed_ok m o a bytes h v copy R Hq O Hm Hl (fun _ => Hb)) as (o1 & m1 & E1 & _ & K).
    rewrite E1 in E. by injection E as _ <- <-.
  - destruct IH as (Hwf & Hq & O & <-).
    destruct (Remove_keyed_ok m o bytes h R Hq O) as (o1 & m1 & E1 & _ & K).
    rewrite E1 in E. by injection E as _ <- <-.
Qed.
End Releasing.

(** C8: On an implementation whose [delete] releases arrays (the keys come from
    [new char[]]: elsewhere [delete_mismatch]), in every run of a client of an [UNORDERED]
    dictionary that stays [ready] the memory of the keys is right: the destructor frees
    exactly what the dictionary has, so that the client's own blocks are all that is left,
    and as long as the dictionary is [ready] an insertion or a removal of a key of the
    client's touches no freed block, and the insertion takes the client's block when the
    key is not copied, whether the key was there or not. *)
Theorem dictionary_frees_its_keys (Impl : Implementation) mine m o :
  delete_takes_arrays = true -> runs mine m o ->
  delete_Dictionary m o = Ok ((Clear (dict o)).1, mine) /\
  (ready (dict o) -> forall bytes h,
    (exists o' m', Remove_keyed m o bytes (Z.of_nat (length bytes)) h =
       Ok (default 0 (abs (dict o) !! (bytes, u32 h)), o', m') /\ foreign m' o' = mine) /\
    (forall a v copy_key, mine !! a = Some bytes -> Z.of_nat (length bytes) < 2 ^ 16 -> exists o' m',
       Insert_keyed m o a (Z.of_nat (length bytes)) h v copy_key =
         Ok (default 0 (abs (dict o) !! (bytes, u32 h)), o', m') /\
       foreign m' o' = if copy_key then mine else delete a mine)).
Proof.
  intros Himpl (Hwf & Hq & O & <-)%runs_keeps; [|done]. split; [by apply delete_Dictionary_ok|].
  intros R bytes h. split; [|intros a v copy [Hm Hb]%foreign_some Hl].
  - destruct (Remove_keyed_ok Himpl m o bytes h R Hq O) as (o' & m' & E & _ & _ & _ & _ & F). by exists o', m'.
  - destruct (Insert_keyed_ok Himpl m o a bytes h v copy R Hq O Hm Hl (fun _ => Hb)) as (o' & m' & E & _ & _ & _ & _ & F).
    by exists o', m'.
Qed.

(** Elsewhere the first key that the dictionary frees is undefined behaviour: a short
    one when it is taken over, a long one when it is removed. *)
Lemma delete_mismatch (Impl : Implementation) m bl a b bytes k n :
  delete_takes_arrays = false -> bl !! k = Some b -> 8 < n ->
  own_key m a bytes 8 false = UB /\ free_key m bl k n = UB.
Proof.
  intros H Hk Hn. unfold own_key, free_key, delete_scalar. rewrite H, Hk.
  by destruct (Z.ltb_spec 8 n); [|lia].
Qed.

Lemma runs_ready (Impl : Implementation) mine m o :
  delete_takes_arrays = true -> runs mine m o ->
  (num_entries (dict o) <? MAX_ENTRIES) && (log2_buckets (dict o) + 4 <=? MAX_LOG2) && (remaps (dict o) =? 0) = true ->
  ready (dict o).
Proof.
  intros Himpl (Hwf & _)%runs_keeps [[H1 H2]%andb_true_iff H3]%andb_true_iff; [|done].
  split; [done|by apply Z.ltb_lt|by apply Z.leb_le|]. left. by apply Z.eqb_eq.
Qed.

(** A client that gives the dictionary a key of 10 bytes and has the same key again in
    another block. *)
#[local] Existing Instance releasing.
Definition long_key : list Z := [1; 2; 3; 4; 5; 6; 7; 8; 9; 10].
Definition with_block (s : memory * memory * keyed) : memory * memory * keyed :=
  (<[(alloc s.1.2 long_key).1 := long_key]> s.1.1, (alloc s.1.2 long_key).2, s.2).
Definition give (a : nat) (v : Z) (s : memory * memory * keyed) : memory * memory * keyed :=
  match Insert_keyed s.1.2 s.2 a 10 77 v false with
  | Ok (_, o, m) => (delete a s.1.1, m, o)
  | _ => s
  end.
Definition sample_keyed : memory * memory * keyed :=
  let start := match new_keyed UNORDERED 0 with Ok o => (∅, ∅, o) | _ => (∅, ∅, mkKeyed sample_dict ∅) end in
  with_block (give 0 100 (with_block start)).

Lemma runs_block s : runs s.1.1 s.1.2 s.2 -> runs (with_block s).1.1 (with_block s).1.2 (with_block s).2.
Proof. apply run_alloc. Qed.

Lemma runs_give s a v :
  runs s.1.1 s.1.2 s.2 -> ready (dict s.2) -> s.1.1 !! a = Some long_key ->
  runs (give a v s).1.1 (give a v s).1.2 (give a v s).2.
Proof.
  intros H R Ha. unfold give. destruct (Insert_keyed s.1.2 s.2 a 10 77 v false) as [[[old o] m]| | |] eqn:E; [|done..].
  by apply (run_insert s.1.1 s.1.2 s.2 a long_key 77 v false old o m H R Ha).
Qed.

Lemma sample_runs : runs sample_keyed.1.1 sample_keyed.1.2 sample_keyed.2.
Proof.
  apply runs_block, runs_give; [apply runs_block, (run_new ∅ 0); [lia|by vm_compute]| |by vm_compute].
  eapply runs_ready; [reflexivity|apply runs_block, (run_new ∅ 0); [lia|by vm_compute]|by vm_compute].
Qed.

Lemma dictionary_frees_its_keys_witness :
  delete_Dictionary sample_keyed.1.2 sample_keyed.2 = Ok ([], <[1%nat := long_key]> ∅) /\
  exists o m, Insert_keyed sample_keyed.1.2 sample_keyed.2 1 10 77 200 false = Ok (100, o, m) /\ foreign m o = ∅.
Proof.
  destruct (dictionary_frees_its_keys releasing _ _ _ eq_refl sample_runs) as [E H]. split.
  - rewrite E. by vm_compute.
  - destruct (H ltac:(by apply (runs_ready releasing _ _ _ eq_refl sample_runs); vm_compute) long_key 77)
      as [_ Hins]. destruct (Hins 1%nat 200 false ltac:(by vm_compute) ltac:(cbn; lia)) as (o & m & Eins & F).
    exists o, m. split; [|rewrite F; by vm_compute].
    change 10 with (Z.of_nat (length long_key)). by rewrite Eins.
Defined.
