(* ===== verification/PDict.v ===== *)
(** * [PDict] and the [HashKey] flavour of [Dictionary]

    The operations of [dict/OpenDict.h] that take a [HashKey] or a C string: they make
    the key, hash it and call the operations of [Dictionary] that take its bytes. *)

From S2P Require Import Prelude SipHash HashKey DictTable Dictionary DictInv DictReloc DictWf DictOps DictCheck DictSpec DictKeys.

Section PDict.
Context {Impl : Implementation} (K5 K6 : list Z) (md5 : list Z -> list Z).
Notation HashBytes := (HashBytes K5 K6 md5).
Notation HashKey_string := (HashKey_string K5 K6 md5).

(** [Insert(HashKey* key, void* val)]: the dictionary gets the key's memory. *)
Definition Insert_key (m : memory) (o : keyed) (h : HashKey) (val : Z)
    : res (Z * keyed * HashKey * memory) :=
  let! (a, h, m) := TakeKey m h in
  let! (old, o, m) := Insert_keyed m o a (HashKey.size h) (HashKey.hash h) val false in
  Ok (old, o, h, m).

Definition Lookup_key (m : memory) (o : keyed) (h : HashKey) : res (Z * keyed) :=
  let! k := Key m h in
  let! (v, d) := Lookup (dict o) k (HashKey.size h) (HashKey.hash h) in
  Ok (v, mkKeyed d (key_block o)).

(** [Remove(const HashKey* key)] and [RemoveEntry]. *)
Definition Remove_key (m : memory) (o : keyed) (h : HashKey) : res (Z * keyed * memory) :=
  let! k := Key m h in Remove_keyed m o k (HashKey.size h) (HashKey.hash h).

(** [PDict::Insert(const char* key, T* val)]: the temporary [HashKey] is destroyed. *)
Definition PDict_Insert (m : memory) (o : keyed) (s : nat) (val : Z) : res (Z * keyed * memory) :=
  let! h := HashKey_string m s in
  let! (old, o, h, m) := Insert_key m o h val in
  let! m := delete_HashKey m h in Ok (old, o, m).

(** [PDict::Lookup(const char* key)]. *)
Definition PDict_Lookup (m : memory) (o : keyed) (s : nat) : res (Z * keyed) :=
  let! h := HashKey_string m s in
  let! (v, o) := Lookup_key m o h in
  let! _ := delete_HashKey m h in Ok (v, o).

(** [PDict::RemoveEntry] with the [HashKey] of a C string. *)
Definition PDict_Remove (m : memory) (o : keyed) (s : nat) : res (Z * keyed * memory) :=
  let! h := HashKey_string m s in Remove_key m o h.

(** [PDict::NthEntry], without and with the key. *)
Definition PDict_NthEntry (o : keyed) (n : Z) : Z := (NthEntry (dict o) n).1.
Definition PDict_NthEntry_key (o : keyed) (n : Z) : Z * option (list Z) :=
  let '(v, k) := NthEntry (dict o) n in (v, fst <$> k).

(** [PDict::NextEntry(cookie)]; the flag tells whether the cookie is still there. *)
Definition PDict_NextEntry (o : keyed) (c : nat) : res (Z * bool * keyed) :=
  let! (v, _, more, d) := NextEntry (dict o) c false in Ok (v, more, mkKeyed d (key_block o)).

(** [PDict::NextEntry(h, cookie)]: [h] is a new [HashKey] with its own copy of the bytes. *)
Definition PDict_NextEntry_key (m : memory) (o : keyed) (c : nat)
    : res (Z * option HashKey * bool * keyed * memory) :=
  let! (v, k, more, d) := NextEntry (dict o) c true in
  let o := mkKeyed d (key_block o) in
  match k with
  | Some (bytes, n, h) =>
      let '(a, m) := alloc m (take (Z.to_nat n) bytes) in
      Ok (v, Some (mkHashKey [] (Ptr a) true n h), more, o, m)
  | None => Ok (v, None, more, o, m)
  end.

(** The key that the iteration hands out has the bytes of the entry in a block of its own:
    deleting it gives the memory back as it was. *)
Lemma PDict_NextEntry_key_ok m o c v bytes h more d :
  NextEntry (dict o) c true = Ok (v, Some (bytes, Z.of_nat (length bytes), h), more, d) ->
  exists hk m', PDict_NextEntry_key m o c = Ok (v, Some hk, more, mkKeyed d (key_block o), m') /\
    Key m' hk = Ok bytes /\ HashKey.hash hk = h /\ delete_HashKey m' hk = Ok m.
Proof using.
  intros E. unfold PDict_NextEntry_key. step_ok E. rewrite Nat2Z.id, firstn_all. unfold alloc.
  do 2 eexists. split; [reflexivity|]. unfold Key, read, delete_HashKey, free. cbn [key_u key HashKey.size is_our_dynamic].
  rewrite lookup_insert_eq, (proj2 (andb_true_iff _ _)) by (rewrite !Z.leb_le; lia).
  rewrite Nat2Z.id, firstn_all. split; [done|]. split; [done|]. f_equal.
  apply delete_insert_id, not_elem_of_dom, is_fresh.
Qed.

(** ** A map of strings *)

(** Address [s] holds the string [k]. *)
Definition c_string (m : memory) (s : nat) (k : list Z) : Prop :=
  exists b, m !! s = Some b /\ strlen b = Some (Z.of_nat (length k)) /\ take (length k) b = k.

(** What the dictionary holds for a string: its hash is a function of its bytes. *)
Definition at_string (o : keyed) (k : list Z) : option Z :=
  abs (dict o) !! (k, u32 (HashBytes k (Z.of_nat (length k)))).

Lemma HashKey_string_ok m s k :
  c_string m s k ->
  HashKey_string m s =
    Ok (mkHashKey [] (Ptr s) false (Z.of_nat (length k)) (HashBytes k (Z.of_nat (length k)))) /\
  read m [] (Ptr s) (Z.of_nat (length k)) = Ok k.
Proof using.
  intros (b & Hb & Hn & Hk).
  assert (length k <= length b)%nat as Hl by (rewrite <- Hk, length_take; lia).
  assert (read m [] (Ptr s) (Z.of_nat (length k)) = Ok k) as Hr.
  { unfold read. rewrite Hb, (proj2 (andb_true_iff _ _)) by (rewrite !Z.leb_le; lia).
    by rewrite Nat2Z.id, Hk. }
  split; [|done]. unfold HashKey.HashKey_string. rewrite Hb. cbn [mbind option_bind].
  rewrite Hn, Hr. done.
Qed.

(** The bytes are copied into a block, which the dictionary takes. *)
Lemma Insert_key_ok m o h k v :
  delete_takes_arrays = true -> ready (dict o) -> quiet (dict o) -> owns m o -> Z.of_nat (length k) < 2 ^ 16 ->
  is_our_dynamic h = false -> HashKey.size h = Z.of_nat (length k) -> Key m h = Ok k ->
  exists o' m', Insert_key m o h v =
      Ok (default 0 (abs (dict o) !! (k, u32 (HashKey.hash h))), o', h, m') /\
    abs (dict o') = <[(k, u32 (HashKey.hash h)) := v]> (abs (dict o)) /\ keeps m' o' (foreign m o).
Proof using.
  intros Himpl R Hq O Hl Hdyn Hsize Hk. unfold Insert_key, TakeKey. rewrite Hdyn. unfold CopyKey.
  unfold Key in Hk. rewrite Hk. cbn [res_bind]. destruct (alloc m k) as [a m1] eqn:Ea.
  destruct (alloc_foreign _ _ _ _ _ Ea O) as (Ha & O1 & F1 & L1 & N1). cbn [res_bind].
  destruct (Insert_keyed_ok Himpl m1 o a k (HashKey.hash h) v false R Hq O1 L1 Hl) as (o' & m' & E & Hm & K1 & K2 & K3 & K4);
    [done|].
  rewrite Hsize, E. cbn [res_bind]. exists o', m'. split; [done|]. split; [done|].
  split_and!; try done. rewrite K4, F1. by apply delete_insert_id.
Qed.

Lemma at_string_insert d d' k v :
  abs (dict d') = <[(k, u32 (HashBytes k (Z.of_nat (length k)))) := v]> (abs (dict d)) ->
  forall k', at_string d' k' = if decide (k' = k) then Some v else at_string d k'.
Proof using.
  intros E k'. unfold at_string. rewrite E. destruct (decide (k' = k)) as [->|Hne].
  - by rewrite lookup_insert_eq.
  - rewrite lookup_insert_ne; [done|]. congruence.
Qed.

Lemma at_string_delete d d' k :
  abs (dict d') = delete (k, u32 (HashBytes k (Z.of_nat (length k)))) (abs (dict d)) ->
  forall k', at_string d' k' = if decide (k' = k) then None else at_string d k'.
Proof using.
  intros E k'. unfold at_string. rewrite E. destruct (decide (k' = k)) as [->|Hne].
  - by rewrite lookup_delete_eq.
  - rewrite lookup_delete_ne; [done|]. congruence.
Qed.
End PDict.

(** C20: Where [delete] releases arrays, an [UNORDERED] [PDict] without iterators that is
    [ready] (at most one pending resize, a free last slot) is, used with C strings, a map
    from strings to values, whatever the hash keys are: [Insert] makes the string's value
    the one given and returns the old one, [RemoveEntry] drops it and [Lookup] finds it;
    no other string's value changes, the dictionary has the blocks of its long keys and
    no others, and all memory that is not its own is as it was. *)
Theorem PDict_string_map (Impl : Implementation) K5 K6 md5 m o s k v :
  delete_takes_arrays = true -> c_string m s k -> Z.of_nat (length k) < 2 ^ 16 -> ready (dict o) -> quiet (dict o) -> owns m o ->
  (exists o' m', PDict_Insert K5 K6 md5 m o s v =
      Ok (default 0 (at_string K5 K6 md5 o k), o', m') /\ keeps m' o' (foreign m o) /\
      forall k', at_string K5 K6 md5 o' k' = if decide (k' = k) then Some v else at_string K5 K6 md5 o k') /\
  (exists o' m', PDict_Remove K5 K6 md5 m o s = Ok (default 0 (at_string K5 K6 md5 o k), o', m') /\
      keeps m' o' (foreign m o) /\
      forall k', at_string K5 K6 md5 o' k' = if decide (k' = k) then None else at_string K5 K6 md5 o k') /\
  (exists o', PDict_Lookup K5 K6 md5 m o s = Ok (default 0 (at_string K5 K6 md5 o k), o') /\
      keeps m o' (foreign m o) /\ forall k', at_string K5 K6 md5 o' k' = at_string K5 K6 md5 o k').
Proof.
  intros Himpl Hs Hk R Hq O. pose proof (HashKey_string_ok K5 K6 md5 m s k Hs) as [E Hr].
  unfold PDict_Insert, PDict_Remove, PDict_Lookup. rewrite E. cbn [res_bind].
  set (h := mkHashKey _ _ _ _ _). split_and!.
  - destruct (Insert_key_ok m o h k v Himpl R Hq O Hk) as (o' & m' & Ei & Hm & K); [done..|].
    rewrite Ei. exists o', m'. split; [done|]. split; [done|]. by apply at_string_insert.
  - unfold Remove_key, Key. cbn [key_u key h HashKey.size HashKey.hash]. rewrite Hr. cbn [res_bind].
    destruct (Remove_keyed_ok Himpl m o k (HashBytes K5 K6 md5 k (Z.of_nat (length k))) R Hq O) as (o' & m' & Ei & Hm & K).
    exists o', m'. split; [done|]. split; [done|]. by apply at_string_delete.
  - unfold Lookup_key, Key. cbn [key_u key h HashKey.size HashKey.hash]. rewrite Hr. cbn [res_bind].
    destruct R as [Hwf Hmax Hlog Hsafe].
    destruct (lookup_map (dict o) k (HashBytes K5 K6 md5 k (Z.of_nat (length k)))) as (d' & Ei & Hwf' & Ha & Hf & _);
      [done|lia|lia|done|].
    rewrite Ei. cbn [res_bind delete_HashKey is_our_dynamic]. eexists. split; [done|]. split.
    + split_and!; [done|by apply (frame_quiet (dict o))|by apply (owns_same m); [|by rewrite Ha|]|done].
    + intros k'. unfold at_string. cbn [dict]. by rewrite Ha.
Qed.

(** A memory with the string "hi", a dictionary without long keys, and a toy digest. *)
Definition hi_memory : memory := {[3%nat := [104; 105; 0; 7]]}.
Definition short_keys : keyed := mkKeyed sample_dict ∅.

Lemma hi_string : c_string hi_memory 3 [104; 105].
Proof. exists [104; 105; 0; 7]. split_and!; reflexivity. Qed.

Lemma short_keys_owned : owns hi_memory short_keys.
Proof.
  split; cbn [key_block dict short_keys].
  - intros k. rewrite lookup_empty. split; [by intros []|]. intros [[v Hv] Hl].
    assert (map_Forall (fun k (_ : Z) => (length k.1 <= 8)%nat) (abs sample_dict)) as H.
    { apply (bool_decide_unpack _). by vm_compute. }
    specialize (H _ _ Hv). cbn in H. lia.
  - done.
  - done.
Qed.

#[local] Existing Instance releasing.

Lemma PDict_string_map_witness :
  exists o' m', PDict_Insert (seqZ 0 16) (replicate 16 0) id hi_memory short_keys 3 8 = Ok (0, o', m') /\
    at_string (seqZ 0 16) (replicate 16 0) id o' [104; 105] = Some 8.
Proof.
  destruct (PDict_string_map releasing (seqZ 0 16) (replicate 16 0) id hi_memory short_keys 3 [104; 105] 8
    eq_refl hi_string eq_refl sample_ready sample_quiet short_keys_owned) as ((o' & m' & E & _ & H) & _).
  exists o', m'. split; [rewrite E; vm_compute; reflexivity|]. rewrite H. reflexivity.
Defined.
