(* ===== verification/Vxlan.v ===== *)
(** * [pcap2vxlan/pcap2vxlan.c]: packets wrapped into VXLAN

    The configuration file, the checksum and the loop over the packets of a capture, on
    a little-endian machine.  [ether_aton] and [inet_pton] of the C library are
    parameters; packets come as what [pcap_next] returns. *)

From Stdlib Require Import Ascii String.
From S2P Require Import Prelude.
Local Open Scope Z_scope.

Definition chars (s : string) : list Z := (fun c => Z.of_nat (nat_of_ascii c)) <$> list_ascii_of_string s.

(** ** Byte order *)

(** A 16-bit or 32-bit integer in memory. *)
Definition le16 (v : Z) : list Z := [u8 v; u8 (Z.shiftr v 8)].
Definition le32 (v : Z) : list Z := [u8 v; u8 (Z.shiftr v 8); u8 (Z.shiftr v 16); u8 (Z.shiftr v 24)].
Definition load16 (a b : Z) : Z := Z.lor a (Z.shiftl b 8).
(** [htons] and [ntohs]; [htonl]. *)
Definition htons (v : Z) : Z := Z.lor (Z.shiftl (u8 v) 8) (u8 (Z.shiftr v 8)).
Definition htonl (v : Z) : Z :=
  Z.lor (Z.lor (Z.shiftl (u8 v) 24) (Z.shiftl (u8 (Z.shiftr v 8)) 16))
    (Z.lor (Z.shiftl (u8 (Z.shiftr v 16)) 8) (u8 (Z.shiftr v 24))).

(** ** [pkt_checksum] *)

(** The loop: the sum so far and the byte that is left over. *)
Fixpoint sum_words (data : list Z) (L_sum : Z) : Z :=
  match data with
  | a :: b :: data => sum_words data (u32 (L_sum + htons (load16 a b)))
  | [a] => u32 (L_sum + htons (load16 a 0))
  | [] => L_sum
  end.

Definition fold_sum (L_sum : Z) : Z := u32 (Z.land L_sum 0xffff + Z.shiftr L_sum 16).

Definition pkt_checksum (data : list Z) (add : Z) : Z :=
  u16 (Z.lnot (u16 (fold_sum (fold_sum (sum_words data add))))).

(** ** The configuration file *)

Inductive conf_type : Set := CONF_INT | CONF_STR.
Definition CONF_SIZE : nat := 1024.

(** What [parse_element] stores through [getvalue]. *)
Inductive got : Type := GotInt (v : Z) | GotStr (s : list Z).

Definition is_space (c : Z) : bool := (c =? 32) || ((9 <=? c) && (c <=? 13)).
Fixpoint skip_space (l : list Z) : list Z :=
  match l with c :: r => if is_space c then skip_space r else l | [] => [] end.
(** [%s]: the characters up to the next space, and the rest. *)
Fixpoint word (l : list Z) : list Z * list Z :=
  match l with
  | [] => ([], [])
  | c :: r => if is_space c then ([], l) else let '(w, s) := word r in (c :: w, s)
  end.

(** [sscanf(buf, "%s = %s", key, value)]: the fields read. *)
Definition sscanf_key_value (buf : list Z) : list (list Z) :=
  let '(key, r) := word (skip_space buf) in
  match key with
  | [] => []
  | _ =>
      match skip_space r with
      | c :: r =>
          if c =? 61 then
            match fst (word (skip_space r)) with [] => [key] | value => [key; value] end
          else [key]
      | [] => [key]
      end
  end.

(** [atoi]: spaces, a sign, digits. *)
Fixpoint digits (l : list Z) (acc : Z) : Z :=
  match l with
  | c :: l => if (48 <=? c) && (c <=? 57) then digits l (acc * 10 + (c - 48)) else acc
  | [] => acc
  end.
Definition atoi (l : list Z) : Z :=
  match skip_space l with
  | c :: r => if c =? 45 then - digits r 0 else if c =? 43 then digits r 0 else digits (c :: r) 0
  | [] => 0
  end.

(** A word of 1024 or more characters overflows its buffer, a number that is no [int] is
    more than [atoi] promises.  What is printed on the way is not modelled: for a row
    without a value it is whatever [value] held. *)
Definition parse_element (buf : list Z) (type : conf_type) (findKey : list Z) : res (option got) :=
  let fields := sscanf_key_value buf in
  if bool_decide (Exists (fun f => (CONF_SIZE <= length f)%nat) fields) then UB
  else
    match fields with
    | key :: value =>
        let value := match value with v :: _ => v | [] => [] end in
        if bool_decide (findKey = key) then
          match type with
          | CONF_INT =>
              let v := atoi value in
              if (- 2 ^ 31 <=? v) && (v <? 2 ^ 31) then Ok (Some (GotInt (u32 v))) else UB
          | CONF_STR => Ok (Some (GotStr value))
          end
        else Ok None
    | [] => Ok None
    end.

(** [struct sys_conf]: the addresses are pointers, 0 is [NULL]. *)
Record sys_conf := mkConf {
  src_mac : Z;
  dst_mac : Z;
  src_ip : list Z;
  dst_ip : list Z;
  vxlan_port : Z;
  vxlan_vni : Z
}.

Section Conf.
(** What [ether_aton] parses and the address of the static buffer it returns;
    [inet_pton] for [AF_INET]. *)
Context (ether_aton : list Z -> option (list Z)) (ether_buf : Z) (inet_pton : list Z -> option (list Z)).

Definition parse_mac (bufs : list Z) : res Z :=
  match ether_aton bufs with Some _ => Ok ether_buf | None => Abort end.
Definition parse_ip (bufs : list Z) : res (list Z) :=
  match inet_pton bufs with Some a => Ok a | None => Abort end.

(** One row of the file, without its newline; the keys are tried in turn. *)
Definition parse_row (conf : sys_conf) (row : list Z) : res sys_conf :=
  match row with
  | [] => Ok conf
  | c :: _ =>
      if c =? 35 then Ok conf
      else
        let! g := parse_element row CONF_STR (chars "OUTER_SRC_MAC") in
        match g with Some (GotStr s) =>
          let! p := parse_mac s in
          Ok (mkConf p (dst_mac conf) (src_ip conf) (dst_ip conf) (vxlan_port conf) (vxlan_vni conf))
        | _ =>
        let! g := parse_element row CONF_STR (chars "OUTER_DST_MAC") in
        match g with Some (GotStr s) =>
          let! p := parse_mac s in
          Ok (mkConf (src_mac conf) p (src_ip conf) (dst_ip conf) (vxlan_port conf) (vxlan_vni conf))
        | _ =>
        let! g := parse_element row CONF_STR (chars "OUTER_SRC_IP") in
        match g with Some (GotStr s) =>
          let! a := parse_ip s in
          Ok (mkConf (src_mac conf) (dst_mac conf) a (dst_ip conf) (vxlan_port conf) (vxlan_vni conf))
        | _ =>
        let! g := parse_element row CONF_STR (chars "OUTER_DST_IP") in
        match g with Some (GotStr s) =>
          let! a := parse_ip s in
          Ok (mkConf (src_mac conf) (dst_mac conf) (src_ip conf) a (vxlan_port conf) (vxlan_vni conf))
        | _ =>
        let! g := parse_element row CONF_INT (chars "VXLAN_PORT") in
        match g with Some (GotInt v) =>
          Ok (mkConf (src_mac conf) (dst_mac conf) (src_ip conf) (dst_ip conf) v (vxlan_vni conf))
        | _ =>
        let! g := parse_element row CONF_INT (chars "VXLAN_VNI") in
        match g with Some (GotInt v) =>
          Ok (mkConf (src_mac conf) (dst_mac conf) (src_ip conf) (dst_ip conf) (vxlan_port conf) v)
        | _ => Ok conf
        end end end end end end
  end.

Fixpoint parse_rows (conf : sys_conf) (rows : list (list Z)) : res sys_conf :=
  match rows with
  | [] => Ok conf
  | row :: rows => let! conf := parse_row conf row in parse_rows conf rows
  end.

Definition parse_conf (rows : list (list Z)) : res sys_conf :=
  parse_rows (mkConf 0 0 [0; 0; 0; 0] [0; 0; 0; 0] 0 0) rows.
End Conf.

(** ** The headers *)

(** [memcpy(&ether_out.ether_shost, &conf.src_mac, 6)]: six bytes of the pointer. *)
Definition pointer_bytes (p : Z) : list Z := le32 (u32 p) ++ take 2 (le32 (u32 (Z.shiftr p 32))).

(** [struct ether_h]: destination, source, [ntag]. *)
Definition ether_header (dhost shost : Z) : list Z :=
  pointer_bytes dhost ++ pointer_bytes shost ++ le16 0x0008.

(** [struct ip] with [ip_len] and [ip_sum] as stored. *)
Definition ip_header (len sum : Z) (src dst : list Z) : list Z :=
  [0x45; 0] ++ le16 len ++ le16 0 ++ le16 0x0040 ++ [0x40; 0x11] ++ le16 sum ++ src ++ dst.

Definition udp_header (sport dport ulen : Z) : list Z := le16 sport ++ le16 dport ++ le16 ulen ++ le16 0.

(** [struct vxlan]: the bit [i] is the fourth, [vni] the low 24 bits of the second
    word. *)
Definition vxlan_header (vni : Z) : list Z :=
  le32 8 ++ le32 (Z.land (Z.shiftr (htonl vni) 8) 0xffffff).

(** ** The loop over the packets *)

(** [struct pcap_pkthdr] and the captured bytes. *)
Record packet := mkPacket { tv_sec : Z; tv_usec : Z; caplen : Z; plen : Z; data : list Z }.

(** What [main] writes before the first packet. *)
Definition file_header : list Z :=
  le32 0xa1b2c3d4 ++ le16 2 ++ le16 4 ++ le32 0 ++ le32 0 ++ le32 0xffff ++ le32 1.

(** [struct pd_pkthdr]. *)
Definition pkt_header (p : packet) : list Z :=
  le32 (u32 (tv_sec p)) ++ le32 (u32 (tv_usec p)) ++ le32 (u32 (caplen p + 50)) ++ le32 (u32 (plen p + 50)).

(** The bytes of [eth_hdr->ether_shost]. *)
Definition shost (p : packet) : res (list Z) :=
  if (length (data p) <? 12)%nat then UB else Ok (take 6 (drop 6 (data p))).

(** The IP header with its checksum: it is summed with 0 in the field first. *)
Definition summed_ip_header (len : Z) (src dst : list Z) : list Z :=
  let csum := pkt_checksum (ip_header len 0 src dst) 0 in
  ip_header len (htons csum) src dst.

(** The 14 bytes at [&eth_hdr], which the source port is computed from: the 8 of the
    pointer and 6 that are no part of it.  To read those is undefined; where the program
    goes on regardless they are what the stack holds there at the time. *)
Definition read_eth_hdr (stack : option (list Z)) : res (list Z) :=
  match stack with Some b => Ok b | None => UB end.

(** One packet. *)
Definition write_packet (conf : sys_conf) (smac : list Z) (stack : option (list Z)) (p : packet)
    : res (list Z) :=
  let! sh := shost p in
  let ip_size := u16 (36 + caplen p) in
  let udp_size := u16 (16 + caplen p) in
  let! bytes := read_eth_hdr stack in
  let sport := pkt_checksum bytes 0 in
  let dport := htons (u16 (vxlan_port conf)) in
  let hdr :=
    if bool_decide (smac = sh) then
      ether_header (dst_mac conf) (src_mac conf) ++
      summed_ip_header (htons ip_size) (src_ip conf) (dst_ip conf)
    else
      ether_header (src_mac conf) (dst_mac conf) ++
      summed_ip_header (htons ip_size) (dst_ip conf) (src_ip conf) in
  Ok (pkt_header p ++ hdr ++ udp_header sport dport (htons udp_size) ++
      vxlan_header (vxlan_vni conf) ++ take (Z.to_nat (caplen p)) (data p)).

(** [stack i] is what is found for packet [i]: the pointer and the locals are read anew. *)
Fixpoint write_packets (conf : sys_conf) (smac : list Z) (stack : nat -> option (list Z)) (i : nat)
    (ps : list packet) : res (list Z) :=
  match ps with
  | [] => Ok []
  | p :: ps =>
      let! out := write_packet conf smac (stack i) p in
      let! rest := write_packets conf smac stack (S i) ps in Ok (out ++ rest)
  end.

(** [main] from the configuration on: [smac] is the source of the first packet;
    printing a [NULL] address is undefined. *)
Definition main (conf : sys_conf) (stack : nat -> option (list Z)) (ps : list packet) : res (list Z) :=
  if (src_mac conf =? 0) || (dst_mac conf =? 0) then UB
  else
    let! smac := (match ps with p :: _ => shost p | [] => Ok [] end) in
    let! out := write_packets conf smac stack 0 ps in
    Ok (file_header ++ out).
