(* ===== verification/VxlanProps.v ===== *)
(** * What [pcap2vxlan] writes *)

From S2P Require Import Prelude Vxlan.

(** ** Bytes of integers *)

Lemma le16_htons v : 0 <= v < 2 ^ 16 -> le16 (htons v) = [v / 256; v mod 256].
Proof.
  intros Hv. unfold le16, htons, u8. rewrite !Z.shiftr_div_pow2, Z.shiftl_mul_pow2 by lia.
  rewrite (lor_low _ _ 8) by (lia || (by apply Z.mod_mul) || (apply Z.mod_pos_bound; lia)).
  f_equal; [dlia|f_equal; dlia].
Qed.

Lemma htons_load16 a b : byte_ok a -> byte_ok b -> htons (load16 a b) = a * 256 + b.
Proof.
  unfold byte_ok, htons, load16, u8. intros Ha Hb.
  rewrite (Z.lor_comm a), (Z.shiftl_mul_pow2 b) by lia.
  rewrite (lor_low (b * 2 ^ 8) a 8) by (lia || by apply Z.mod_mul).
  rewrite Z.shiftr_div_pow2, Z.shiftl_mul_pow2 by lia.
  rewrite (lor_low _ _ 8) by (lia || (by apply Z.mod_mul) || (apply Z.mod_pos_bound; lia)). dlia.
Qed.

(** ** The checksum *)

(** The plain sum of the big-endian words. *)
Fixpoint words_sum (data : list Z) : Z :=
  match data with
  | a :: b :: data => a * 256 + b + words_sum data
  | [a] => a * 256
  | [] => 0
  end.

Lemma words_sum_bounds d : bytes_ok d -> 0 <= words_sum d <= 65535 * Z.of_nat (length d).
Proof.
  remember (length d) as n eqn:Hn. revert d Hn. induction n as [n IH] using lt_wf_ind.
  intros d -> Hd. unfold bytes_ok, byte_ok in *. destruct d as [|a [|b d]]; cbn [words_sum length].
  - lia.
  - apply Forall_cons in Hd as [Ha _]. lia.
  - apply Forall_cons in Hd as [Ha Hd]. apply Forall_cons in Hd as [Hb Hd].
    specialize (IH (length d) ltac:(cbn; lia) d eq_refl Hd). lia.
Qed.

Lemma sum_words_sum d s :
  bytes_ok d -> 0 <= s -> s + 65535 * Z.of_nat (length d) < 2 ^ 32 -> sum_words d s = s + words_sum d.
Proof.
  remember (length d) as n eqn:Hn. revert d s Hn. induction n as [n IH] using lt_wf_ind.
  intros d s -> Hd Hs Hb. assert (byte_ok 0) as H0 by done.
  destruct d as [|a [|b d]]; cbn [sum_words words_sum]; cbn [length] in Hb.
  - lia.
  - apply Forall_cons in Hd as [Ha _]. rewrite htons_load16 by done. unfold byte_ok in Ha.
    rewrite u32_small; lia.
  - apply Forall_cons in Hd as [Ha Hd]. apply Forall_cons in Hd as [Hb' Hd].
    rewrite htons_load16 by done. unfold byte_ok in *. rewrite u32_small by lia.
    rewrite (IH (length d)); try done; cbn [length]; lia.
Qed.

Lemma words_sum_app x y : Nat.even (length x) = true -> words_sum (x ++ y) = words_sum x + words_sum y.
Proof.
  remember (length x) as n eqn:Hn. revert x Hn. induction n as [n IH] using lt_wf_ind.
  intros x -> He. destruct x as [|a [|b x]]; cbn [app words_sum]; [done|done|].
  rewrite (IH (length x)); cbn [length] in *; try done; lia.
Qed.

(** Folding twice gives 16 bits, the same modulo 65535, and not 0 unless the sum is. *)
Lemma fold_twice s :
  0 <= s < 2 ^ 32 ->
  let f := fold_sum (fold_sum s) in
  0 <= f < 2 ^ 16 /\ f mod 65535 = s mod 65535 /\ (0 < s -> 0 < f) /\ (s = 0 -> f = 0).
Proof.
  assert (forall x, 0 <= x < 2 ^ 32 -> fold_sum x = x mod 65536 + x / 65536) as E.
  { intros x Hx. unfold fold_sum. change 0xffff with (Z.ones 16).
    rewrite Z.land_ones, Z.shiftr_div_pow2 by lia. apply u32_small. dlia. }
  intros Hs f. assert (f = (s mod 65536 + s / 65536) mod 65536 + (s mod 65536 + s / 65536) / 65536) as ->.
  { unfold f. rewrite (E s), E by (done || dlia). done. }
  split; [dlia|]. split; [dlia|]. split; dlia.
Qed.

Lemma pkt_checksum_value d :
  bytes_ok d -> Z.of_nat (length d) <= 65536 ->
  pkt_checksum d 0 = 65535 - fold_sum (fold_sum (words_sum d)).
Proof.
  intros Hd Hl. pose proof (words_sum_bounds d Hd). unfold pkt_checksum.
  rewrite sum_words_sum by (done || lia). rewrite Z.add_0_l.
  destruct (fold_twice (words_sum d)) as (Hf & _); [lia|].
  rewrite (u16_small (fold_sum _)) by lia. unfold u16, Z.lnot. dlia.
Qed.

Lemma bytes_ok_app x y : bytes_ok (x ++ y) <-> bytes_ok x /\ bytes_ok y.
Proof. apply Forall_app. Qed.

Lemma checksum_range d : bytes_ok d -> Z.of_nat (length d) <= 65536 -> 0 <= pkt_checksum d 0 < 2 ^ 16.
Proof.
  intros Hd Hl. rewrite pkt_checksum_value by done. pose proof (words_sum_bounds d Hd).
  destruct (fold_twice (words_sum d)) as (Hf & _); lia.
Qed.

(** Data with its checksum in it sums up to 0. *)
Lemma checksum_verifies pre post :
  bytes_ok (pre ++ post) -> Nat.even (length pre) = true -> Z.of_nat (length (pre ++ post)) + 2 <= 65536 ->
  let c := pkt_checksum (pre ++ [0; 0] ++ post) 0 in
  pkt_checksum (pre ++ le16 (htons c) ++ post) 0 = 0.
Proof.
  intros Hok He Hl c. apply bytes_ok_app in Hok as [Hpre Hpost]. rewrite length_app in Hl.
  assert (bytes_ok [0; 0]) as H00 by (by repeat constructor).
  assert (forall w, length w = 2%nat -> bytes_ok w -> bytes_ok (pre ++ w ++ post) /\
    Z.of_nat (length (pre ++ w ++ post)) <= 65536 /\
    words_sum (pre ++ w ++ post) = words_sum pre + words_sum w + words_sum post) as Hw.
  { intros w Hlw Hw. rewrite !bytes_ok_app, !length_app, Hlw. split; [done|]. split; [lia|].
    rewrite !words_sum_app by (done || by rewrite Hlw). lia. }
  destruct (Hw [0; 0] eq_refl H00) as (H0ok & H0l & H0s).
  assert (0 <= c < 2 ^ 16) as Hc by (by apply checksum_range).
  assert (bytes_ok (le16 (htons c))) as Hcok.
  { rewrite le16_htons by done. repeat constructor; unfold byte_ok; dlia. }
  destruct (Hw (le16 (htons c)) eq_refl Hcok) as (H1ok & H1l & H1s).
  rewrite pkt_checksum_value, H1s by done.
  assert (words_sum (le16 (htons c)) = c) as -> by (rewrite le16_htons by done; cbn [words_sum]; dlia).
  assert (c = 65535 - fold_sum (fold_sum (words_sum pre + words_sum post))) as Ec.
  { unfold c. rewrite pkt_checksum_value, H0s by done. cbn [words_sum]. do 3 f_equal. lia. }
  pose proof (words_sum_bounds pre Hpre). pose proof (words_sum_bounds post Hpost).
  set (S := words_sum pre + words_sum post) in *.
  replace (words_sum pre + c + words_sum post) with (S + c) by (unfold S; lia).
  destruct (fold_twice S) as (F1 & F2 & _ & F4); [lia|].
  destruct (fold_twice (S + c)) as (G1 & G2 & G3 & _); [lia|].
  set (F := fold_sum (fold_sum S)) in *. set (G := fold_sum (fold_sum (S + c))) in *.
  assert (0 <= S) as HS by lia. clearbody F G S. clearbody c. subst c. clear - F1 F2 F4 G1 G2 G3 HS.
  destruct (decide (S = 0)) as [->|]; [rewrite F4 in * by done; dlia|].
  assert (exists k, S = F + 65535 * k) as [k ->] by (exists (S / 65535 - F / 65535); dlia).
  replace (F + 65535 * k + (65535 - F)) with ((k + 1) * 65535) in * by lia.
  rewrite Z.mod_mul in G2 by lia. dlia.
Qed.

(** ** The headers *)

Definition addr_ok (a : list Z) : Prop := length a = 4%nat /\ bytes_ok a.

Lemma bytes_ok_le16 v : bytes_ok (le16 v).
Proof. repeat constructor; apply Z.mod_pos_bound; lia. Qed.

(** A router finds the checksum of the IP header right. *)
Lemma ip_checksum_ok len src dst :
  addr_ok src -> addr_ok dst -> pkt_checksum (summed_ip_header len src dst) 0 = 0.
Proof.
  intros [Hls Hs] [Hld Hd]. unfold summed_ip_header.
  set (pre := [0x45; 0] ++ le16 len ++ le16 0 ++ le16 0x0040 ++ [0x40; 0x11]).
  assert (forall sum, ip_header len sum src dst = pre ++ le16 sum ++ (src ++ dst)) as E
    by (intros; unfold ip_header, pre; by rewrite <- !app_assoc).
  rewrite !E. apply (checksum_verifies pre (src ++ dst)).
  - rewrite !bytes_ok_app. split; [|done]. unfold pre. rewrite !bytes_ok_app.
    split_and!; try apply bytes_ok_le16; repeat constructor; unfold byte_ok; lia.
  - reflexivity.
  - rewrite !length_app, Hls, Hld. cbn. lia.
Qed.

(** The VXLAN header of RFC 7348: the I flag, 24 reserved bits, the network identifier
    in network order, 8 reserved bits. *)
Lemma vxlan_header_bytes v :
  0 <= v < 2 ^ 32 ->
  vxlan_header v = [8; 0; 0; 0; v / 65536 mod 256; v / 256 mod 256; v mod 256; 0].
Proof.
  intros Hv. unfold vxlan_header.
  assert (htonl v = v mod 256 * 2 ^ 24 + v / 256 mod 256 * 2 ^ 16 + v / 65536 mod 256 * 2 ^ 8 + v / 16777216) as ->.
  { unfold htonl, u8. rewrite !Z.shiftr_div_pow2, !Z.shiftl_mul_pow2 by lia.
    rewrite (lor_low (_ * 2 ^ 24) _ 24) by (lia || (by apply Z.mod_mul) || dlia).
    rewrite (lor_low (_ * 2 ^ 8) _ 8) by (lia || (by apply Z.mod_mul) || dlia).
    rewrite (lor_low _ _ 16) by (lia || dlia). dlia. }
  change 0xffffff with (Z.ones 24). rewrite Z.land_ones, Z.shiftr_div_pow2 by lia.
  set (w := (_ / 2 ^ 8) mod 2 ^ 24).
  assert (w = v / 65536 mod 256 + 256 * (v / 256 mod 256) + 65536 * (v mod 256)) as Ew by (unfold w; dlia).
  clearbody w. unfold le32, u8. rewrite !Z.shiftr_div_pow2 by lia. cbn [app].
  change (8 mod 2 ^ 8) with 8. change (8 / 2 ^ 8 mod 2 ^ 8) with 0.
  change (8 / 2 ^ 16 mod 2 ^ 8) with 0. change (8 / 2 ^ 24 mod 2 ^ 8) with 0.
  do 4 f_equal. f_equal; [dlia|]. f_equal; [dlia|]. f_equal; [dlia|]. f_equal. dlia.
Qed.

(** A packet as [pcap_next] gives it. *)
Record packet_ok (p : packet) : Prop := mkPacketOk {
  po_sec : 0 <= tv_sec p < 2 ^ 32;
  po_usec : 0 <= tv_usec p < 2 ^ 32;
  po_caplen : caplen p = Z.of_nat (length (data p));
  po_ether : 12 <= caplen p;
  po_room : caplen p + 50 < 2 ^ 32;
  po_len : 0 <= plen p /\ plen p + 50 < 2 ^ 32
}.

(** The headers in front of a packet: outwards when it comes from the same station as the
    first packet, inwards otherwise. *)
Record wrapped (conf : sys_conf) (smac : list Z) (p : packet) (eth ip udp : list Z) : Prop := mkWrapped {
  w_eth : length eth = 14%nat /\ drop 12 eth = [8; 0];
  w_ip : length ip = 20%nat /\ pkt_checksum ip 0 = 0;
  w_out : smac = take 6 (drop 6 (data p)) ->
    take 12 eth = pointer_bytes (dst_mac conf) ++ pointer_bytes (src_mac conf) /\
    drop 12 ip = src_ip conf ++ dst_ip conf;
  w_in : smac <> take 6 (drop 6 (data p)) ->
    take 12 eth = pointer_bytes (src_mac conf) ++ pointer_bytes (dst_mac conf) /\
    drop 12 ip = dst_ip conf ++ src_ip conf;
  w_ip_len : take 2 (drop 2 ip) = [u16 (36 + caplen p) / 256; u16 (36 + caplen p) mod 256];
  w_udp : length udp = 8%nat;
  w_udp_ports : take 2 (drop 2 udp) = [u16 (vxlan_port conf) / 256; u16 (vxlan_port conf) mod 256];
  w_udp_len : take 2 (drop 4 udp) = [u16 (16 + caplen p) / 256; u16 (16 + caplen p) mod 256]
}.

Lemma wrapped_intro conf smac p sport a b src dst :
  addr_ok src -> addr_ok dst ->
  (smac = take 6 (drop 6 (data p)) ->
    a = dst_mac conf /\ b = src_mac conf /\ src = src_ip conf /\ dst = dst_ip conf) ->
  (smac <> take 6 (drop 6 (data p)) ->
    a = src_mac conf /\ b = dst_mac conf /\ src = dst_ip conf /\ dst = src_ip conf) ->
  wrapped conf smac p (ether_header a b) (summed_ip_header (htons (u16 (36 + caplen p))) src dst)
    (udp_header sport (htons (u16 (vxlan_port conf))) (htons (u16 (16 + caplen p)))).
Proof.
  intros Hs Hd Hout Hin. pose proof (u16_range (36 + caplen p)). pose proof (u16_range (16 + caplen p)).
  pose proof (u16_range (vxlan_port conf)). split.
  - split; reflexivity.
  - split; [|by apply ip_checksum_ok]. unfold summed_ip_header, ip_header. cbn [app length le16].
    rewrite length_app, (proj1 Hs), (proj1 Hd). reflexivity.
  - intros E. destruct (Hout E) as (-> & -> & -> & ->). split; reflexivity.
  - intros E. destruct (Hin E) as (-> & -> & -> & ->). split; reflexivity.
  - change (take 2 (drop 2 (summed_ip_header (htons (u16 (36 + caplen p))) src dst)))
      with (le16 (htons (u16 (36 + caplen p)))). by apply le16_htons.
  - reflexivity.
  - change (le16 (htons (u16 (vxlan_port conf))) = [u16 (vxlan_port conf) / 256; u16 (vxlan_port conf) mod 256]).
    by apply le16_htons.
  - change (le16 (htons (u16 (16 + caplen p))) = [u16 (16 + caplen p) / 256; u16 (16 + caplen p) mod 256]).
    by apply le16_htons.
Qed.

Lemma write_packet_ok conf smac stack p :
  addr_ok (src_ip conf) -> addr_ok (dst_ip conf) -> packet_ok p ->
  exists eth ip udp, write_packet conf smac (Some stack) p =
      Ok (pkt_header p ++ (eth ++ ip ++ udp ++ vxlan_header (vxlan_vni conf)) ++ data p) /\
    wrapped conf smac p eth ip udp.
Proof.
  intros Hs Hd Hp. unfold write_packet, shost. rewrite (po_caplen p Hp), Nat2Z.id, (take_ge (data p)) by lia.
  pose proof (po_ether p Hp). pose proof (po_caplen p Hp) as Hc.
  destruct (Nat.ltb_spec (length (data p)) 12); [lia|]. cbn [res_bind read_eth_hdr]. rewrite <- Hc.
  case_bool_decide.
  - exists (ether_header (dst_mac conf) (src_mac conf)),
      (summed_ip_header (htons (u16 (36 + caplen p))) (src_ip conf) (dst_ip conf)),
      (udp_header (pkt_checksum stack 0) (htons (u16 (vxlan_port conf))) (htons (u16 (16 + caplen p)))).
    rewrite <- !app_assoc. split; [done|by apply wrapped_intro].
  - exists (ether_header (src_mac conf) (dst_mac conf)),
      (summed_ip_header (htons (u16 (36 + caplen p))) (dst_ip conf) (src_ip conf)),
      (udp_header (pkt_checksum stack 0) (htons (u16 (vxlan_port conf))) (htons (u16 (16 + caplen p)))).
    rewrite <- !app_assoc. split; [done|by apply wrapped_intro].
Qed.

(** C23: In front of every packet [pcap2vxlan] writes an Ethernet header of type IPv4, an
    IP header whose checksum is right and whose length field is that of the whole
    datagram (modulo 2^16), a UDP header with the configured port and its length, and
    the VXLAN header of the configured network (24 bits of it); then the packet as it
    was.  The addresses are in the one order for packets of the first packet's sender
    and in the other for the rest.  ([Some stack]: reading beyond [eth_hdr], from which
    the source port comes, is undefined, and some bytes were read.) *)
Theorem packet_wrapped conf smac stack p :
  addr_ok (src_ip conf) -> addr_ok (dst_ip conf) -> packet_ok p -> 0 <= vxlan_vni conf < 2 ^ 32 ->
  exists eth ip udp,
    write_packet conf smac (Some stack) p =
      Ok (pkt_header p ++
          (eth ++ ip ++ udp ++ [8; 0; 0; 0; vxlan_vni conf / 65536 mod 256; vxlan_vni conf / 256 mod 256;
                                vxlan_vni conf mod 256; 0]) ++ data p) /\
    wrapped conf smac p eth ip udp.
Proof.
  intros Hs Hd Hp Hv. destruct (write_packet_ok conf smac stack p Hs Hd Hp) as (eth & ip & udp & E & W).
  exists eth, ip, udp. rewrite vxlan_header_bytes in E by done. by split.
Qed.

(** ** Reading the capture back *)

Definition load32 (bs : list Z) : Z :=
  match bs with
  | a :: b :: c :: d :: _ => a + 256 * b + 65536 * c + 16777216 * d
  | _ => 0
  end.

Lemma load32_le32 v rest : 0 <= v < 2 ^ 32 -> load32 (le32 v ++ rest) = v.
Proof. intros Hv. cbn. unfold u8. rewrite !Z.shiftr_div_pow2 by lia. dlia. Qed.

(** The records of a capture file, its file header taken off. *)
Fixpoint read_packets (fuel : nat) (bs : list Z) : option (list packet) :=
  match bs with
  | [] => Some []
  | _ =>
      match fuel with
      | O => None
      | S fuel =>
          let cap := load32 (drop 8 bs) in
          if Z.of_nat (length bs) <? 16 + cap then None
          else
            let p := mkPacket (load32 bs) (load32 (drop 4 bs)) cap (load32 (drop 12 bs))
                       (take (Z.to_nat cap) (drop 16 bs)) in
            (p ::.) <$> read_packets fuel (drop (Z.to_nat (16 + cap)) bs)
      end
  end.

(** The packet inside: 50 bytes of headers taken off. *)
Definition unwrap (p : packet) : packet :=
  mkPacket (tv_sec p) (tv_usec p) (caplen p - 50) (plen p - 50) (drop 50 (data p)).

Lemma read_one fuel p hdr rest :
  packet_ok p -> length hdr = 50%nat ->
  read_packets (S fuel) (pkt_header p ++ hdr ++ data p ++ rest) =
    (mkPacket (tv_sec p) (tv_usec p) (caplen p + 50) (plen p + 50) (hdr ++ data p) ::.)
      <$> read_packets fuel rest.
Proof.
  intros Hp Hh. destruct Hp as [Hsec Husec Hc He Hr Hl]. cbn [read_packets].
  unfold pkt_header. rewrite <- !app_assoc, !u32_small by lia.
  assert (forall A (l : list Z) (x y : A), match le32 (tv_sec p) ++ l with [] => x | _ :: _ => y end = y) as Em by done.
  rewrite Em. set (rec := le32 (tv_sec p) ++ _).
  change (drop 8 rec) with (le32 (caplen p + 50) ++ le32 (plen p + 50) ++ hdr ++ data p ++ rest).
  change (drop 4 rec) with (le32 (tv_usec p) ++ le32 (caplen p + 50) ++ le32 (plen p + 50) ++ hdr ++ data p ++ rest).
  change (drop 12 rec) with (le32 (plen p + 50) ++ hdr ++ data p ++ rest).
  unfold rec at 2. rewrite !load32_le32 by lia.
  assert (length rec = 16 + (50 + (length (data p) + length rest)))%nat as Hlen.
  { unfold rec. rewrite !length_app, Hh. reflexivity. }
  destruct (Z.ltb_spec (Z.of_nat (length rec)) (16 + (caplen p + 50))); [lia|].
  assert (forall n, drop (16 + n) rec = drop n (hdr ++ data p ++ rest)) as Ed by done.
  rewrite (Ed 0%nat : drop 16 rec = _), drop_0.
  replace (Z.to_nat (16 + (caplen p + 50))) with (16 + (50 + length (data p)))%nat by lia.
  rewrite Ed. replace (Z.to_nat (caplen p + 50)) with (length hdr + length (data p))%nat by lia.
  rewrite <- Hh, !app_assoc, <- length_app, take_app_length, drop_app_length. done.
Qed.

(** Without such bytes the first packet is undefined behaviour. *)
Lemma over_read_undefined conf smac p : write_packet conf smac None p = UB.
Proof. unfold write_packet, shost. by destruct (_ <? 12)%nat. Qed.

(** C24: Where reading beyond [eth_hdr] yields bytes for every packet, whichever
    (otherwise the first packet is undefined behaviour: [over_read_undefined]), the
    capture [pcap2vxlan] writes from complete packets and a configuration with both MAC
    addresses, read back and stripped of the 50 bytes in front of each packet, is the
    capture it read. *)
Theorem vxlan_roundtrip conf stack ps :
  (forall i, (i < length ps)%nat -> is_Some (stack i)) ->
  src_mac conf <> 0 -> dst_mac conf <> 0 -> addr_ok (src_ip conf) -> addr_ok (dst_ip conf) ->
  Forall packet_ok ps ->
  exists out, main conf stack ps = Ok (file_header ++ out) /\
    map unwrap <$> read_packets (length ps) out = Some ps.
Proof.
  intros Hst Hm1 Hm2 Hs Hd Hps. unfold main. rewrite (proj2 (Z.eqb_neq _ _) Hm1), (proj2 (Z.eqb_neq _ _) Hm2).
  cbn [orb].
  assert (exists smac, match ps with p :: _ => shost p | [] => Ok [] end = Ok smac) as [smac ->].
  { destruct ps as [|p ps]; [by eexists|]. apply Forall_cons in Hps as [Hp _]. unfold shost.
    pose proof (po_ether p Hp). pose proof (po_caplen p Hp).
    destruct (Nat.ltb_spec (length (data p)) 12); [lia|by eexists]. }
  cbn [res_bind].
  assert (forall k, (forall i, (i < length ps)%nat -> is_Some (stack (k + i)%nat)) ->
    exists out, write_packets conf smac stack k ps = Ok out /\
    map unwrap <$> read_packets (length ps) out = Some ps) as Hloop.
  { clear Hst. induction Hps as [|p ps Hp Hps IH]; intros k Hst; [by exists []|]. cbn [write_packets length].
    destruct (IH (S k)) as (out & E & Hr).
    { intros i Hi. replace (S k + i)%nat with (k + S i)%nat by lia. apply Hst. cbn. lia. }
    destruct (Hst 0%nat) as [bytes Hb]; [cbn; lia|]. rewrite Nat.add_0_r in Hb. rewrite Hb.
    destruct (write_packet_ok conf smac bytes p Hs Hd Hp) as (eth & ip & udp & Ew & W).
    rewrite Ew. cbn [res_bind]. rewrite E. cbn [res_bind]. eexists. split; [reflexivity|].
    destruct W as [[We _] [Wi _] _ _ _ Wu _ _].
    rewrite <- !app_assoc. rewrite (app_assoc udp), (app_assoc ip), (app_assoc eth).
    rewrite read_one by (done || rewrite !length_app, We, Wi, Wu; reflexivity).
    destruct (read_packets (length ps) out) as [rs|]; [|done]. cbn in Hr |- *. injection Hr as Hr.
    rewrite Hr. unfold unwrap. cbn. do 2 f_equal.
    rewrite !Z.add_simpl_r. rewrite drop_app_length' by (rewrite !length_app, We, Wi, Wu; reflexivity).
    by destruct p. }
  destruct (Hloop 0%nat Hst) as (out & E & Hr). rewrite E. cbn [res_bind]. by exists out.
Qed.

(** Both MAC addresses of a configuration are the one buffer [ether_aton] returns, so
    the bytes parsed for the first are gone. *)
Lemma parse_row_macs ether_aton ether_buf inet_pton conf row conf' :
  (src_mac conf = 0 \/ src_mac conf = ether_buf) -> (dst_mac conf = 0 \/ dst_mac conf = ether_buf) ->
  parse_row ether_aton ether_buf inet_pton conf row = Ok conf' ->
  (src_mac conf' = 0 \/ src_mac conf' = ether_buf) /\ (dst_mac conf' = 0 \/ dst_mac conf' = ether_buf).
Proof.
  intros Hs Hd. unfold parse_row, parse_mac, parse_ip. intros H.
  repeat (case_match; cbn [res_bind] in H; try discriminate);
    try (injection H as <-; by auto);
    repeat (apply res_bind_Ok in H as (? & ? & H); repeat (case_match; cbn [res_bind] in H; try discriminate));
    simplify_eq; by auto.
Qed.

Lemma parse_conf_macs ether_aton ether_buf inet_pton rows conf :
  parse_conf ether_aton ether_buf inet_pton rows = Ok conf ->
  src_mac conf <> 0 -> dst_mac conf <> 0 -> src_mac conf = dst_mac conf.
Proof.
  intros H Hs Hd. unfold parse_conf in H.
  assert (forall c, (src_mac c = 0 \/ src_mac c = ether_buf) -> (dst_mac c = 0 \/ dst_mac c = ether_buf) ->
    parse_rows ether_aton ether_buf inet_pton c rows = Ok conf ->
    (src_mac conf = 0 \/ src_mac conf = ether_buf) /\ (dst_mac conf = 0 \/ dst_mac conf = ether_buf)) as Hr.
  { clear H. induction rows as [|row rows IH]; intros c Cs Cd; cbn [parse_rows].
    - by intros [= <-].
    - intros (c' & E & H)%res_bind_Ok.
      destruct (parse_row_macs ether_aton ether_buf inet_pton c row c' Cs Cd E) as [Cs' Cd']. by apply (IH c'). }
  apply Hr in H as [[|] [|]]; [congruence..|by left|by left].
Qed.

(** ** Concrete runs *)

Definition example_conf : sys_conf := mkConf 4096 4096 [10; 0; 0; 1] [10; 0; 0; 2] 4789 74565.
Definition example_packet : packet :=
  mkPacket 1 2 14 14 [1; 2; 3; 4; 5; 6; 7; 8; 9; 10; 11; 12; 8; 0].

Lemma example_packet_ok : packet_ok example_packet.
Proof. by split. Qed.

Lemma packet_wrapped_witness :
  exists eth ip udp,
    write_packet example_conf [7; 8; 9; 10; 11; 12] (Some [0; 16]) example_packet =
      Ok (pkt_header example_packet ++
          (eth ++ ip ++ udp ++ [8; 0; 0; 0; 1; 35; 69; 0]) ++ data example_packet) /\
    wrapped example_conf [7; 8; 9; 10; 11; 12] example_packet eth ip udp.
Proof.
  apply (packet_wrapped example_conf [7; 8; 9; 10; 11; 12] [0; 16] example_packet).
  - split; [done|by repeat constructor].
  - split; [done|by repeat constructor].
  - exact example_packet_ok.
  - done.
Defined.

Lemma vxlan_roundtrip_witness :
  exists out, main example_conf (fun i => Some [Z.of_nat i; 16]) [example_packet; example_packet] = Ok (file_header ++ out) /\
    map unwrap <$> read_packets 2 out = Some [example_packet; example_packet].
Proof.
  apply (vxlan_roundtrip example_conf (fun i => Some [Z.of_nat i; 16]) [example_packet; example_packet]).
  - intros i _. by eexists.
  - done.
  - done.
  - split; [done|by repeat constructor].
  - split; [done|by repeat constructor].
  - constructor; [exact example_packet_ok|]. constructor; [exact example_packet_ok|constructor].
Defined.
