(* ===== verification/FifoMap.v ===== *)
(** * [dict/fifo_map.hpp]: a [std::map] ordered by time of insertion

    Objects live in a store, since the comparison objects point at the [m_keys] of some
    map.  A [std::map] is the sequence of its elements; every search asks, as the
    standard does, that the comparison orders the elements the way they are stored, and
    is [UB] when it does not.  Iterators are positions, [end()] is the length. *)

From stdpp Require Import gmap.
From S2P Require Import Prelude.
Local Open Scope Z_scope.

Section FifoMap.
Context {Key : Type} `{Countable Key} {T : Type} (T_default : T).

(** The pointer [m_keys] is the address of the map that has it. *)
Record fifo_map_compare := mkCompare { m_timestamp : Z; m_keys_ptr : nat }.

Record fifo_map := mkFifo {
  m_keys : gmap Key Z;
  m_compare : fifo_map_compare;
  map_compare : fifo_map_compare;   (* the copy inside [m_map] *)
  m_map : list (Key * T)
}.

Local Abbreviation store := (gmap nat fifo_map).

Definition get (s : store) (p : nat) : res fifo_map :=
  match s !! p with Some f => Ok f | None => UB end.
Definition set_keys (f : fifo_map) (ks : gmap Key Z) : fifo_map :=
  mkFifo ks (m_compare f) (map_compare f) (m_map f).
Definition set_map (f : fifo_map) (l : list (Key * T)) : fifo_map :=
  mkFifo (m_keys f) (m_compare f) (map_compare f) l.
Definition set_timestamp (f : fifo_map) (t : Z) : fifo_map :=
  mkFifo (m_keys f) (mkCompare t (m_keys_ptr (m_compare f))) (map_compare f) (m_map f).

(** ** [fifo_map_compare] *)

Definition less (ks : gmap Key Z) (lhs rhs : Key) : bool :=
  match ks !! lhs with
  | None => false
  | Some timestamp_lhs =>
      match ks !! rhs with
      | None => true
      | Some timestamp_rhs => timestamp_lhs <? timestamp_rhs
      end
  end.

(** [unordered_map::insert] keeps an entry that is there. *)
Definition insert_new (ks : gmap Key Z) (k : Key) (t : Z) : gmap Key Z :=
  match ks !! k with Some _ => ks | None => <[k := t]> ks end.

Definition add_key (s : store) (this : nat) (key : Key) : res store :=
  let! f := get s this in
  let t := m_timestamp (m_compare f) in
  let s := <[this := set_timestamp f (u64 (t + 1))]> s in
  let! g := get s (m_keys_ptr (m_compare f)) in
  Ok (<[m_keys_ptr (m_compare f) := set_keys g (insert_new (m_keys g) key t)]> s).

Definition remove_key (s : store) (this : nat) (key : Key) : res store :=
  let! f := get s this in
  let! g := get s (m_keys_ptr (m_compare f)) in
  Ok (<[m_keys_ptr (m_compare f) := set_keys g (delete key (m_keys g))]> s).

(** ** [std::map] *)

Fixpoint ordered (lt : Key -> Key -> bool) (l : list (Key * T)) : bool :=
  match l with
  | [] => true
  | e :: l => forallb (fun e' => lt e.1 e'.1 && negb (lt e'.1 e.1)) l && ordered lt l
  end.
Fixpoint lower_index (lt : Key -> Key -> bool) (l : list (Key * T)) (key : Key) : nat :=
  match l with
  | [] => 0
  | e :: l => if lt e.1 key then S (lower_index lt l key) else 0
  end.
Fixpoint upper_index (lt : Key -> Key -> bool) (l : list (Key * T)) (key : Key) : nat :=
  match l with
  | [] => 0
  | e :: l => if lt key e.1 then 0 else S (upper_index lt l key)
  end.

(** The comparison of a map and its elements. *)
Definition view (s : store) (this : nat) : res ((Key -> Key -> bool) * list (Key * T)) :=
  let! f := get s this in
  let! g := get s (m_keys_ptr (map_compare f)) in
  if ordered (less (m_keys g)) (m_map f) then Ok (less (m_keys g), m_map f) else UB.

Definition lower_bound (s : store) (this : nat) (key : Key) : res nat :=
  let! (lt, l) := view s this in Ok (lower_index lt l key).
Definition upper_bound (s : store) (this : nat) (key : Key) : res nat :=
  let! (lt, l) := view s this in Ok (upper_index lt l key).
Definition equal_range (s : store) (this : nat) (key : Key) : res (nat * nat) :=
  let! lo := lower_bound s this key in
  let! up := upper_bound s this key in Ok (lo, up).

Definition find_index (lt : Key -> Key -> bool) (l : list (Key * T)) (key : Key) : nat :=
  let i := lower_index lt l key in
  match l !! i with
  | Some e => if lt key e.1 then length l else i
  | None => length l
  end.
Definition find (s : store) (this : nat) (key : Key) : res nat :=
  let! (lt, l) := view s this in Ok (find_index lt l key).

(** [m_map.insert]: the position of the key and whether it is new. *)
Definition map_insert (s : store) (this : nat) (value : Key * T) : res (store * (nat * bool)) :=
  let! (lt, l) := view s this in
  let i := lower_index lt l value.1 in
  let there := match l !! i with Some e => negb (lt value.1 e.1) | None => false end in
  if there then Ok (s, (i, false))
  else
    let! f := get s this in
    Ok (<[this := set_map f (take i l ++ value :: drop i l)]> s, (i, true)).

Fixpoint map_insert_range (s : store) (this : nat) (values : list (Key * T)) : res store :=
  match values with
  | [] => Ok s
  | value :: values => let! (s, _) := map_insert s this value in map_insert_range s this values
  end.

(** ** Element access *)

Definition at_ (s : store) (this : nat) (key : Key) : res (option T) :=
  let! i := find s this key in
  let! f := get s this in Ok (snd <$> (m_map f !! i)).

(** The reference [operator[]] returns, as a position. *)
Definition index_op (s : store) (this : nat) (key : Key) : res (store * nat) :=
  let! s := add_key s this key in
  let! (s, (i, _)) := map_insert s this (key, T_default) in Ok (s, i).

(** An assignment through a reference. *)
Definition assign (s : store) (this i : nat) (v : T) : res store :=
  let! f := get s this in
  match m_map f !! i with
  | Some e => Ok (<[this := set_map f (<[i := (e.1, v)]> (m_map f))]> s)
  | None => UB
  end.

Definition count (s : store) (this : nat) (key : Key) : res nat :=
  let! i := find s this key in
  let! f := get s this in Ok (if decide (i = length (m_map f)) then 0%nat else 1%nat).

Definition empty (f : fifo_map) : bool := match m_map f with [] => true | _ => false end.
Definition size (f : fifo_map) : nat := length (m_map f).

(** ** Modifiers *)

Definition clear (s : store) (this : nat) : res store :=
  let! f := get s this in Ok (<[this := set_keys (set_map f []) ∅]> s).

Definition insert (s : store) (this : nat) (value : Key * T) : res (store * (nat * bool)) :=
  let! s := add_key s this value.1 in map_insert s this value.

(** The hint changes nothing but the time. *)
Definition insert_hint (s : store) (this hint : nat) (value : Key * T) : res (store * nat) :=
  let! s := add_key s this value.1 in
  let! (s, (i, _)) := map_insert s this value in Ok (s, i).

Fixpoint add_keys (s : store) (this : nat) (values : list (Key * T)) : res store :=
  match values with
  | [] => Ok s
  | value :: values => let! s := add_key s this value.1 in add_keys s this values
  end.

Definition insert_range (s : store) (this : nat) (values : list (Key * T)) : res store :=
  let! s := add_keys s this values in map_insert_range s this values.

(** [emplace] and [emplace_hint] build the pair first. *)
Definition emplace (s : store) (this : nat) (k : Key) (v : T) : res (store * (nat * bool)) :=
  let value := (k, v) in
  let! s := add_key s this value.1 in map_insert s this value.

Definition erase_pos (s : store) (this pos : nat) : res (store * nat) :=
  let! f := get s this in
  match m_map f !! pos with
  | None => UB
  | Some e =>
      let! s := remove_key s this e.1 in
      let! f := get s this in
      Ok (<[this := set_map f (delete pos (m_map f))]> s, pos)
  end.

Fixpoint remove_keys (s : store) (this : nat) (values : list (Key * T)) : res store :=
  match values with
  | [] => Ok s
  | value :: values => let! s := remove_key s this value.1 in remove_keys s this values
  end.

Definition erase_range (s : store) (this first last : nat) : res (store * nat) :=
  let! f := get s this in
  if (first <=? last)%nat && (last <=? length (m_map f))%nat then
    let! s := remove_keys s this (take (last - first) (drop first (m_map f))) in
    let! f := get s this in
    Ok (<[this := set_map f (take first (m_map f) ++ drop last (m_map f))]> s, first)
  else UB.

(** [m_map.erase(key)] removes the elements equivalent to the key. *)
Definition erase_key (s : store) (this : nat) (key : Key) : res (store * nat) :=
  let! (lo, up) := equal_range s this key in
  let! f := get s this in
  let s := <[this := set_map f (take lo (m_map f) ++ drop up (m_map f))]> s in
  let n := (up - lo)%nat in
  if (0 <? n)%nat then let! s := remove_key s this key in Ok (s, n) else Ok (s, n).

(** The three members are swapped; the pointers come along. *)
Definition swap (s : store) (this other : nat) : res store :=
  let! f := get s this in
  let! g := get s other in Ok (<[this := g]> (<[other := f]> s)).

(** ** Constructors and assignment *)

Definition new_fifo_map (s : store) (this : nat) : store :=
  <[this := mkFifo ∅ (mkCompare 1 this) (mkCompare 1 this) []]> s.

Definition copy_fifo_map (s : store) (this other : nat) : res store :=
  let! f := get s other in
  let c := mkCompare (m_timestamp (m_compare f)) this in
  map_insert_range (<[this := mkFifo (m_keys f) c c []]> s) this (m_map f).

Fixpoint insert_all (s : store) (this : nat) (values : list (Key * T)) : res store :=
  match values with
  | [] => Ok s
  | value :: values => let! (s, _) := insert s this value in insert_all s this values
  end.

(** The range and the initializer list. *)
Definition range_fifo_map (s : store) (this : nat) (values : list (Key * T)) : res store :=
  insert_all (new_fifo_map s this) this values.

(** The assignment the compiler defines copies the members, pointers included. *)
Definition copy_assign (s : store) (this other : nat) : res store :=
  let! f := get s other in
  let! _ := get s this in Ok (<[this := f]> s).

(** [operator==]. *)
Definition fifo_eq `{EqDecision T} (lhs rhs : fifo_map) : bool := bool_decide (m_map lhs = m_map rhs).

(** ** Comparison of maps

    [std::map] compares its elements one by one with the operators of [Key] and [T], not
    with the map's own order. *)
Section Compare.
Context `{EqDecision T} (key_lt : Key -> Key -> bool) (val_lt : T -> T -> bool).

(** [operator<] of [std::pair]. *)
Definition pair_lt (x y : Key * T) : bool :=
  key_lt x.1 y.1 || (negb (key_lt y.1 x.1) && val_lt x.2 y.2).

(** [std::lexicographical_compare]. *)
Fixpoint lexicographical_compare (l r : list (Key * T)) : bool :=
  match l, r with
  | _, [] => false
  | [], _ :: _ => true
  | x :: l, y :: r =>
      if pair_lt x y then true else if pair_lt y x then false else lexicographical_compare l r
  end.

Definition fifo_ne (lhs rhs : fifo_map) : bool := negb (fifo_eq lhs rhs).
Definition fifo_lt (lhs rhs : fifo_map) : bool := lexicographical_compare (m_map lhs) (m_map rhs).
Definition fifo_le (lhs rhs : fifo_map) : bool := negb (fifo_lt rhs lhs).
Definition fifo_gt (lhs rhs : fifo_map) : bool := fifo_lt rhs lhs.
Definition fifo_ge (lhs rhs : fifo_map) : bool := negb (fifo_lt lhs rhs).
End Compare.

(** ** Iterators: positions in the sequence of the elements *)

Definition begin (f : fifo_map) : nat := 0.
Definition end_ (f : fifo_map) : nat := length (m_map f).
Definition cbegin (f : fifo_map) : nat := begin f.
Definition cend (f : fifo_map) : nat := end_ f.
(** A reverse iterator holds the position behind its element. *)
Definition rbegin (f : fifo_map) : nat := end_ f.
Definition rend (f : fifo_map) : nat := begin f.
Definition crbegin (f : fifo_map) : nat := rbegin f.
Definition crend (f : fifo_map) : nat := rend f.

(** [for (it = first; it != last; ++it)], and the same with reverse iterators. *)
Fixpoint walk (f : fifo_map) (fuel first last : nat) : list (Key * T) :=
  match fuel with
  | O => []
  | S n => if decide (first = last) then [] else
           match m_map f !! first with Some x => x :: walk f n (S first) last | None => [] end
  end.
Fixpoint walk_back (f : fifo_map) (fuel first last : nat) : list (Key * T) :=
  match fuel, first with
  | S n, S i => if decide (first = last) then [] else
           match m_map f !! i with Some x => x :: walk_back f n i last | None => [] end
  | _, _ => []
  end.

(** What [std::map] can hold is the library's. *)
Definition max_size (map_max_size : nat) (f : fifo_map) : nat := map_max_size.
(** [key_comp()]: a copy, which points at the same keys. *)
Definition key_comp (f : fifo_map) : fifo_map_compare := m_compare f.
(** [std::swap]. *)
Definition std_swap (s : store) (m1 m2 : nat) : res store := swap s m1 m2.

End FifoMap.
