(* ===== verification/FifoProps.v ===== *)
(** * [fifo_map]: insertion order, and what breaks it *)

From stdpp Require Import gmap.
From S2P Require Import Prelude FifoMap.

Section FifoProps.
Context {Key : Type} `{Countable Key} {T : Type} (T_default : T).
Implicit Types (l : list (Key * T)) (ks : gmap Key Z) (s : gmap nat (@fifo_map Key _ _ T)) (f : @fifo_map Key _ _ T).

(** ** Searching a sequence *)

Lemma lower_index_app (lt : Key -> Key -> bool) l1 l2 k :
  Forall (fun e => lt e.1 k = true) l1 -> (match l2 with e :: _ => lt e.1 k = false | [] => True end) ->
  lower_index lt (l1 ++ l2) k = length l1.
Proof.
  intros H1 H2. induction H1 as [|e l1 He _ IH]; cbn [lower_index app length].
  - destruct l2 as [|e l2]; [done|]. cbn. by rewrite H2.
  - by rewrite He, IH.
Qed.

Lemma upper_index_app (lt : Key -> Key -> bool) l1 l2 k :
  Forall (fun e => lt k e.1 = false) l1 -> (match l2 with e :: _ => lt k e.1 = true | [] => True end) ->
  upper_index lt (l1 ++ l2) k = length l1.
Proof.
  intros H1 H2. induction H1 as [|e l1 He _ IH]; cbn [upper_index app length].
  - destruct l2 as [|e l2]; [done|]. cbn. by rewrite H2.
  - by rewrite He, IH.
Qed.

(** ** The invariant *)

Definition time ks (k : Key) : Z := default 0 (ks !! k).
Definition earlier ks (a b : Key * T) : Prop := time ks a.1 < time ks b.1.

(** The comparison points at the map's own keys, which are those of the elements, with
    their times of insertion in order. *)
Record fifo_ok (p : nat) f : Prop := mkFifoOk {
  fo_ptr : m_keys_ptr (m_compare f) = p;
  fo_map_ptr : m_keys_ptr (map_compare f) = p;
  fo_dom : forall k, is_Some (m_keys f !! k) <-> k ∈ (m_map f).*1;
  fo_order : StronglySorted (earlier (m_keys f)) (m_map f);
  fo_bound : forall k t, m_keys f !! k = Some t -> t < m_timestamp (m_compare f);
  fo_now : 0 <= m_timestamp (m_compare f)
}.

Lemma less_known ks a b :
  is_Some (ks !! a) -> is_Some (ks !! b) -> less ks a b = (time ks a <? time ks b).
Proof. intros [x Hx] [y Hy]. unfold less, time. by rewrite Hx, Hy. Qed.

Lemma less_unknown_r ks a b : is_Some (ks !! a) -> ks !! b = None -> less ks a b = true.
Proof. intros [x Hx] Hy. unfold less. by rewrite Hx, Hy. Qed.

Lemma known_elem ks l : (forall k, k ∈ l.*1 -> is_Some (ks !! k)) -> Forall (fun e => is_Some (ks !! e.1)) l.
Proof. intros Hk. apply Forall_forall. intros e He. apply Hk. by apply list_elem_of_fmap_2. Qed.

Lemma ordered_ok ks l :
  Forall (fun e => is_Some (ks !! e.1)) l -> StronglySorted (earlier ks) l -> ordered (less ks) l = true.
Proof.
  intros Hk Hs. induction Hs as [|e l Hs IH He]; [done|]. apply Forall_cons in Hk as [Hke Hk].
  cbn [ordered]. rewrite IH by done. rewrite andb_true_r. apply forallb_forall.
  intros e' He'. apply list_elem_of_In in He'. rewrite Forall_forall in He, Hk.
  specialize (He e' He'). specialize (Hk e' He'). unfold earlier in He. rewrite !less_known by done.
  apply andb_true_iff. rewrite negb_true_iff, Z.ltb_lt, Z.ltb_ge. lia.
Qed.

Lemma view_elems s p f :
  s !! p = Some f -> m_keys_ptr (map_compare f) = p ->
  Forall (fun e => is_Some (m_keys f !! e.1)) (m_map f) -> StronglySorted (earlier (m_keys f)) (m_map f) ->
  view s p = Ok (less (m_keys f), m_map f).
Proof.
  intros Hp Hq Hk Hs. unfold view, get. rewrite Hp. cbn [res_bind]. rewrite Hq, Hp. cbn [res_bind].
  by rewrite ordered_ok.
Qed.

Lemma fifo_known p f : fifo_ok p f -> Forall (fun e => is_Some (m_keys f !! e.1)) (m_map f).
Proof. intros Ho. apply known_elem. intros k. apply (fo_dom p f Ho). Qed.

Lemma view_ok s p f : s !! p = Some f -> fifo_ok p f -> view s p = Ok (less (m_keys f), m_map f).
Proof. intros Hp Ho. apply view_elems; [done|apply Ho|by eapply fifo_known|apply Ho]. Qed.

Lemma sorted_mid ks l1 e l2 :
  StronglySorted (earlier ks) (l1 ++ e :: l2) -> Forall (fun a => earlier ks a e) l1 /\ Forall (earlier ks e) l2.
Proof.
  induction l1 as [|a l1 IH]; intros Hs; apply StronglySorted_inv in Hs as [Hs Ha]; [done|].
  destruct (IH Hs) as [H1 H2]. split; [|done]. constructor; [|done].
  apply Forall_app in Ha as [_ Ha]. by apply Forall_cons in Ha as [Ha _].
Qed.

Lemma search_known ks l1 k v l2 :
  Forall (fun e => is_Some (ks !! e.1)) (l1 ++ (k, v) :: l2) ->
  StronglySorted (earlier ks) (l1 ++ (k, v) :: l2) ->
  lower_index (less ks) (l1 ++ (k, v) :: l2) k = length l1 /\ upper_index (less ks) (l1 ++ (k, v) :: l2) k = S (length l1) /\ find_index (less ks) (l1 ++ (k, v) :: l2) k = length l1.
Proof.
  intros Hk Hs. destruct (sorted_mid _ _ _ _ Hs) as [H1 H2].
  apply Forall_app in Hk as [K1 K2]. apply Forall_cons in K2 as [Kk K2]. cbn in Kk.
  assert (lower_index (less ks) (l1 ++ (k, v) :: l2) k = length l1) as El.
  { apply lower_index_app; [|cbn; rewrite less_known by done; apply Z.ltb_irrefl].
    rewrite Forall_forall in *. intros e He. rewrite less_known by auto. apply Z.ltb_lt. by apply H1. }
  split; [done|]. split.
  - change (l1 ++ (k, v) :: l2) with (l1 ++ [(k, v)] ++ l2). rewrite app_assoc, upper_index_app.
    + rewrite length_app. cbn. lia.
    + apply Forall_app. split; [|repeat constructor; cbn; rewrite less_known by done; apply Z.ltb_irrefl].
      rewrite Forall_forall in *. intros e He. rewrite less_known by auto. apply Z.ltb_ge.
      specialize (H1 e He). unfold earlier in H1. cbn in H1. lia.
    + destruct l2 as [|e l2]; [done|]. apply Forall_cons in H2 as [He _]. apply Forall_cons in K2 as [Ke _].
      rewrite less_known by done. by apply Z.ltb_lt.
  - unfold find_index. rewrite El, lookup_app_r, Nat.sub_diag by lia. cbn.
    by rewrite less_known, Z.ltb_irrefl by done.
Qed.

Lemma search_unknown ks l k :
  Forall (fun e => is_Some (ks !! e.1)) l -> ks !! k = None ->
  lower_index (less ks) l k = length l /\ upper_index (less ks) l k = length l /\ find_index (less ks) l k = length l.
Proof.
  intros Hk Hn.
  assert (lower_index (less ks) l k = length l) as El.
  { rewrite <- (app_nil_r l) at 1. apply lower_index_app; [|done].
    eapply Forall_impl; [exact Hk|]. intros e He. by apply less_unknown_r. }
  split; [done|]. split.
  - rewrite <- (app_nil_r l) at 1. apply upper_index_app; [|done].
    apply Forall_true. intros e. unfold less. by rewrite Hn.
  - unfold find_index. rewrite El. by rewrite lookup_ge_None_2.
Qed.

(** ** Adding a key *)

(** [f] with one more tick, and [k] entered when it is new. *)
Definition ticked f k : fifo_map :=
  mkFifo (insert_new (m_keys f) k (m_timestamp (m_compare f)))
    (mkCompare (m_timestamp (m_compare f) + 1) (m_keys_ptr (m_compare f))) (map_compare f) (m_map f).

Lemma add_key_ok s p f k :
  s !! p = Some f -> fifo_ok p f -> m_timestamp (m_compare f) + 1 < 2 ^ 64 ->
  add_key s p k = Ok (<[p := ticked f k]> s).
Proof.
  intros Hp Ho Ht. unfold add_key, get. rewrite Hp. cbn [res_bind]. rewrite (fo_ptr p f Ho), lookup_insert_eq.
  cbn [res_bind]. rewrite insert_insert_eq. unfold set_keys, set_timestamp, ticked. cbn.
  pose proof (fo_now p f Ho). rewrite u64_small by lia. by rewrite (fo_ptr p f Ho).
Qed.

Lemma insert_new_known ks k t : is_Some (ks !! k) -> insert_new ks k t = ks.
Proof. intros [x Hx]. unfold insert_new. by rewrite Hx. Qed.

Lemma ticked_known p f k : fifo_ok p f -> is_Some (m_keys f !! k) -> fifo_ok p (ticked f k).
Proof.
  intros [H1 H2 H3 H4 H5 H6] Hk. unfold ticked. rewrite insert_new_known by done. split; cbn; try done.
  - intros k' t Hk'. specialize (H5 k' t Hk'). lia.
  - lia.
Qed.

(** The elements keep their order under a key that is none of theirs. *)
Lemma new_key_order ks l k t :
  (forall k', k' ∈ l.*1 -> is_Some (ks !! k')) -> ks !! k = None -> StronglySorted (earlier ks) l ->
  StronglySorted (earlier (<[k := t]> ks)) l /\ Forall (fun e => is_Some (<[k := t]> ks !! e.1)) l.
Proof.
  intros Hk Hn Hs.
  assert (forall e, e ∈ l -> <[k := t]> ks !! e.1 = ks !! e.1) as Hl.
  { intros e He. apply lookup_insert_ne. intros ->. destruct (Hk e.1) as [x Hx]; [by apply list_elem_of_fmap_2|].
    congruence. }
  split.
  - clear Hk. induction Hs as [|e l Hs IH He]; [constructor|]. constructor.
    + apply IH. intros e' He'. apply Hl. by right.
    + rewrite Forall_forall in *. intros e' He'. unfold earlier, time. rewrite !Hl by (by left || by right).
      by apply He.
  - apply Forall_forall. intros e He. rewrite Hl by done. apply Hk. by apply list_elem_of_fmap_2.
Qed.

(** ** The operations *)

(** What the operations do to the sequence of elements. *)
Definition spec_insert l k v : list (Key * T) := if decide (k ∈ l.*1) then l else l ++ [(k, v)].
Definition spec_assign l k v : list (Key * T) :=
  if decide (k ∈ l.*1) then (fun e => if decide (e.1 = k) then (k, v) else e) <$> l else l ++ [(k, v)].
Definition spec_erase l k : list (Key * T) := filter (fun e => e.1 <> k) l.
Definition spec_at l k : option T := snd <$> head (filter (fun e => e.1 = k) l).

Lemma split_key p f k :
  fifo_ok p f -> k ∈ (m_map f).*1 ->
  exists l1 v l2, m_map f = l1 ++ (k, v) :: l2 /\ Forall (fun e => e.1 <> k) l1 /\ Forall (fun e => e.1 <> k) l2.
Proof.
  intros Ho Hk. apply list_elem_of_fmap in Hk as ([k' v] & Hk' & Hin). cbn in Hk'. subst k'.
  apply list_elem_of_split in Hin as (l1 & l2 & E). exists l1, v, l2. split; [done|].
  pose proof (fo_order p f Ho) as Hs. rewrite E in Hs. apply sorted_mid in Hs as [H1 H2].
  split; (eapply Forall_impl; [eassumption|]); intros e He Hek; unfold earlier in He; cbn in He; rewrite Hek in He; lia.
Qed.

Lemma known_key p f k : fifo_ok p f -> k ∈ (m_map f).*1 -> is_Some (m_keys f !! k).
Proof. intros Ho. apply (fo_dom p f Ho). Qed.

Lemma unknown_key p f k : fifo_ok p f -> k ∉ (m_map f).*1 -> m_keys f !! k = None.
Proof. intros Ho Hk. apply eq_None_not_Some. intros Hs. by apply Hk, (fo_dom p f Ho). Qed.

Lemma search_ok p f k :
  fifo_ok p f ->
  (exists l1 v l2, m_map f = l1 ++ (k, v) :: l2 /\ Forall (fun e => e.1 <> k) l1 /\ Forall (fun e => e.1 <> k) l2 /\
     k ∈ (m_map f).*1 /\ lower_index (less (m_keys f)) (m_map f) k = length l1 /\
     upper_index (less (m_keys f)) (m_map f) k = S (length l1) /\
     find_index (less (m_keys f)) (m_map f) k = length l1) \/
  (k ∉ (m_map f).*1 /\ m_keys f !! k = None /\
     lower_index (less (m_keys f)) (m_map f) k = length (m_map f) /\
     upper_index (less (m_keys f)) (m_map f) k = length (m_map f) /\
     find_index (less (m_keys f)) (m_map f) k = length (m_map f)).
Proof.
  intros Ho. pose proof (fifo_known p f Ho) as Hkn. pose proof (fo_order p f Ho) as Hs.
  destruct (decide (k ∈ (m_map f).*1)) as [Hk|Hk].
  - left. destruct (split_key p f k Ho Hk) as (l1 & v & l2 & E & N1 & N2). exists l1, v, l2.
    rewrite E in Hkn, Hs. destruct (search_known _ _ _ _ _ Hkn Hs) as (A & B & C). rewrite E in *. by split_and!.
  - right. pose proof (unknown_key p f k Ho Hk) as Hn.
    destruct (search_unknown _ _ k Hkn Hn) as (A & B & C). by split_and!.
Qed.

(** The state after an insertion. *)
Definition inserted f k v : fifo_map :=
  set_map (ticked f k) (spec_insert (m_map f) k v).

Lemma ticked_new p f k v :
  fifo_ok p f -> k ∉ (m_map f).*1 -> fifo_ok p (set_map (ticked f k) (m_map f ++ [(k, v)])).
Proof.
  intros Ho Hk. pose proof (unknown_key p f k Ho Hk) as Hn. destruct Ho as [H1 H2 H3 H4 H5 H6].
  unfold ticked, insert_new. rewrite Hn. split; cbn; try done; [| | |lia].
  - intros k'. rewrite lookup_insert_is_Some, fmap_app, elem_of_app, H3. cbn. rewrite list_elem_of_singleton.
    destruct (decide (k = k')); naive_solver.
  - destruct (new_key_order (m_keys f) (m_map f) k (m_timestamp (m_compare f))) as [Hs Hkn]; [naive_solver..|].
    apply StronglySorted_app_2; [|done|repeat constructor].
    intros e e' He He'. apply list_elem_of_singleton in He'. subst e'. unfold earlier, time. cbn.
    rewrite lookup_insert_eq. cbn.
    assert (e.1 ∈ (m_map f).*1) as Hin by by apply list_elem_of_fmap_2.
    rewrite lookup_insert_ne by (intros ->; done).
    apply H3 in Hin as [t Ht]. rewrite Ht. cbn. by eapply H5.
  - intros k' t. destruct (decide (k = k')) as [->|].
    + rewrite lookup_insert_eq. intros [= <-]. lia.
    + rewrite lookup_insert_ne by done. intros Ht. specialize (H5 k' t Ht). lia.
Qed.

Lemma inserted_ok p f k v : fifo_ok p f -> fifo_ok p (inserted f k v).
Proof.
  intros Ho. unfold inserted, spec_insert. case_decide as Hk.
  - replace (set_map (ticked f k) (m_map f)) with (ticked f k) by done.
    apply ticked_known; [done|by eapply known_key].
  - by apply ticked_new.
Qed.

(** The position the search gives an entered key. *)
Fixpoint position l k : nat :=
  match l with
  | [] => 0
  | e :: l => if decide (e.1 = k) then 0 else S (position l k)
  end.

Lemma position_split l1 k v l2 : Forall (fun e => e.1 <> k) l1 -> position (l1 ++ (k, v) :: l2) k = length l1.
Proof.
  induction 1 as [|e l1 He _ IH]; cbn; [by rewrite decide_True|]. by rewrite decide_False, IH.
Qed.

Lemma position_end l k : k ∉ l.*1 -> position l k = length l.
Proof.
  induction l as [|e l IH]; cbn; [done|]. intros Hk. apply not_elem_of_cons in Hk as [Hke Hk].
  by rewrite decide_False, IH by congruence.
Qed.

Lemma map_insert_ok s p f k v :
  s !! p = Some f -> fifo_ok p f ->
  map_insert (<[p := ticked f k]> s) p (k, v) =
    Ok (<[p := inserted f k v]> s, (position (m_map f) k, bool_decide (k ∉ (m_map f).*1))).
Proof.
  intros Hp Ho. unfold inserted, spec_insert, map_insert.
  destruct (search_ok p f k Ho) as [(l1 & w & l2 & E & N1 & N2 & Hk & L & _ & _)|(Hk & Hn & _)].
  - pose proof (ticked_known p f k Ho (known_key p f k Ho Hk)) as Ho'.
    rewrite (view_ok _ p (ticked f k)) by (done || by rewrite lookup_insert_eq). cbn [res_bind].
    unfold ticked. cbn. rewrite insert_new_known by (by eapply known_key). rewrite L.
    rewrite decide_True, bool_decide_eq_false_2 by tauto.
    replace (m_map f !! length l1) with (Some (k, w)) by (by rewrite E, list_lookup_middle).
    cbn. rewrite less_known, Z.ltb_irrefl by (by eapply known_key). cbn.
    by rewrite E, position_split.
  - rewrite decide_False, bool_decide_eq_true_2, position_end by done.
    destruct (new_key_order (m_keys f) (m_map f) k (m_timestamp (m_compare f))) as [Hs Hkn];
      [intros k'; apply (fo_dom p f Ho)|done|apply Ho|].
    assert (m_keys (ticked f k) = <[k := m_timestamp (m_compare f)]> (m_keys f)) as Ek
      by (cbn; unfold insert_new; by rewrite Hn).
    rewrite (view_elems _ p (ticked f k)) by (rewrite ?lookup_insert_eq, ?Ek; done || apply Ho).
    cbn [res_bind]. rewrite Ek. cbn [ticked m_map fst].
    assert (lower_index (less (<[k := m_timestamp (m_compare f)]> (m_keys f))) (m_map f) k = length (m_map f)) as ->.
    { rewrite <- (app_nil_r (m_map f)) at 1. apply lower_index_app; [|done].
      rewrite Forall_forall in *. intros e He. rewrite less_known by (auto || by rewrite lookup_insert_eq).
      apply Z.ltb_lt. unfold time. rewrite lookup_insert_eq. cbn.
      assert (e.1 ∈ (m_map f).*1) as Hin by by apply list_elem_of_fmap_2.
      rewrite lookup_insert_ne by (intros ->; done).
      destruct (known_key p f e.1 Ho Hin) as [t Ht]. rewrite Ht. cbn. by eapply (fo_bound p f Ho). }
    rewrite lookup_ge_None_2 by done. unfold get. rewrite lookup_insert_eq. cbn [res_bind].
    by rewrite insert_insert_eq, firstn_all, drop_all.
Qed.

Lemma fifo_insert_ok s p f k v :
  s !! p = Some f -> fifo_ok p f -> m_timestamp (m_compare f) + 1 < 2 ^ 64 ->
  insert s p (k, v) =
    Ok (<[p := inserted f k v]> s, (position (m_map f) k, bool_decide (k ∉ (m_map f).*1))).
Proof. intros Hp Ho Ht. unfold insert. cbn [fst]. rewrite (add_key_ok s p f k) by done. by apply map_insert_ok. Qed.

(** Another value for a key changes no order. *)
Lemma sorted_keys ks l l' : l.*1 = l'.*1 -> StronglySorted (earlier ks) l -> StronglySorted (earlier ks) l'.
Proof.
  revert l'. induction l as [|e l IH]; intros [|e' l'] E Hs; try done. cbn in E. injection E as E1 E2.
  apply StronglySorted_cons in Hs as [He Hs]. apply StronglySorted_cons. split; [|by apply IH].
  apply Forall_forall. intros x Hx. unfold earlier. rewrite <- E1.
  apply (list_elem_of_fmap_2 fst) in Hx. rewrite <- E2 in Hx. apply list_elem_of_fmap in Hx as (y & -> & Hy).
  rewrite Forall_forall in He. by apply He.
Qed.

Lemma same_keys_ok p f l : l.*1 = (m_map f).*1 -> fifo_ok p f -> fifo_ok p (set_map f l).
Proof.
  intros E [H1 H2 H3 H4 H5 H6]. split; cbn; try done.
  - intros k. by rewrite E.
  - by apply (sorted_keys _ (m_map f)).
Qed.

Lemma spec_assign_keys l k v : (spec_assign l k v).*1 = (spec_insert l k v).*1.
Proof.
  unfold spec_assign, spec_insert. case_decide; [|done]. rewrite <- list_fmap_compose.
  apply list_fmap_ext. intros i e _. cbn. by case_decide.
Qed.

Lemma spec_assign_split l1 k w l2 v :
  Forall (fun e => e.1 <> k) l1 -> Forall (fun e => e.1 <> k) l2 ->
  spec_assign (l1 ++ (k, w) :: l2) k v = l1 ++ (k, v) :: l2.
Proof.
  intros H1 H2. unfold spec_assign.
  rewrite decide_True by (rewrite fmap_app, elem_of_app; right; by left).
  assert (forall l, Forall (fun e => e.1 <> k) l -> (fun e : Key * T => if decide (e.1 = k) then (k, v) else e) <$> l = l) as E.
  { induction 1 as [|e l He _ IH]; [done|]. cbn. by rewrite decide_False, IH. }
  rewrite fmap_app, fmap_cons, !E by done. cbn. by rewrite decide_True.
Qed.

Lemma insert_middle l1 e l2 (e' : Key * T) : <[length l1 := e']> (l1 ++ e :: l2) = l1 ++ e' :: l2.
Proof. by rewrite insert_app_r_alt, Nat.sub_diag by lia. Qed.

(** [m[k] = v]. *)
Definition assigned f k v : fifo_map := set_map (ticked f k) (spec_assign (m_map f) k v).

Lemma assigned_ok p f k v : fifo_ok p f -> fifo_ok p (assigned f k v).
Proof.
  intros Ho. unfold assigned.
  change (fifo_ok p (set_map (inserted f k v) (spec_assign (m_map f) k v))).
  apply same_keys_ok; [apply spec_assign_keys|by apply inserted_ok].
Qed.

Definition index_assign s (p : nat) (k : Key) (v : T) : res (gmap nat (@fifo_map Key _ _ T)) :=
  let! (s, i) := index_op T_default s p k in assign s p i v.

Lemma index_assign_ok s p f k v :
  s !! p = Some f -> fifo_ok p f -> m_timestamp (m_compare f) + 1 < 2 ^ 64 ->
  index_assign s p k v = Ok (<[p := assigned f k v]> s).
Proof.
  intros Hp Ho Ht. unfold index_assign, index_op. rewrite (add_key_ok s p f k) by done. cbn [res_bind].
  rewrite (map_insert_ok s p f k T_default) by done. cbn [res_bind]. unfold assign, get.
  rewrite lookup_insert_eq. cbn [res_bind].
  unfold inserted, assigned, spec_insert. cbn [m_map set_map].
  destruct (decide (k ∈ (m_map f).*1)) as [Hk|Hk].
  - destruct (split_key p f k Ho Hk) as (l1 & w & l2 & E & N1 & N2). rewrite E.
    rewrite position_split, list_lookup_middle, spec_assign_split by done. cbn [fst].
    by rewrite insert_middle, insert_insert_eq.
  - rewrite position_end, list_lookup_middle by done. cbn [fst].
    unfold spec_assign. rewrite decide_False by done. by rewrite insert_middle, insert_insert_eq.
Qed.

(** Erasing. *)
Definition erased f k : fifo_map :=
  mkFifo (delete k (m_keys f)) (m_compare f) (map_compare f) (spec_erase (m_map f) k).

Lemma spec_erase_none l k : Forall (fun e => e.1 <> k) l -> spec_erase l k = l.
Proof. induction 1 as [|e l He _ IH]; [done|]. unfold spec_erase in *. by rewrite filter_cons_True, IH. Qed.

Lemma spec_erase_split l1 k w l2 :
  Forall (fun e => e.1 <> k) l1 -> Forall (fun e => e.1 <> k) l2 ->
  spec_erase (l1 ++ (k, w) :: l2) k = l1 ++ l2.
Proof.
  intros H1 H2. unfold spec_erase. rewrite filter_app, filter_cons_False by (cbn; tauto).
  fold (spec_erase l1 k) (spec_erase l2 k). by rewrite !spec_erase_none.
Qed.

Lemma erased_ok p f k : fifo_ok p f -> fifo_ok p (erased f k).
Proof.
  intros [H1 H2 H3 H4 H5 H6]. unfold erased. split; cbn; try done.
  - intros k'. rewrite list_elem_of_fmap. unfold spec_erase. setoid_rewrite list_elem_of_filter.
    destruct (decide (k = k')) as [->|Hne].
    + rewrite lookup_delete_eq. split; [by intros []|]. intros (e & -> & Hn & _). done.
    + rewrite lookup_delete_ne, H3, list_elem_of_fmap by done. naive_solver.
  - clear - H4. unfold spec_erase. induction H4 as [|e l Hs IH He]; [constructor|].
    rewrite filter_cons. case_decide as Hk; [|done]. apply StronglySorted_cons. split; [|done].
    apply Forall_forall. intros x [Hx Hin]%list_elem_of_filter. rewrite Forall_forall in He.
    specialize (He x Hin). unfold earlier, time in *. by rewrite !lookup_delete_ne by congruence.
  - intros k' t [_ Ht]%lookup_delete_Some. by apply (H5 k').
Qed.

Lemma erase_key_ok s p f k :
  s !! p = Some f -> fifo_ok p f ->
  erase_key s p k = Ok (<[p := erased f k]> s, if decide (k ∈ (m_map f).*1) then 1%nat else 0%nat).
Proof.
  intros Hp Ho. unfold erase_key, equal_range, lower_bound, upper_bound.
  rewrite (view_ok s p f) by done. cbn [res_bind]. unfold get. rewrite Hp. cbn [res_bind].
  destruct (search_ok p f k Ho) as [(l1 & w & l2 & E & N1 & N2 & Hk & L & U & _)|(Hk & Hn & L & U & _)];
    rewrite L, U.
  - replace (S (length l1) - length l1)%nat with 1%nat by lia. cbn [Nat.ltb Nat.leb].
    unfold remove_key, get. rewrite lookup_insert_eq. cbn [res_bind set_map m_compare].
    rewrite (fo_ptr p f Ho), lookup_insert_eq. cbn [res_bind]. rewrite insert_insert_eq, decide_True by done.
    unfold erased, set_keys, set_map. cbn. rewrite E, spec_erase_split by done.
    rewrite take_app_length. change (l1 ++ (k, w) :: l2) with (l1 ++ [(k, w)] ++ l2).
    rewrite app_assoc. replace (S (length l1)) with (length (l1 ++ [(k, w)])) by (rewrite length_app; cbn; lia).
    by rewrite drop_app_length.
  - rewrite Nat.sub_diag, decide_False by done. cbn [Nat.ltb Nat.leb].
    rewrite firstn_all, drop_all, app_nil_r. unfold erased, set_map. rewrite spec_erase_none, delete_id; [done..|].
    apply Forall_forall. intros e He Hek. apply Hk. rewrite <- Hek. by apply list_elem_of_fmap_2.
Qed.

Lemma clear_ok s p f : s !! p = Some f -> clear s p = Ok (<[p := set_keys (set_map f []) ∅]> s).
Proof. intros Hp. unfold clear, get. by rewrite Hp. Qed.

Lemma cleared_ok p f : fifo_ok p f -> fifo_ok p (set_keys (set_map f []) ∅).
Proof.
  intros [H1 H2 H3 H4 H5 H6]. split; cbn; try done; [|constructor].
  intros k. rewrite lookup_empty, elem_of_nil. split; [by intros []|done].
Qed.

Lemma fifo_find_ok s p f k : s !! p = Some f -> fifo_ok p f -> find s p k = Ok (position (m_map f) k).
Proof.
  intros Hp Ho. unfold find. rewrite (view_ok s p f) by done. cbn [res_bind].
  destruct (search_ok p f k Ho) as [(l1 & w & l2 & E & N1 & N2 & Hk & _ & _ & F)|(Hk & _ & _ & _ & F)]; rewrite F.
  - by rewrite E, position_split.
  - by rewrite position_end.
Qed.

Lemma spec_at_position l k : snd <$> (l !! position l k) = spec_at l k.
Proof.
  unfold spec_at. induction l as [|e l IH]; [done|]. cbn [position]. rewrite filter_cons. by case_decide.
Qed.

Lemma at_ok s p f k : s !! p = Some f -> fifo_ok p f -> at_ s p k = Ok (spec_at (m_map f) k).
Proof.
  intros Hp Ho. unfold at_. rewrite (fifo_find_ok s p f) by done. cbn [res_bind]. unfold get. rewrite Hp.
  cbn [res_bind]. by rewrite spec_at_position.
Qed.

(** ** A history of operations *)

Inductive cmd : Type := Insert (k : Key) (v : T) | Assign (k : Key) (v : T) | Erase (k : Key) | Clear.

Definition run_cmd s (p : nat) (c : cmd) : res (gmap nat (@fifo_map Key _ _ T)) :=
  match c with
  | Insert k v => let! (s, _) := insert s p (k, v) in Ok s
  | Assign k v => index_assign s p k v
  | Erase k => let! (s, _) := erase_key s p k in Ok s
  | Clear => clear s p
  end.

Fixpoint run s (p : nat) (cs : list cmd) : res (gmap nat (@fifo_map Key _ _ T)) :=
  match cs with
  | [] => Ok s
  | c :: cs => let! s := run_cmd s p c in run s p cs
  end.

Definition spec_cmd l (c : cmd) : list (Key * T) :=
  match c with
  | Insert k v => spec_insert l k v
  | Assign k v => spec_assign l k v
  | Erase k => spec_erase l k
  | Clear => []
  end.

Lemma run_cmd_ok s p f c :
  s !! p = Some f -> fifo_ok p f -> m_timestamp (m_compare f) + 1 < 2 ^ 64 ->
  exists f', run_cmd s p c = Ok (<[p := f']> s) /\ fifo_ok p f' /\ m_map f' = spec_cmd (m_map f) c /\
    m_timestamp (m_compare f') <= m_timestamp (m_compare f) + 1.
Proof.
  intros Hp Ho Ht. destruct c as [k v|k v|k|]; cbn [run_cmd spec_cmd].
  - exists (inserted f k v). rewrite (fifo_insert_ok s p f) by done. by split_and!; [|apply inserted_ok| |].
  - exists (assigned f k v). rewrite (index_assign_ok s p f) by done. by split_and!; [|apply assigned_ok| |].
  - exists (erased f k). rewrite (erase_key_ok s p f) by done.
    split_and!; [done|by apply erased_ok|done|cbn; lia].
  - eexists. rewrite (clear_ok s p f) by done.
    split_and!; [done|by apply cleared_ok|done|cbn; lia].
Qed.

Lemma run_ok s p f cs :
  s !! p = Some f -> fifo_ok p f -> m_timestamp (m_compare f) + Z.of_nat (length cs) < 2 ^ 64 ->
  exists f', run s p cs = Ok (<[p := f']> s) /\ fifo_ok p f' /\ m_map f' = foldl spec_cmd (m_map f) cs.
Proof.
  revert s f. induction cs as [|c cs IH]; intros s f Hp Ho Ht; cbn [run foldl length] in *.
  - exists f. by rewrite insert_id.
  - destruct (run_cmd_ok s p f c Hp Ho) as (f1 & E1 & Ho1 & M1 & T1); [lia|]. rewrite E1. cbn [res_bind].
    destruct (IH (<[p := f1]> s) f1) as (f2 & E2 & Ho2 & M2); [by rewrite lookup_insert_eq|done|lia|].
    exists f2. by rewrite E2, insert_insert_eq, M2, M1.
Qed.

Lemma fifo_new_ok p : fifo_ok p (@mkFifo Key _ _ T ∅ (mkCompare 1 p) (mkCompare 1 p) []).
Proof.
  split; cbn; try done; [|constructor].
  intros k. rewrite lookup_empty, elem_of_nil. split; [by intros []|done].
Qed.

(** C25: A [fifo_map] is the sequence of its elements in order of insertion: any history
    of [insert], [m[k] = v], [erase] and [clear] on a new map goes through (the order
    [std::map] relies on is never broken), leaves every other map of the store alone,
    and ends in the list the history gives; [at] and [find] look in that list. *)
Theorem fifo_refines s p cs :
  Z.of_nat (length cs) < 2 ^ 64 - 1 ->
  let l := foldl spec_cmd [] cs in
  exists f, run (new_fifo_map s p) p cs = Ok (<[p := f]> s) /\ m_map f = l /\
    forall k, find (<[p := f]> s) p k = Ok (position l k) /\ at_ (<[p := f]> s) p k = Ok (spec_at l k).
Proof.
  intros Hl l. unfold new_fifo_map.
  destruct (run_ok (<[p := mkFifo ∅ (mkCompare 1 p) (mkCompare 1 p) []]> s) p _ cs (lookup_insert_eq _ _ _) (fifo_new_ok p))
    as (f & E & Ho & M); [cbn; lia|].
  exists f. rewrite E, insert_insert_eq. cbn in M. split_and!; [done|done|]. intros k.
  assert (<[p := f]> s !! p = Some f) as Hp by by rewrite lookup_insert_eq.
  rewrite (fifo_find_ok _ p f), (at_ok _ p f), M by done. done.
Qed.

(** ** Copies *)

Lemma map_insert_range_ok s p ks c todo : forall d,
  m_keys_ptr c = p -> Forall (fun e => is_Some (ks !! e.1)) (d ++ todo) -> StronglySorted (earlier ks) (d ++ todo) ->
  map_insert_range (<[p := mkFifo ks c c d]> s) p todo = Ok (<[p := mkFifo ks c c (d ++ todo)]> s).
Proof.
  induction todo as [|e todo IH]; intros d Hc Hk Hs; cbn [map_insert_range]; [by rewrite app_nil_r|].
  destruct (sorted_mid _ _ _ _ Hs) as [H1 _]. apply Forall_app in Hk as [Kd Ke].
  pose proof (proj1 (Forall_cons _ _ _) Ke) as [Kee _].
  unfold map_insert. rewrite (view_elems _ p (mkFifo ks c c d));
    [|by rewrite lookup_insert_eq|done|done|by apply StronglySorted_app in Hs as (_ & ? & _)].
  cbn [res_bind m_keys m_map].
  assert (lower_index (less ks) d e.1 = length d) as ->.
  { rewrite <- (app_nil_r d) at 1. apply lower_index_app; [|done]. rewrite Forall_forall in *.
    intros a Ha. rewrite less_known by auto. apply Z.ltb_lt. by apply H1. }
  rewrite lookup_ge_None_2 by done. unfold get. rewrite lookup_insert_eq. cbn [res_bind].
  rewrite insert_insert_eq, firstn_all, drop_all. unfold set_map. cbn [m_keys m_compare map_compare].
  rewrite IH; [by rewrite <- app_assoc|done|rewrite <- app_assoc; by apply Forall_app|by rewrite <- app_assoc].
Qed.

(** A copy has the elements, the times and keys of its own. *)
Lemma fifo_copy_ok s p q f :
  s !! q = Some f -> fifo_ok q f ->
  let c := mkCompare (m_timestamp (m_compare f)) p in
  copy_fifo_map s p q = Ok (<[p := mkFifo (m_keys f) c c (m_map f)]> s) /\
  fifo_ok p (mkFifo (m_keys f) c c (m_map f)).
Proof.
  intros Hq Ho c. unfold copy_fifo_map, get. rewrite Hq. cbn [res_bind]. split.
  - apply (map_insert_range_ok s p (m_keys f) c (m_map f) []); [done|by eapply fifo_known|apply Ho].
  - destruct Ho as [H1 H2 H3 H4 H5 H6]. by split.
Qed.

(** ** Pointers that come along *)

Lemma ordered_unknown ks l1 e e' l2 : ks !! e.1 = None -> ordered (less ks) (l1 ++ e :: e' :: l2) = false.
Proof.
  intros Hn. induction l1 as [|a l1 IH]; cbn [app ordered]; [|by rewrite IH, andb_false_r].
  cbn [forallb]. unfold less at 1. by rewrite Hn.
Qed.

Lemma view_broken s p q f g l1 e e' l2 :
  s !! p = Some f -> m_keys_ptr (map_compare f) = q -> s !! q = Some g ->
  m_map f = l1 ++ e :: e' :: l2 -> m_keys g !! e.1 = None -> view s p = UB.
Proof.
  intros Hp Hf Hq E Hn. unfold view, get. rewrite Hp. cbn [res_bind]. rewrite Hf, Hq. cbn [res_bind].
  by rewrite E, ordered_unknown.
Qed.

(** [swap] exchanges the comparisons with their pointers, so that each map then asks
    for its order in the keys of the other: after it, no search of a map of two
    elements or more is defined, unless the map it was swapped with had the keys too. *)
Theorem swap_breaks s p q f g l1 e e' l2 k :
  p <> q -> s !! p = Some f -> s !! q = Some g -> fifo_ok p f -> fifo_ok q g ->
  m_map g = l1 ++ e :: e' :: l2 -> e.1 ∉ (m_map f).*1 ->
  exists s', swap s p q = Ok s' /\ find s' p k = UB.
Proof.
  intros Hne Hp Hq Hf Hg E He. exists (<[p := g]> (<[q := f]> s)).
  unfold swap, get. rewrite Hp, Hq. cbn [res_bind]. split; [done|].
  unfold find. rewrite (view_broken _ p q g f l1 e e' l2); [done|..].
  - by rewrite lookup_insert_eq.
  - apply Hg.
  - by rewrite lookup_insert_ne, lookup_insert_eq.
  - done.
  - by apply (unknown_key p).
Qed.

(** The assignment the compiler defines leaves the pointer at the source: once that is
    cleared, no search of the assigned map of two elements or more is defined. *)
Lemma copy_assign_breaks s p q f0 g l1 e e' l2 k :
  p <> q -> s !! p = Some f0 -> s !! q = Some g -> fifo_ok q g -> m_map g = l1 ++ e :: e' :: l2 ->
  exists s1 s2, copy_assign s p q = Ok s1 /\ clear s1 q = Ok s2 /\ find s2 p k = UB.
Proof.
  intros Hne Hp Hq Hg E. exists (<[p := g]> s), (<[q := set_keys (set_map g []) ∅]> (<[p := g]> s)).
  unfold copy_assign, get. rewrite Hp, Hq. cbn [res_bind]. split; [done|].
  assert (<[p := g]> s !! q = Some g) as Hq' by by rewrite lookup_insert_ne.
  split; [by apply clear_ok|].
  unfold find. rewrite (view_broken _ p q g (set_keys (set_map g []) ∅) l1 e e' l2); [done|..].
  - by rewrite lookup_insert_ne, lookup_insert_eq.
  - apply Hg.
  - by rewrite lookup_insert_eq.
  - done.
  - done.
Qed.
End FifoProps.

(** ** Concrete runs *)

Lemma fifo_refines_witness :
  let cs := [Insert 5 50; Insert 3 30; Assign 9 90; Insert 5 51; Erase 3; Assign 5 55; Insert 3 33] in
  let l := [(5, 55); (9, 90); (3, 33)] in
  exists f, run 0 (new_fifo_map ∅ 7) 7 cs = Ok (<[7%nat := f]> ∅) /\ m_map f = l /\
    forall k : Z, find (<[7%nat := f]> ∅) 7 k = Ok (position l k) /\ at_ (<[7%nat := f]> ∅) 7 k = Ok (spec_at l k).
Proof.
  intros cs l. assert (foldl spec_cmd [] cs = l) as <- by reflexivity.
  by apply (fifo_refines 0 ∅ 7 cs).
Defined.

Definition example_map (p : nat) (k : Z) : @fifo_map Z _ _ Z :=
  mkFifo (<[k := 1]> (<[k + 1 := 2]> ∅)) (mkCompare 3 p) (mkCompare 3 p) [(k, 0); (k + 1, 0)].

Lemma example_map_ok p k : fifo_ok p (example_map p k).
Proof.
  split; cbn; try done.
  - intros k'. rewrite !lookup_insert_is_Some', lookup_empty, !elem_of_cons, elem_of_nil.
    pose proof (is_Some_None (A:=Z)). naive_solver.
  - constructor; [repeat constructor|]. constructor; [|done]. unfold earlier, time. cbn.
    rewrite lookup_insert_eq, lookup_insert_ne, lookup_insert_eq by lia. done.
  - intros k' t. rewrite !lookup_insert_Some, lookup_empty. naive_solver lia.
Qed.

Lemma swap_breaks_witness :
  exists s', swap {[0%nat := example_map 0 1; 1%nat := example_map 1 7]} 0 1 = Ok s' /\ find s' 0 7 = UB.
Proof.
  apply (swap_breaks _ 0 1 (example_map 0 1) (example_map 1 7) [] (7, 0) (8, 0) []).
  - done.
  - reflexivity.
  - reflexivity.
  - apply example_map_ok.
  - apply example_map_ok.
  - done.
  - cbn. rewrite !not_elem_of_cons. split_and!; [done|done|apply not_elem_of_nil].
Defined.

(** ** Walking and comparing *)

Section Walk.
Context {Key : Type} `{Countable Key} {T : Type} `{EqDecision T}.
Implicit Types f : @fifo_map Key _ _ T.

Lemma walk_from f fuel i :
  (length (m_map f) <= i + fuel)%nat -> (i <= length (m_map f))%nat ->
  walk f fuel i (end_ f) = drop i (m_map f).
Proof.
  unfold end_. revert i. induction fuel as [|n IH]; intros i Hf Hi; cbn [walk].
  { by rewrite drop_ge by lia. }
  case_decide as D; [by rewrite drop_ge by lia|].
  destruct (lookup_lt_is_Some_2 (m_map f) i) as [x Hx]; [lia|].
  by rewrite Hx, IH, (drop_S (m_map f) x i) by (done || lia).
Qed.

Lemma walk_back_from f fuel i :
  (i <= fuel)%nat -> (i <= length (m_map f))%nat ->
  walk_back f fuel i (rend f) = reverse (take i (m_map f)).
Proof.
  unfold rend, begin. revert fuel. induction i as [|i IH]; intros fuel Hf Hi; [by destruct fuel|].
  destruct fuel as [|n]; [lia|]. cbn [walk_back]. rewrite decide_False by done.
  destruct (lookup_lt_is_Some_2 (m_map f) i) as [x Hx]; [lia|].
  by rewrite Hx, IH, (take_S_r (m_map f) i x), reverse_snoc by (done || lia).
Qed.

(** From [begin()] to [end()] the elements come in their order, from [rbegin()] to
    [rend()] in the opposite one. *)
Lemma walks f :
  walk f (size f) (begin f) (end_ f) = m_map f /\
  walk_back f (size f) (rbegin f) (rend f) = reverse (m_map f).
Proof.
  unfold size. split.
  - by rewrite walk_from by (unfold begin; lia).
  - unfold rbegin, end_. by rewrite walk_back_from, firstn_all by lia.
Qed.

Context (key_lt : Key -> Key -> bool) (val_lt : T -> T -> bool).
(** The operators of keys and values are total orders. *)
Context (key_total : forall x y, x = y \/ (key_lt x y = true /\ key_lt y x = false) \/ (key_lt y x = true /\ key_lt x y = false)).
Context (key_irrefl : forall x, key_lt x x = false).
Context (val_total : forall x y, x = y \/ (val_lt x y = true /\ val_lt y x = false) \/ (val_lt y x = true /\ val_lt x y = false)).
Context (val_irrefl : forall x, val_lt x x = false).

Lemma pair_total x y :
  x = y \/ (pair_lt key_lt val_lt x y = true /\ pair_lt key_lt val_lt y x = false) \/
           (pair_lt key_lt val_lt y x = true /\ pair_lt key_lt val_lt x y = false).
Proof using key_total key_irrefl val_total.
  destruct x as [k v], y as [k' v']. unfold pair_lt. cbn.
  destruct (key_total k k') as [->|[[-> ->]|[-> ->]]]; [|by right; left|by right; right].
  rewrite key_irrefl. cbn. destruct (val_total v v') as [->|[[-> ->]|[-> ->]]]; auto.
Qed.

Lemma pair_irrefl x : pair_lt key_lt val_lt x x = false.
Proof using key_irrefl val_irrefl. unfold pair_lt. by rewrite key_irrefl, val_irrefl. Qed.

(** Two maps are equal, or one comes before the other, and the six operators agree on it. *)
Lemma comparison_total f g :
  (m_map f = m_map g /\ fifo_eq f g = true /\ fifo_lt key_lt val_lt f g = false /\ fifo_lt key_lt val_lt g f = false) \/
  (fifo_ne f g = true /\ fifo_lt key_lt val_lt f g = true /\ fifo_lt key_lt val_lt g f = false) \/
  (fifo_ne f g = true /\ fifo_lt key_lt val_lt g f = true /\ fifo_lt key_lt val_lt f g = false).
Proof using key_total key_irrefl val_total val_irrefl.
  unfold fifo_ne, fifo_eq, fifo_lt. generalize (m_map f) as l, (m_map g) as r.
  induction l as [|x l IH]; intros [|y r]; cbn [lexicographical_compare].
  - left. by rewrite bool_decide_eq_true_2.
  - right; left. by rewrite bool_decide_eq_false_2.
  - right; right. by rewrite bool_decide_eq_false_2.
  - destruct (pair_total x y) as [->|[[E1 E2]|[E1 E2]]].
    + rewrite pair_irrefl. destruct (IH r) as [(-> & Hb & Hl & Hr)|[(Hb & Hl & Hr)|(Hb & Hl & Hr)]].
      * left. by rewrite bool_decide_eq_true_2.
      * right; left. rewrite negb_true_iff, bool_decide_eq_false in *. split; [congruence|done].
      * right; right. rewrite negb_true_iff, bool_decide_eq_false in *. split; [congruence|done].
    + right; left. rewrite E1, E2, negb_true_iff, bool_decide_eq_false. split; [|done].
      intros [= -> _]. by rewrite pair_irrefl in E1.
    + right; right. rewrite E1, E2, negb_true_iff, bool_decide_eq_false. split; [|done].
      intros [= -> _]. by rewrite pair_irrefl in E1.
Qed.
End Walk.
