(* ===== verification/Glob.v ===== *)
(** * [ConsoleApplication1/Glob.cpp]: [glob] over the Windows file search

    Strings are lists of characters without the NUL, paths use [/] or [\].  What
    [FindFirstFileA] and [FindNextFileA] enumerate for a pattern, what the environment
    string expands to and whether [realloc] finds memory are parameters.  A block that
    [glob] returns is an array of pointers, each [NULL] or an offset into the characters
    behind it. *)

From S2P Require Import Prelude.
Local Open Scope Z_scope.

(** ** Constants *)

Definition GLOB_SUCCESS : Z := 0.
Definition GLOB_NOSPACE : Z := 1.
Definition GLOB_NOMATCH : Z := 3.
Definition GLOB_MARK : Z := 0x2.
Definition GLOB_NOSORT : Z := 0x4.
Definition GLOB_DOOFFS : Z := 0x8.
Definition GLOB_NOCHECK : Z := 0x10.
Definition GLOB_PERIOD : Z := 0x80.
Definition GLOB_MAGCHAR : Z := 0x100.
Definition GLOB_NOMAGIC : Z := 0x800.
Definition GLOB_TILDE : Z := 0x1000.
Definition GLOB_ONLYDIR : Z := 0x2000.
Definition GLOB_TILDE_CHECK : Z := 0x4000.
(** Declared, and looked at nowhere. *)
Definition GLOB_ONLYREG : Z := 0x8000.
Definition GLOB_NODOTSDIRS : Z := 0x10000.
Definition GLOB_LIMIT : Z := 0x20000.
Definition MAX_PATH : nat := 260.

Definition has (flags flag : Z) : bool := negb (Z.land flags flag =? 0).

(** ** Searching strings *)

(** [strrchr]: the last position of the character. *)
Fixpoint strrchr (s : list Z) (c : Z) : option nat :=
  match s with
  | [] => None
  | x :: s =>
      match strrchr s c with
      | Some i => Some (S i)
      | None => if x =? c then Some 0%nat else None
      end
  end.

Fixpoint strrpbrk_loop (string strCharSet : list Z) (part : option nat) : option nat :=
  match strCharSet with
  | [] => part
  | pch :: strCharSet =>
      let part :=
        match strrchr string pch with
        | Some p => match part with
                    | None => Some p
                    | Some q => if (q <? p)%nat then Some p else Some q
                    end
        | None => part
        end in
      strrpbrk_loop string strCharSet part
  end.
Definition strrpbrk (string strCharSet : list Z) : option nat := strrpbrk_loop string strCharSet None.

(** ["\\/"] and ["?*"]; [strpbrk]. *)
Definition separators : list Z := [92; 47].
Definition is_magic (c : Z) : bool := (c =? 63) || (c =? 42).
Definition strpbrk_magic (s : list Z) : option nat := fst <$> list_find is_magic s.

Definition isdots (s : list Z) : bool :=
  match s with
  | c :: r => (c =? 46) && match r with [] => true | c :: r => (c =? 46) && match r with [] => true | _ => false end end
  | [] => false
  end.

(** ** Memory *)

(** Characters written or not. *)
Definition chars := list (option Z).

Definition write (buf : chars) (pos : nat) (bytes : list Z) : res chars :=
  if (pos + length bytes <=? length buf)%nat then
    Ok (take pos buf ++ (Some <$> bytes) ++ drop (pos + length bytes) buf)
  else UB.

(** The C string at a position. *)
Fixpoint string_at (buf : chars) : option (list Z) :=
  match buf with
  | Some c :: buf => if c =? 0 then Some [] else (c ::.) <$> string_at buf
  | _ => None
  end.

Record block := mkBlock { slots : list (option nat); bytes : chars }.

(** [gl_pathv]: [NULL], a live block, or one that was freed. *)
Inductive pathv : Type := PNull | PBlock (b : block) | PFreed.

Record glob_t := mkGlob {
  gl_pathc : Z;
  gl_matchc : Z;
  gl_offs : Z;
  gl_flags : Z;
  gl_pathv : pathv
}.

Record find_data := mkFind { cFileName : list Z; is_directory : bool }.

Section Glob.
Context (FindFile : list Z -> list find_data) (home : option (list Z)) (has_memory : nat -> bool).

(** [realloc]: the new size when there is memory for it. *)
Definition grow_buffer (buf : chars) (n : nat) : option chars :=
  if has_memory n then Some (buf ++ replicate (n - length buf) None) else None.

(** [(n * 2 + 31) & ~31]. *)
Definition new_size (n : nat) : nat := Z.to_nat (Z.land (Z.of_nat (n * 2) + 31) (Z.lnot 31)).

(** ** The loop over the files found *)

Section Loop.
Context (flags : Z) (bMagic0 bLeafIsDots : bool) (leafMost : list Z) (szRelative : list Z)
  (file_part : option nat) (maxMatches : Z).

(** [lstrcatA(find_data.cFileName, "/")]. *)
Definition mark (name : list Z) : res (list Z) :=
  if has flags GLOB_MARK then
    if (length name + 1 <? MAX_PATH)%nat then Ok (name ++ [47]) else UB
  else Ok name.

(** The name an entry gives, or [None] when it is passed over. *)
Definition consider (e : find_data) : res (option (list Z)) :=
  let name := cFileName e in
  if bMagic0 && negb (has flags GLOB_PERIOD) && match name with c :: _ => c =? 46 | [] => false end then Ok None
  else
    let! name :=
      (if is_directory e then
         if bMagic0 && has flags GLOB_NODOTSDIRS && isdots name then Ok None
         else let! name := mark name in Ok (Some name)
       else if has flags GLOB_ONLYDIR then Ok None else Ok (Some name)) in
    match name with
    | None => Ok None
    | Some name => if bLeafIsDots then let! name := mark leafMost in Ok (Some name) else Ok (Some name)
    end.

Record search := mkSearch { buffer : chars; cbCurr : nat; cMatches : nat }.

(** A name appended to the buffer; [None] when there is no memory.  The copy of the
    directory asks for [file_part - effectivePattern], which means nothing without a
    separator. *)
Definition append (s : search) (name : list Z) : res (option search) :=
  let cch := (length name + match file_part with Some k => k | None => 0 end)%nat in
  let n := (cbCurr s + cch + 1)%nat in
  if 2 ^ 31 <=? Z.of_nat n then UB
  else
    match (if (length (buffer s) <? n)%nat then grow_buffer (buffer s) (new_size n) else Some (buffer s)) with
    | None => Ok None
    | Some buf =>
        match file_part with
        | None => UB
        | Some k =>
            let dir := take k szRelative in
            let! buf := write buf (cbCurr s) (dir ++ [0]) in
            let! buf := write buf (cbCurr s + length dir) (name ++ [0]) in
            Ok (Some (mkSearch buf (cbCurr s + (cch + 1)) (S (cMatches s))))
        end
    end.

(** [do ... while(FindNextFileA(...) && cMatches != maxMatches)]: the state and whether
    the loop ended for want of memory. *)
Fixpoint find_loop (s : search) (es : list find_data) : res (search * bool) :=
  match es with
  | [] => Ok (s, true)
  | e :: es =>
      let! name := consider e in
      match name with
      | None => if Z.of_nat (cMatches s) =? maxMatches then Ok (s, true) else find_loop s es
      | Some name =>
          let! s' := append s name in
          match s' with
          | None => Ok (mkSearch [] (cbCurr s) (cMatches s), false)
          | Some s => if Z.of_nat (cMatches s) =? maxMatches then Ok (s, true) else find_loop s es
          end
      end
  end.
End Loop.

(** ** The block returned *)

(** [next_str]: the positions of [n] strings, one behind the other. *)
Fixpoint positions (n : nat) (buf : chars) (next_str : nat) : res (list nat) :=
  match n with
  | O => Ok []
  | S n =>
      match string_at (drop next_str buf) with
      | None => UB
      | Some s => let! ps := positions n buf (next_str + (1 + length s)) in Ok (next_str :: ps)
      end
  end.

Definition result_block (flags offs : Z) (s : search) : res block :=
  let! ps := positions (cMatches s) (buffer s) 0 in
  let ps := if has flags GLOB_NOSORT then reverse ps else ps in
  Ok (mkBlock (replicate (Z.to_nat offs) None ++ (Some <$> ps) ++ [None]) (buffer s)).

Definition pointers_size (n : nat) (offs : Z) : nat := (1 + n + Z.to_nat offs) * 8.

(** ** [glob] *)

(** [~] at the start: the pattern, and whether it is in [szPattern3]. *)
Definition expand_tilde (flags : Z) (pattern : list Z) : res (list Z * bool) :=
  let tilde :=
    match pattern with
    | c :: r => (c =? 126) && match r with [] => true | c :: _ => (c =? 47) || (c =? 92) end
    | [] => false
    end in
  if has flags GLOB_TILDE && tilde then
    match home with
    | None => Ok (pattern, false)
    | Some h =>
        let dw := S (length h) in
        if (MAX_PATH <? dw)%nat then UB
        else Ok (h ++ take (1 + MAX_PATH - dw - 1) (tail pattern), true)
    end
  else Ok (pattern, false).

(** Nothing was found: the buffer is [NULL] or the block [gl_pathv] points at, which
    [realloc] takes, or [free] when there is no memory. *)
Definition no_match (flags : Z) (bMagic bNoMagic tilde : bool) (effectivePattern : list Z)
    (g : glob_t) : res (Z * glob_t) :=
  if has flags GLOB_TILDE_CHECK && tilde then Ok (GLOB_NOMATCH, g)
  else if bNoMagic || has flags GLOB_NOCHECK then
    let offs := Z.to_nat (gl_offs g) in
    let cbNeeded := ((2 + offs) * 8 + (1 + length effectivePattern))%nat in
    if gl_offs g <? 0 then UB
    else if negb (has_memory cbNeeded) then
      Ok (GLOB_NOSPACE,
          mkGlob (gl_pathc g) (gl_matchc g) (gl_offs g) (gl_flags g)
            (match gl_pathv g with PBlock _ => PFreed | v => v end))
    else
      Ok (GLOB_SUCCESS,
          mkGlob 1 1 (gl_offs g) (if bMagic then GLOB_MAGCHAR else 0)
            (PBlock (mkBlock (replicate offs None ++ [Some 0%nat; None]) (Some <$> effectivePattern ++ [0]))))
  else Ok (GLOB_NOMATCH, g).

(** The result, the structure and whether [errfunc] was called. *)
Definition glob (pattern : list Z) (flags : Z) (g : glob_t) : res (Z * glob_t * bool) :=
  let bMagic := match strpbrk_magic pattern with Some _ => true | None => false end in
  let bNoMagic := if has flags GLOB_NOMAGIC then negb bMagic else false in
  let maxMatches := if has flags GLOB_LIMIT then u64 (gl_matchc g) else 0 in
  let! (effectivePattern, tilde) := expand_tilde flags pattern in
  let file_part := S <$> strrpbrk effectivePattern separators in
  if match file_part with Some _ => (MAX_PATH <? length effectivePattern)%nat | None => false end then UB
  else
    let szRelative := match file_part with Some k => take k effectivePattern | None => [] end in
    let leafMost := match file_part with Some k => drop k effectivePattern | None => effectivePattern end in
    let bMagic0 := match strpbrk_magic leafMost with Some i => Nat.eqb i 0 | None => false end in
    let bLeafIsDots := isdots leafMost in
    let g := mkGlob 0 (gl_matchc g) (if has flags GLOB_DOOFFS then gl_offs g else 0) (gl_flags g) PNull in
    let! (result, g, reported) :=
      match FindFile effectivePattern with
      | [] =>
          if bMagic && match file_part with Some _ => true | None => false end
          then Ok (GLOB_SUCCESS, g, false)
          else Ok (GLOB_NOMATCH, g, true)
      | es =>
          let! (s, all) := find_loop flags bMagic0 bLeafIsDots leafMost szRelative file_part maxMatches
                             (mkSearch [] 0 0) es in
          let! (result, g) :=
            (if all : bool then
               if gl_offs g <? 0 then UB
               else if negb (has_memory (length (buffer s) + pointers_size (cMatches s) (gl_offs g)))
               then Ok (GLOB_NOSPACE, g)
               else
                 let! b := result_block flags (gl_offs g) s in
                 Ok (GLOB_SUCCESS,
                     mkGlob (Z.of_nat (cMatches s)) (Z.of_nat (cMatches s)) (gl_offs g)
                       (if bMagic then GLOB_MAGCHAR else 0) (PBlock b))
             else Ok (GLOB_NOSPACE, g)) in
          Ok (if Nat.eqb (cMatches s) 0 then GLOB_NOMATCH else result, g, false)
      end in
    let! (result, g) :=
      (if result =? GLOB_NOMATCH then no_match flags bMagic bNoMagic tilde effectivePattern g
       else if result =? GLOB_SUCCESS then
         Ok (if u64 (gl_matchc g) =? maxMatches then GLOB_NOSPACE else GLOB_SUCCESS, g)
       else Ok (result, g)) in
    Ok (result, g, reported).

(** [globfree]: freeing a block twice is undefined. *)
Definition globfree (g : glob_t) : res glob_t :=
  match gl_pathv g with
  | PFreed => UB
  | _ => Ok (mkGlob 0 (gl_matchc g) (gl_offs g) (gl_flags g) PNull)
  end.
End Glob.
