(* ===== verification/GlobProps.v ===== *)
(** * [glob]: what it returns *)

From S2P Require Import Prelude Glob.

(** ** Strings in the buffer *)

Definition nul_free (s : list Z) : Prop := Forall (fun c => c <> 0) s.

(** Strings one behind the other. *)
Definition layout (ps : list (list Z)) : list Z := concat ((fun p => p ++ [0]) <$> ps).

Lemma layout_app xs ys : layout (xs ++ ys) = layout xs ++ layout ys.
Proof. unfold layout. by rewrite fmap_app, concat_app. Qed.

Lemma layout_snoc xs x : layout (xs ++ [x]) = layout xs ++ x ++ [0].
Proof. rewrite layout_app. unfold layout at 2. cbn. by rewrite app_nil_r. Qed.

Lemma layout_length ps : (length ps <= length (layout ps))%nat.
Proof.
  induction ps as [|p ps IH]; [done|]. change (p :: ps) with ([p] ++ ps).
  rewrite layout_app, !length_app. unfold layout at 1. cbn. rewrite !length_app. cbn. lia.
Qed.

Lemma string_at_app s rest : nul_free s -> string_at ((Some <$> s ++ [0]) ++ rest) = Some s.
Proof.
  induction 1 as [|c s Hc _ IH]; [done|]. cbn. destruct (Z.eqb_spec c 0); [done|]. cbn in IH.
  by rewrite IH.
Qed.

Lemma write_behind (a r : chars) (n : nat) bs :
  n = length a -> (length bs <= length r)%nat ->
  write (a ++ r) n bs = Ok ((a ++ (Some <$> bs)) ++ drop (length bs) r).
Proof.
  intros -> Hl. unfold write. rewrite length_app, (proj2 (Nat.leb_le _ _)) by lia.
  rewrite take_app_length, drop_app_add. by rewrite app_assoc.
Qed.

Lemma new_size_ge n : (n <= new_size n)%nat.
Proof.
  unfold new_size. rewrite <- Z.ldiff_land. change 31 with (Z.ones 5) at 2.
  rewrite Z.ldiff_ones_r, Z.shiftr_div_pow2, Z.shiftl_mul_pow2 by lia. dlia.
Qed.

(** The buffer holds the paths found so far. *)
Definition found (s : search) (ps : list (list Z)) : Prop :=
  exists rest, buffer s = (Some <$> layout ps) ++ rest /\ cbCurr s = length (layout ps) /\
    cMatches s = length ps.

(** Which names of the entries considered are taken, when [n] were: the loop ends when
    the count is the limit. *)
Fixpoint taken (limit : Z) (n : nat) (cs : list (option (list Z))) : list (list Z) :=
  match cs with
  | [] => []
  | c :: cs =>
      let n := match c with Some _ => S n | None => n end in
      match c with Some name => [name] | None => [] end ++
      (if Z.of_nat n =? limit then [] else taken limit n cs)
  end.

(** All the names, when there is no limit they reach. *)
Lemma taken_all limit n cs :
  limit < Z.of_nat n -> taken limit n cs = omap id cs.
Proof.
  revert n. induction cs as [|[c|] cs IH]; intros n Hn; cbn [taken omap list_omap]; [done|..].
  - destruct (Z.eqb_spec (Z.of_nat (S n)) limit); [lia|]. rewrite IH by lia. done.
  - destruct (Z.eqb_spec (Z.of_nat n) limit); [lia|]. by rewrite IH.
Qed.

Lemma taken_limit limit n cs :
  Z.of_nat n < limit -> taken limit n cs = take (Z.to_nat limit - n) (omap id cs).
Proof.
  revert n. induction cs as [|[c|] cs IH]; intros n Hn; cbn [taken omap list_omap]; [by rewrite take_nil|..].
  - replace (Z.to_nat limit - n)%nat with (S (Z.to_nat limit - S n)) by lia. cbn.
    destruct (Z.eqb_spec (Z.of_nat (S n)) limit).
    + replace (Z.to_nat limit - S n)%nat with 0%nat by lia. done.
    + by rewrite IH by lia.
  - destruct (Z.eqb_spec (Z.of_nat n) limit); [lia|]. by rewrite IH.
Qed.

(** Without a limit the loop ends at once when the first entry is passed over. *)
Lemma taken_none_first cs : taken 0 0 (None :: cs) = [].
Proof. done. Qed.

Lemma taken_some_first name cs : taken 0 0 (Some name :: cs) = name :: omap id cs.
Proof. cbn [taken]. cbn. f_equal. by apply taken_all. Qed.

Section Search.
Context (has_memory : nat -> bool) (Hmem : forall n, has_memory n = true).
Context (flags : Z) (bMagic0 bLeafIsDots : bool) (leafMost dir : list Z) (maxMatches : Z).

Lemma append_found s ps name :
  found s ps -> Z.of_nat (length (layout (ps ++ [dir ++ name]))) < 2 ^ 31 ->
  exists s', append has_memory dir (Some (length dir)) s name = Ok (Some s') /\ found s' (ps ++ [dir ++ name]).
Proof.
  intros (rest & Eb & Ec & Em) Hs. rewrite layout_snoc, !length_app in Hs. cbn in Hs. unfold append.
  destruct (Z.leb_spec (2 ^ 31) (Z.of_nat (cbCurr s + (length name + length dir) + 1))); [lia|].
  set (n := (cbCurr s + (length name + length dir) + 1)%nat) in *.
  assert (exists rest', (if (length (buffer s) <? n)%nat then grow_buffer has_memory (buffer s) (new_size n) else Some (buffer s)) =
    Some ((Some <$> layout ps) ++ rest') /\ (n <= length (layout ps) + length rest')%nat) as (rest' & -> & Hn).
  { destruct (Nat.ltb_spec (length (buffer s)) n) as [Hlt|Hge].
    - unfold grow_buffer. rewrite Hmem, Eb, <- app_assoc. eexists. split; [done|].
      rewrite length_app, length_replicate. pose proof (new_size_ge n). rewrite Eb in Hlt.
      rewrite length_app, length_fmap in *. lia.
    - exists rest. rewrite Eb. split; [done|]. rewrite Eb, length_app, length_fmap in Hge. lia. }
  rewrite take_ge by lia.
  rewrite write_behind; [cbn [res_bind]|by rewrite length_fmap|rewrite length_app; cbn; lia]. rewrite fmap_app, app_assoc, <- (app_assoc _ (Some <$> [0])).
  rewrite write_behind; [cbn [res_bind]|rewrite length_app, !length_fmap; lia|subst n; rewrite length_app; cbn; rewrite length_drop, !length_app; cbn; lia].
  eexists. split; [done|].
  exists (drop (length (name ++ [0])) ((Some <$> [0]) ++ drop (length (dir ++ [0])) rest')).
  split_and!; cbn [buffer cbCurr cMatches].
  - rewrite layout_snoc, <- (app_assoc dir), !fmap_app, <- !app_assoc. done.
  - rewrite layout_snoc, !length_app. cbn. lia.
  - rewrite length_app. cbn. lia.
Qed.

Lemma layout_length_app xs ys : (length (layout xs) <= length (layout (xs ++ ys)))%nat.
Proof. rewrite layout_app, length_app. lia. Qed.

Lemma find_loop_ok es : forall cs s ps,
  found s ps -> Forall2 (fun e c => consider flags bMagic0 bLeafIsDots leafMost e = Ok c) es cs ->
  Z.of_nat (length (layout (ps ++ (app dir <$> omap id cs)))) < 2 ^ 31 ->
  exists s', find_loop has_memory flags bMagic0 bLeafIsDots leafMost dir (Some (length dir)) maxMatches s es =
      Ok (s', true) /\
    found s' (ps ++ (app dir <$> taken maxMatches (length ps) cs)).
Proof.
  induction es as [|e es IH]; intros cs s ps Hf Hcs Hl; apply Forall2_cons_inv_l in Hcs || apply Forall2_nil_inv_l in Hcs.
  - subst cs. exists s. cbn. by rewrite app_nil_r.
  - destruct Hcs as (c & cs' & Hc & Hcs & ->). cbn [find_loop]. rewrite Hc. cbn [res_bind].
    destruct c as [name|].
    + cbn [omap list_omap id fmap list_fmap] in Hl. change (?x :: ?l) with ([x] ++ l) in Hl.
      rewrite app_assoc in Hl.
      pose proof (layout_length_app (ps ++ [dir ++ name]) (app dir <$> omap id cs')).
      destruct (append_found s ps name Hf) as (s1 & E & Hf1); [lia|]. rewrite E. cbn [res_bind].
      pose proof Hf1 as (_ & _ & _ & Em). rewrite Em, length_app, Nat.add_1_r. cbn [taken].
      destruct (Z.eqb_spec (Z.of_nat (S (length ps))) maxMatches).
      * exists s1. done.
      * destruct (IH cs' s1 _ Hf1 Hcs Hl) as (s' & E' & Hf'). exists s'. split; [done|].
        rewrite length_app, Nat.add_1_r, <- app_assoc in Hf'. done.
    + pose proof Hf as (_ & _ & _ & Em). rewrite Em. cbn [taken].
      destruct (Z.eqb_spec (Z.of_nat (length ps)) maxMatches).
      * exists s. cbn. by rewrite app_nil_r.
      * apply (IH cs' s ps Hf Hcs Hl).
Qed.
End Search.

Lemma positions_ok (pre ps : list (list Z)) rest :
  Forall nul_free ps ->
  exists qs, positions (length ps) ((Some <$> layout (pre ++ ps)) ++ rest) (length (layout pre)) = Ok qs /\
    (fun q => string_at (drop q ((Some <$> layout (pre ++ ps)) ++ rest))) <$> qs = Some <$> ps.
Proof.
  intros Hps. revert pre. induction Hps as [|p ps Hp _ IH]; intros pre; [by exists []|].
  cbn [positions length].
  assert (string_at (drop (length (layout pre)) ((Some <$> layout (pre ++ p :: ps)) ++ rest)) = Some p) as E.
  { rewrite layout_app, fmap_app, <- app_assoc, drop_app_length' by (by rewrite length_fmap).
    unfold layout at 1. cbn [fmap list_fmap concat]. rewrite fmap_app, <- app_assoc. by apply string_at_app. }
  rewrite E. specialize (IH (pre ++ [p])). rewrite <- app_assoc in IH. cbn [app] in IH.
  destruct IH as (qs & Eq & Hqs).
  replace (length (layout (pre ++ [p]))) with (length (layout pre) + (1 + length p))%nat in Eq
    by (rewrite layout_snoc, !length_app; cbn; lia).
  rewrite Eq. cbn [res_bind]. exists (length (layout pre) :: qs). split; [done|]. cbn. by rewrite E, Hqs.
Qed.

(** The strings of a block, [None] for [NULL]. *)
Definition strings (b : block) : list (option (list Z)) :=
  (fun slot => match slot with Some q => string_at (drop q (bytes b)) | None => None end) <$> slots b.

Lemma result_block_ok flags offs s ps :
  found s ps -> Forall nul_free ps ->
  exists b, result_block flags offs s = Ok b /\
    strings b = replicate (Z.to_nat offs) None ++
      (Some <$> if has flags GLOB_NOSORT then reverse ps else ps) ++ [None].
Proof.
  intros (rest & Eb & Ec & Em) Hps. unfold result_block. rewrite Eb, Em.
  destruct (positions_ok [] ps rest Hps) as (qs & E & Hqs). cbn [app length] in E, Hqs.
  change (length (layout [])) with 0%nat in E. rewrite E. cbn [res_bind]. eexists. split; [done|].
  unfold strings. cbn [slots bytes]. rewrite !fmap_app, fmap_replicate. f_equal. f_equal.
  rewrite <- list_fmap_compose. destruct (has flags GLOB_NOSORT).
  - rewrite !fmap_reverse. f_equal. exact Hqs.
  - exact Hqs.
Qed.

Lemma strrchr_lt s c k : strrchr s c = Some k -> (k < length s)%nat.
Proof.
  revert k. induction s as [|x s IH]; intros k; cbn; [done|].
  destruct (strrchr s c) as [j|]; [intros [= <-]; specialize (IH j eq_refl); lia|].
  destruct (x =? c); [intros [= <-]; lia|done].
Qed.

Lemma strrpbrk_lt s cs k : strrpbrk s cs = Some k -> (S k <= length s)%nat.
Proof.
  unfold strrpbrk. assert (forall j, None = Some j -> (S j <= length s)%nat) as Hp by done.
  revert Hp. generalize (@None nat) as part. induction cs as [|c cs IH]; intros part Hp; [apply Hp|].
  cbn [strrpbrk_loop]. apply IH. destruct (strrchr s c) as [p|] eqn:E; [|done]. apply strrchr_lt in E.
  intros j. destruct part as [q|]; [|intros [= <-]; lia]. destruct (q <? p)%nat; [intros [= <-]; lia|apply Hp].
Qed.

Lemma taken_sublist limit n cs : taken limit n cs `sublist_of` omap id cs.
Proof.
  revert n. induction cs as [|[c|] cs IH]; intros n; cbn [taken omap list_omap]; [done|..].
  - cbn [app]. apply sublist_skip. destruct (_ =? _); [apply sublist_nil_l|apply IH].
  - cbn [app]. destruct (_ =? _); [apply sublist_nil_l|apply IH].
Qed.

Lemma taken_elem limit n cs x : x ∈ taken limit n cs -> x ∈ omap id cs.
Proof. intros Hx. eapply elem_of_submseteq; [done|]. apply sublist_submseteq, taken_sublist. Qed.

Section Glob.
Context (FindFile : list Z -> list find_data) (home : option (list Z)) (has_memory : nat -> bool).
(** The pattern, after a [~] is expanded, its directory and its last part. *)
Context (pattern : list Z) (flags : Z) (g : glob_t) (eff : list Z) (tilde : bool) (i : nat)
  (Heff : expand_tilde home flags pattern = Ok (eff, tilde)).

Let dir := take (S i) eff.
Let leaf := drop (S i) eff.
Let magic0 := match strpbrk_magic leaf with Some k => Nat.eqb k 0 | None => false end.
Let offs := if has flags GLOB_DOOFFS then gl_offs g else 0.
Let limit := if has flags GLOB_LIMIT then u64 (gl_matchc g) else 0.

(** C26: [glob] on a pattern with a directory: while there is memory it returns the names
    of the files found that the code lets pass (hidden files and dots by [GLOB_PERIOD] and
    [GLOB_NODOTSDIRS], directories only with [GLOB_ONLYDIR], directories too with
    [GLOB_ONLYREG], which it ignores), with the directory in front, as far as the limit
    goes, in the order of the search (in the opposite one with
    [GLOB_NOSORT]), behind [gl_offs] times [NULL] and ended by [NULL]; it writes
    nothing outside its buffer, and says [GLOB_NOSPACE] when the limit was reached. *)
Theorem glob_results es cs :
  (forall n, has_memory n = true) ->
  strrpbrk eff separators = Some i -> (length eff <= MAX_PATH)%nat -> 0 <= offs ->
  FindFile eff = es -> es <> [] ->
  Forall2 (fun e c => consider flags magic0 (isdots leaf) leaf e = Ok c) es cs ->
  Forall nul_free (app dir <$> omap id cs) ->
  Z.of_nat (length (layout (app dir <$> omap id cs))) < 2 ^ 31 ->
  let names := app dir <$> taken limit 0 cs in
  names <> [] ->
  exists b, glob FindFile home has_memory pattern flags g =
      Ok (if Z.of_nat (length names) =? limit then GLOB_NOSPACE else GLOB_SUCCESS,
          mkGlob (Z.of_nat (length names)) (Z.of_nat (length names)) offs
            (if strpbrk_magic pattern then GLOB_MAGCHAR else 0) (PBlock b),
          false) /\
    strings b = replicate (Z.to_nat offs) None ++
      (Some <$> if has flags GLOB_NOSORT then reverse names else names) ++ [None].
Proof.
  intros Hmem Hi Hlen Hoffs HF Hne Hcs Hnul Hsize names Hnames.
  pose proof (strrpbrk_lt _ _ _ Hi) as Hieff.
  assert (length dir = S i) as Hdir by (unfold dir; rewrite length_take; lia).
  destruct (find_loop_ok has_memory Hmem flags magic0 (isdots leaf) leaf dir limit es cs (mkSearch [] 0 0) [])
    as (s & Es & Hs); [by exists []|done|done|].
  cbn [app length] in Hs. fold names in Hs.
  assert (Forall nul_free names) as Hnf.
  { apply Forall_forall. intros x Hx. rewrite Forall_forall in Hnul. apply Hnul. unfold names in Hx.
    apply list_elem_of_fmap in Hx as (y & -> & Hy). apply list_elem_of_fmap_2. by eapply taken_elem. }
  destruct (result_block_ok flags offs s names Hs Hnf) as (b & Eb & Hb). exists b. split; [|done].
  unfold glob. rewrite Heff. cbn [res_bind]. rewrite Hi. fold limit.
  cbn [fmap option_fmap option_map gl_offs]. destruct (Nat.ltb_spec MAX_PATH (length eff)); [lia|].
  rewrite HF. destruct es as [|e es]; [done|]. fold dir leaf. rewrite Hdir in Es. fold magic0.
  rewrite Es. cbn [res_bind].
  fold offs. destruct (Z.ltb_spec offs 0); [lia|]. rewrite Hmem. cbn [negb]. rewrite Eb. cbn [res_bind].
  destruct Hs as (rest & _ & _ & Em). rewrite Em.
  destruct (Nat.eqb_spec (length names) 0) as [E0|]; [by apply nil_length_inv in E0|].
  change (GLOB_SUCCESS =? GLOB_NOMATCH) with false. change (GLOB_SUCCESS =? GLOB_SUCCESS) with true.
  cbn [res_bind gl_matchc]. rewrite u64_small; [by destruct (strpbrk_magic pattern)|].
  pose proof (layout_length (app dir <$> omap id cs)) as H1. rewrite length_fmap in H1.
  pose proof (sublist_length _ _ (taken_sublist limit 0 cs)) as H2.
  unfold names. rewrite length_fmap. lia.
Qed.

(** Without [GLOB_LIMIT] the limit is 0, which the count of matches is as long as
    there is none: when the first file found is passed over, as [.] is when the
    pattern's last part begins with a wildcard, the search ends there and [glob] says
    that nothing matches, whatever files follow. *)
Theorem glob_stops_at_hidden e es :
  (forall n, has_memory n = true) -> has flags GLOB_LIMIT = false -> has flags GLOB_NOCHECK = false ->
  has flags GLOB_NOMAGIC = false -> 0 <= offs ->
  strrpbrk eff separators = Some i -> (length eff <= MAX_PATH)%nat ->
  FindFile eff = e :: es -> consider flags magic0 (isdots leaf) leaf e = Ok None ->
  exists b, glob FindFile home has_memory pattern flags g =
    Ok (GLOB_NOMATCH, mkGlob 0 0 offs (if strpbrk_magic pattern then GLOB_MAGCHAR else 0) (PBlock b), false).
Proof.
  intros Hmem Hlim Hnc Hnm Hoffs Hi Hlen HF Hc. unfold glob. rewrite Heff. cbn [res_bind]. rewrite Hi, Hlim, Hnm.
  cbn [fmap option_fmap option_map gl_offs]. destruct (Nat.ltb_spec MAX_PATH (length eff)); [lia|].
  rewrite HF. fold dir leaf magic0. cbn [find_loop]. rewrite Hc. cbn [res_bind cMatches buffer].
  change (Z.of_nat 0 =? 0) with true. cbn [res_bind].
  fold offs. destruct (Z.ltb_spec offs 0); [lia|]. rewrite Hmem. cbn [negb].
  unfold result_block. cbn [cMatches buffer positions res_bind].
  cbn [Nat.eqb res_bind]. change (GLOB_NOMATCH =? GLOB_NOMATCH) with true. cbn [res_bind].
  unfold no_match. rewrite Hnc. cbn [orb].
  eexists. destruct (has flags GLOB_TILDE_CHECK && tilde); cbn [res_bind];
    destruct (strpbrk_magic pattern); reflexivity.
Qed.

(** A wildcard in a directory that exists and has no match: the comment promises no
    match and success, but the limit 0 equals the [gl_matchc] of a zeroed structure. *)
Lemma glob_no_files_nospace k :
  has flags GLOB_LIMIT = false -> strrpbrk eff separators = Some i -> (length eff <= MAX_PATH)%nat ->
  FindFile eff = [] -> strpbrk_magic pattern = Some k -> gl_matchc g = 0 ->
  glob FindFile home has_memory pattern flags g =
    Ok (GLOB_NOSPACE, mkGlob 0 0 offs (gl_flags g) PNull, false).
Proof.
  intros Hlim Hi Hlen HF Hk Hm. unfold glob. rewrite Heff. cbn [res_bind]. rewrite Hi, Hlim, Hk.
  cbn [fmap option_fmap option_map gl_offs]. destruct (Nat.ltb_spec MAX_PATH (length eff)); [lia|].
  rewrite HF. cbn [andb res_bind]. change (GLOB_SUCCESS =? GLOB_NOMATCH) with false.
  change (GLOB_SUCCESS =? GLOB_SUCCESS) with true. cbn [res_bind gl_matchc]. by rewrite Hm.
Qed.
End Glob.

(** [GLOB_ONLYREG] ("match only regular files") changes nothing: a directory is let pass
    with it as without. *)
Lemma has_onlyreg flags f : Z.land GLOB_ONLYREG f = 0 -> has (Z.lor flags GLOB_ONLYREG) f = has flags f.
Proof. intros E. unfold has. by rewrite Z.land_lor_distr_l, E, Z.lor_0_r. Qed.

Lemma consider_onlyreg flags magic dots leaf e :
  consider (Z.lor flags GLOB_ONLYREG) magic dots leaf e = consider flags magic dots leaf e /\
  consider GLOB_ONLYREG false false leaf (mkFind (cFileName e) true) = Ok (Some (cFileName e)).
Proof.
  split; [|done]. unfold consider, mark. by rewrite !has_onlyreg by done.
Qed.

(** The block is freed when the copy of the pattern finds no memory, and [gl_pathv] still
    points at it: [globfree] frees it again. *)
Lemma no_match_dangling has_memory flags bMagic tilde eff g b :
  has flags GLOB_NOCHECK = true -> has flags GLOB_TILDE_CHECK = false -> gl_pathv g = PBlock b -> 0 <= gl_offs g ->
  (forall n, has_memory n = false) ->
  exists g', no_match has_memory flags bMagic false tilde eff g = Ok (GLOB_NOSPACE, g') /\ globfree g' = UB.
Proof.
  intros Hn Ht Hb Ho Hm. unfold no_match. rewrite Hn, Ht, Hm, Hb. cbn [andb orb negb].
  destruct (Z.ltb_spec (gl_offs g) 0); [lia|]. by eexists.
Qed.

(** ** Concrete searches *)

(** [C:/d/] holds [a], [b], the directory [.] and the hidden file [.h]. *)
Definition example_files : list find_data :=
  [mkFind [97] false; mkFind [46; 104] false; mkFind [98] true].
Definition example_dir : list find_data := mkFind [46] true :: example_files.
(** [C:/d/*] *)
Definition example_pattern : list Z := [67; 58; 47; 100; 47; 42].

Lemma glob_results_witness :
  exists b, glob (fun _ => example_files) None (fun _ => true) example_pattern
              (Z.lor GLOB_MARK GLOB_DOOFFS) (mkGlob 0 0 1 0 PNull) =
      Ok (GLOB_SUCCESS, mkGlob 2 2 1 GLOB_MAGCHAR (PBlock b), false) /\
    strings b = [None; Some [67; 58; 47; 100; 47; 97]; Some [67; 58; 47; 100; 47; 98; 47]; None].
Proof.
  apply (glob_results (fun _ => example_files) None (fun _ => true) example_pattern
    (Z.lor GLOB_MARK GLOB_DOOFFS) (mkGlob 0 0 1 0 PNull) example_pattern false 4 eq_refl
    example_files [Some [97]; None; Some [98; 47]]).
  - done.
  - reflexivity.
  - apply Nat.leb_le. reflexivity.
  - done.
  - reflexivity.
  - done.
  - repeat constructor.
  - repeat constructor; done.
  - reflexivity.
  - done.
Defined.

Lemma glob_stops_at_hidden_witness :
  exists b, glob (fun _ => example_dir) None (fun _ => true) example_pattern 0 (mkGlob 0 0 0 0 PNull) =
    Ok (GLOB_NOMATCH, mkGlob 0 0 0 GLOB_MAGCHAR (PBlock b), false).
Proof.
  apply (glob_stops_at_hidden (fun _ => example_dir) None (fun _ => true) example_pattern 0
    (mkGlob 0 0 0 0 PNull) example_pattern false 4 eq_refl (mkFind [46] true) example_files).
  - done.
  - reflexivity.
  - reflexivity.
  - reflexivity.
  - done.
  - reflexivity.
  - apply Nat.leb_le. reflexivity.
  - reflexivity.
  - reflexivity.
Defined.
