(* ===== verification/Windows.v ===== *)
(** * Code that calls Windows

    The programs of [ConsoleApplication1] ask Windows for what they print.  What a call
    answers is a parameter: a function of the state [E] of the rest of the system.  Their
    own state is what they have allocated and opened, so that what they do not give back
    shows.  [io A] is a computation on that state which can fail as in [res]. *)

From stdpp Require Import strings gmap.
From S2P Require Import Prelude.

(** The characters of a string literal, as numbers. *)
Definition chars (s : string) : list Z :=
  (fun c => Z.of_nat (Ascii.nat_of_ascii c)) <$> String.list_ascii_of_string s.

(** [std::string::compare], on [unsigned char]s, and that of wide strings: [a] sorts
    before [b]. *)
Fixpoint string_less (a b : list Z) : bool :=
  match a, b with
  | _, [] => false
  | [], _ :: _ => true
  | x :: a, y :: b => if x =? y then string_less a b else x <? y
  end.

(** What is printed: a call of [printf], with its format and its arguments.  A program
    that prints gives its lines with its result. *)
Inductive arg := Str (s : list Z) | Int (n : Z).
Definition line : Type := string * list arg.

(** ** The state *)

(** [arrays] holds the live arrays of [new[]] and [malloc], [handles] the open handles,
    the one opened last first. *)
Record sys (E : Type) := mkSys {
  env : E;
  arrays : gset nat;
  next_array : nat;
  handles : list Z
}.
Arguments mkSys {E} _ _ _ _.
Arguments env {E} _.
Arguments arrays {E} _.
Arguments next_array {E} _.
Arguments handles {E} _.

Definition io (E A : Type) : Type := sys E -> res (A * sys E).

Section Io.
Context {E A B : Type}.
Definition io_ret (a : A) : io E A := fun s => Ok (a, s).
Definition io_bind (m : io E A) (k : A -> io E B) : io E B := fun s => let! (a, s) := m s in k a s.
Definition io_ub : io E A := fun _ => UB.
Definition io_nofuel : io E A := fun _ => NoFuel.

(** A call of Windows. *)
Definition call (f : E -> A * E) : io E A :=
  fun s => let '(a, e) := f (env s) in Ok (a, mkSys e (arrays s) (next_array s) (handles s)).
End Io.

Declare Scope io_scope.
Delimit Scope io_scope with io.
Notation "'do!' x ':=' m 'in' k" := (io_bind m (fun x => k))
  (at level 10, x pattern, m at level 200, k at level 200,
   format "'[v' 'do!'  x  ':='  m  'in' '/' k ']'") : io_scope.
#[global] Open Scope io_scope.

Section Resources.
Context {E : Type}.

(** [new T[n]], [delete[] p]. *)
Definition new_array : io E nat := fun s =>
  Ok (next_array s, mkSys (env s) ({[next_array s]} ∪ arrays s) (S (next_array s)) (handles s)).
Definition delete_array (p : nat) : io E unit := fun s =>
  if decide (p ∈ arrays s) then Ok (tt, mkSys (env s) (arrays s ∖ {[p]}) (next_array s) (handles s)) else UB.

(** A handle is taken over from Windows; [CloseHandle] of one that is not open only
    reports an error. *)
Definition opened (h : Z) : io E unit := fun s =>
  Ok (tt, mkSys (env s) (arrays s) (next_array s) (h :: handles s)).
Fixpoint close_first (h : Z) (l : list Z) : list Z :=
  match l with [] => [] | x :: l => if x =? h then l else x :: close_first h l end.
Definition CloseHandle (h : Z) : io E unit := fun s =>
  Ok (tt, mkSys (env s) (arrays s) (next_array s) (close_first h (handles s))).

(** [f] for each element of a list. *)
Fixpoint io_map {A B} (f : A -> io E B) (l : list A) : io E (list B) :=
  match l with
  | [] => io_ret []
  | x :: l => do! y := f x in do! ys := io_map f l in io_ret (y :: ys)
  end.

(** ** What a computation leaves behind *)

(** No array at [next_array] or above. *)
Definition sys_ok (s : sys E) : Prop := forall p, p ∈ arrays s -> (p < next_array s)%nat.

(** [s'] comes from [s] by calls that left [hs] open and every array freed. *)
Record clean_but (s s' : sys E) (hs : list Z) : Prop := mkClean {
  cb_arrays : arrays s' = arrays s;
  cb_next : (next_array s <= next_array s')%nat;
  cb_handles : handles s' = hs ++ handles s
}.

Lemma clean_refl s : clean_but s s [].
Proof. by split. Qed.

Lemma clean_trans s1 s2 s3 h1 h2 : clean_but s1 s2 h1 -> clean_but s2 s3 h2 -> clean_but s1 s3 (h2 ++ h1).
Proof.
  intros [A1 N1 H1] [A2 N2 H2]. split; [by rewrite A2|lia|]. by rewrite H2, H1, app_assoc.
Qed.

Lemma clean_ok s s' hs : sys_ok s -> clean_but s s' hs -> sys_ok s'.
Proof. intros Hs [A1 N1 _] p Hp. rewrite A1 in Hp. specialize (Hs p Hp). lia. Qed.

Lemma clean_call {A} (f : E -> A * E) s :
  exists s', call f s = Ok ((f (env s)).1, s') /\ env s' = (f (env s)).2 /\ clean_but s s' [].
Proof. unfold call. destruct (f (env s)) as [a e]. eexists. split; [done|]. by split. Qed.

Lemma new_array_ok s :
  sys_ok s -> exists s', new_array s = Ok (next_array s, s') /\ env s' = env s /\ sys_ok s' /\
    next_array s' = S (next_array s) /\ arrays s' = {[next_array s]} ∪ arrays s /\ handles s' = handles s.
Proof.
  intros Hs. eexists. split; [reflexivity|]. cbn. split_and!; try done.
  intros p Hp. cbn in *. apply elem_of_union in Hp as [Hp|Hp]; [apply elem_of_singleton in Hp; lia|].
  specialize (Hs p Hp). lia.
Qed.

(** An array that lives as long as a computation that is clean but for [hs]. *)
Lemma array_scope s s1 s2 hs :
  sys_ok s -> arrays s1 = {[next_array s]} ∪ arrays s -> next_array s1 = S (next_array s) ->
  handles s1 = handles s -> clean_but s1 s2 hs ->
  exists s3, delete_array (next_array s) s2 = Ok (tt, s3) /\ env s3 = env s2 /\ clean_but s s3 hs.
Proof.
  intros Hs A1 N1 H1 [A2 N2 H2]. unfold delete_array.
  rewrite decide_True by (rewrite A2, A1; set_solver). eexists. split; [reflexivity|].
  split; [done|]. split; cbn.
  - rewrite A2, A1. assert (next_array s ∉ arrays s) by (intros Hp; specialize (Hs _ Hp); lia). set_solver.
  - lia.
  - by rewrite H2, H1.
Qed.
End Resources.

(** [m] does what [m'] does, unless [P] holds and it is undefined. *)
Definition unless {E A} (P : Prop) (m m' : io E A) : Prop := forall s, m s = m' s \/ (m s = UB /\ P).

Lemma unless_refl {E A} P (m : io E A) : unless P m m.
Proof. intros s. by left. Qed.

Lemma unless_bind {E A B} P (m m' : io E A) (k k' : A -> io E B) :
  unless P m m' -> (forall a, unless P (k a) (k' a)) -> unless P (io_bind m k) (io_bind m' k').
Proof.
  intros Hm Hk s. unfold io_bind. destruct (Hm s) as [->|[-> HP]]; [|by right].
  destruct (m' s) as [[a s']| | |]; try by left. apply Hk.
Qed.

Lemma unless_call {E A B} P (f g : E -> A * E) (k k' : A -> io E B) :
  (forall e, (f e).2 = (g e).2) -> (forall e, unless P (k (f e).1) (k' (g e).1)) ->
  unless P (io_bind (call f) k) (io_bind (call g) k').
Proof.
  intros H2 H1 s. unfold io_bind, call. specialize (H2 (env s)). specialize (H1 (env s)).
  destruct (f (env s)) as [a e], (g (env s)) as [a' e']. cbn in *. subst e'. apply H1.
Qed.

Lemma io_bind_Ok {E A B} (m : io E A) (k : A -> io E B) s a s1 : m s = Ok (a, s1) -> io_bind m k s = k a s1.
Proof. intros H. unfold io_bind. by rewrite H. Qed.

(** Run one successful step of a computation in the goal. *)
Ltac step_io H := rewrite (io_bind_Ok _ _ _ _ _ H); cbn beta iota.

(** ** Reasoning about computations *)

(** [m] returns from [s], and [Q] holds of the result and the new state. *)
Definition wp {E A} (m : io E A) (s : sys E) (Q : A -> sys E -> Prop) : Prop :=
  match m s with Ok (a, s') => Q a s' | _ => False end.

Lemma wp_elim {E A} (m : io E A) s Q : wp m s Q -> exists a s', m s = Ok (a, s') /\ Q a s'.
Proof. unfold wp. destruct (m s) as [[a s']| | |]; [|done..]. by exists a, s'. Qed.

Section Wp.
Context {E : Type}.

Lemma wp_bind {A B} (m : io E A) (k : A -> io E B) s Q :
  wp m s (fun a s' => wp (k a) s' Q) -> wp (io_bind m k) s Q.
Proof. unfold wp, io_bind. destruct (m s) as [[a s']| | |]; cbn; done. Qed.

Lemma wp_ret {A} (a : A) (s : sys E) (Q : A -> sys E -> Prop) : Q a s -> wp (io_ret a) s Q.
Proof. done. Qed.

Lemma wp_mono {A} (m : io E A) s (Q Q' : A -> sys E -> Prop) :
  wp m s Q -> (forall a s', Q a s' -> Q' a s') -> wp m s Q'.
Proof. unfold wp. destruct (m s) as [[a s']| | |]; auto. Qed.

(** From a state on, only the rest of the system has changed. *)
Definition tidy (s s' : sys E) : Prop := clean_but s s' [].

Lemma tidy_refl s : tidy s s.
Proof. apply clean_refl. Qed.

Lemma tidy_trans s1 s2 s3 : tidy s1 s2 -> tidy s2 s3 -> tidy s1 s3.
Proof. intros H1 H2. exact (clean_trans _ _ _ _ _ H1 H2). Qed.

Lemma tidy_ok s s' : sys_ok s -> tidy s s' -> sys_ok s'.
Proof. apply clean_ok. Qed.

Lemma wp_call {A} (f : E -> A * E) s (Q : A -> sys E -> Prop) :
  (forall s', env s' = (f (env s)).2 -> tidy s s' -> Q (f (env s)).1 s') -> wp (call f) s Q.
Proof.
  intros HQ. destruct (clean_call f s) as (s' & E1 & E2 & C). unfold wp. rewrite E1. by apply HQ.
Qed.

(** [s1] is [s] with the array [p]. *)
Record with_array (p : nat) (s s1 : sys E) : Prop := mkWithArray {
  wa_fresh : p ∉ arrays s;
  wa_arrays : arrays s1 = {[p]} ∪ arrays s;
  wa_next : (next_array s <= next_array s1)%nat;
  wa_handles : handles s1 = handles s;
  wa_ok : sys_ok s1
}.

Lemma wp_new s (Q : nat -> sys E -> Prop) :
  sys_ok s -> (forall p s1, env s1 = env s -> with_array p s s1 -> Q p s1) -> wp new_array s Q.
Proof.
  intros Hs HQ. destruct (new_array_ok s Hs) as (s1 & E1 & V1 & Hs1 & N1 & A1 & H1).
  unfold wp. rewrite E1. apply HQ; [done|]. split; try done; [|lia].
  intros Hp. specialize (Hs _ Hp). lia.
Qed.

Lemma with_array_tidy p s s1 s2 : with_array p s s1 -> tidy s1 s2 -> with_array p s s2.
Proof.
  intros [F A N H O] T. pose proof T as [A2 N2 H2]. split; [done|by rewrite A2|lia|by rewrite H2|by eapply tidy_ok].
Qed.

Lemma wp_delete p s s1 (Q : unit -> sys E -> Prop) :
  with_array p s s1 -> (forall s2, env s2 = env s1 -> tidy s s2 -> Q tt s2) -> wp (delete_array p) s1 Q.
Proof.
  intros [F A N H O] HQ. unfold wp, delete_array. rewrite decide_True by (rewrite A; set_solver).
  apply HQ; [done|]. split; cbn; [rewrite A; set_solver|lia|done].
Qed.

Lemma wp_opened h s (Q : unit -> sys E -> Prop) :
  (forall s1, env s1 = env s -> clean_but s s1 [h] -> Q tt s1) -> wp (opened h) s Q.
Proof. intros HQ. unfold wp, opened. apply HQ; [done|]. by split. Qed.

Lemma handle_tidy hs s s1 s2 : clean_but s s1 hs -> tidy s1 s2 -> clean_but s s2 hs.
Proof. intros C1 C2. exact (clean_trans _ _ _ _ _ C1 C2). Qed.

Lemma wp_close h s s1 (Q : unit -> sys E -> Prop) :
  clean_but s s1 [h] -> (forall s2, env s2 = env s1 -> tidy s s2 -> Q tt s2) -> wp (CloseHandle h) s1 Q.
Proof.
  intros [A N H] HQ. unfold wp, CloseHandle. apply HQ; [done|]. split; cbn; [done|done|].
  rewrite H. cbn. by rewrite Z.eqb_refl.
Qed.
End Wp.
