(* ===== verification/Sockets.v ===== *)
(** * [ConsoleApplication1/Sockets.cpp]: the table of open sockets

    The four readers of the tables of TCP and UDP sockets, [snapshot], and the order that
    [sockets()] of [ConsoleApplication1.cpp] prints them in.  Windows's tables, the names
    of processes and the printed form of addresses are parameters. *)

From stdpp Require Import strings gmap.
From S2P Require Import Prelude Time Windows.

Definition AF_INET : Z := 2.
Definition AF_INET6 : Z := 23.
Definition IPPROTO_TCP : Z := 6.
Definition IPPROTO_UDP : Z := 17.
Definition NO_ERROR : Z := 0.
Definition ERROR_INSUFFICIENT_BUFFER : Z := 122.

(** [struct Socket]. *)
Record Socket := mkSocket {
  pid : Z;
  process : list Z;
  family : Z;
  protocol : Z;
  local_port : Z;
  remote_port : Z;
  local_addr : list Z;
  remote_addr : list Z;
  status : list Z
}.

(** A row of the TCP tables and one of the UDP tables, addresses as their bytes. *)
Record tcp_row := mkTcpRow {
  dwState : Z;
  LocalAddr : list Z;
  dwLocalPort : Z;
  RemoteAddr : list Z;
  dwRemotePort : Z;
  dwOwningPid : Z
}.
Record udp_row := mkUdpRow {
  uLocalAddr : list Z;
  udwLocalPort : Z;
  udwOwningPid : Z
}.

(** [ntohs] of the low 16 bits. *)
Definition ntohs (v : Z) : Z := Z.lor (Z.shiftl (u8 v) 8) (Z.shiftr v 8).
Definition port (v : Z) : Z := ntohs (u16 v).

Definition getTCPStateString (state : Z) : list Z :=
  chars (match state with
         | 1 => "CLOSED"
         | 2 => "LISTEN"
         | 3 => "SYN_SENT"
         | 4 => "SYN_RECEIVED"
         | 5 => "ESTABLISHED"
         | 6 => "FIN_WAIT_1"
         | 7 => "FIN_WAIT_2"
         | 8 => "CLOSE_WAIT"
         | 9 => "CLOSING"
         | 10 => "LAST_ACK"
         | 11 => "TIME_WAIT"
         | 12 => "DELETE_TCB"
         | _ => "unknown"
         end)%string.

Section Tables.
Context {E : Type}.
(** [GetExtendedTcpTable(table, &size, FALSE, family, ...)]: the result, the size, and
    the rows written where [table] is not [NULL]; the same for UDP. *)
Context (GetExtendedTcpTable : bool -> Z -> Z -> E -> (Z * Z * list tcp_row) * E).
Context (GetExtendedUdpTable : bool -> Z -> Z -> E -> (Z * Z * list udp_row) * E).
Context (sizeof_TCPTABLE sizeof_TCP6TABLE : Z).
(** [OpenProcess]: a handle, 0 when it fails; [GetProcessImageFileNameA]: the characters
    written, none when it fails. *)
Context (OpenProcess : Z -> E -> Z * E).
Context (GetProcessImageFileNameA : Z -> E -> list Z * E).
(** [RtlIpv4AddressToStringA], [RtlIpv6AddressToStringA]. *)
Context (Ipv4AddressToString Ipv6AddressToString : list Z -> list Z).
Notation io := (io E).

Definition getProcessFromPID (pid : Z) : io (list Z) :=
  if pid =? 4 then io_ret (chars "System")
  else if pid =? 0 then io_ret (chars "System Idle Process")
  else
    do! process := call (OpenProcess pid) in
    if process =? 0 then io_ret []
    else
      do! _ := opened process in
      do! name := call (GetProcessImageFileNameA process) in
      io_ret name.

(** The address goes through a buffer of [n] characters. *)
Definition address (to_string : list Z -> list Z) (bytes n : nat) (addr : list Z) : io (list Z) :=
  let text := to_string (take bytes addr) in
  if (length text <? n)%nat then io_ret text else io_ub.

(** The bodies of the loops. *)
Definition tcp_socket (fam : Z) (to_string : list Z -> list Z) (bytes n : nat) (r : tcp_row) : io Socket :=
  do! name := getProcessFromPID (dwOwningPid r) in
  do! local := address to_string bytes n (LocalAddr r) in
  do! remote := address to_string bytes n (RemoteAddr r) in
  io_ret (mkSocket (dwOwningPid r) name fam IPPROTO_TCP (port (dwLocalPort r)) (port (dwRemotePort r))
            local remote (getTCPStateString (dwState r))).

Definition udp_socket (fam : Z) (to_string : list Z -> list Z) (bytes n : nat) (r : udp_row) : io Socket :=
  do! name := getProcessFromPID (udwOwningPid r) in
  do! local := address to_string bytes n (uLocalAddr r) in
  io_ret (mkSocket (udwOwningPid r) name fam IPPROTO_UDP (port (udwLocalPort r)) 0 local [] []).

Definition getTCPSockets (result : list Socket) : io (list Socket) :=
  do! (ret, buffer_size, _) := call (GetExtendedTcpTable false sizeof_TCPTABLE AF_INET) in
  if (negb (ret =? NO_ERROR) && negb (ret =? ERROR_INSUFFICIENT_BUFFER)) || (buffer_size <? sizeof_TCPTABLE)
  then io_ret result
  else
    do! table := new_array in
    do! (ret, _, rows) := call (GetExtendedTcpTable true buffer_size AF_INET) in
    if negb (ret =? NO_ERROR) then do! _ := delete_array table in io_ret result
    else
      do! socks := io_map (tcp_socket AF_INET Ipv4AddressToString 4 16) rows in
      do! _ := delete_array table in
      io_ret (result ++ socks).

Definition getTCP6Sockets (result : list Socket) : io (list Socket) :=
  do! (ret, buffer_size, _) := call (GetExtendedTcpTable false sizeof_TCP6TABLE AF_INET6) in
  if (negb (ret =? NO_ERROR) && negb (ret =? ERROR_INSUFFICIENT_BUFFER)) || (buffer_size <? sizeof_TCP6TABLE)
  then io_ret result
  else
    do! table := new_array in
    do! (ret, _, rows) := call (GetExtendedTcpTable true buffer_size AF_INET6) in
    if negb (ret =? NO_ERROR) then do! _ := delete_array table in io_ret result
    else
      do! socks := io_map (tcp_socket AF_INET6 Ipv6AddressToString 16 128) rows in
      do! _ := delete_array table in
      io_ret (result ++ socks).

Definition getUDPSockets (result : list Socket) : io (list Socket) :=
  do! (ret, buffer_size, _) := call (GetExtendedUdpTable false 0 AF_INET) in
  if negb (ret =? NO_ERROR) && negb (ret =? ERROR_INSUFFICIENT_BUFFER) then io_ret result
  else
    do! table := new_array in
    do! (ret, _, rows) := call (GetExtendedUdpTable true buffer_size AF_INET) in
    if negb (ret =? NO_ERROR) then do! _ := delete_array table in io_ret result
    else
      do! socks := io_map (udp_socket AF_INET Ipv4AddressToString 4 16) rows in
      do! _ := delete_array table in
      io_ret (result ++ socks).

Definition getUDP6Sockets (result : list Socket) : io (list Socket) :=
  do! (ret, buffer_size, _) := call (GetExtendedUdpTable false 0 AF_INET6) in
  if negb (ret =? NO_ERROR) && negb (ret =? ERROR_INSUFFICIENT_BUFFER) then io_ret result
  else
    do! table := new_array in
    do! (ret, _, rows) := call (GetExtendedUdpTable true buffer_size AF_INET6) in
    if negb (ret =? NO_ERROR) then do! _ := delete_array table in io_ret result
    else
      do! socks := io_map (udp_socket AF_INET6 Ipv6AddressToString 16 128) rows in
      do! _ := delete_array table in
      io_ret (result ++ socks).

(** The calls for IPv6 are commented out. *)
Definition snapshot : io (list Socket) :=
  do! result := getTCPSockets [] in
  getUDPSockets result.
End Tables.

(** ** [sockets()] *)

Definition string_eqb (a b : list Z) : bool := bool_decide (a = b).

(** The comparison given to [std::sort]. *)
Definition socket_less (a b : Socket) : bool :=
  if string_eqb (local_addr a) (local_addr b) then
    if local_port a =? local_port b then
      if string_eqb (remote_addr a) (remote_addr b) then
        if remote_port a =? remote_port b then pid a <? pid b
        else remote_port a <? remote_port b
      else string_less (remote_addr a) (remote_addr b)
    else local_port a <? local_port b
  else string_less (local_addr a) (local_addr b).

(** A line as it is printed: TCP sockets with the remote end and the state, others with
    the local end only. *)
Inductive socket_line :=
| Tcp_line (process : list Z) (pid family protocol : Z) (local : list Z) (local_port : Z)
    (remote : list Z) (remote_port : Z) (status : list Z)
| Udp_line (process : list Z) (pid family protocol : Z) (local : list Z) (local_port : Z).

Definition bracket (s : Socket) (addr : list Z) : list Z :=
  if family s =? AF_INET then addr else chars "[" ++ addr ++ chars "]".

Definition print_socket (s : Socket) : socket_line :=
  if protocol s =? IPPROTO_TCP then
    Tcp_line (process s) (pid s) (family s) (protocol s) (bracket s (local_addr s)) (local_port s)
      (bracket s (remote_addr s)) (remote_port s) (status s)
  else Udp_line (process s) (pid s) (family s) (protocol s) (bracket s (local_addr s)) (local_port s).

(** [std::sort] by the comparison; the standard leaves the order of equivalent elements
    open. *)
Definition socket_le (a b : Socket) : Prop := socket_less b a = false.
#[export] Instance socket_le_dec a b : Decision (socket_le a b) := decide (socket_less b a = false).

Definition sockets (result : list Socket) : list socket_line :=
  print_socket <$> merge_sort socket_le result.
