(* ===== verification/SocketsProps.v ===== *)
(** * The list of sockets

    The order of [sockets()] is a strict weak order whose ties agree in everything it
    compares; [snapshot] returns sockets as the struct describes them, frees its tables
    and leaves the handles of the processes it asked about open. *)

From stdpp Require Import strings gmap.
From S2P Require Import Prelude Time Windows Sockets.

(** ** Orders *)

(** [TimeOrder] is what [std::sort] asks of a comparison: a strict weak order. *)
#[export] Instance Z_order : TimeOrder Z.
Proof. refine {| ltb := Z.ltb |}; intros; lia. Defined.

Lemma string_less_irrefl a : string_less a a = false.
Proof. induction a as [|x a IH]; cbn; [done|]. by rewrite Z.eqb_refl. Qed.

Lemma string_less_asym a b : string_less a b = true -> string_less b a = false.
Proof.
  revert b. induction a as [|x a IH]; intros [|y b]; cbn; try done.
  destruct (Z.eqb_spec x y) as [->|]; [rewrite Z.eqb_refl; apply IH|].
  destruct (Z.eqb_spec y x); [congruence|]. lia.
Qed.

Lemma string_less_neg_trans a b c :
  string_less b a = false -> string_less c b = false -> string_less c a = false.
Proof.
  revert b c. induction a as [|x a IH]; intros [|y b] [|z c]; cbn; try done.
  destruct (Z.eqb_spec y x), (Z.eqb_spec z y), (Z.eqb_spec z x); try lia; subst; eauto.
Qed.

Lemma string_less_total a b : string_less a b = false -> string_less b a = false -> a = b.
Proof.
  revert b. induction a as [|x a IH]; intros [|y b]; cbn; try done.
  destruct (Z.eqb_spec x y) as [->|].
  - rewrite Z.eqb_refl. intros H1 H2. f_equal. by apply IH.
  - destruct (Z.eqb_spec y x); [congruence|]. intros H1 H2. lia.
Qed.

#[export] Instance string_order : TimeOrder (list Z) := {|
  ltb := string_less; ltb_irrefl := string_less_irrefl; ltb_asym := string_less_asym;
  ltb_neg_trans := string_less_neg_trans
|}.

(** Where the first components are equivalent, the second decide. *)
#[export] Instance lex_order {A B} `{TimeOrder A, TimeOrder B} : TimeOrder (A * B).
Proof.
  refine {| ltb := fun p q => if ltb p.1 q.1 then true else if ltb q.1 p.1 then false else ltb p.2 q.2 |}.
  - intros [a b]. cbn. by rewrite !ltb_irrefl.
  - intros [a b] [a' b']. cbn. destruct (ltb a a') eqn:E1, (ltb a' a) eqn:E2; try done.
    + by rewrite (ltb_asym _ _ E1) in E2.
    + apply ltb_asym.
  - intros [a b] [a' b'] [a'' b'']. cbn.
    destruct (ltb a' a) eqn:E1; [done|]. destruct (ltb a'' a') eqn:E2; [done|]. intros H1 H2.
    rewrite (ltb_neg_trans _ _ _ E1 E2).
    destruct (ltb a a'') eqn:E3; [done|]. destruct (ltb a a') eqn:E4.
    { rewrite (ltb_neg_trans a' a'' a) in E4; done. }
    destruct (ltb a' a'') eqn:E5.
    { rewrite (ltb_neg_trans a'' a a') in E5; done. }
    by apply (ltb_neg_trans b b' b'').
Defined.

(** What [sockets()] compares, in its order. *)
Definition socket_key (s : Socket) : list Z * (Z * (list Z * (Z * Z))) :=
  (local_addr s, (local_port s, (remote_addr s, (remote_port s, pid s)))).

Lemma Z_lex (a b : Z) (x y : bool) :
  (if ltb a b then true else if ltb b a then false else x) = (if a =? b then x else a <? b).
Proof. cbn. destruct (Z.eqb_spec a b); destruct (Z.ltb_spec a b), (Z.ltb_spec b a); lia || done. Qed.

Lemma string_lex (a b : list Z) (x : bool) :
  (if ltb a b then true else if ltb b a then false else x) = (if string_eqb a b then x else string_less a b).
Proof.
  cbn. unfold string_eqb. destruct (decide (a = b)) as [->|Hne].
  - by rewrite string_less_irrefl, bool_decide_eq_true_2.
  - rewrite bool_decide_eq_false_2 by done. destruct (string_less a b) eqn:E1; [done|].
    destruct (string_less b a) eqn:E2; [done|]. destruct Hne. by apply string_less_total.
Qed.

Lemma socket_less_key a b : socket_less a b = ltb (socket_key a) (socket_key b).
Proof.
  unfold socket_key, socket_less. cbn [ltb lex_order fst snd].
  rewrite string_lex. destruct (string_eqb (local_addr a) (local_addr b)); [|done].
  rewrite (Z_lex _ _ _ true). destruct (local_port a =? local_port b); [|done].
  rewrite string_lex. destruct (string_eqb (remote_addr a) (remote_addr b)); [|done].
  by rewrite (Z_lex _ _ _ true).
Qed.

Lemma socket_key_total a b : socket_less a b = false -> socket_less b a = false -> socket_key a = socket_key b.
Proof.
  rewrite !socket_less_key. unfold socket_key. cbn.
  destruct (string_less (local_addr a) (local_addr b)) eqn:E1, (string_less (local_addr b) (local_addr a)) eqn:E2; try done.
  rewrite (string_less_total _ _ E1 E2).
  destruct (Z.ltb_spec (local_port a) (local_port b)), (Z.ltb_spec (local_port b) (local_port a)); try done.
  destruct (string_less (remote_addr a) (remote_addr b)) eqn:E3, (string_less (remote_addr b) (remote_addr a)) eqn:E4; try done.
  rewrite (string_less_total _ _ E3 E4).
  destruct (Z.ltb_spec (remote_port a) (remote_port b)), (Z.ltb_spec (remote_port b) (remote_port a)); try done.
  intros H5 H6. assert (local_port a = local_port b) as -> by lia.
  assert (remote_port a = remote_port b) as -> by lia. by assert (pid a = pid b) as -> by lia.
Qed.

#[export] Instance socket_le_total : Total socket_le.
Proof.
  intros a b. unfold socket_le. rewrite !socket_less_key. destruct (le_total (socket_key a) (socket_key b)); auto.
Qed.
#[export] Instance socket_le_trans : Transitive socket_le.
Proof. intros a b c. unfold socket_le. rewrite !socket_less_key. apply ltb_neg_trans. Qed.

(** C29: The comparison [sockets()] sorts with is a strict weak order, as [std::sort]
    requires; sockets that it does not tell apart agree in both ends and the process; the
    lines are those of all sockets, each once, in that order. *)
Theorem sockets_sorted (result : list Socket) :
  (forall a b c, socket_less a a = false /\ (socket_less a b = true -> socket_less b a = false) /\
     (socket_less b a = false -> socket_less c b = false -> socket_less c a = false) /\
     (socket_less a b = false -> socket_less b a = false -> socket_key a = socket_key b)) /\
  exists l, sockets result = print_socket <$> l /\ l ≡ₚ result /\ StronglySorted socket_le l.
Proof.
  split.
  - intros a b c. split; [rewrite socket_less_key; apply ltb_irrefl|].
    split; [rewrite !socket_less_key; apply ltb_asym|].
    split; [rewrite !socket_less_key; apply ltb_neg_trans|apply socket_key_total].
  - exists (merge_sort socket_le result). split; [done|]. split; [apply merge_sort_Permutation|].
    apply StronglySorted_merge_sort; apply _.
Qed.

(** ** The readers *)

Section Readers.
Context {E : Type}.
Context (GetExtendedTcpTable : bool -> Z -> Z -> E -> (Z * Z * list tcp_row) * E).
Context (GetExtendedUdpTable : bool -> Z -> Z -> E -> (Z * Z * list udp_row) * E).
Context (sizeof_TCPTABLE sizeof_TCP6TABLE : Z).
Context (OpenProcess : Z -> E -> Z * E).
Context (GetProcessImageFileNameA : Z -> E -> list Z * E).
Context (Ipv4AddressToString Ipv6AddressToString : list Z -> list Z).
(** The documentation: an IPv4 address takes less than 16 characters with its NUL, an
    IPv6 address less than 128. *)
Context (Hv4 : forall a, (length (Ipv4AddressToString a) < 16)%nat).
Context (Hv6 : forall a, (length (Ipv6AddressToString a) < 128)%nat).

(** A loop whose body opens and leaves handles: [P y n] of each result and the number of
    its handles. *)
Lemma io_map_ok {A B} (f : A -> io E B) (P : A -> B -> nat -> Prop) l s :
  (forall x s, exists y s' hs, f x s = Ok (y, s') /\ clean_but s s' hs /\ P x y (length hs)) ->
  exists ys s' hs ns, io_map f l s = Ok (ys, s') /\ clean_but s s' hs /\
    Forall3 P l ys ns /\ length hs = sum_list ns.
Proof using.
  intros Hf. revert s. induction l as [|x l IH]; intros s; cbn [io_map].
  - exists [], s, [], []. split; [done|]. split; [apply clean_refl|]. split; [constructor|done].
  - destruct (Hf x s) as (y & s1 & h1 & E1 & C1 & P1). step_io E1.
    destruct (IH s1) as (ys & s2 & h2 & ns & E2 & C2 & P2 & L2). step_io E2.
    exists (y :: ys), s2, (h2 ++ h1), (length h1 :: ns). split; [done|]. split; [by eapply clean_trans|].
    split; [by constructor|]. rewrite length_app, L2. cbn. lia.
Qed.

(** The handles that asking for the name of a process costs. *)
Definition cost (pid : Z) : nat := if (pid =? 4) || (pid =? 0) then 0%nat else 1%nat.

Lemma getProcessFromPID_ok p s :
  exists name s' hs, getProcessFromPID OpenProcess GetProcessImageFileNameA p s = Ok (name, s') /\
    clean_but s s' hs /\ (length hs <= cost p)%nat /\ ((forall p e, fst (OpenProcess p e) <> 0) -> length hs = cost p).
Proof using.
  unfold getProcessFromPID, cost. destruct (p =? 4); cbn [orb].
  { eexists _, s, []. split; [reflexivity|]. split; [apply clean_refl|]. split; [cbn; lia|done]. }
  destruct (p =? 0).
  { eexists _, s, []. split; [reflexivity|]. split; [apply clean_refl|]. split; [cbn; lia|done]. }
  destruct (clean_call (OpenProcess p) s) as (s1 & E1 & _ & C1). step_io E1.
  destruct (Z.eqb_spec ((OpenProcess p (env s)).1) 0) as [H0|H0].
  { eexists _, s1, []. split; [reflexivity|]. split; [done|]. split; [cbn; lia|]. intros Ho. by destruct (Ho p (env s)). }
  set (h := (OpenProcess p (env s)).1).
  destruct (clean_call (GetProcessImageFileNameA h)
              (mkSys (env s1) (arrays s1) (next_array s1) (h :: handles s1))) as (s2 & E2 & _ & C2).
  unfold io_bind at 1. cbn [opened res_bind]. step_io E2.
  eexists _, s2, [h]. split; [reflexivity|]. split; [|split; [cbn; lia|done]].
  destruct C1 as [A1 N1 H1], C2 as [A2 N2 H2]. cbn in *. split; [congruence|lia|by rewrite H2, H1].
Qed.

Lemma address_ok f bytes n a (s : sys E) : (length (f (take bytes a)) < n)%nat ->
  address f bytes n a s = Ok (f (take bytes a), s).
Proof using. intros H. unfold address. by rewrite (proj2 (Nat.ltb_lt _ _) H). Qed.

(** A socket as the struct describes it. *)
Definition port_ok (p : Z) : Prop := 0 <= p < 2 ^ 16.
Record socket_ok (fam : Z) (s : Socket) : Prop := mkSocketOk {
  sk_family : family s = fam;
  sk_local : port_ok (local_port s);
  sk_remote : port_ok (remote_port s);
  sk_kind : (protocol s = IPPROTO_TCP /\ status s <> []) \/
            (protocol s = IPPROTO_UDP /\ remote_port s = 0 /\ remote_addr s = [] /\ status s = [])
}.

Lemma port_in_range v : port_ok (port v).
Proof using.
  unfold port, ntohs, port_ok. pose proof (u16_range v). pose proof (u8_range (u16 v)).
  rewrite Z.shiftl_mul_pow2, Z.shiftr_div_pow2 by lia.
  assert (0 <= u16 v / 2 ^ 8 < 2 ^ 8) by (split; [apply Z.div_pos; lia|apply Z.div_lt_upper_bound; lia]).
  rewrite (lor_low _ _ 8) by (try lia; apply Z_mod_mult). lia.
Qed.

Lemma state_string_nonempty st : getTCPStateString st <> [].
Proof using. unfold getTCPStateString. destruct st as [|p|p]; [done| |done]. by repeat (destruct p as [p|p|]; try done). Qed.

(** [P] for the sockets of the rows of one table. *)
Definition from_row (fam : Z) (y : Socket) (n : nat) : Prop :=
  socket_ok fam y /\ (n <= cost (pid y))%nat /\ ((forall p e, fst (OpenProcess p e) <> 0) -> n = cost (pid y)).

Lemma tcp_socket_ok fam f bytes n r s :
  (forall a, (length (f a) < n)%nat) ->
  exists y s' hs, tcp_socket OpenProcess GetProcessImageFileNameA fam f bytes n r s = Ok (y, s') /\
    clean_but s s' hs /\ from_row fam y (length hs).
Proof using.
  intros Hf. unfold tcp_socket.
  destruct (getProcessFromPID_ok (dwOwningPid r) s) as (name & s1 & hs & E1 & C1 & L1 & L2). step_io E1.
  rewrite (io_bind_Ok _ _ _ _ _ (address_ok f bytes n _ s1 (Hf _))).
  rewrite (io_bind_Ok _ _ _ _ _ (address_ok f bytes n _ s1 (Hf _))).
  eexists _, s1, hs. split; [reflexivity|]. split; [done|]. split.
  - split; cbn; [done|apply port_in_range|apply port_in_range|]. left. split; [done|apply state_string_nonempty].
  - by split.
Qed.

Lemma udp_socket_ok fam f bytes n r s :
  (forall a, (length (f a) < n)%nat) ->
  exists y s' hs, udp_socket OpenProcess GetProcessImageFileNameA fam f bytes n r s = Ok (y, s') /\
    clean_but s s' hs /\ from_row fam y (length hs).
Proof using.
  intros Hf. unfold udp_socket.
  destruct (getProcessFromPID_ok (udwOwningPid r) s) as (name & s1 & hs & E1 & C1 & L1 & L2). step_io E1.
  rewrite (io_bind_Ok _ _ _ _ _ (address_ok f bytes n _ s1 (Hf _))).
  eexists _, s1, hs. split; [reflexivity|]. split; [done|]. split; [|by split].
  split; cbn; [done|apply port_in_range|unfold port_ok; lia|]. by right.
Qed.

(** What a reader does: it appends sockets, frees its table, and leaves handles open. *)
Definition reads (fam : Z) (result : list Socket) (s : sys E) (r : res (list Socket * sys E)) : Prop :=
  exists socks s' hs, r = Ok (result ++ socks, s') /\ clean_but s s' hs /\ Forall (socket_ok fam) socks /\
    (length hs <= sum_list ((fun y => cost (pid y)) <$> socks))%nat /\
    ((forall p e, fst (OpenProcess p e) <> 0) -> length hs = sum_list ((fun y => cost (pid y)) <$> socks)).

Lemma reads_none fam result s s' : clean_but s s' [] -> reads fam result s (Ok (result, s')).
Proof using.
  intros C. exists [], s', []. rewrite app_nil_r. split; [done|]. split; [done|]. split; [constructor|done].
Qed.

Lemma reads_after fam result s s1 r : clean_but s s1 [] -> reads fam result s1 r -> reads fam result s r.
Proof using.
  intros C (socks & s' & hs & E1 & C1 & Hp). exists socks, s', hs. split; [done|]. split; [|done].
  rewrite <- (app_nil_r hs). by eapply clean_trans.
Qed.

Lemma from_rows {R} fam (rows : list R) ys ns :
  Forall3 (fun _ => from_row fam) rows ys ns ->
  Forall (socket_ok fam) ys /\ (sum_list ns <= sum_list ((fun y => cost (pid y)) <$> ys))%nat /\
  ((forall p e, fst (OpenProcess p e) <> 0) -> sum_list ns = sum_list ((fun y => cost (pid y)) <$> ys)).
Proof using.
  induction 1 as [|r y n rows ys ns (H1 & H2 & H3) _ (I1 & I2 & I3)]; [by split|].
  split; [by constructor|]. split; [cbn; lia|]. intros Ho. cbn. rewrite I3, H3 by done. done.
Qed.

(** The second half of every reader. *)
Lemma table_ok {R} fam (g : E -> (Z * Z * list R) * E) (f : R -> io E Socket) result s :
  sys_ok s ->
  (forall x s, exists y s' hs, f x s = Ok (y, s') /\ clean_but s s' hs /\ from_row fam y (length hs)) ->
  reads fam result s ((do! table := new_array in
     do! (ret, _, rows) := call g in
     if negb (ret =? NO_ERROR) then do! _ := delete_array table in io_ret result
     else do! socks := io_map f rows in do! _ := delete_array table in io_ret (result ++ socks)) s).
Proof using.
  intros Hs Hf. destruct (new_array_ok s Hs) as (s1 & E1 & _ & Hs1 & N1 & A1 & H1). step_io E1.
  destruct (clean_call g s1) as (s2 & E2 & _ & C2). step_io E2. destruct (g (env s1)).1 as [[ret size] rows].
  destruct (negb (ret =? NO_ERROR)).
  - destruct (array_scope s s1 s2 [] Hs A1 N1 H1 C2) as (s3 & E3 & _ & C3). step_io E3. by apply reads_none.
  - destruct (io_map_ok f (fun _ => from_row fam) rows s2 Hf) as (ys & s3 & hs & ns & E3 & C3 & P3 & L3). step_io E3.
    pose proof (clean_trans _ _ _ _ _ C2 C3) as C23. rewrite app_nil_r in C23.
    destruct (array_scope s s1 s3 hs Hs A1 N1 H1 C23) as (s4 & E4 & _ & C4). step_io E4.
    destruct (from_rows fam rows ys ns P3) as (F1 & F2 & F3).
    exists ys, s4, hs. split; [done|]. split; [done|]. split; [done|]. by rewrite L3.
Qed.

Ltac reader Hf :=
  match goal with |- reads _ _ ?s (io_bind (call ?f) _ ?s) =>
    let s1 := fresh "s1" in let E1 := fresh "E1" in let C1 := fresh "C1" in
    destruct (clean_call f s) as (s1 & E1 & _ & C1); step_io E1;
    destruct (f (env s)).1 as [[ret size] rows];
    match goal with |- context [if ?b then _ else _] => destruct b end;
    [by apply reads_none|];
    apply (reads_after _ _ _ s1); [done|]; apply table_ok; [by eapply clean_ok|];
    intros x s'; apply Hf; done
  end.

Lemma getTCPSockets_ok result s : sys_ok s ->
  reads AF_INET result s (getTCPSockets GetExtendedTcpTable sizeof_TCPTABLE OpenProcess GetProcessImageFileNameA
    Ipv4AddressToString result s).
Proof using Hv4. intros Hs. unfold getTCPSockets. reader tcp_socket_ok. Qed.

Lemma getTCP6Sockets_ok result s : sys_ok s ->
  reads AF_INET6 result s (getTCP6Sockets GetExtendedTcpTable sizeof_TCP6TABLE OpenProcess GetProcessImageFileNameA
    Ipv6AddressToString result s).
Proof using Hv6. intros Hs. unfold getTCP6Sockets. reader tcp_socket_ok. Qed.

Lemma getUDPSockets_ok result s : sys_ok s ->
  reads AF_INET result s (getUDPSockets GetExtendedUdpTable OpenProcess GetProcessImageFileNameA
    Ipv4AddressToString result s).
Proof using Hv4. intros Hs. unfold getUDPSockets. reader udp_socket_ok. Qed.

Lemma getUDP6Sockets_ok result s : sys_ok s ->
  reads AF_INET6 result s (getUDP6Sockets GetExtendedUdpTable OpenProcess GetProcessImageFileNameA
    Ipv6AddressToString result s).
Proof using Hv6. intros Hs. unfold getUDP6Sockets. reader udp_socket_ok. Qed.

Lemma snapshot_ok s : sys_ok s ->
  reads AF_INET [] s (snapshot GetExtendedTcpTable GetExtendedUdpTable sizeof_TCPTABLE OpenProcess
    GetProcessImageFileNameA Ipv4AddressToString s).
Proof using Hv4.
  intros Hs. unfold snapshot.
  destruct (getTCPSockets_ok [] s Hs) as (tcp & s1 & h1 & E1 & C1 & F1 & L1 & M1). step_io E1.
  destruct (getUDPSockets_ok tcp s1) as (udp & s2 & h2 & E2 & C2 & F2 & L2 & M2); [by eapply clean_ok|].
  exists (tcp ++ udp), s2, (h2 ++ h1). cbn [app]. split; [done|]. split; [by eapply clean_trans|].
  split; [by apply Forall_app|]. rewrite fmap_app, !length_app.
  assert (forall a b : list nat, sum_list (a ++ b) = (sum_list a + sum_list b)%nat) as Happ
    by (intros a b; induction a as [|x a IH]; cbn; [done|rewrite IH; lia]).
  rewrite Happ. split; [lia|]. intros Ho. specialize (M1 Ho). specialize (M2 Ho). lia.
Qed.
End Readers.

(** C30: Whatever Windows answers, the readers of all four tables and [snapshot] return
    sockets as the struct describes them (the family asked for, ports of 16 bits, a
    remote end and a state for TCP only) and free their tables; the handles of the
    processes are never closed: when every process can be opened, each socket of a
    process other than 0 and 4 costs one. *)
Theorem snapshot_well_typed {E} (TcpTable : bool -> Z -> Z -> E -> (Z * Z * list tcp_row) * E) UdpTable n4 n6
    OpenProcess FileName (Ipv4 Ipv6 : list Z -> list Z) (s : sys E) result :
  (forall a, (length (Ipv4 a) < 16)%nat) -> (forall a, (length (Ipv6 a) < 128)%nat) -> sys_ok s ->
  reads OpenProcess AF_INET [] s (snapshot TcpTable UdpTable n4 OpenProcess FileName Ipv4 s) /\
  reads OpenProcess AF_INET6 result s (getTCP6Sockets TcpTable n6 OpenProcess FileName Ipv6 result s) /\
  reads OpenProcess AF_INET6 result s (getUDP6Sockets UdpTable OpenProcess FileName Ipv6 result s).
Proof.
  intros H4 H6 Hs. split; [by apply snapshot_ok|]. split; [by apply getTCP6Sockets_ok|by apply getUDP6Sockets_ok].
Qed.

(** ** A run *)

(** One TCP socket of process 700 and one UDP socket of process 4; the state counts the
    processes opened. *)
Definition demo_tcp (table : bool) (size fam : Z) (e : Z) : (Z * Z * list tcp_row) * Z :=
  if table then ((0, size, [mkTcpRow 2 [127; 0; 0; 1] 0x5000 [0; 0; 0; 0] 0 700]), e)
  else ((ERROR_INSUFFICIENT_BUFFER, 168, []), e).
Definition demo_udp (table : bool) (size fam : Z) (e : Z) : (Z * Z * list udp_row) * Z :=
  if table then ((0, size, [mkUdpRow [10; 0; 0; 1] 0x3500 4]), e)
  else ((ERROR_INSUFFICIENT_BUFFER, 168, []), e).
Definition demo_open (pid : Z) (e : Z) : Z * Z := (100 + Z.abs e, Z.abs e + 1).
Definition demo_name (h : Z) (e : Z) : list Z * Z := (chars "svchost.exe", e).
Definition demo_addr (a : list Z) : list Z := chars "address".
Definition demo_sys : sys Z := mkSys 0 ∅ 0 [].

Lemma snapshot_well_typed_witness :
  exists result s' hs, snapshot demo_tcp demo_udp 168 demo_open demo_name demo_addr demo_sys = Ok (result, s') /\
    clean_but demo_sys s' hs /\ Forall (socket_ok AF_INET) result /\ length result = 2%nat /\ length hs = 1%nat.
Proof.
  destruct (snapshot_well_typed demo_tcp demo_udp 168 168 demo_open demo_name demo_addr demo_addr demo_sys [])
    as ((result & s' & hs & E & C & F & _ & L) & _).
  - intros a. apply Nat.ltb_lt. vm_compute. reflexivity.
  - intros a. apply Nat.ltb_lt. vm_compute. reflexivity.
  - intros p Hp. by apply not_elem_of_empty in Hp.
  - exists result, s', hs. split; [exact E|]. split; [done|]. split; [done|].
    rewrite L by (intros p e; cbn; lia). vm_compute in E. injection E as <- _. split; reflexivity.
Defined.

(** A table that grows between the two calls: nothing is returned, although there are
    sockets. *)
Lemma grown_table_is_dropped {E} (TcpTable : bool -> Z -> Z -> E -> (Z * Z * list tcp_row) * E) n
    OpenProcess FileName Ipv4 result (s : sys E) :
  sys_ok s -> (forall size fam e, (TcpTable true size fam e).1.1.1 = ERROR_INSUFFICIENT_BUFFER) ->
  exists s', getTCPSockets TcpTable n OpenProcess FileName Ipv4 result s = Ok (result, s').
Proof.
  intros Hs Hg. unfold getTCPSockets.
  destruct (clean_call (TcpTable false n AF_INET) s) as (s1 & E1 & _ & C1). step_io E1.
  destruct (TcpTable false n AF_INET (env s)).1 as [[ret size] rows0].
  destruct (_ || _); [by exists s1|].
  destruct (new_array_ok s1) as (s2 & E2 & V2 & Hs2 & N2 & A2 & H2); [by eapply clean_ok|]. step_io E2.
  destruct (clean_call (TcpTable true size AF_INET) s2) as (s3 & E3 & _ & C3). step_io E3.
  pose proof (Hg size AF_INET (env s2)) as Hr. destruct (TcpTable true size AF_INET (env s2)).1 as [[ret' size'] rows].
  cbn in Hr. subst ret'. cbn [NO_ERROR ERROR_INSUFFICIENT_BUFFER Z.eqb negb].
  assert (sys_ok s1) as Hs1 by (by apply (clean_ok s s1 [])).
  destruct (array_scope s1 s2 s3 [] Hs1 A2 N2 H2 C3) as (s4 & E4 & _). step_io E4. by exists s4.
Qed.
