(* ===== verification/EventLog.v ===== *)
(** * [ConsoleApplication1/EventLogManager.cpp]: reading the event log

    [GetLogEntries] reads the System log until it finds a record of the source DCOM, and
    [processRecord] makes the entry, with the message of the source's resource files.
    The log is a parameter over a state [L], the registry, the environment and the
    resource files are parameters over [W].  Wide strings are lists of 16-bit units. *)

From stdpp Require Import strings gmap.
From S2P Require Import Prelude Windows.

Definition ERROR_SUCCESS : Z := 0.
Definition ERROR_FILE_NOT_FOUND : Z := 2.
Definition ERROR_INSUFFICIENT_BUFFER : Z := 122.
Definition ERROR_HANDLE_EOF : Z := 38.
Definition ERROR_MR_MID_NOT_FOUND : Z := 317.
Definition EVENTLOG_SEQUENTIAL_READ : Z := 1.
Definition EVENTLOG_SEEK_READ : Z := 2.
Definition EVENTLOG_FORWARDS_READ : Z := 4.
Definition KEY_SIZE : Z := 8192.

(** [FAILED(res)]: the sign of the 32-bit result. *)
Definition FAILED (res : Z) : bool := i32 res <? 0.

(** ** [utils.h] *)

Record LogEntry := mkLogEntry { ts : Z; priority : Z; source : list Z; message : list Z }.
Definition new_LogEntry : LogEntry := mkLogEntry 0 0 [] [].

(** [li.QuadPart] of the two halves. *)
Definition convert_high_low (high low : Z) : Z := swrap 64 (Z.lor (Z.shiftl high 32) low).
Record FILETIME := mkFileTime { dwHighDateTime : Z; dwLowDateTime : Z }.
Definition convert_filetime (t : FILETIME) : Z := convert_high_low (dwHighDateTime t) (dwLowDateTime t).

(** [narrow_char] is what the locale's [ctype] makes of a character, ['_'] by default. *)
Definition narrow_wstring (narrow_char : Z -> Z) (str : list Z) : list Z := narrow_char <$> str.

(** ** Reading memory *)

Definition load (buf : list Z) (off : Z) : res Z :=
  if 0 <=? off then match buf !! Z.to_nat off with Some b => Ok b | None => UB end else UB.
Definition load16 (buf : list Z) (off : Z) : res Z :=
  let! a := load buf off in let! b := load buf (off + 1) in Ok (Z.lor a (Z.shiftl b 8)).
Definition load32 (buf : list Z) (off : Z) : res Z :=
  let! a := load16 buf off in let! b := load16 buf (off + 2) in Ok (Z.lor a (Z.shiftl b 16)).

(** The wide string that ends at the next zero. *)
Fixpoint wstring_at (fuel : nat) (buf : list Z) (off : Z) : res (list Z) :=
  match fuel with
  | O => UB
  | S fuel =>
      let! c := load16 buf off in
      if c =? 0 then Ok [] else let! s := wstring_at fuel buf (off + 2) in Ok (c :: s)
  end.
Definition wstring (buf : list Z) (off : Z) : res (list Z) := wstring_at (S (length buf)) buf off.

(** The fields of an [EVENTLOGRECORD] at [current]. *)
Definition sizeof_RECORD : Z := 56.
Definition Length buf current := load32 buf current.
Definition RecordNumber buf current := load32 buf (current + 8).
Definition TimeGenerated buf current := load32 buf (current + 12).
Definition EventID buf current := load32 buf (current + 20).
Definition EventType buf current := load16 buf (current + 24).
Definition NumStrings buf current := load16 buf (current + 26).
Definition StringOffset buf current := load32 buf (current + 36).

(** The loop that fills [all_strings]: [n] rounds are left, [i] is the next. *)
Fixpoint string_pointers (n : nat) (i num : Z) (buf : list Z) (curr_string : Z) : res (list Z) :=
  match n with
  | O => Ok []
  | S n =>
      let! next := (if i =? num - 1 then let! w := wstring buf curr_string in
                                        Ok (curr_string + 2 * (Z.of_nat (length w) + 1))
                    else Ok curr_string) in
      let! rest := string_pointers n (i + 1) num buf next in
      Ok (curr_string :: rest)
  end.

(** [std::getline(stream, filename, L';')] until it fails. *)
Fixpoint getlines (line s : list Z) : list (list Z) :=
  match s with
  | [] => match line with [] => [] | _ => [rev line] end
  | c :: s => if c =? 59 then rev line :: getlines [] s else getlines (c :: line) s
  end.

(** ** The manager *)

Record EventLogManager := mkManager {
  last_record_read : Z;
  event_log : Z;
  dll_cache : gmap (list Z) Z
}.

Section EventLog.
Context {L W : Type}.
(** [OpenEventLog], [CloseEventLog]. *)
Context (OpenEventLog : L -> Z * L) (CloseEventLog : Z -> L -> unit * L).
(** [ReadEventLog(event_log, flags, offset, buffer, size, ...)]: the bytes written when it
    succeeds, else the error and the bytes needed. *)
Context (ReadEventLog : Z -> Z -> Z -> Z -> L -> (list Z + Z * Z) * L).
(** Whether [malloc] or [realloc] finds memory. *)
Context (alloc : Z -> W -> bool * W).
(** [RegOpenKeyEx]: the result, and the key when it was written; [RegQueryValueEx]: the
    result, and the string when it was written. *)
Context (RegOpenKeyEx : list Z -> W -> (Z * option Z) * W).
Context (RegQueryValueEx : Z -> list Z -> Z -> W -> (Z * option (list Z)) * W).
Context (ExpandEnvironmentStrings : list Z -> Z -> W -> (Z * list Z) * W).
Context (LoadLibraryEx : list Z -> W -> Z * W) (FreeLibrary : Z -> W -> unit * W).
(** [FormatMessage(module, EventID, arguments)], the arguments as pointers into the
    record: the message it allocates, or [GetLastError()] when it returns 0. *)
Context (FormatMessage : Z -> Z -> list Z -> list Z -> W -> (list Z + Z) * W).
Context (narrow_char : Z -> Z).
Notation io := (io (L * W)).

Definition on_log {A} (f : L -> A * L) : io A := call (fun e => let '(a, l) := f e.1 in (a, (l, e.2))).
Definition on_windows {A} (f : W -> A * W) : io A := call (fun e => let '(a, w) := f e.2 in (a, (e.1, w))).
(** A step that only reads memory. *)
Definition from_res {A} (r : res A) : io A := fun s => let! a := r in Ok (a, s).

Definition new_EventLogManager : io EventLogManager :=
  do! h := on_log OpenEventLog in io_ret (mkManager 0 h ∅).

(** [~EventLogManager]: the libraries are freed in the order of their names; with what is
    printed. *)
Definition name_le (a b : list Z * Z) : Prop := string_less b.1 a.1 = false.
#[local] Instance name_le_dec a b : Decision (name_le a b) := decide (string_less b.1 a.1 = false).
Definition shutdown_line (n : nat) : line := ("\n%lld entries in dll cache at shutdown"%string, [Int (Z.of_nat n)]).
Definition delete_EventLogManager (m : EventLogManager) : io (list line) :=
  do! _ := on_log (CloseEventLog (event_log m)) in
  do! _ := io_map (fun kv => on_windows (FreeLibrary kv.2)) (merge_sort name_le (map_to_list (dll_cache m))) in
  io_ret [shutdown_line (size (dll_cache m))].

(** The loop over the resource files, with what it prints; a message is memory of
    [LocalAlloc]. *)
Fixpoint message_files (m : EventLogManager) (entry : LogEntry) (buf : list Z) (id : Z) (args : list Z)
    (files : list (list Z)) : io (EventLogManager * LogEntry * list line) :=
  match files with
  | [] => io_ret (m, entry, [])
  | filename :: files =>
      do! found := (match dll_cache m !! filename with
                    | Some dll => io_ret (Some (m, dll))
                    | None =>
                        do! dll := on_windows (LoadLibraryEx filename) in
                        io_ret (if dll =? 0 then None
                                else Some (mkManager (last_record_read m) (event_log m)
                                             (<[filename := dll]> (dll_cache m)), dll))
                    end) in
      match found with
      | None => io_ret (m, entry, [])
      | Some (m, dll) =>
          do! actual_message := on_windows (FormatMessage dll id args buf) in
          match actual_message with
          | inr error =>
              if negb (error =? ERROR_MR_MID_NOT_FOUND)
              then io_ret (m, entry, [("Format message failed: %lu\n"%string, [Int error])])
              else message_files m entry buf id args files
          | inl text =>
              do! p := new_array in
              let entry := mkLogEntry (ts entry) (priority entry) (source entry)
                             (narrow_wstring narrow_char text) in
              do! _ := delete_array p in
              message_files m entry buf id args files
          end
      end
  end.

Definition DCOM : list Z := chars "DCOM".
Definition key_prefix : list Z := chars "SYSTEM\CurrentControlSet\Services\Eventlog\System\".

Definition processRecord (m : EventLogManager) (buf : list Z) (current : Z)
    : io (EventLogManager * option LogEntry * list line) :=
  do! t := from_res (TimeGenerated buf current) in
  do! p := from_res (EventType buf current) in
  do! src := from_res (wstring buf (current + sizeof_RECORD)) in
  if negb (bool_decide (src = DCOM)) then io_ret (m, None, [])
  else
    let entry := mkLogEntry t p (narrow_wstring narrow_char src) [] in
    do! (res, key_handle) := on_windows (RegOpenKeyEx (key_prefix ++ src)) in
    match key_handle with
    | None => io_ub
    | Some key =>
        do! _ := opened key in
        if FAILED res then do! _ := CloseHandle key in io_ret (m, Some entry, [])
        else
          do! (res, message_file) := on_windows (RegQueryValueEx key (chars "EventMessageFile") KEY_SIZE) in
          do! _ := CloseHandle key in
          if negb (res =? ERROR_SUCCESS) && negb (res =? ERROR_FILE_NOT_FOUND) then io_ret (m, Some entry, [])
          else
            match message_file with
            | None => io_ub
            | Some file =>
                do! (res, formatted) := on_windows (ExpandEnvironmentStrings file KEY_SIZE) in
                if res =? 0 then io_ret (m, None, [])
                else
                  do! num := from_res (NumStrings buf current) in
                  do! off := from_res (StringOffset buf current) in
                  do! args := from_res (string_pointers (Z.to_nat num) 0 num buf (current + off)) in
                  do! id := from_res (EventID buf current) in
                  do! (m, entry, out) := message_files m entry buf id args (getlines [] formatted) in
                  io_ret (m, Some entry, out)
            end
    end.

(** The inner loop: the records of one buffer. *)
Fixpoint records (fuel : nat) (m : EventLogManager) (buf : list Z) (current : Z)
    : io (EventLogManager * option LogEntry * list line) :=
  match fuel with
  | O => io_nofuel
  | S fuel =>
      if negb (current <? Z.of_nat (length buf)) then io_ret (m, None, [])
      else
        do! (m, result, out) := processRecord m buf current in
        match result with
        | Some entry => io_ret (m, Some entry, out)
        | None =>
            do! number := from_res (RecordNumber buf current) in
            do! len := from_res (Length buf current) in
            do! (m, result, more) := records fuel (mkManager number (event_log m) (dll_cache m)) buf (current + len) in
            io_ret (m, result, out ++ more)
        end
  end.

(** The outer loop, one round per call of [ReadEventLog]. *)
Fixpoint read_loop (fuel : nat) (m : EventLogManager) (read_flag bytes_to_read : Z)
    : io (EventLogManager * list LogEntry * list line) :=
  match fuel with
  | O => io_nofuel
  | S fuel =>
      do! got := on_log (ReadEventLog (event_log m) read_flag (last_record_read m) bytes_to_read) in
      match got with
      | inr (status, bytes_needed) =>
          if status =? ERROR_INSUFFICIENT_BUFFER then
            do! ok := on_windows (alloc bytes_needed) in
            if negb ok then io_ret (m, [], [])
            else if status =? ERROR_SUCCESS then read_loop fuel m read_flag bytes_needed
            else io_ret (m, [], [])
          else if negb (status =? ERROR_HANDLE_EOF) then io_ret (m, [], [])
          else if status =? ERROR_SUCCESS then read_loop fuel m read_flag bytes_to_read
          else io_ret (m, [], [])
      | inl buf =>
          do! (m, result, out) := records (S (length buf)) m buf 0 in
          match result with
          | Some entry => io_ret (m, [entry], out)
          | None =>
              do! (m, results, more) := read_loop fuel m read_flag bytes_to_read in
              io_ret (m, results, out ++ more)
          end
      end
  end.

Definition read_flag (m : EventLogManager) : Z :=
  Z.lor EVENTLOG_FORWARDS_READ
    (if last_record_read m =? 0 then EVENTLOG_SEQUENTIAL_READ else EVENTLOG_SEEK_READ).

Definition GetLogEntries (fuel : nat) (m : EventLogManager) : io (EventLogManager * list LogEntry * list line) :=
  if event_log m =? 0 then io_ret (m, [], [])
  else
    do! ok := on_windows (alloc 0x10000) in
    if negb ok then io_ret (m, [], [])
    else
      do! buffer := new_array in
      do! (m, results, out) := read_loop fuel m (read_flag m) 0x10000 in
      do! _ := delete_array buffer in
      io_ret (m, results, out).
End EventLog.
