(* ===== verification/EventLogProps.v ===== *)
(** * Reading the event log: what it returns and when it ends

    A first call, which reads sequentially, ends on every finite log; a later one, which
    seeks the last record it has seen, reads that record again, and for ever when no
    record behind it is asked for. *)

From stdpp Require Import strings gmap.
From S2P Require Import Prelude Windows EventLog.

Definition is_Ok {A} (r : res A) : bool := match r with Ok _ => true | _ => false end.

(** ** Conversions *)

(** The 64-bit number of two halves. *)
Lemma convert_high_low_value high low :
  0 <= high < 2 ^ 32 -> 0 <= low < 2 ^ 32 ->
  convert_high_low high low = high * 2 ^ 32 + low - (if high <? 2 ^ 31 then 0 else 2 ^ 64).
Proof.
  intros Hh Hl. unfold convert_high_low. rewrite Z.shiftl_mul_pow2 by lia.
  rewrite (lor_low _ _ 32) by (try lia; apply Z_mod_mult). unfold swrap.
  rewrite Z.mod_small by lia. destruct (Z.ltb_spec high (2 ^ 31)), (Z.ltb_spec (high * 2 ^ 32 + low) (2 ^ (64 - 1))); lia.
Qed.

(** ** Pointers to the strings of a record *)

(** Every pointer is that of the first string: the loop moves on in its last round. *)
Lemma string_pointers_same n i num buf curr r :
  i + Z.of_nat n = num -> string_pointers n i num buf curr = Ok r -> r = replicate n curr.
Proof.
  revert i curr r. induction n as [|n IH]; intros i curr r Hn E; cbn [string_pointers] in E.
  { by injection E as <-. }
  apply res_bind_Ok in E as (next & E1 & E). apply res_bind_Ok in E as (rest & E2 & E). injection E as <-.
  destruct (Z.eqb_spec i (num - 1)) as [->|Hi].
  - destruct n; [|lia]. cbn in E2. injection E2 as <-. done.
  - injection E1 as <-. cbn. f_equal. apply (IH (i + 1)); [lia|done].
Qed.

Section Props.
Context {L W : Type}.
Context (ReadEventLog : Z -> Z -> Z -> Z -> L -> (list Z + Z * Z) * L).
Context (alloc : Z -> W -> bool * W).
Context (RegOpenKeyEx : list Z -> W -> (Z * option Z) * W).
Context (RegQueryValueEx : Z -> list Z -> Z -> W -> (Z * option (list Z)) * W).
Context (ExpandEnvironmentStrings : list Z -> Z -> W -> (Z * list Z) * W).
Context (LoadLibraryEx : list Z -> W -> Z * W).
Context (FormatMessage : Z -> Z -> list Z -> list Z -> W -> (list Z + Z) * W).
Context (narrow_char : Z -> Z).
Notation sys := (sys (L * W)).
Notation processRecord := (processRecord RegOpenKeyEx RegQueryValueEx ExpandEnvironmentStrings LoadLibraryEx
  FormatMessage narrow_char).
Notation message_files := (message_files LoadLibraryEx FormatMessage narrow_char).
Notation records := (records RegOpenKeyEx RegQueryValueEx ExpandEnvironmentStrings LoadLibraryEx
  FormatMessage narrow_char).
Notation read_loop := (read_loop ReadEventLog alloc RegOpenKeyEx RegQueryValueEx ExpandEnvironmentStrings
  LoadLibraryEx FormatMessage narrow_char).
Notation GetLogEntries := (GetLogEntries ReadEventLog alloc RegOpenKeyEx RegQueryValueEx
  ExpandEnvironmentStrings LoadLibraryEx FormatMessage narrow_char).

(** Nothing is left over, and the log is where it was. *)
Record same_log (s s' : sys) : Prop := mkSameLog { sl_tidy : tidy s s'; sl_log : (env s').1 = (env s).1 }.

Lemma same_log_refl s : same_log s s.
Proof using. split; [apply tidy_refl|done]. Qed.

Lemma same_log_trans s1 s2 s3 : same_log s1 s2 -> same_log s2 s3 -> same_log s1 s3.
Proof using. intros [T1 L1] [T2 L2]. split; [by eapply tidy_trans|congruence]. Qed.

Lemma same_log_env s s1 s2 : same_log s s1 -> env s2 = env s1 -> tidy s s2 -> same_log s s2.
Proof using. intros [_ E] V T. split; [done|by rewrite V]. Qed.

Lemma wp_windows {A} (f : W -> A * W) (s : sys) (Q : A -> sys -> Prop) :
  (forall a s', same_log s s' -> Q a s') -> wp (on_windows f) s Q.
Proof using.
  intros HQ. unfold on_windows. apply wp_call. intros s' V T. apply HQ. split; [done|]. rewrite V.
  by destruct (f (env s).2).
Qed.

Lemma wp_from_res {A} (r : res A) (s : sys) (Q : A -> sys -> Prop) :
  (exists a, r = Ok a /\ Q a s) -> wp (from_res r) s Q.
Proof using. intros (a & -> & HQ). exact HQ. Qed.

(** ** Records *)

Lemma load16_ok buf off : 0 <= off -> off + 1 < Z.of_nat (length buf) -> exists v, load16 buf off = Ok v.
Proof using.
  intros H0 H1. unfold load16, load. rewrite !(proj2 (Z.leb_le _ _)) by lia.
  destruct (lookup_lt_is_Some_2 buf (Z.to_nat off)) as [a ->]; [lia|].
  destruct (lookup_lt_is_Some_2 buf (Z.to_nat (off + 1))) as [b ->]; [lia|]. cbn. by eexists.
Qed.
Lemma load32_ok buf off : 0 <= off -> off + 3 < Z.of_nat (length buf) -> exists v, load32 buf off = Ok v.
Proof using.
  intros H0 H1. unfold load32. destruct (load16_ok buf off) as [a ->]; [lia|lia|].
  destruct (load16_ok buf (off + 2)) as [b ->]; [lia|lia|]. cbn. by eexists.
Qed.

Lemma load16_nonneg buf off v : bytes_ok buf -> load16 buf off = Ok v -> 0 <= v.
Proof using.
  intros Hb E. unfold load16 in E. apply res_bind_Ok in E as (a & Ea & E). apply res_bind_Ok in E as (b & Eb & E).
  injection E as <-. assert (forall o x, load buf o = Ok x -> 0 <= x) as H.
  { intros o x Ex. unfold load in Ex. destruct (0 <=? o); [|done]. destruct (buf !! Z.to_nat o) eqn:El; [|done].
    injection Ex as <-. apply (Forall_lookup_1 _ _ _ _ Hb) in El. apply El. }
  apply Z.lor_nonneg. split; [by eapply H|]. apply Z.shiftl_nonneg. by eapply H.
Qed.

(** A record lies in the buffer, its source ends there, and so does its first string when
    it has one. *)
Record record_ok (buf : list Z) (current : Z) : Prop := mkRecordOk {
  ro_start : 0 <= current;
  ro_fields : current + sizeof_RECORD <= Z.of_nat (length buf);
  ro_source : exists src, wstring buf (current + sizeof_RECORD) = Ok src;
  ro_strings : forall num off, NumStrings buf current = Ok num -> StringOffset buf current = Ok off -> 0 < num ->
    exists w, wstring buf (current + off) = Ok w
}.

(** From [current] on, one record follows another to the end of the buffer. *)
Inductive chained (buf : list Z) : Z -> Prop :=
| chain_end current : Z.of_nat (length buf) <= current -> chained buf current
| chain_next current n : record_ok buf current -> Length buf current = Ok n -> 0 < n ->
    chained buf (current + n) -> chained buf current.

Lemma string_pointers_ok n i num buf curr w :
  0 <= i -> i + Z.of_nat n = num -> (0 < num -> wstring buf curr = Ok w) ->
  exists r, string_pointers n i num buf curr = Ok r.
Proof using.
  revert i. induction n as [|n IH]; intros i Hi Hn Hw; cbn [string_pointers]; [by eexists|].
  destruct (Z.eqb_spec i (num - 1)) as [Ei|Ei].
  - destruct n; [|lia]. rewrite Hw by lia. cbn. by eexists.
  - cbn [res_bind]. destruct (IH (i + 1)) as [r ->]; [lia|lia|done|]. cbn. by eexists.
Qed.

#[local] Hint Resolve same_log_refl same_log_trans : log.

(** What the loop over the files keeps of the manager and of the entry. *)
Definition kept (m : EventLogManager) (e : LogEntry) (r : EventLogManager * LogEntry) : Prop :=
  last_record_read r.1 = last_record_read m /\ event_log r.1 = event_log m /\ source r.2 = source e.

(** At most one message could not be formatted: the loop ends there. *)
Definition printed_ok (out : list line) : Prop :=
  out = [] \/ exists error, out = [("Format message failed: %lu\n"%string, [Int error])].

Lemma message_files_ok m entry buf id args files (s : sys) :
  sys_ok s ->
  wp (message_files m entry buf id args files) s (fun r s' => same_log s s' /\ kept m entry r.1 /\ printed_ok r.2).
Proof using.
  revert m entry s. induction files as [|file files IH]; intros m entry s Hs; cbn [EventLog.message_files].
  { apply wp_ret. split; [apply same_log_refl|]. split; [done|by left]. }
  apply wp_bind.
  apply (wp_mono _ _ (fun found s1 => same_log s s1 /\ forall m' dll, found = Some (m', dll) ->
    last_record_read m' = last_record_read m /\ event_log m' = event_log m)).
  { destruct (dll_cache m !! file) as [dll|].
    - apply wp_ret. split; [apply same_log_refl|]. by intros m' d [= <- <-].
    - apply wp_bind, wp_windows. intros dll s1 S1. apply wp_ret. split; [done|].
      destruct (dll =? 0); [done|]. by intros m' d [= <- <-]. }
  intros [[m1 dll]|] s1 (S1 & Hm); [|apply wp_ret; split; [done|]; split; [done|by left]].
  destruct (Hm m1 dll eq_refl) as [Hm1 Hm2].
  apply wp_bind, wp_windows. intros text s2 S2. pose proof (same_log_trans _ _ _ S1 S2) as S12.
  assert (sys_ok s2) as Hs2 by (apply (tidy_ok s); [done|apply S12]).
  assert (forall e' s3, sys_ok s3 -> same_log s2 s3 -> source e' = source entry ->
    wp (message_files m1 e' buf id args files) s3
      (fun r s' => same_log s s' /\ kept m entry r.1 /\ printed_ok r.2)) as Hrest.
  { intros e' s3 Hs3 S3 He. eapply wp_mono; [by apply IH|]. intros r s' (S' & (K1 & K2 & K3) & P).
    split; [eauto with log|]. split; [|done]. split_and!; congruence. }
  destruct text as [text|error].
  - apply wp_bind, wp_new; [done|]. intros p s3 V3 A3.
    apply wp_bind, (wp_delete p s2 s3); [done|]. intros s4 V4 T4.
    apply Hrest; [by eapply tidy_ok| |done]. split; [done|]. by rewrite V4, V3.
  - destruct (negb _); [|by apply Hrest; [done|apply same_log_refl|]].
    apply wp_ret. split; [done|]. split; [done|]. right. by exists error.
Qed.

(** What a record gives: an entry of the source DCOM. *)
Definition entry_ok (e : LogEntry) : Prop := source e = narrow_wstring narrow_char DCOM.

(** What the loops return: the manager of the same log, and entries of DCOM; nothing is
    printed of a record that gives none. *)
Definition found_ok (m : EventLogManager) (r : EventLogManager * option LogEntry * list line) : Prop :=
  event_log r.1.1 = event_log m /\ printed_ok r.2 /\
  match r.1.2 with Some e => entry_ok e | None => r.2 = [] end.

Lemma found_none m m' : event_log m' = event_log m -> found_ok m (m', None, []).
Proof using. intros H. split; [done|]. split; [by left|done]. Qed.
Lemma found_entry m m' e : event_log m' = event_log m -> entry_ok e -> found_ok m (m', Some e, []).
Proof using. intros H He. split; [done|]. split; [by left|done]. Qed.

(** What is asked of the registry: the key of the source DCOM and the file of its
    messages.  [RegOpenKeyEx] writes a key, and [RegQueryValueEx] writes a value where the
    program goes on with it, which is also when it says that there is none. *)
Record registry_ok : Prop := mkRegistryOk {
  rg_key : forall w, is_Some (RegOpenKeyEx (key_prefix ++ DCOM) w).1.2;
  rg_value : forall key w, let r := (RegQueryValueEx key (chars "EventMessageFile") KEY_SIZE w).1 in
    r.1 = ERROR_SUCCESS \/ r.1 = ERROR_FILE_NOT_FOUND -> is_Some r.2
}.

Lemma wp_windows_at {A} (f : W -> A * W) (s : sys) (Q : A -> sys -> Prop) :
  (forall s', same_log s s' -> Q (f (env s).2).1 s') -> wp (on_windows f) s Q.
Proof using.
  intros HQ. unfold on_windows. apply wp_call. intros s' V T.
  destruct (f (env s).2) as [a w] eqn:Ef. apply HQ. split; [done|]. by rewrite V.
Qed.

(** The arguments of [FormatMessage]. *)
Lemma arguments_ok buf current num off :
  record_ok buf current -> 0 <= num -> NumStrings buf current = Ok num -> StringOffset buf current = Ok off ->
  exists r, string_pointers (Z.to_nat num) 0 num buf (current + off) = Ok r.
Proof using.
  intros R Hn En Eo. destruct (decide (0 < num)) as [Hp|].
  - destruct (ro_strings _ _ R num off En Eo Hp) as [w Hw]. apply (string_pointers_ok _ _ _ _ _ w); [lia|lia|done].
  - assert (num = 0) as -> by lia. by eexists.
Qed.

(** The second half of [processRecord], when the file names are known. *)
Lemma formatted_ok m buf current entry formatted (s : sys) :
  sys_ok s -> record_ok buf current -> bytes_ok buf ->
  wp (do! num := from_res (NumStrings buf current) in
      do! off := from_res (StringOffset buf current) in
      do! args := from_res (string_pointers (Z.to_nat num) 0 num buf (current + off)) in
      do! id := from_res (EventID buf current) in
      do! (m, entry, out) := message_files m entry buf id args (getlines [] formatted) in
      io_ret (m, Some entry, out)) s
    (fun r s' => same_log s s' /\ printed_ok r.2 /\ exists e, r.1.2 = Some e /\ kept m entry (r.1.1, e)).
Proof using.
  intros Hs R Hb. pose proof (ro_start _ _ R). pose proof (ro_fields _ _ R). unfold sizeof_RECORD in *.
  destruct (load16_ok buf (current + 26)) as [num En]; [lia|lia|].
  destruct (load32_ok buf (current + 36)) as [off Eo]; [lia|lia|].
  destruct (load32_ok buf (current + 20)) as [id Ei]; [lia|lia|].
  destruct (arguments_ok buf current num off R) as [args Ea]; [by eapply load16_nonneg|done|done|].
  apply wp_bind, wp_from_res. exists num. split; [exact En|].
  apply wp_bind, wp_from_res. exists off. split; [exact Eo|].
  apply wp_bind, wp_from_res. exists args. split; [exact Ea|].
  apply wp_bind, wp_from_res. exists id. split; [exact Ei|].
  apply wp_bind. eapply wp_mono; [by apply message_files_ok|].
  intros [[m' e'] out] s' (S' & K & P). apply wp_ret. split; [done|]. split; [done|]. by exists e'.
Qed.

Lemma processRecord_ok m buf current (s : sys) :
  registry_ok -> sys_ok s -> record_ok buf current -> bytes_ok buf ->
  wp (processRecord m buf current) s (fun r s' => same_log s s' /\ found_ok m r).
Proof using.
  intros Hreg Hs R Hb. pose proof (ro_start _ _ R). pose proof (ro_fields _ _ R).
  destruct (ro_source _ _ R) as [src Esrc0]. unfold EventLog.processRecord. unfold sizeof_RECORD in *.
  destruct (load32_ok buf (current + 12)) as [t Et]; [lia|lia|].
  destruct (load16_ok buf (current + 24)) as [p Ep]; [lia|lia|].
  apply wp_bind, wp_from_res. exists t. split; [exact Et|].
  apply wp_bind, wp_from_res. exists p. split; [exact Ep|].
  apply wp_bind, wp_from_res. exists src. split; [exact Esrc0|].
  destruct (negb (bool_decide (src = DCOM))) eqn:Esrc; [apply wp_ret; split; [apply same_log_refl|by apply found_none]|].
  apply negb_false_iff, bool_decide_eq_true in Esrc. subst src.
  set (entry := mkLogEntry t p _ []). assert (entry_ok entry) as He by done.
  apply wp_bind, wp_windows_at. intros s1 S1. destruct (rg_key Hreg (env s).2) as [key Ek].
  destruct (RegOpenKeyEx _ _).1 as [res k]. cbn in Ek. subst k.
  apply wp_bind, wp_opened. intros s2 V2 C2. cbv zeta. destruct (FAILED res).
  { apply wp_bind, (wp_close key s1 s2); [done|]. intros s3 V3 T3. apply wp_ret.
    split; [|by apply found_entry].
    apply (same_log_env s s1); [done|congruence|]. eapply tidy_trans; [apply S1|done]. }
  apply wp_bind, wp_windows_at. intros s3 S3.
  pose proof (rg_value Hreg key (env s2).2) as Hv. cbv zeta in Hv.
  destruct (RegQueryValueEx _ _ _ _).1 as [res2 file]. cbn [fst snd] in Hv.
  apply wp_bind, (wp_close key s1 s3); [by eapply handle_tidy; [|apply S3]|]. intros s4 V4 T4.
  assert (same_log s s4) as S4.
  { split; [eapply tidy_trans; [apply S1|done]|]. rewrite V4, (sl_log _ _ S3), V2. apply S1. }
  destruct (negb (res2 =? ERROR_SUCCESS) && negb (res2 =? ERROR_FILE_NOT_FOUND)) eqn:E0.
  { apply wp_ret. split; [done|by apply found_entry]. }
  destruct Hv as [f ->]; [lia|].
  apply wp_bind, wp_windows. intros [res3 formatted] s5 S5. pose proof (same_log_trans _ _ _ S4 S5) as S45.
  destruct (res3 =? 0); [apply wp_ret; split; [done|by apply found_none]|].
  eapply wp_mono; [apply (formatted_ok _ _ _ entry); [apply (tidy_ok s); [done|apply S45]|done|done]|].
  intros [[m' e'] out] s6 (S6 & P & e & Ee & K1 & K2 & K3). cbn [fst snd] in *. subst e'.
  split; [eauto with log|]. split; [done|]. split; [done|]. unfold entry_ok. cbn. by rewrite K3.
Qed.

(** ** The loops *)

Lemma records_ok fuel m buf current (s : sys) :
  registry_ok -> sys_ok s -> bytes_ok buf -> chained buf current ->
  (Z.to_nat (Z.of_nat (length buf) - current) < fuel)%nat ->
  wp (records fuel m buf current) s (fun r s' => same_log s s' /\ found_ok m r).
Proof using.
  intros Hreg Hs Hb Hc. revert fuel m s Hs. induction Hc as [current Hend|current n R El Hn Hc IH];
    intros [|fuel] m s Hs Hf; try lia; cbn [EventLog.records].
  - rewrite (proj2 (Z.ltb_ge _ _)) by lia. apply wp_ret. split; [apply same_log_refl|by apply found_none].
  - pose proof (ro_start _ _ R). pose proof (ro_fields _ _ R). unfold sizeof_RECORD in *.
    rewrite (proj2 (Z.ltb_lt _ _)) by lia. cbn [negb].
    apply wp_bind. eapply wp_mono; [by apply processRecord_ok|].
    intros [[m1 [e|]] out] s1 (S1 & F1); [by apply wp_ret|].
    destruct F1 as (K & _ & Eout). cbn in K, Eout. subst out.
    destruct (load32_ok buf (current + 8)) as [number En]; [lia|lia|].
    apply wp_bind, wp_from_res. exists number. split; [exact En|].
    apply wp_bind, wp_from_res. exists n. split; [exact El|].
    apply wp_bind. eapply wp_mono; [apply IH; [apply (tidy_ok s); [done|apply S1]|lia]|].
    intros [[m2 r] out] s2 (S2 & K2 & F2). apply wp_ret. split; [eauto with log|]. split; [|done].
    cbn in *. by rewrite K2.
Qed.

(** [Q] of the entries that are returned, and nothing is left over. *)
Definition entries_ok (s : sys) (r : EventLogManager * list LogEntry * list line) (s' : sys) : Prop :=
  tidy s s' /\ (length r.1.2 <= 1)%nat /\ Forall entry_ok r.1.2 /\ printed_ok r.2 /\ (r.1.2 = [] -> r.2 = []).

Lemma no_entries s m s' : tidy s s' -> entries_ok s (m, [], []) s'.
Proof using. intros T. split; [done|]. split; [cbn; lia|]. split; [constructor|]. split; [by left|done]. Qed.

(** A sequential read that succeeds takes records away from those that remain, and fills
    the buffer with a chain of records. *)
Definition log_ok (remaining : L -> nat) : Prop :=
  forall h offset size l buf l',
    ReadEventLog h (Z.lor EVENTLOG_FORWARDS_READ EVENTLOG_SEQUENTIAL_READ) offset size l = (inl buf, l') ->
    (remaining l' < remaining l)%nat /\ bytes_ok buf /\ chained buf 0.

Lemma wp_read flag m size (s : sys) Q :
  (forall got l' s', ReadEventLog (event_log m) flag (last_record_read m) size (env s).1 = (got, l') ->
     tidy s s' -> (env s').1 = l' -> Q got s') ->
  wp (on_log (ReadEventLog (event_log m) flag (last_record_read m) size)) s Q.
Proof using.
  intros HQ. unfold on_log. apply wp_call. intros s' V T.
  destruct (ReadEventLog _ _ _ _ (env s).1) as [got l'] eqn:E. apply (HQ got l'); [done|done|by rewrite V].
Qed.

Lemma read_loop_ok remaining fuel m size (s : sys) :
  registry_ok -> log_ok remaining -> sys_ok s -> (remaining (env s).1 < fuel)%nat ->
  wp (read_loop fuel m (Z.lor EVENTLOG_FORWARDS_READ EVENTLOG_SEQUENTIAL_READ) size) s (entries_ok s).
Proof using.
  intros Hreg Hlog. revert m size s. induction fuel as [|fuel IH]; intros m size s Hs Hf; [lia|].
  cbn [EventLog.read_loop]. apply wp_bind, wp_read. intros got l' s1 Er T1 V1.
  destruct got as [buf|[status needed]].
  - destruct (Hlog _ _ _ _ _ _ Er) as (Hr & Hb & Hc).
    assert (sys_ok s1) as Hs1 by (by eapply tidy_ok).
    apply wp_bind. eapply wp_mono; [apply records_ok; try done; lia|].
    intros [[m1 [e|]] out] s2 (S2 & K2 & P2 & He); cbn [fst snd] in *.
    + apply wp_ret. split; [eapply tidy_trans; [done|apply S2]|]. cbn. split; [lia|].
      split; [constructor; [done|constructor]|]. by split.
    + assert (tidy s s2) as T2 by (eapply tidy_trans; [done|apply S2]).
      subst out. apply wp_bind. eapply wp_mono; [apply (IH m1 size s2)|].
      * by apply (tidy_ok s).
      * rewrite (sl_log _ _ S2), V1. lia.
      * intros [[m3 r] out] s3 (T3 & K3). apply wp_ret. split; [by eapply tidy_trans|done].
  - destruct (Z.eqb_spec status ERROR_INSUFFICIENT_BUFFER) as [->|].
    + apply wp_bind, wp_windows. intros ok s2 S2. pose proof (tidy_trans _ _ _ T1 (sl_tidy _ _ S2)) as T2.
      destruct ok; cbn; by apply no_entries.
    + destruct (negb (status =? ERROR_HANDLE_EOF)) eqn:E2; [by apply no_entries|].
      apply negb_false_iff, Z.eqb_eq in E2 as ->. by apply no_entries.
Qed.

Lemma GetLogEntries_ok remaining fuel m (s : sys) :
  registry_ok -> log_ok remaining -> sys_ok s -> last_record_read m = 0 -> (remaining (env s).1 < fuel)%nat ->
  wp (GetLogEntries fuel m) s (entries_ok s).
Proof using.
  intros Hreg Hlog Hs Hm Hf. unfold EventLog.GetLogEntries, read_flag. rewrite Hm.
  destruct (event_log m =? 0); [apply wp_ret; apply no_entries, tidy_refl|].
  apply wp_bind, wp_windows. intros ok s1 S1. destruct ok; cbn [negb]; [|apply wp_ret; apply no_entries, S1].
  assert (sys_ok s1) as Hs1 by (apply (tidy_ok s); [done|apply S1]).
  apply wp_bind, wp_new; [done|]. intros p s2 V2 A2.
  apply wp_bind. eapply wp_mono; [apply (read_loop_ok remaining); try done|].
  { apply A2. }
  { rewrite V2, (sl_log _ _ S1). lia. }
  intros [[m3 es] out] s3 (T3 & K3). apply wp_bind, (wp_delete p s1 s3); [by eapply with_array_tidy|].
  intros s4 V4 T4. apply wp_ret. split; [|done]. eapply tidy_trans; [apply S1|done].
Qed.

(** ** A registry that lacks what is asked of it *)

(** Somewhere no key or no value is written. *)
Definition registry_lacks : Prop :=
  (exists w, (RegOpenKeyEx (key_prefix ++ DCOM) w).1.2 = None) \/
  exists key w, let r := (RegQueryValueEx key (chars "EventMessageFile") KEY_SIZE w).1 in
    (r.1 = ERROR_SUCCESS \/ r.1 = ERROR_FILE_NOT_FOUND) /\ r.2 = None.
(** ** Seeking *)

(** A record of another source, alone in the buffer. *)
Record other_record (buf : list Z) (number : Z) : Prop := mkOther {
  ot_record : record_ok buf 0;
  ot_source : forall src, wstring buf sizeof_RECORD = Ok src -> src <> DCOM;
  ot_length : Length buf 0 = Ok (Z.of_nat (length buf));
  ot_number : RecordNumber buf 0 = Ok number
}.

Lemma other_record_skipped m buf number (s : sys) :
  other_record buf number ->
  records (S (length buf)) m buf 0 s = Ok ((mkManager number (event_log m) (dll_cache m), None, []), s).
Proof using.
  intros [R Hsrc Hlen Hnum]. pose proof (ro_fields _ _ R) as Hf. unfold sizeof_RECORD in Hf.
  destruct (ro_source _ _ R) as [src Es]. specialize (Hsrc src Es).
  destruct (load32_ok buf (0 + 12)) as [t Et]; [lia|lia|].
  destruct (load16_ok buf (0 + 24)) as [p Ep]; [lia|lia|].
  destruct (length buf) as [|n] eqn:En; [lia|]. cbn [EventLog.records]. rewrite En.
  rewrite (proj2 (Z.ltb_lt _ _)) by lia. cbn [negb].
  assert (processRecord m buf 0 s = Ok ((m, None, []), s)) as E.
  { unfold EventLog.processRecord, io_bind, from_res, TimeGenerated, EventType. rewrite Et. cbn [res_bind].
    rewrite Ep. cbn [res_bind]. rewrite Es. cbn [res_bind]. by rewrite bool_decide_eq_false_2. }
  step_io E. unfold io_bind, from_res. rewrite Hnum. cbn [res_bind]. rewrite Hlen. cbn [res_bind].
  by rewrite (proj2 (Z.ltb_ge _ _)) by lia.
Qed.

Lemma seek_loop fuel m size buf (s : sys) :
  other_record buf (last_record_read m) ->
  (forall size l, ReadEventLog (event_log m) (Z.lor EVENTLOG_FORWARDS_READ EVENTLOG_SEEK_READ) (last_record_read m) size l
     = (inl buf, l)) ->
  read_loop fuel m (Z.lor EVENTLOG_FORWARDS_READ EVENTLOG_SEEK_READ) size s = NoFuel.
Proof using.
  intros Ho Hread. revert s. induction fuel as [|fuel IH]; intros s; [done|]. cbn [EventLog.read_loop].
  assert (on_log (ReadEventLog (event_log m) (Z.lor EVENTLOG_FORWARDS_READ EVENTLOG_SEEK_READ) (last_record_read m) size) s
          = Ok (inl buf, mkSys ((env s).1, (env s).2) (arrays s) (next_array s) (handles s))) as E.
  { unfold on_log, call. by rewrite Hread. }
  step_io E. step_io (other_record_skipped m buf _ (mkSys ((env s).1, (env s).2) (arrays s) (next_array s) (handles s)) Ho).
  destruct m as [n h c]. unfold io_bind. cbn [last_record_read event_log dll_cache] in *. by rewrite IH.
Qed.

Lemma GetLogEntries_seek fuel m buf (s : sys) :
  event_log m <> 0 -> last_record_read m <> 0 -> (forall n w, (alloc n w).1 = true) ->
  other_record buf (last_record_read m) ->
  (forall size l, ReadEventLog (event_log m) (Z.lor EVENTLOG_FORWARDS_READ EVENTLOG_SEEK_READ) (last_record_read m) size l
     = (inl buf, l)) ->
  GetLogEntries fuel m s = NoFuel.
Proof using.
  intros Hh Hl Ha Ho Hread. unfold EventLog.GetLogEntries, read_flag.
  rewrite (proj2 (Z.eqb_neq _ _) Hh), (proj2 (Z.eqb_neq _ _) Hl).
  unfold on_windows at 1. unfold io_bind at 1, call at 1. pose proof (Ha 65536 (env s).2) as Ht.
  destruct (alloc 65536 (env s).2) as [ok w]. cbn in Ht. subst ok. cbn [res_bind negb].
  unfold io_bind at 1, new_array. cbn [res_bind]. unfold io_bind at 1.
  rewrite (seek_loop fuel m 65536 buf _ Ho Hread). done.
Qed.

(** A source without a key in the registry: an uninitialised handle is used. *)
Lemma processRecord_no_key m buf (s : sys) error w :
  record_ok buf 0 -> wstring buf sizeof_RECORD = Ok DCOM ->
  RegOpenKeyEx (key_prefix ++ DCOM) (env s).2 = ((error, None), w) -> processRecord m buf 0 s = UB.
Proof using.
  intros R Es Ek. pose proof (ro_fields _ _ R) as Hf. unfold sizeof_RECORD in *.
  destruct (load32_ok buf (0 + 12)) as [t Et]; [lia|lia|].
  destruct (load16_ok buf (0 + 24)) as [p Ep]; [lia|lia|].
  unfold EventLog.processRecord, io_bind, from_res, TimeGenerated, EventType. rewrite Et. cbn [res_bind].
  rewrite Ep. cbn [res_bind].
  change (0 + sizeof_RECORD) with 56. rewrite Es. cbn [res_bind]. rewrite bool_decide_eq_true_2 by done. cbn [negb].
  unfold on_windows, call. rewrite Ek. done.
Qed.
End Props.

(** ** The same, where the registry lacks something *)

(** The same answers, with something written where nothing was. *)
Definition some_key {W} (open : list Z -> W -> (Z * option Z) * W) (k : list Z) (w : W) : (Z * option Z) * W :=
  let r := open k w in ((r.1.1, Some (default 0 r.1.2)), r.2).
Definition some_value {W} (query : Z -> list Z -> Z -> W -> (Z * option (list Z)) * W) key name size (w : W) :=
  let r := query key name size w in ((r.1.1, Some (default [] r.1.2)), r.2).

Lemma some_registry_ok {W} (open : list Z -> W -> (Z * option Z) * W) query :
  registry_ok (some_key open) (some_value query).
Proof. split; intros; by eexists. Qed.

Section Lacking.
Context {L W : Type}.
Context (read : Z -> Z -> Z -> Z -> L -> (list Z + Z * Z) * L).
Context (alloc : Z -> W -> bool * W).
Context (openkey : list Z -> W -> (Z * option Z) * W).
Context (query : Z -> list Z -> Z -> W -> (Z * option (list Z)) * W).
Context (expand : list Z -> Z -> W -> (Z * list Z) * W).
Context (library : list Z -> W -> Z * W).
Context (format : Z -> Z -> list Z -> list Z -> W -> (list Z + Z) * W).
Context (narrow : Z -> Z).
Notation lacks := (registry_lacks openkey query).

Lemma unless_windows {A B} P (f g : W -> A * W) (k k' : A -> io (L * W) B) :
  (forall w, (f w).2 = (g w).2) -> (forall w, unless P (k (f w).1) (k' (g w).1)) ->
  unless P (io_bind (on_windows f) k) (io_bind (on_windows g) k').
Proof using.
  intros H2 H1. apply unless_call; intros [l w]; cbn [fst snd].
  - specialize (H2 w). destruct (f w), (g w). cbn in *. by subst.
  - specialize (H1 w). by destruct (f w), (g w).
Qed.

Ltac same := apply unless_bind; [apply unless_refl|intros ?].

(** A missing key or value is where the run stops being the same. *)
Lemma processRecord_unless m buf current :
  unless lacks (processRecord (L := L) openkey query expand library format narrow m buf current)
    (processRecord (some_key openkey) (some_value query) expand library format narrow m buf current).
Proof using.
  unfold processRecord. do 3 same. destruct (negb (bool_decide (_ = DCOM))) eqn:Esrc; [apply unless_refl|].
  apply negb_false_iff, bool_decide_eq_true in Esrc. subst. cbv zeta.
  apply unless_windows; [done|]. intros w. unfold some_key. cbn [fst snd].
  destruct (openkey (key_prefix ++ DCOM) w).1 as [res [key|]] eqn:Ek; cbn [fst snd].
  2: { intros s. right. split; [done|]. left. exists w. by rewrite Ek. }
  cbn [default]. unfold id. same. destruct (FAILED res); [apply unless_refl|].
  apply unless_windows; [done|]. intros w2.
  unfold some_value. cbn [fst snd]. destruct (query key _ KEY_SIZE w2).1 as [res2 file] eqn:Eq. cbn [fst snd]. same.
  destruct (negb (res2 =? ERROR_SUCCESS) && negb (res2 =? ERROR_FILE_NOT_FOUND)) eqn:E0; [apply unless_refl|].
  destruct file as [f|]; [apply unless_refl|]. intros s. right. split; [done|]. right.
  exists key, w2. rewrite Eq. split; [cbn; lia|done].
Qed.

Lemma records_unless fuel m buf current :
  unless lacks (records (L := L) openkey query expand library format narrow fuel m buf current)
    (records (some_key openkey) (some_value query) expand library format narrow fuel m buf current).
Proof using.
  revert m current. induction fuel as [|fuel IH]; intros m current; [apply unless_refl|]. cbn [records].
  destruct (negb _); [apply unless_refl|]. apply unless_bind; [apply processRecord_unless|].
  intros [[m1 [e|]] out]; [apply unless_refl|]. do 2 same. apply unless_bind; [apply IH|]. intros ?. apply unless_refl.
Qed.

Lemma read_loop_unless fuel m flag size :
  unless lacks (read_loop read alloc openkey query expand library format narrow fuel m flag size)
    (read_loop read alloc (some_key openkey) (some_value query) expand library format narrow fuel m flag size).
Proof using.
  revert m size. induction fuel as [|fuel IH]; intros m size; [apply unless_refl|]. cbn [read_loop]. same.
  destruct a as [buf|[status needed]].
  - apply unless_bind; [apply records_unless|]. intros [[m1 [e|]] out]; [apply unless_refl|].
    apply unless_bind; [apply IH|]. intros ?. apply unless_refl.
  - destruct (status =? ERROR_INSUFFICIENT_BUFFER).
    + same. destruct (negb _); [apply unless_refl|]. destruct (status =? ERROR_SUCCESS); [apply IH|apply unless_refl].
    + destruct (negb _); [apply unless_refl|]. destruct (status =? ERROR_SUCCESS); [apply IH|apply unless_refl].
Qed.

Lemma GetLogEntries_unless fuel m :
  unless lacks (GetLogEntries read alloc openkey query expand library format narrow fuel m)
    (GetLogEntries read alloc (some_key openkey) (some_value query) expand library format narrow fuel m).
Proof using.
  unfold GetLogEntries. destruct (event_log m =? 0); [apply unless_refl|]. same. destruct (negb _); [apply unless_refl|].
  same. apply unless_bind; [apply read_loop_unless|]. intros ?. apply unless_refl.
Qed.
End Lacking.

(** ** A log of three records *)

Definition dword (v : Z) : list Z := [u8 v; u8 (Z.shiftr v 8); u8 (Z.shiftr v 16); u8 (Z.shiftr v 24)].
Definition wide (s : list Z) : list Z := mjoin ((fun c => [u8 c; u8 (Z.shiftr c 8)]) <$> s) ++ [0; 0].

(** A record without strings; its time is ten times its number. *)
Definition record_bytes (number : Z) (src : list Z) : list Z :=
  let tail := wide src in
  dword (56 + Z.of_nat (length tail)) ++ dword 0 ++ dword number ++ dword (10 * number) ++ dword 0 ++
  dword 7 ++ dword 4 ++ dword 0 ++ dword 0 ++ dword 56 ++ dword 0 ++ dword 0 ++ dword 0 ++ dword 0 ++ tail.

Definition demo_log : list (list Z) :=
  [record_bytes 1 (chars "disk"); record_bytes 2 DCOM; record_bytes 3 DCOM].

(** The state is the number of records read; both kinds of read give all that follow. *)
Definition demo_read (h flags offset size : Z) (pos : nat) : (list Z + Z * Z) * nat :=
  let start := if flags =? 5 then pos else Z.to_nat (offset - 1) in
  match drop start demo_log with
  | [] => (inr (ERROR_HANDLE_EOF, 0), pos)
  | rest => (inl (mjoin rest), length demo_log)
  end.
Definition demo_alloc (n : Z) (w : unit) : bool * unit := (true, w).
Definition demo_key (k : list Z) (w : unit) : (Z * option Z) * unit := ((0, Some 9), w).
Definition demo_value (key : Z) (k : list Z) (n : Z) (w : unit) : (Z * option (list Z)) * unit :=
  ((0, Some (chars "a.dll;b.dll")), w).
Definition demo_expand (s : list Z) (n : Z) (w : unit) : (Z * list Z) * unit := ((1, s), w).
Definition demo_library (s : list Z) (w : unit) : Z * unit := (5, w).
Definition demo_format (dll id : Z) (args buf : list Z) (w : unit) : (list Z + Z) * unit := (inl (chars "text"), w).
Definition demo_call (read : Z -> Z -> Z -> Z -> nat -> (list Z + Z * Z) * nat) (fuel : nat) (m : EventLogManager) :=
  GetLogEntries read demo_alloc demo_key demo_value demo_expand demo_library demo_format id fuel m.
Definition demo_state : sys (nat * unit) := mkSys (0%nat, tt) ∅ 0 [].
Definition demo_manager : EventLogManager := mkManager 0 1 ∅.

Lemma demo_registry : registry_ok demo_key demo_value.
Proof. split; intros; by eexists. Qed.

(** The records of the demo are well-formed, one by one. *)
Lemma demo_record_ok buf current n :
  0 <= current -> current + 56 <= Z.of_nat (length buf) -> is_Ok (wstring buf (current + 56)) = true ->
  NumStrings buf current = Ok 0 -> Length buf current = Ok n -> 0 < n -> chained buf (current + n) ->
  chained buf current.
Proof.
  intros H0 H1 Hs Hn El Hp Hc. apply (chain_next _ _ n); [|done|done|done]. split; [done|done| |].
  - destruct (wstring buf (current + sizeof_RECORD)) as [w| | |] eqn:E; [by exists w|..];
      unfold sizeof_RECORD in E; by rewrite E in Hs.
  - intros num off En _ Hpos. rewrite Hn in En. injection En as <-. lia.
Qed.

Lemma forallb_bytes bs : forallb (fun b => (0 <=? b) && (b <? 256)) bs = true -> bytes_ok bs.
Proof.
  intros H. apply Forall_forall. intros b Hb. apply list_elem_of_In in Hb.
  rewrite forallb_forall in H. specialize (H b Hb). unfold byte_ok. lia.
Qed.

(** Every record of the log takes 66 bytes. *)
Ltac demo_chain :=
  vm_compute; repeat (apply (demo_record_ok _ _ 66); [lia|vm_compute; discriminate|vm_compute; reflexivity..|lia|]);
  apply chain_end; vm_compute; discriminate.

Lemma demo_log_ok : log_ok demo_read (fun pos => 3 - pos)%nat.
Proof.
  intros h offset size pos buf l' E. unfold demo_read in E.
  change (Z.lor EVENTLOG_FORWARDS_READ EVENTLOG_SEQUENTIAL_READ =? 5) with true in E.
  destruct pos as [|[|[|pos]]]; [injection E as <- <-..|by destruct pos];
    (split; [cbn; lia|split; [apply forallb_bytes; vm_compute; reflexivity|demo_chain]]).
Qed.

(** ** The theorems *)

(** The first call of [GetLogEntries], which reads sequentially, returns: when every
    successful read takes records from those that remain and the registry has what is
    asked of it, as many rounds as there are records, and one more, are enough.  It gives
    at most one entry, of the source DCOM, and leaves no memory, key or handle behind. *)
Theorem GetLogEntries_terminates {L W} (read : Z -> Z -> Z -> Z -> L -> (list Z + Z * Z) * L) alloc openkey query
    expand library (format : Z -> Z -> list Z -> list Z -> W -> (list Z + Z) * W) narrow (remaining : L -> nat)
    fuel m (s : sys (L * W)) :
  registry_ok openkey query -> log_ok read remaining -> sys_ok s -> last_record_read m = 0 ->
  (remaining (env s).1 < fuel)%nat ->
  exists m' es out s', GetLogEntries read alloc openkey query expand library format narrow fuel m s
      = Ok ((m', es, out), s') /\ tidy s s' /\ (length es <= 1)%nat /\ Forall (entry_ok narrow) es.
Proof.
  intros Hreg Hlog Hs Hm Hf.
  destruct (wp_elim _ _ _ (GetLogEntries_ok read alloc openkey query expand library format narrow remaining fuel m s
    Hreg Hlog Hs Hm Hf)) as ([[m' es] out] & s' & E & T & Hn & He & _).
  exists m', es, out, s'. by split.
Qed.

Lemma GetLogEntries_terminates_witness :
  exists m' es out s', demo_call demo_read 4 demo_manager demo_state = Ok ((m', es, out), s') /\ tidy demo_state s' /\
    es = [mkLogEntry 20 4 DCOM (chars "text")].
Proof.
  destruct (GetLogEntries_terminates demo_read demo_alloc demo_key demo_value demo_expand demo_library demo_format id
    (fun pos => 3 - pos)%nat 4 demo_manager demo_state) as (m' & es & out & s' & E & T & _).
  - exact demo_registry.
  - exact demo_log_ok.
  - intros p Hp. by apply not_elem_of_empty in Hp.
  - reflexivity.
  - cbn. lia.
  - exists m', es, out, s'. split; [exact E|]. split; [exact T|]. vm_compute in E. by injection E as _ <- _ _.
Defined.

(** A later call seeks the last record read instead of the one behind it: when that
    is the last of the log and of another source, every round reads it again, and no
    number of rounds is enough. *)
Theorem GetLogEntries_seeks_forever {L W} (read : Z -> Z -> Z -> Z -> L -> (list Z + Z * Z) * L) alloc openkey query
    expand library (format : Z -> Z -> list Z -> list Z -> W -> (list Z + Z) * W) narrow fuel m buf
    (s : sys (L * W)) :
  event_log m <> 0 -> last_record_read m <> 0 -> (forall n w, (alloc n w).1 = true) ->
  other_record buf (last_record_read m) ->
  (forall size l, read (event_log m) (Z.lor EVENTLOG_FORWARDS_READ EVENTLOG_SEEK_READ) (last_record_read m) size l
     = (inl buf, l)) ->
  GetLogEntries read alloc openkey query expand library format narrow fuel m s = NoFuel.
Proof. apply GetLogEntries_seek. Qed.

(** A log of the one record 5, of the source disk, which has been read. *)
Definition seek_read (h flags offset size : Z) (pos : nat) : (list Z + Z * Z) * nat :=
  (inl (record_bytes 5 (chars "disk")), pos).

Lemma disk_record : other_record (record_bytes 5 (chars "disk")) 5.
Proof.
  split; [split| | |].
  - done.
  - vm_compute. discriminate.
  - eexists. vm_compute. reflexivity.
  - intros num off En _ Hp. vm_compute in En. injection En as <-. lia.
  - intros src E ->. vm_compute in E. discriminate.
  - vm_compute. reflexivity.
  - vm_compute. reflexivity.
Qed.

Lemma GetLogEntries_seeks_forever_witness :
  demo_call seek_read 1000 (mkManager 5 1 ∅) demo_state = NoFuel.
Proof.
  unfold demo_call. apply (GetLogEntries_seeks_forever seek_read demo_alloc demo_key demo_value demo_expand demo_library demo_format id
    1000 (mkManager 5 1 ∅) (record_bytes 5 (chars "disk")) demo_state).
  - discriminate.
  - discriminate.
  - reflexivity.
  - exact disk_record.
  - reflexivity.
Defined.

Definition entry_times (r : res ((EventLogManager * list LogEntry * list line) * sys (nat * unit))) : option (list Z) :=
  match r with Ok (r, _) => Some (ts <$> r.1.2) | _ => None end.

(** The record found is not taken for read, the others of its buffer are: the second call
    and every later one give the first entry again, and never the second. *)
Lemma second_call_repeats :
  let twice := do! (m, _, _) := demo_call demo_read 4 demo_manager in demo_call demo_read 4 m in
  let thrice := do! (m, _, _) := demo_call demo_read 4 demo_manager in
                do! (m, _, _) := demo_call demo_read 4 m in demo_call demo_read 4 m in
  entry_times (demo_call demo_read 4 demo_manager demo_state) = Some [20] /\
  entry_times (twice demo_state) = Some [20] /\ entry_times (thrice demo_state) = Some [20].
Proof. split; [|split]; vm_compute; reflexivity. Qed.

(** The first record asks for more memory than the buffer has. *)
Definition big_read (h flags offset size : Z) (pos : nat) : (list Z + Z * Z) * nat :=
  if size <? 100000 then (inr (ERROR_INSUFFICIENT_BUFFER, 100000), pos) else demo_read h flags offset size pos.

(** The buffer is enlarged, and the loop ends: nothing is read. *)
Lemma enlarged_buffer_is_not_used :
  entry_times (demo_call big_read 4 demo_manager demo_state) = Some [] /\
  fst (big_read 1 5 0 100000 0) = fst (demo_read 1 5 0 100000 0).
Proof. split; vm_compute; reflexivity. Qed.
