(* ===== verification/Processes.v ===== *)
(** * [ConsoleApplication1/Processes.cpp]: listing the processes

    [GetFromEnum] asks [EnumProcesses] for the numbers of the processes and prints what
    it finds out of each; [GetFromSnapshot] walks through a snapshot.  The calls of
    Windows are parameters; what is printed is a list of lines. *)

From stdpp Require Import strings gmap.
From S2P Require Import Prelude Windows EventLog.

Definition MAX_PATH : Z := 260.

(** The lines printed of a process; the second form has its parent's number too. *)
Inductive process_line :=
| Enum_line (name : list Z) (pid prio utime stime : Z)
| Snapshot_line (name : list Z) (pid ppid prio utime stime : Z).

Record PROCESSENTRY32 := mkEntry { th32ProcessID : Z; th32ParentProcessID : Z }.

Section Processes.
Context {E : Type}.
(** [EnumProcesses(array, cb, &needed)]: the bytes it reports and the numbers in the
    array, [None] when it fails. *)
Context (EnumProcesses : Z -> E -> option (Z * list Z) * E).
Context (OpenProcess : Z -> E -> Z * E).
(** [GetModuleFileNameExA]: the length it returns, and the name when it was written. *)
Context (GetModuleFileNameExA : Z -> Z -> E -> (Z * option (list Z)) * E).
Context (GetProcessMemoryInfo : Z -> E -> bool * E) (GetPriorityClass : Z -> E -> Z * E).
(** [GetProcessTimes]: the kernel and the user time. *)
Context (GetProcessTimes : Z -> E -> option (FILETIME * FILETIME) * E).
(** [CreateToolhelp32Snapshot] gives -1 when it fails. *)
Context (CreateToolhelp32Snapshot : E -> Z * E).
Context (Process32First Process32Next : Z -> E -> option PROCESSENTRY32 * E).
Notation io := (io E).

(** [OpenProcess] gives 0 when it fails, which is no handle. *)
Definition open_process (pid : Z) : io Z :=
  do! proc := call (OpenProcess pid) in
  if proc =? 0 then io_ret proc else do! _ := opened proc in io_ret proc.

(** One round of the loop of [GetFromEnum]; [proc_name] is cleared first. *)
Definition enum_round (pid : Z) : io (list process_line) :=
  do! proc := open_process pid in
  do! (res, proc_name) := call (GetModuleFileNameExA proc MAX_PATH) in
  let proc_name := default [] proc_name in
  if FAILED res then do! _ := CloseHandle proc in io_ret []
  else
    do! ok := call (GetProcessMemoryInfo proc) in
    if negb ok then do! _ := CloseHandle proc in io_ret []
    else
      do! prio := call (GetPriorityClass proc) in
      if prio =? 0 then do! _ := CloseHandle proc in io_ret []
      else
        do! times := call (GetProcessTimes proc) in
        match times with
        | None => do! _ := CloseHandle proc in io_ret []
        | Some (kernel_time, user_time) =>
            do! _ := CloseHandle proc in
            io_ret [Enum_line proc_name pid prio (convert_filetime user_time) (convert_filetime kernel_time)]
        end.

(** The [do] loop: the array, the numbers in it, and the bytes reported. *)
Fixpoint enum_loop (fuel : nat) (current_limit bytes_needed : Z) : io (option (nat * list Z) * Z) :=
  match fuel with
  | O => io_nofuel
  | S fuel =>
      let current_limit := if current_limit =? 0 then 512 else u32 (current_limit * 2) in
      do! processes := new_array in
      do! got := call (EnumProcesses (u32 (current_limit * 4))) in
      do! (processes, bytes_needed) :=
        (match got with
         | None => do! _ := delete_array processes in io_ret (None, bytes_needed)
         | Some (needed, pids) => io_ret (Some (processes, pids), needed)
         end) in
      if current_limit <? bytes_needed / 4 then enum_loop fuel current_limit bytes_needed
      else io_ret (processes, bytes_needed)
  end.

(** [processes[i]] for the numbers below [process_count]. *)
Definition GetFromEnum (fuel : nat) : io (list process_line) :=
  do! (processes, bytes_needed) := enum_loop fuel 0 0 in
  match processes with
  | None => io_ret []
  | Some (_, pids) =>
      let process_count := Z.to_nat (bytes_needed / 4) in
      if (length pids <? process_count)%nat then io_ub
      else do! lines := io_map enum_round (take process_count pids) in io_ret (mjoin lines)
  end.

(** One round of the loop of [GetFromSnapshot]: [proc_name] is not cleared. *)
Definition snapshot_round (entry : PROCESSENTRY32) : io (list process_line) :=
  do! proc := open_process (th32ProcessID entry) in
  do! (res, proc_name) := call (GetModuleFileNameExA proc MAX_PATH) in
  if FAILED res then do! _ := CloseHandle proc in io_ret []
  else
    do! ok := call (GetProcessMemoryInfo proc) in
    if negb ok then do! _ := CloseHandle proc in io_ret []
    else
      do! prio := call (GetPriorityClass proc) in
      if prio =? 0 then do! _ := CloseHandle proc in io_ret []
      else
        do! times := call (GetProcessTimes proc) in
        match times with
        | None => do! _ := CloseHandle proc in io_ret []
        | Some (kernel_time, user_time) =>
            match proc_name with
            | None => io_ub
            | Some name =>
                do! _ := CloseHandle proc in
                io_ret [Snapshot_line name (th32ProcessID entry) (th32ParentProcessID entry) prio
                          (convert_filetime user_time) (convert_filetime kernel_time)]
            end
        end.

(** The lines of the processes and their number. *)
Fixpoint snapshot_loop (fuel : nat) (snapshot : Z) (entry : PROCESSENTRY32) (process_count : Z)
    : io (list process_line * Z) :=
  match fuel with
  | O => io_nofuel
  | S fuel =>
      do! lines := snapshot_round entry in
      let process_count := u32 (process_count + 1) in
      do! next := call (Process32Next snapshot) in
      match next with
      | None => io_ret (lines, process_count)
      | Some entry =>
          do! (rest, n) := snapshot_loop fuel snapshot entry process_count in
          io_ret (lines ++ rest, n)
      end
  end.

Definition GetFromSnapshot (fuel : nat) : io (option (list process_line * Z)) :=
  do! snapshot := call CreateToolhelp32Snapshot in
  if snapshot =? -1 then io_ret None
  else
    do! _ := opened snapshot in
    do! first := call (Process32First snapshot) in
    match first with
    | None => do! _ := CloseHandle snapshot in io_ret None
    | Some entry =>
        do! (lines, count) := snapshot_loop fuel snapshot entry 0 in
        do! _ := CloseHandle snapshot in
        io_ret (Some (lines, count))
    end.

(** ** What they do *)

(** 0 is no handle. *)
Definition handles_ok (s : sys E) : Prop := 0 ∉ handles s.

Lemma close_first_absent h l : h ∉ l -> close_first h l = l.
Proof using.
  induction l as [|x l IH]; intros Hh; cbn; [done|]. apply not_elem_of_cons in Hh as [Hx Hl].
  rewrite (proj2 (Z.eqb_neq x h)) by congruence. by rewrite IH.
Qed.

(** What is left of a snapshot; no call but [Process32Next] matters to it. *)
Record quiet (remaining : E -> nat) : Prop := mkQuiet {
  qt_open : forall pid e, (remaining (OpenProcess pid e).2 <= remaining e)%nat;
  qt_name : forall h n e, (remaining (GetModuleFileNameExA h n e).2 <= remaining e)%nat;
  qt_memory : forall h e, (remaining (GetProcessMemoryInfo h e).2 <= remaining e)%nat;
  qt_prio : forall h e, (remaining (GetPriorityClass h e).2 <= remaining e)%nat;
  qt_times : forall h e, (remaining (GetProcessTimes h e).2 <= remaining e)%nat;
  qt_first : forall h e, (remaining (Process32First h e).2 <= remaining e)%nat;
  qt_create : forall e, (remaining (CreateToolhelp32Snapshot e).2 <= remaining e)%nat
}.

Section Rounds.
Context (remaining : E -> nat) (Hquiet : quiet remaining).

(** Back where the round began, with no more left to do. *)
Definition back (s s' : sys E) : Prop := tidy s s' /\ (remaining (env s') <= remaining (env s))%nat.

(** A process that was opened, or was not. *)
Definition with_process (proc : Z) (s s1 : sys E) : Prop :=
  clean_but s s1 (if proc =? 0 then [] else [proc]) /\ handles_ok s /\ (remaining (env s1) <= remaining (env s))%nat.

Lemma wp_open_process pid s Q :
  handles_ok s -> (forall proc s1, with_process proc s s1 -> Q proc s1) -> wp (open_process pid) s Q.
Proof using Hquiet.
  intros Hs HQ. pose proof (qt_open _ Hquiet pid (env s)) as Hr.
  apply wp_bind, wp_call. intros s1 V1 T1. set (proc := (OpenProcess pid (env s)).1).
  destruct (Z.eqb_spec proc 0) as [E0|E0].
  - apply wp_ret, HQ. split; [by rewrite E0|split; [done|by rewrite V1]].
  - apply wp_bind, wp_opened. intros s2 V2 C2. apply wp_ret, HQ. split; [|split; [done|by rewrite V2, V1]].
    rewrite (proj2 (Z.eqb_neq _ _) E0). exact (clean_trans _ _ _ _ _ T1 C2).
Qed.

(** Ask Windows, with the process still open. *)
Lemma wp_ask {A} (f : E -> A * E) proc s s1 (Q : A -> sys E -> Prop) :
  with_process proc s s1 -> (remaining (f (env s1)).2 <= remaining (env s1))%nat ->
  (forall s2, with_process proc s s2 -> Q (f (env s1)).1 s2) -> wp (call f) s1 Q.
Proof using.
  intros (C & H & R) Hf HQ. apply wp_call. intros s2 V T. apply HQ. split; [by eapply handle_tidy|].
  split; [done|]. rewrite V. lia.
Qed.

Lemma wp_close_process proc s s1 (Q : unit -> sys E -> Prop) :
  with_process proc s s1 -> (forall s2, back s s2 -> Q tt s2) -> wp (CloseHandle proc) s1 Q.
Proof using.
  intros ([A N H] & Hs & R) HQ. unfold wp, CloseHandle. apply HQ. split; [|done]. split; cbn; [done|done|].
  rewrite H. destruct (Z.eqb_spec proc 0) as [->|]; cbn; [by apply close_first_absent|]. by rewrite Z.eqb_refl.
Qed.

(** The end of a path of a round; a question of one. *)
Ltac close_process P :=
  apply wp_bind; eapply wp_close_process; [exact P|]; intros ? ?; apply wp_ret; split; [done|cbn; lia].
Ltac ask P :=
  apply wp_bind; eapply wp_ask; [exact P|apply Hquiet|]; clear P; let s := fresh "s" in intros s P.

Lemma enum_round_ok pid s :
  handles_ok s -> wp (enum_round pid) s (fun lines s' => back s s' /\ (length lines <= 1)%nat).
Proof using Hquiet.
  intros Hs. unfold enum_round. apply wp_bind, wp_open_process; [done|]. intros proc s1 P.
  ask P. destruct (GetModuleFileNameExA _ _ _).1 as [res name].
  cbv zeta. destruct (FAILED res); [close_process P|].
  ask P. destruct (negb _); [close_process P|].
  ask P. destruct (_ =? 0); [close_process P|].
  ask P. destruct (GetProcessTimes _ _).1 as [[k u]|]; close_process P.
Qed.

(** Names are always written. *)
Context (Hnames : forall h n e, (GetModuleFileNameExA h n e).1.2 <> None).

Lemma snapshot_round_ok entry s :
  handles_ok s -> wp (snapshot_round entry) s (fun lines s' => back s s' /\ (length lines <= 1)%nat).
Proof using Hquiet Hnames.
  intros Hs. unfold snapshot_round. apply wp_bind, wp_open_process; [done|]. intros proc s1 P.
  pose proof (Hnames proc MAX_PATH (env s1)) as Hn.
  ask P. destruct (GetModuleFileNameExA _ _ _).1 as [res [name|]]; [|done].
  destruct (FAILED res); [close_process P|].
  ask P. destruct (negb _); [close_process P|].
  ask P. destruct (_ =? 0); [close_process P|].
  ask P. destruct (GetProcessTimes _ _).1 as [[k u]|]; close_process P.
Qed.

Lemma back_trans s1 s2 s3 : back s1 s2 -> back s2 s3 -> back s1 s3.
Proof using. intros [T1 R1] [T2 R2]. split; [by eapply tidy_trans|lia]. Qed.

Lemma back_handles s s' : handles_ok s -> back s s' -> handles_ok s'.
Proof using. intros Hs [[_ _ H] _]. unfold handles_ok. by rewrite H. Qed.

(** [Process32Next] takes a process from those that remain. *)
Context (Hnext : forall h e entry, (Process32Next h e).1 = Some entry ->
  (remaining (Process32Next h e).2 < remaining e)%nat).
Context (Hend : forall h e, (remaining (Process32Next h e).2 <= remaining e)%nat).

Lemma snapshot_loop_ok fuel snapshot entry n s :
  handles_ok s -> (remaining (env s) < fuel)%nat -> 0 <= n -> n + Z.of_nat fuel < 2 ^ 32 ->
  wp (snapshot_loop fuel snapshot entry n) s (fun r s' => back s s' /\
    Z.of_nat (length r.1) <= r.2 - n /\ r.2 <= n + Z.of_nat fuel).
Proof using Hquiet Hnames Hnext Hend.
  revert entry n s. induction fuel as [|fuel IH]; intros entry n s Hs Hf Hn Hmax; [lia|]. cbn [snapshot_loop].
  apply wp_bind. eapply wp_mono; [by apply snapshot_round_ok|]. intros lines s1 (B1 & L1).
  cbv zeta. rewrite (u32_small (n + 1)) by lia.
  apply wp_bind, wp_call. intros s2 V2 T2.
  pose proof (Hnext snapshot (env s1)) as Hlt. pose proof (Hend snapshot (env s1)) as Hle. rewrite <- V2 in Hlt, Hle.
  assert (back s s2) as B2 by (eapply back_trans; [done|by split]).
  destruct (Process32Next snapshot (env s1)).1 as [entry'|].
  - specialize (Hlt entry' eq_refl). destruct B1 as [_ R1].
    apply wp_bind. eapply wp_mono; [apply IH; [by eapply back_handles|lia|lia|lia]|].
    intros [rest k] s3 (B3 & L3 & M3). apply wp_ret. cbn [fst snd] in *.
    split; [by eapply back_trans|]. rewrite length_app. lia.
  - apply wp_ret. split; [done|]. cbn. lia.
Qed.

Context (Hcreate : forall e, (CreateToolhelp32Snapshot e).1 <> 0).

Lemma GetFromSnapshot_ok fuel s :
  handles_ok s -> (remaining (env s) < fuel)%nat -> Z.of_nat fuel < 2 ^ 32 ->
  wp (GetFromSnapshot fuel) s (fun r s' => tidy s s' /\
    match r with Some (lines, n) => Z.of_nat (length lines) <= n <= Z.of_nat fuel | None => True end).
Proof using Hquiet Hnames Hnext Hend Hcreate.
  intros Hs Hf Hmax. unfold GetFromSnapshot. pose proof (qt_create _ Hquiet (env s)) as R0.
  apply wp_bind, wp_call. intros s1 V1 T1. destruct (_ =? -1); [by apply wp_ret|].
  set (snapshot := (CreateToolhelp32Snapshot (env s)).1).
  apply wp_bind, wp_opened. intros s2 V2 C2. pose proof (qt_first _ Hquiet snapshot (env s2)) as R2.
  apply wp_bind, wp_call. intros s3 V3 T3.
  assert (clean_but s1 s3 [snapshot]) as C3 by (by eapply handle_tidy).
  destruct (Process32First snapshot (env s2)).1 as [entry|].
  - apply wp_bind. eapply wp_mono; [apply (snapshot_loop_ok fuel snapshot entry 0)|].
    + destruct C3 as [_ _ H3], T1 as [_ _ H1]. unfold handles_ok. rewrite H3, H1.
      apply not_elem_of_cons. split; [|done]. intros E0. by destruct (Hcreate (env s)).
    + rewrite V3. rewrite V2, V1 in *. lia.
    + lia.
    + lia.
    + intros [lines n] s4 (B4 & L4 & M4). apply wp_bind, (wp_close snapshot s1 s4).
      { eapply handle_tidy; [exact C3|apply B4]. }
      intros s5 V5 T5. apply wp_ret. split; [by eapply tidy_trans|]. cbn in *. lia.
  - apply wp_bind, (wp_close snapshot s1 s3); [done|]. intros s4 V4 T4. apply wp_ret.
    split; [by eapply tidy_trans|done].
Qed.

(** [EnumProcesses] reports the bytes it wrote. *)
Context (Hreport : forall cb e needed pids, (EnumProcesses cb e).1 = Some (needed, pids) ->
  needed = 4 * Z.of_nat (length pids) /\ needed <= cb).

Lemma enum_rounds_ok pids s :
  handles_ok s -> wp (io_map enum_round pids) s (fun lines s' => back s s' /\ (length (mjoin lines) <= length pids)%nat).
Proof using Hquiet.
  revert s. induction pids as [|pid pids IH]; intros s Hs; cbn [io_map]; [by apply wp_ret|].
  apply wp_bind. eapply wp_mono; [by apply enum_round_ok|]. intros lines s1 (B1 & L1).
  apply wp_bind. eapply wp_mono; [apply IH; by eapply back_handles|]. intros rest s2 (B2 & L2).
  apply wp_ret. split; [by eapply back_trans|].
  change (mjoin (lines :: rest)) with (lines ++ mjoin rest). rewrite length_app. cbn [length]. lia.
Qed.

(** One round of the first loop is enough. *)
Lemma enum_loop_ok fuel s :
  sys_ok s -> (0 < fuel)%nat ->
  wp (enum_loop fuel 0 0) s (fun r s' =>
    (r = (None, 0) /\ tidy s s') \/
    exists p pids, r = (Some (p, pids), 4 * Z.of_nat (length pids)) /\ (length pids <= 512)%nat /\ with_array p s s').
Proof using Hreport.
  intros Hs Hf. destruct fuel as [|fuel]; [lia|]. cbn [enum_loop Z.eqb]. cbv zeta.
  apply wp_bind, wp_new; [done|]. intros p s1 V1 A1.
  apply wp_bind, wp_call. intros s2 V2 T2. pose proof (with_array_tidy _ _ _ _ A1 T2) as A2.
  pose proof (Hreport (u32 (512 * 4)) (env s1)) as Hr.
  destruct (EnumProcesses _ _).1 as [[needed pids]|].
  - destruct (Hr needed pids eq_refl) as [-> Hle]. change (u32 (512 * 4)) with 2048 in Hle.
    apply wp_bind, wp_ret. rewrite (proj2 (Z.ltb_ge _ _)) by dlia. apply wp_ret. right.
    exists p, pids. split; [done|]. split; [lia|done].
  - apply wp_bind, wp_bind, (wp_delete p s s2); [done|]. intros s3 V3 T3. apply wp_ret.
    cbn [Z.ltb Z.compare Z.div Z.div_eucl]. apply wp_ret. by left.
Qed.

Lemma GetFromEnum_ok fuel s :
  sys_ok s -> handles_ok s -> (0 < fuel)%nat ->
  wp (GetFromEnum fuel) s (fun lines s' => (length lines <= 512)%nat /\ handles s' = handles s /\
    ((lines = [] /\ arrays s' = arrays s) \/ exists p, p ∉ arrays s /\ arrays s' = {[p]} ∪ arrays s)).
Proof using Hquiet Hreport.
  intros Hs Hh Hf. unfold GetFromEnum. apply wp_bind. eapply wp_mono; [by apply enum_loop_ok|].
  intros [r needed] s1 [([= -> ->] & [A N H])|(p & pids & [= -> ->] & Hn & [F A N H O])].
  - apply wp_ret. split; [cbn; lia|]. split; [done|]. by left.
  - cbv zeta. replace (4 * Z.of_nat (length pids) / 4) with (Z.of_nat (length pids)) by dlia.
    rewrite Nat2Z.id, Nat.ltb_irrefl, take_ge by lia.
    apply wp_bind. eapply wp_mono; [apply (enum_rounds_ok pids s1); unfold handles_ok; by rewrite H|].
    intros lines s2 ([[A2 N2 H2] _] & L2). apply wp_ret. split; [lia|]. split; [by rewrite H2, H|].
    right. exists p. split; [done|]. by rewrite A2, A.
Qed.
End Rounds.
End Processes.

(** [GetFromEnum] makes one round of its first loop, as [EnumProcesses] reports what it
    has written and not what it would need: it lists 512 processes at most, however many
    there are.  All handles are closed; the array is never freed. *)
Theorem GetFromEnum_lists_512 {E} EnumProcesses OpenProcess Name Memory Prio Times (fuel : nat) (s : sys E) :
  (forall cb e needed pids, (EnumProcesses cb e).1 = Some (needed, pids) ->
     needed = 4 * Z.of_nat (length pids) /\ needed <= cb) ->
  sys_ok s -> handles_ok s -> (0 < fuel)%nat ->
  exists lines s', GetFromEnum EnumProcesses OpenProcess Name Memory Prio Times fuel s = Ok (lines, s') /\
    (length lines <= 512)%nat /\ handles s' = handles s /\
    ((lines = [] /\ arrays s' = arrays s) \/ exists p, p ∉ arrays s /\ arrays s' = {[p]} ∪ arrays s).
Proof.
  intros Hr Hs Hh Hf.
  destruct (wp_elim _ _ _ (GetFromEnum_ok EnumProcesses OpenProcess Name Memory Prio Times (fun e => (0, e))
    (fun _ e => (None, e)) (fun _ => 0%nat) ltac:(by split; intros; cbn) Hr fuel s Hs Hh Hf))
    as (lines & s' & E1 & HQ). by exists lines, s'.
Qed.

(** [GetFromSnapshot] goes through every process of the snapshot once, returns when
    there is none left, prints at most one block for each it counts, and closes every
    handle; provided that the names of all processes are found. *)
Theorem GetFromSnapshot_terminates {E} OpenProcess Name Memory Prio Times Create First Next (remaining : E -> nat)
    fuel (s : sys E) :
  quiet OpenProcess Name Memory Prio Times Create First remaining ->
  (forall h n e, (Name h n e).1.2 <> None) ->
  (forall h e entry, (Next h e).1 = Some entry -> (remaining (Next h e).2 < remaining e)%nat) ->
  (forall h e, (remaining (Next h e).2 <= remaining e)%nat) -> (forall e, (Create e).1 <> 0) ->
  handles_ok s -> (remaining (env s) < fuel)%nat -> Z.of_nat fuel < 2 ^ 32 ->
  exists r s', GetFromSnapshot OpenProcess Name Memory Prio Times Create First Next fuel s = Ok (r, s') /\
    tidy s s' /\
    match r with Some (lines, n) => Z.of_nat (length lines) <= n <= Z.of_nat fuel | None => True end.
Proof.
  intros Hq Hn Hnext Hend Hc Hs Hf Hm.
  destruct (wp_elim _ _ _ (GetFromSnapshot_ok OpenProcess Name Memory Prio Times Create First Next remaining
    Hq Hn Hnext Hend Hc fuel s Hs Hf Hm)) as (r & s' & E1 & HQ). by exists r, s'.
Qed.

(** ** A system with three processes *)

(** The state is the number of entries of the snapshot not yet given; process 4 cannot be
    opened. *)
Definition demo_enum (cb : Z) (e : nat) : option (Z * list Z) * nat :=
  ((if cb <? 12 then None else Some (12, [4; 700; 701])), e).
Definition demo_process (pid : Z) (e : nat) : Z * nat := ((if pid =? 4 then 0 else pid), e).
Definition demo_file (h n : Z) (e : nat) : (Z * option (list Z)) * nat := ((5, Some (chars "a.exe")), e).
Definition demo_memory (h : Z) (e : nat) : bool * nat := (negb (h =? 0), e).
Definition demo_prio (h : Z) (e : nat) : Z * nat := (32, e).
Definition demo_times (h : Z) (e : nat) : option (FILETIME * FILETIME) * nat := (Some (mkFileTime 0 7, mkFileTime 1 0), e).
Definition demo_create (e : nat) : Z * nat := (99, e).
Definition demo_first (h : Z) (e : nat) : option PROCESSENTRY32 * nat := (Some (mkEntry 4 0), e).
Definition demo_next (h : Z) (e : nat) : option PROCESSENTRY32 * nat :=
  match e with O => (None, O) | S n => (Some (mkEntry (700 + Z.of_nat n) 4), n) end.
Definition demo_system : sys nat := mkSys 2%nat ∅ 0 [].

Lemma GetFromEnum_lists_512_witness :
  exists lines s', GetFromEnum demo_enum demo_process demo_file demo_memory demo_prio demo_times 1 demo_system
      = Ok (lines, s') /\
    lines = [Enum_line (chars "a.exe") 700 32 (2 ^ 32) 7; Enum_line (chars "a.exe") 701 32 (2 ^ 32) 7].
Proof.
  destruct (GetFromEnum_lists_512 demo_enum demo_process demo_file demo_memory demo_prio demo_times 1 demo_system)
    as (lines & s' & E & _).
  - intros cb e needed pids. unfold demo_enum. destruct (Z.ltb_spec cb 12); [done|]. intros [= <- <-]. by split.
  - intros p Hp. by apply not_elem_of_empty in Hp.
  - apply not_elem_of_nil.
  - lia.
  - exists lines, s'. split; [exact E|]. vm_compute in E. by injection E as <- _.
Defined.

Lemma GetFromSnapshot_terminates_witness :
  exists r s', GetFromSnapshot demo_process demo_file demo_memory demo_prio demo_times demo_create demo_first demo_next
      3 demo_system = Ok (r, s') /\ tidy demo_system s' /\
    r = Some ([Snapshot_line (chars "a.exe") 701 4 32 (2 ^ 32) 7; Snapshot_line (chars "a.exe") 700 4 32 (2 ^ 32) 7], 3).
Proof.
  destruct (GetFromSnapshot_terminates demo_process demo_file demo_memory demo_prio demo_times demo_create demo_first
    demo_next (fun e => e) 3 demo_system) as (r & s' & E & T & _).
  - split; intros; cbn; lia.
  - done.
  - intros h [|e] entry; cbn; [done|lia].
  - intros h [|e]; cbn; lia.
  - done.
  - apply not_elem_of_nil.
  - cbn. lia.
  - done.
  - exists r, s'. split; [exact E|]. split; [exact T|]. vm_compute in E. by injection E as <- _.
Defined.

(** ** Where it goes wrong *)

(** A length is never an error code: the test for a failure of [GetModuleFileNameExA],
    which returns 0, does not see it. *)
Lemma name_failure_unnoticed len : 0 <= len <= MAX_PATH -> FAILED len = false.
Proof.
  unfold MAX_PATH, FAILED. intros H. apply Z.ltb_ge. unfold i32, swrap. rewrite Z.mod_small by lia.
  cbv zeta. destruct (Z.ltb_spec len (2 ^ (32 - 1))); lia.
Qed.

(** Without a name, [GetFromSnapshot] prints an array that was never written. *)
Lemma snapshot_prints_garbage {E} OpenProcess Name Memory Prio Times entry (s : sys E) :
  (forall h n e, (Name h n e).1 = (0, None)) -> (forall h e, (Memory h e).1 = true) ->
  (forall h e, (Prio h e).1 = 32) -> (forall h e, (Times h e).1 <> None) ->
  snapshot_round OpenProcess Name Memory Prio Times entry s = UB.
Proof.
  intros Hn Hm Hp Ht. unfold snapshot_round, open_process.
  assert (exists proc s1, (do! proc := call (OpenProcess (th32ProcessID entry)) in
    if proc =? 0 then io_ret proc else do! _ := opened proc in io_ret proc) s = Ok (proc, s1)) as (proc & s1 & E1).
  { destruct (clean_call (OpenProcess (th32ProcessID entry)) s) as (s1 & E1 & _). step_io E1.
    destruct (_ =? 0); eexists _, _; reflexivity. }
  step_io E1. destruct (clean_call (Name proc MAX_PATH) s1) as (s2 & E2 & _). rewrite Hn in E2. step_io E2.
  change (FAILED 0) with false. cbn beta iota.
  destruct (clean_call (Memory proc) s2) as (s3 & E3 & _). rewrite Hm in E3. step_io E3. cbn [negb].
  destruct (clean_call (Prio proc) s3) as (s4 & E4 & _). rewrite Hp in E4. step_io E4. cbn [Z.eqb].
  destruct (clean_call (Times proc) s4) as (s5 & E5 & _). pose proof (Ht proc (env s4)) as Hs.
  destruct (Times proc (env s4)).1 as [[k u]|]; [|done]. by step_io E5.
Qed.
