(* ===== verification/Wmi.v ===== *)
(** * [ConsoleApplication1/WMIManager.cpp]: queries to WMI

    COM objects are numbers, 0 is [nullptr]; the references the program holds are the
    [handles] of its state, one for each.  Using or releasing an object without holding a
    reference is undefined behaviour.  A [BSTR] is one of the [arrays].  What COM answers
    is a parameter over [E]. *)

From stdpp Require Import strings gmap.
From S2P Require Import Prelude Time Windows EventLog.

Definition WBEM_S_FALSE : Z := 1.
Definition SUCCEEDED (res : Z) : bool := negb (FAILED res).

(** What [Get] puts into a [VARIANT]. *)
Inductive value :=
| VT_BSTR (s : list Z)
| VT_UI8 (n : Z)
| VT_DATE (d : time_t)
| VT_OTHER.

(** A [VARIANT]: its type and what the type says of the contents, [None] for [VT_EMPTY];
    the [BSTR] pointer in the same place, which [VariantInit] does not touch: its array
    and its text. *)
Record VARIANT := mkVariant { vt : option value; bstrVal : option (nat * list Z) }.

Record AccountInfo := mkAccount { name : list Z; full_name : list Z; sid : list Z; home_directory : list Z }.

Record WMIManager := mkWMI {
  locator : Z;
  cimv2_service : Z;
  default_service : Z;
  cimv2_root : option nat;
  default_root : option nat;
  wql : option nat;
  stdregprov : option nat
}.

(** [static_cast<int64_t>] of a [double]. *)
Definition double_int64 (d : time_t) : res Z :=
  let in_range z := if (- 2 ^ 63 <=? z) && (z <? 2 ^ 63) then Ok z else UB in
  match d with
  | S754_zero _ => Ok 0
  | S754_finite s m e =>
      let n := if 0 <=? e then Z.pos m * 2 ^ e else Z.pos m / 2 ^ (- e) in
      in_range (if s then - n else n)
  | _ => UB
  end.

Section Wmi.
Context {E : Type}.
(** [CoInitializeEx], [CoInitializeSecurity]; [CoCreateInstance] with the locator it
    makes; [ConnectServer] with the service; [ExecQuery] with the enumerator. *)
Context (CoInitializeEx CoInitializeSecurity : E -> Z * E).
Context (CoCreateInstance : E -> (Z * Z) * E).
Context (ConnectServer : Z -> list Z -> E -> (Z * Z) * E).
Context (ExecQuery : Z -> list Z -> E -> (Z * Z) * E).
(** Whether [SysAllocString] finds memory. *)
Context (SysAllocString : list Z -> E -> bool * E).
(** [GetErrorInfo]: the error object, if there is one, and the file of its [GetHelpFile]. *)
Context (GetErrorInfo : E -> option (Z * list Z) * E).
(** [Next]: the result, and the object where one was written; [Get]: the result and the
    value of a property. *)
Context (Next : Z -> E -> (Z * option Z) * E).
Context (Get : Z -> list Z -> E -> (Z * value) * E).
Context (narrow_char : Z -> Z).
Notation io := (io E).

(** A call through a pointer, and [Release]. *)
Definition held (p : Z) : io unit := fun s => if decide (p ∈ handles s) then Ok (tt, s) else UB.
Definition Release (p : Z) : io unit := do! _ := held p in CloseHandle p.

(** [make_bstr], and the end of the [bstr_ptr]. *)
Definition make_bstr (str : list Z) : io (option nat) :=
  do! ok := call (SysAllocString str) in
  if ok : bool then do! p := new_array in io_ret (Some p) else io_ret None.
Definition free_bstr (p : option nat) : io unit :=
  match p with Some p => delete_array p | None => io_ret tt end.

(** A result with an object, whose reference the program now holds. *)
Definition take (r : Z * Z) : io (Z * Z) :=
  if FAILED r.1 then io_ret (r.1, 0) else do! _ := opened r.2 in io_ret r.

Definition no_WMI : WMIManager := mkWMI 0 0 0 None None None None.

(** What is printed is given with the result; wide output counts as the narrow. *)
Definition says (b : bool) (text : string) : list line := if b then [(text, [])] else [].

Definition new_WMIManager : io (WMIManager * list line) :=
  do! res := call CoInitializeEx in
  if FAILED res then io_ret (no_WMI, [("Failed to initialize COM\n"%string, [])])
  else
    do! res := call CoInitializeSecurity in
    if FAILED res then io_ret (no_WMI, [("Failed to initialize security level\n"%string, [])])
    else
      do! r := call CoCreateInstance in
      do! (res, loc) := take r in
      if FAILED res then io_ret (no_WMI, [("Failed to create COM locator\n"%string, [])])
      else
        do! cimv2_root := make_bstr (chars "root\CIMV2") in
        do! _ := held loc in
        do! r := call (ConnectServer loc (chars "root\CIMV2")) in
        do! (res, cimv2) := take r in
        do! _ := (if FAILED res then Release loc else io_ret tt) in
        do! default_root := make_bstr (chars "root\default") in
        do! _ := held loc in
        do! r := call (ConnectServer loc (chars "root\default")) in
        do! (res', dflt) := take r in
        do! _ := (if FAILED res' then do! _ := Release cimv2 in Release loc else io_ret tt) in
        do! wql := make_bstr (chars "WQL") in
        do! stdregprov := make_bstr (chars "StdRegProv") in
        io_ret (mkWMI loc cimv2 dflt cimv2_root default_root wql stdregprov,
                says (FAILED res) "Failed to connect root\CIMV2\n" ++
                says (FAILED res') "Failed to connect root\default\n").

(** The destructor, and those of the members in reverse order. *)
Definition release_if (p : Z) : io unit := if p =? 0 then io_ret tt else Release p.
Definition delete_WMIManager (m : WMIManager) : io unit :=
  do! _ := release_if (cimv2_service m) in
  do! _ := release_if (default_service m) in
  do! _ := release_if (locator m) in
  do! _ := free_bstr (stdregprov m) in
  do! _ := free_bstr (wql m) in
  do! _ := free_bstr (default_root m) in
  free_bstr (cimv2_root m).

Definition GetQueryEnumerator (m : WMIManager) (query : list Z) : io (Z * list line) :=
  if bool_decide (wql m = None) || (cimv2_service m =? 0) then io_ret (0, [])
  else
    do! b_query := make_bstr query in
    match b_query with
    | None => io_ret (0, [])
    | Some b =>
        do! _ := held (cimv2_service m) in
        do! r := call (ExecQuery (cimv2_service m) query) in
        do! (res, enumerator) := take r in
        if FAILED res then
          do! error := call GetErrorInfo in
          match error with
          | None => io_ub
          | Some (error, help_file) =>
              do! _ := opened error in
              do! bSTRErrDesc := make_bstr (chars "__CLASS") in
              do! bSTRErrDesc := make_bstr help_file in
              match bSTRErrDesc with
              | None => io_ub
              | Some _ =>
                  do! _ := free_bstr (Some b) in
                  io_ret (0, [("Error with fetch: [%d][%ls]\n"%string, [Int (i32 res); Str help_file])])
              end
          end
        else do! _ := free_bstr (Some b) in io_ret (enumerator, [])
    end.

(** [enumerator->Next(WBEM_INFINITE, 1, &obj, &num_elems)]: the result, and [obj] and
    [num_elems] afterwards, which is the number of objects written. *)
Definition next (enumerator obj : Z) : io (Z * Z * Z) :=
  do! _ := held enumerator in
  do! (res, written) := call (Next enumerator) in
  match written with
  | Some o => do! _ := opened o in io_ret (res, o, 1)
  | None => io_ret (res, obj, 0)
  end.

(** [VariantInit], [VariantClear]. *)
Definition VariantInit (v : VARIANT) : VARIANT := mkVariant None (bstrVal v).
Definition VariantClear (v : VARIANT) : io VARIANT :=
  match vt v, bstrVal v with
  | Some (VT_BSTR _), Some (p, _) => do! _ := delete_array p in io_ret (mkVariant None None)
  | _, b => io_ret (mkVariant None b)
  end.

(** [obj->Get(L"...", 0, &var, NULL, NULL)]: the value, when it succeeded, and [var]. *)
Definition get (obj : Z) (prop : list Z) (var : VARIANT) : io (option value * VARIANT) :=
  do! _ := held obj in
  do! (res, v) := call (Get obj prop) in
  if SUCCEEDED res then
    match v with
    | VT_BSTR text => do! p := new_array in io_ret (Some v, mkVariant (Some v) (Some (p, text)))
    | _ => io_ret (Some v, mkVariant (Some v) None)
    end
  else io_ret (None, var).

(** [if (SUCCEEDED(obj->Get(...)) && var.vt == VT_BSTR)]: the text. *)
Definition get_bstr (obj : Z) (prop : list Z) (var : VARIANT) : io (option (list Z) * VARIANT) :=
  do! (v, var) := get obj prop var in
  io_ret (match v with Some (VT_BSTR text) => Some text | _ => None end, var).

(** A [VARIANT] on the stack. *)
Definition fresh_variant : VARIANT := mkVariant None None.

(** ** [GetOSVersion] *)

Fixpoint version_loop (fuel : nat) (enumerator obj : Z) (version : list Z) : io (list Z) :=
  match fuel with
  | O => io_nofuel
  | S fuel =>
      do! (res, obj, num_elems) := next enumerator obj in
      if (res =? WBEM_S_FALSE) || FAILED res then io_ret version
      else
        do! (caption, var) := get_bstr obj (chars "Caption") (VariantInit fresh_variant) in
        let version := version ++ default [] caption in
        let version := match version with [] => [] | _ => version ++ [32] end in
        do! (number, var) := get_bstr obj (chars "Version") (VariantInit var) in
        let version := version ++ default [] number in
        do! _ := Release obj in
        version_loop fuel enumerator obj version
  end.

Definition GetOSVersion (fuel : nat) (m : WMIManager) : io (list Z * list line) :=
  do! (enumerator, out) := GetQueryEnumerator m (chars "SELECT * from Win32_OperatingSystem") in
  if enumerator =? 0 then io_ret ([], out)
  else
    do! version := version_loop fuel enumerator 0 [] in
    do! _ := Release enumerator in
    io_ret (narrow_wstring narrow_char version, out).

(** ** [GetUserData] *)

(** The home directory of a user; [user_obj] has no value before [Next] gives it one. *)
Definition home_of (m : WMIManager) (sid_text : list Z) (var : VARIANT) : io (list Z * list line) :=
  let path_query := chars "SELECT LocalPath from Win32_UserProfile WHERE SID = " ++ [34] ++ sid_text ++ [34] in
  do! (user_enum, out) := GetQueryEnumerator m path_query in
  let out := ("%ls\n"%string, [Str path_query]) :: out in
  if user_enum =? 0 then io_ret ([], out)
  else
    do! _ := held user_enum in
    do! (res, written) := call (Next user_enum) in
    do! home := (if res =? WBEM_S_FALSE then io_ret []
                 else
                   match written with
                   | None => io_ub
                   | Some user_obj =>
                       do! _ := opened user_obj in
                       do! (path, _) := get_bstr user_obj (chars "LocalPath") (VariantInit var) in
                       do! _ := Release user_obj in
                       io_ret (narrow_wstring narrow_char (default [] path))
                   end) in
    do! _ := Release user_enum in
    io_ret (home, out).

Fixpoint users_loop (fuel : nat) (m : WMIManager) (enumerator obj : Z) : io (list AccountInfo * list line) :=
  match fuel with
  | O => io_nofuel
  | S fuel =>
      do! (res, obj, num_elems) := next enumerator obj in
      if (res =? WBEM_S_FALSE) || FAILED res then io_ret ([], [])
      else
        let narrowed t := narrow_wstring narrow_char (default [] t) in
        do! (caption, var) := get_bstr obj (chars "Caption") (VariantInit fresh_variant) in
        do! (full, var) := get_bstr obj (chars "FullName") (VariantInit var) in
        do! (sid, var) := get_bstr obj (chars "SID") (VariantInit var) in
        match bstrVal var with
        | None => io_ub
        | Some (_, sid_text) =>
            do! (home, out) := home_of m sid_text var in
            do! _ := Release obj in
            do! (rest, more) := users_loop fuel m enumerator obj in
            io_ret (mkAccount (narrowed caption) (narrowed full) (narrowed sid) home :: rest, out ++ more)
        end
  end.

Definition GetUserData (fuel : nat) (m : WMIManager) : io (list AccountInfo * list line) :=
  do! (enumerator, out) := GetQueryEnumerator m (chars "SELECT Caption, FullName, SID from Win32_UserAccount") in
  if enumerator =? 0 then io_ret ([], out)
  else
    do! (users, more) := users_loop fuel m enumerator 0 in
    do! _ := Release enumerator in
    io_ret (users, out ++ more).

(** ** [GetLogs] *)

(** The body of the loop. *)
Definition log_entry (obj : Z) : io LogEntry :=
  let narrowed t := narrow_wstring narrow_char (default [] t) in
  do! (src, var) := get_bstr obj (chars "SourceName") (VariantInit fresh_variant) in
  do! var := VariantClear var in
  do! (msg, var) := get_bstr obj (chars "Message") var in
  do! var := VariantClear var in
  do! (v, var) := get obj (chars "EventType") var in
  let prio := match v with Some (VT_UI8 n) => u32 n | _ => 0 end in
  do! var := VariantClear var in
  do! (v, var) := get obj (chars "TimeGenerated") var in
  do! t := (match v with
            | Some (VT_DATE d) => fun s => let! z := double_int64 d in Ok (z, s)
            | _ => io_ret 0
            end) in
  do! var := VariantClear var in
  io_ret (mkLogEntry t prio (narrowed src) (narrowed msg)).

(** [printf("%d\n", ++num_elems)], on the number that [Next] has just written. *)
Definition number_line (n : Z) : line := ("%d\n"%string, [Int n]).

Fixpoint logs_loop (fuel : nat) (enumerator obj : Z) : io (list LogEntry * list line) :=
  match fuel with
  | O => io_nofuel
  | S fuel =>
      do! (res, obj, num_elems) := next enumerator obj in
      if (res =? WBEM_S_FALSE) || FAILED res then io_ret ([], [])
      else
        let printed := number_line (num_elems + 1) in
        do! entry := log_entry obj in
        do! _ := Release obj in
        do! (rest, more) := logs_loop fuel enumerator obj in
        io_ret (entry :: rest, printed :: more)
  end.

Definition got_enumerator : line := ("got enumerator\n"%string, []).

Definition GetLogs (fuel : nat) (m : WMIManager) : io (list LogEntry * list line) :=
  do! (enumerator, out) := GetQueryEnumerator m
    (chars "SELECT TimeGenerated, SourceName, EventType, Message from Win32_NTLogEvent") in
  if enumerator =? 0 then io_ret ([], out)
  else
    do! (entries, more) := logs_loop fuel enumerator 0 in
    do! _ := Release enumerator in
    io_ret (entries, out ++ got_enumerator :: more).
End Wmi.
