(* ===== verification/WmiProps.v ===== *)
(** * WMI: what is acquired and what is given back

    The manager's life is balanced when both services can be reached and ends in
    undefined behaviour when one cannot; [GetLogs] gives back all it takes, [GetUserData]
    does not free the strings it reads. *)

From stdpp Require Import strings gmap.
From S2P Require Import Prelude Time Windows EventLog Wmi.

(** ** What a computation owns *)

Section Owns.
Context {E : Type}.
Implicit Types s : sys E.

(** From [s] on, the arrays [P] and the references [H] have been taken. *)
Record owns (P : gset nat) (H : list Z) (s s1 : sys E) : Prop := mkOwns {
  ow_fresh : P ## arrays s;
  ow_arrays : arrays s1 = P ∪ arrays s;
  ow_next : (next_array s <= next_array s1)%nat;
  ow_handles : handles s1 = H ++ handles s;
  ow_ok : sys_ok s1
}.

Lemma owns_refl s : sys_ok s -> owns ∅ [] s s.
Proof using. intros Hs. split; [set_solver|set_solver|lia|done|done]. Qed.

Lemma owns_tidy s s1 : owns ∅ [] s s1 -> tidy s s1.
Proof using. intros [F A N H O]. split; [rewrite A; set_solver|done|done]. Qed.

Lemma tidy_owns P H s s1 s2 : owns P H s s1 -> tidy s1 s2 -> owns P H s s2.
Proof using.
  intros [F A N Hh O] T. pose proof T as [A2 N2 H2].
  split; [done|by rewrite A2|lia|by rewrite H2|by eapply tidy_ok].
Qed.

Lemma wp_own_call {A} (f : E -> A * E) P H s s1 (Q : A -> sys E -> Prop) :
  owns P H s s1 -> (forall s2, env s2 = (f (env s1)).2 -> owns P H s s2 -> Q (f (env s1)).1 s2) -> wp (call f) s1 Q.
Proof using. intros O HQ. apply wp_call. intros s2 V T. apply HQ; [done|]. by eapply tidy_owns. Qed.

Lemma wp_own_new P H s s1 (Q : nat -> sys E -> Prop) :
  owns P H s s1 -> (forall p s2, env s2 = env s1 -> p ∉ P -> owns ({[p]} ∪ P) H s s2 -> Q p s2) -> wp new_array s1 Q.
Proof using.
  intros [F A N Hh O] HQ. apply wp_new; [done|]. intros p s2 V [F2 A2 N2 H2 O2]. rewrite A in F2, A2.
  apply HQ; [done|set_solver|]. split; [set_solver|rewrite A2; set_solver|lia|by rewrite H2|done].
Qed.

Lemma wp_own_delete p P H s s1 (Q : unit -> sys E -> Prop) :
  owns P H s s1 -> p ∈ P -> (forall s2, env s2 = env s1 -> owns (P ∖ {[p]}) H s s2 -> Q tt s2) ->
  wp (delete_array p) s1 Q.
Proof using.
  intros [F A N Hh O] Hp HQ. unfold wp, delete_array. rewrite decide_True by (rewrite A; set_solver).
  apply HQ; [done|]. split; cbn; [set_solver|rewrite A; set_solver|done|done|].
  intros q Hq. cbn in *. apply O. set_solver.
Qed.

Lemma wp_own_opened h P H s s1 (Q : unit -> sys E -> Prop) :
  owns P H s s1 -> (forall s2, env s2 = env s1 -> owns P (h :: H) s s2 -> Q tt s2) -> wp (opened h) s1 Q.
Proof using. intros [F A N Hh O] HQ. unfold wp, opened. apply HQ; [done|]. split; cbn; try done. by rewrite Hh. Qed.

Lemma wp_own_held h P H s s1 (Q : unit -> sys E -> Prop) :
  owns P H s s1 -> h ∈ H ++ handles s -> Q tt s1 -> wp (held h) s1 Q.
Proof using. intros [F A N Hh O] Hin HQ. unfold wp, held. rewrite decide_True by (by rewrite Hh). exact HQ. Qed.

Lemma close_first_app h H l : h ∈ H -> close_first h (H ++ l) = close_first h H ++ l.
Proof using.
  induction H as [|x H IH]; intros Hin; [by apply not_elem_of_nil in Hin|]. cbn.
  destruct (Z.eqb_spec x h) as [|Hne]; [done|]. apply elem_of_cons in Hin as [|Hin]; [congruence|].
  by rewrite IH.
Qed.

Lemma wp_own_release h P H s s1 (Q : unit -> sys E -> Prop) :
  owns P H s s1 -> h ∈ H -> (forall s2, env s2 = env s1 -> owns P (close_first h H) s s2 -> Q tt s2) ->
  wp (Release h) s1 Q.
Proof using.
  intros O Hin HQ. apply wp_bind. eapply wp_own_held; [exact O|apply elem_of_app; by left|].
  destruct O as [F A N Hh Ok]. unfold wp, CloseHandle. apply HQ; [done|]. split; cbn; try done.
  rewrite Hh. by apply close_first_app.
Qed.

(** Releasing what is not held. *)
Lemma Release_ub h s : h ∉ handles s -> Release h s = UB.
Proof using. intros Hh. unfold Release, io_bind, held. by rewrite decide_False. Qed.
(** The array of a [bstr_ptr], if it has one. *)
Definition bstr_set (b : option nat) : gset nat := match b with Some p => {[p]} | None => ∅ end.

Lemma wp_own_free b P H (s s1 : sys E) (Q : unit -> sys E -> Prop) :
  owns P H s s1 -> bstr_set b ⊆ P ->
  (forall s2, owns (P ∖ bstr_set b) H s s2 -> Q tt s2) -> wp (free_bstr b) s1 Q.
Proof using.
  intros O Hb HQ. destruct b as [p|]; cbn in *.
  - eapply wp_own_delete; [exact O|set_solver|]. intros s2 _. apply HQ.
  - apply wp_ret, HQ. by rewrite difference_empty_L.
Qed.

Lemma wp_own_take (r : Z * Z) P H (s s1 : sys E) (Q : Z * Z -> sys E -> Prop) :
  owns P H s s1 ->
  (FAILED r.1 = true -> Q (r.1, 0) s1) ->
  (FAILED r.1 = false -> forall s2, owns P (r.2 :: H) s s2 -> Q r s2) -> wp (take r) s1 Q.
Proof using.
  intros O HF HS. unfold take. destruct (FAILED r.1); [by apply wp_ret, HF|].
  apply wp_bind. eapply wp_own_opened; [exact O|]. intros s2 _ O2. by apply wp_ret, HS.
Qed.
(** What the constructor makes: nothing, or three references and up to four strings. *)
Definition built (s : sys E) (m : WMIManager) (s' : sys E) : Prop :=
  (m = no_WMI /\ owns ∅ [] s s') \/
  exists loc c d r1 r2 r3 r4, m = mkWMI loc c d r1 r2 r3 r4 /\ loc <> 0 /\ c <> 0 /\ d <> 0 /\
    bstr_set r2 ## bstr_set r1 /\ bstr_set r3 ## bstr_set r2 ∪ bstr_set r1 /\
    bstr_set r4 ## bstr_set r3 ∪ (bstr_set r2 ∪ bstr_set r1) /\
    owns (bstr_set r4 ∪ (bstr_set r3 ∪ (bstr_set r2 ∪ bstr_set r1))) [d; c; loc] s s'.

Lemma release_if_ok h P H (s s1 : sys E) (Q : unit -> sys E -> Prop) :
  owns P H s s1 -> h <> 0 -> h ∈ H -> (forall s2, owns P (close_first h H) s s2 -> Q tt s2) ->
  wp (release_if h) s1 Q.
Proof using.
  intros O Hn Hin HQ. unfold release_if. rewrite (proj2 (Z.eqb_neq _ _) Hn).
  eapply wp_own_release; [exact O|done|]. intros s2 _. apply HQ.
Qed.

(** Three references are released in any order. *)
Lemma close_three (d c loc : Z) : close_first loc (close_first d (close_first c [d; c; loc])) = [].
Proof using.
  cbn. destruct (Z.eqb_spec d c) as [->|]; cbn.
  - rewrite Z.eqb_refl. cbn. by rewrite Z.eqb_refl.
  - rewrite Z.eqb_refl. cbn. rewrite Z.eqb_refl. cbn. by rewrite Z.eqb_refl.
Qed.

Lemma delete_WMIManager_ok m s s1 : sys_ok s -> built s m s1 -> wp (delete_WMIManager m) s1 (fun _ s' => tidy s s').
Proof.
  intros Hs [[-> O]|(loc & c & d & r1 & r2 & r3 & r4 & -> & Hl & Hc & Hd & D2 & D3 & D4 & O)].
  { unfold delete_WMIManager. cbn. repeat (apply wp_bind, wp_ret). apply wp_ret. by apply owns_tidy. }
  unfold delete_WMIManager. cbn [cimv2_service default_service locator stdregprov wql default_root cimv2_root].
  apply wp_bind. eapply release_if_ok; [exact O|done|set_solver|]. intros s2 O2.
  apply wp_bind. eapply release_if_ok; [exact O2|done| |].
  { cbn. destruct (Z.eqb_spec d c); set_solver. }
  intros s3 O3. apply wp_bind. eapply release_if_ok; [exact O3|done| |].
  { cbn. destruct (Z.eqb_spec d c) as [->|]; cbn; [rewrite Z.eqb_refl|rewrite Z.eqb_refl; cbn; rewrite Z.eqb_refl]; left. }
  intros s4 O4. rewrite close_three in O4.
  apply wp_bind. eapply wp_own_free; [exact O4|set_solver|]. intros s5 O5.
  apply wp_bind. eapply wp_own_free; [exact O5|set_solver|]. intros s6 O6.
  apply wp_bind. eapply wp_own_free; [exact O6|set_solver|]. intros s7 O7.
  eapply wp_own_free; [exact O7|set_solver|]. intros s8 O8. apply owns_tidy.
  assert (((((bstr_set r4 ∪ (bstr_set r3 ∪ (bstr_set r2 ∪ bstr_set r1))) ∖ bstr_set r4) ∖ bstr_set r3)
    ∖ bstr_set r2) ∖ bstr_set r1 = ∅) as E0 by set_solver.
  by rewrite E0 in O8.
Qed.
End Owns.

Section Props.
Context {E : Type}.
Context (CoInitializeEx CoInitializeSecurity : E -> Z * E).
Context (CoCreateInstance : E -> (Z * Z) * E).
Context (ConnectServer : Z -> list Z -> E -> (Z * Z) * E).
Context (SysAllocString : list Z -> E -> bool * E).
Notation new_WMIManager := (new_WMIManager CoInitializeEx CoInitializeSecurity CoCreateInstance ConnectServer SysAllocString).
Notation make_bstr := (make_bstr SysAllocString).

Lemma wp_own_bstr str P H (s s1 : sys E) (Q : option nat -> sys E -> Prop) :
  owns P H s s1 ->
  (forall b s2, bstr_set b ## P -> owns (bstr_set b ∪ P) H s s2 -> Q b s2) -> wp (make_bstr str) s1 Q.
Proof using.
  intros O HQ. apply wp_bind. eapply wp_own_call; [exact O|]. intros s2 _ O2.
  destruct (SysAllocString str (env s1)).1.
  - apply wp_bind. eapply wp_own_new; [exact O2|]. intros p s3 _ Hp O3. apply wp_ret, HQ; [set_solver|done].
  - apply wp_ret, HQ; [cbn; set_solver|]. cbn. by rewrite (left_id_L ∅ (∪)).
Qed.


(** ** The manager's life *)

(** Every service can be reached. *)
Definition reachable : Prop := forall loc name e,
  FAILED (ConnectServer loc name e).1.1 = false /\ (ConnectServer loc name e).1.2 <> 0.
Definition makes_locator : Prop := forall e, FAILED (CoCreateInstance e).1.1 = false -> (CoCreateInstance e).1.2 <> 0.

Lemma connect_ok loc name P H (s s1 : sys E) (Q : Z * Z -> sys E -> Prop) :
  reachable -> owns P H s s1 ->
  (forall c s2, c <> 0 -> owns P (c :: H) s s2 -> forall res, FAILED res = false -> Q (res, c) s2) ->
  wp (do! r := call (ConnectServer loc name) in take r) s1 Q.
Proof.
  intros Hreach O HQ. destruct (Hreach loc name (env s1)) as [Hf Hn].
  apply wp_bind. eapply wp_own_call; [exact O|]. intros s2 _ O2.
  destruct (ConnectServer loc name (env s1)).1 as [res c]. cbn in Hf, Hn.
  eapply wp_own_take; [exact O2|cbn; congruence|]. intros _ s3 O3. by apply HQ.
Qed.

(** What the constructor prints: nothing but the reason why it gives up. *)
Definition setup_lines : list (list line) :=
  [[]; [("Failed to initialize COM\n"%string, [])]; [("Failed to initialize security level\n"%string, [])];
   [("Failed to create COM locator\n"%string, [])]].

(** [do! r := m in do! x := f r in k x], bracketed the other way. *)
Lemma wp_assoc {A B C} (m : io E A) (f : A -> io E B) (k : B -> io E C) s Q :
  wp (do! x := (do! r := m in f r) in k x) s Q -> wp (do! r := m in do! x := f r in k x) s Q.
Proof using. unfold wp, io_bind. destruct (m s) as [[a s']| | |]; done. Qed.

Lemma new_WMIManager_ok s : reachable -> makes_locator -> sys_ok s ->
  wp new_WMIManager s (fun r s' => built s r.1 s' /\ r.2 ∈ setup_lines).
Proof.
  intros Hreach Hloc Hs. pose proof (owns_refl s Hs) as O0. unfold Wmi.new_WMIManager.
  apply wp_bind. eapply wp_own_call; [exact O0|]. intros s1 _ O1. destruct (FAILED _); [apply wp_ret; split; [by left|set_solver]|].
  apply wp_bind. eapply wp_own_call; [exact O1|]. intros s2 _ O2.
  destruct (FAILED _); [apply wp_ret; split; [by left|set_solver]|].
  pose proof (Hloc (env s2)) as Hl.
  apply wp_bind. eapply wp_own_call; [exact O2|]. intros s3 _ O3.
  destruct (CoCreateInstance (env s2)).1 as [res loc]. cbn in Hl.
  apply wp_bind. eapply wp_own_take; [exact O3| |].
  { cbn [fst]. intros Ef. rewrite Ef. apply wp_ret. split; [by left|set_solver]. }
  cbn [fst snd]. intros Ef s4 O4. rewrite Ef. specialize (Hl Ef).
  apply wp_bind. eapply wp_own_bstr; [exact O4|]. intros r1 s5 D1 O5.
  apply wp_bind. eapply wp_own_held; [exact O5|left|]. apply wp_assoc, wp_bind.
  eapply connect_ok; [done|exact O5|]. intros c s6 Hc O6 res1 F1. rewrite F1.
  apply wp_bind, wp_ret. apply wp_bind. eapply wp_own_bstr; [exact O6|]. intros r2 s7 D2 O7.
  apply wp_bind. eapply wp_own_held; [exact O7|right; left|]. apply wp_assoc, wp_bind.
  eapply connect_ok; [done|exact O7|]. intros d s8 Hd O8 res2 F2. rewrite F2.
  apply wp_bind, wp_ret. apply wp_bind. eapply wp_own_bstr; [exact O8|]. intros r3 s9 D3 O9.
  apply wp_bind. eapply wp_own_bstr; [exact O9|]. intros r4 s10 D4 O10. apply wp_ret. cbn [fst snd].
  split; [right|left].
  rewrite (right_id_L ∅ (∪)) in O10, D4, D3, D2. by exists loc, c, d, r1, r2, r3, r4.
Qed.


(** ** When a service cannot be reached *)

(** The constructor gets as far as the locator. *)
Definition gets_locator (loc : Z) : Prop :=
  (forall e, FAILED (CoInitializeEx e).1 = false) /\ (forall e, FAILED (CoInitializeSecurity e).1 = false) /\
  (forall e, (CoCreateInstance e).1 = (0, loc)).

(** Whatever [m] does from [s] on, [k] fails afterwards. *)
Lemma wp_ub {A B} (m : io E A) (k : A -> io E B) s (Q : A -> sys E -> Prop) :
  wp m s Q -> (forall a s', Q a s' -> k a s' = UB) -> io_bind m k s = UB.
Proof using.
  intros Hm Hk. destruct (wp_elim _ _ _ Hm) as (a & s' & E1 & HQ). rewrite (io_bind_Ok _ _ _ _ _ E1). by apply Hk.
Qed.

(** One step of the constructor, with what it owns. *)
Lemma own_call_ub {A B} (f : E -> A * E) (k : A -> io E B) P H s s1 :
  owns P H s s1 -> (forall e s2, owns P H s s2 -> k (f e).1 s2 = UB) -> io_bind (call f) k s1 = UB.
Proof using.
  intros O Hk. eapply (wp_ub _ _ _ (fun a s2 => exists e, a = (f e).1 /\ owns P H s s2)).
  - eapply wp_own_call; [exact O|]. intros s2 _ O2. by exists (env s1).
  - intros a s2 (e & -> & O2). by apply Hk.
Qed.

Lemma own_bstr_ub {B} str (k : option nat -> io E B) P H s s1 :
  owns P H s s1 -> (forall b s2, owns (bstr_set b ∪ P) H s s2 -> k b s2 = UB) -> io_bind (make_bstr str) k s1 = UB.
Proof.
  intros O Hk. eapply (wp_ub _ _ _ (fun b s2 => owns (bstr_set b ∪ P) H s s2)); [|apply Hk].
  eapply wp_own_bstr; [exact O|]. done.
Qed.

Lemma own_take_ub {B} r (k : Z * Z -> io E B) P H s s1 :
  owns P H s s1 -> (FAILED r.1 = true -> k (r.1, 0) s1 = UB) ->
  (FAILED r.1 = false -> forall s2, owns P (r.2 :: H) s s2 -> k r s2 = UB) -> io_bind (take r) k s1 = UB.
Proof using.
  intros O HF HS. eapply (wp_ub _ _ _ (fun a s2 => k a s2 = UB)); [|done].
  eapply wp_own_take; [exact O|exact HF|exact HS].
Qed.

Lemma own_release_ub {B} h (k : unit -> io E B) P H s s1 :
  owns P H s s1 -> h ∈ H -> (forall s2, owns P (close_first h H) s s2 -> k tt s2 = UB) ->
  io_bind (Release h) k s1 = UB.
Proof using.
  intros O Hin Hk. eapply (wp_ub _ _ _ (fun _ s2 => owns P (close_first h H) s s2)); [|intros []; apply Hk].
  eapply wp_own_release; [exact O|done|]. done.
Qed.

Lemma own_held_ub {B} h (k : unit -> io E B) P H s s1 :
  owns P H s s1 -> (h ∈ H ++ handles s -> k tt s1 = UB) -> io_bind (held h) k s1 = UB.
Proof using.
  intros [F A N Hh O] Hk. unfold io_bind, held. rewrite Hh.
  destruct (decide (h ∈ H ++ handles s)); [by apply Hk|done].
Qed.

Lemma first_connect_fails s loc :
  sys_ok s -> gets_locator loc -> loc ∉ handles s ->
  (forall name e, FAILED (ConnectServer loc name e).1.1 = true) -> new_WMIManager s = UB.
Proof.
  intros Hs (H1 & H2 & H3) Hloc Hc. pose proof (owns_refl s Hs) as O0. unfold Wmi.new_WMIManager.
  eapply own_call_ub; [exact O0|]. intros e1 s1 O1. rewrite H1.
  eapply own_call_ub; [exact O1|]. intros e2 s2 O2. rewrite H2.
  eapply own_call_ub; [exact O2|]. intros e3 s3 O3. rewrite H3.
  eapply own_take_ub; [exact O3|done|]. intros _ s4 O4. cbn [snd] in *. change (FAILED 0) with false. cbv iota.
  eapply own_bstr_ub; [exact O4|]. intros r1 s5 O5.
  eapply own_held_ub; [exact O5|]. intros _.
  eapply own_call_ub; [exact O5|]. intros e4 s6 O6. pose proof (Hc (chars "root\CIMV2") e4) as Hf.
  eapply own_take_ub; [exact O6|intros _|congruence]. cbv beta iota. rewrite Hf.
  eapply own_release_ub; [exact O6|left|]. intros s7 O7. cbn in O7. rewrite Z.eqb_refl in O7.
  eapply own_bstr_ub; [exact O7|]. intros r2 s8 O8.
  eapply own_held_ub; [exact O8|]. intros Hin. by destruct Hloc.
Qed.

Lemma second_connect_fails s loc c :
  sys_ok s -> gets_locator loc -> c ∉ handles s -> c <> loc -> c <> 0 ->
  (forall e, (ConnectServer loc (chars "root\CIMV2") e).1 = (0, c)) ->
  (forall e, FAILED (ConnectServer loc (chars "root\default") e).1.1 = true) ->
  (do! (m, _) := new_WMIManager in delete_WMIManager m) s = UB.
Proof.
  intros Hs (H1 & H2 & H3) Hcs Hcl Hc0 Hc1 Hc2. pose proof (owns_refl s Hs) as O0.
  eapply (wp_ub _ _ _ (fun r s' => cimv2_service r.1 = c /\ exists P, owns P [] s s')).
  - unfold Wmi.new_WMIManager.
    apply wp_bind. eapply wp_own_call; [exact O0|]. intros s1 _ O1. rewrite H1.
    apply wp_bind. eapply wp_own_call; [exact O1|]. intros s2 _ O2. rewrite H2.
    apply wp_bind. eapply wp_own_call; [exact O2|]. intros s3 _ O3. rewrite H3.
    apply wp_bind. eapply wp_own_take; [exact O3|done|]. intros _ s4 O4. cbn [snd] in *. change (FAILED 0) with false. cbv iota.
    apply wp_bind. eapply wp_own_bstr; [exact O4|]. intros r1 s5 _ O5.
    apply wp_bind. eapply wp_own_held; [exact O5|left|].
    apply wp_bind. eapply wp_own_call; [exact O5|]. intros s6 _ O6. rewrite Hc1.
    apply wp_bind. eapply wp_own_take; [exact O6|done|]. intros _ s7 O7. cbn [snd] in *. change (FAILED 0) with false. cbv iota.
    apply wp_bind, wp_ret. apply wp_bind. eapply wp_own_bstr; [exact O7|]. intros r2 s8 _ O8.
    apply wp_bind. eapply wp_own_held; [exact O8|right; left|].
    apply wp_bind. eapply wp_own_call; [exact O8|]. intros s9 _ O9. pose proof (Hc2 (env s8)) as Hf.
    apply wp_bind. eapply wp_own_take; [exact O9|intros _|congruence]. cbv beta iota. rewrite Hf.
    apply wp_bind. apply wp_bind. eapply wp_own_release; [exact O9|left|]. intros s10 _ O10.
    cbn in O10. rewrite Z.eqb_refl in O10. eapply wp_own_release; [exact O10|left|]. intros s11 _ O11.
    cbn in O11. rewrite Z.eqb_refl in O11.
    apply wp_bind. eapply wp_own_bstr; [exact O11|]. intros r3 s12 _ O12.
    apply wp_bind. eapply wp_own_bstr; [exact O12|]. intros r4 s13 _ O13.
    apply wp_ret. split; [done|]. by eexists.
  - intros [m out] s' (Hm & P & [_ _ _ Hh _]). cbn [fst] in Hm. unfold delete_WMIManager, release_if. rewrite Hm.
    rewrite (proj2 (Z.eqb_neq _ _) Hc0). cbn in Hh. unfold io_bind at 1. by rewrite Release_ub by (by rewrite Hh).
Qed.

End Props.

(** ** [GetLogs] *)

Section Logs.
Context {E : Type}.
Context (ExecQuery : Z -> list Z -> E -> (Z * Z) * E).
Context (SysAllocString : list Z -> E -> bool * E).
Context (GetErrorInfo : E -> option (Z * list Z) * E).
Context (Next : Z -> E -> (Z * option Z) * E).
Context (Get : Z -> list Z -> E -> (Z * value) * E).
Context (narrow_char : Z -> Z).
Notation GetQueryEnumerator := (GetQueryEnumerator ExecQuery SysAllocString GetErrorInfo).
Notation get := (get Get).
Notation get_bstr := (get_bstr Get).
Notation log_entry := (log_entry Get narrow_char).
Notation logs_loop := (logs_loop Next Get narrow_char).
Notation GetLogs := (GetLogs ExecQuery SysAllocString GetErrorInfo Next Get narrow_char).

(** Queries succeed; [Next] gives an object and takes it from those that remain, or says
    that there is none; dates are in range; nothing else matters to what remains. *)
Record answers (remaining : E -> nat) : Prop := mkAnswers {
  an_query : forall svc q e, FAILED (ExecQuery svc q e).1.1 = false /\ (ExecQuery svc q e).1.2 <> 0;
  an_end : forall p e, (Next p e).1.1 = WBEM_S_FALSE \/ FAILED (Next p e).1.1 = true -> (Next p e).1.2 = None;
  an_next : forall p e, (Next p e).1.1 <> WBEM_S_FALSE -> FAILED (Next p e).1.1 = false ->
    exists o, (Next p e).1.2 = Some o /\ (remaining (Next p e).2 < remaining e)%nat;
  an_date : forall o prop e d, (Get o prop e).1.2 = VT_DATE d -> exists z, double_int64 d = Ok z;
  an_get : forall o prop e, (remaining (Get o prop e).2 <= remaining e)%nat;
  an_exec : forall svc q e, (remaining (ExecQuery svc q e).2 <= remaining e)%nat;
  an_alloc : forall str e, (remaining (SysAllocString str e).2 <= remaining e)%nat;
  an_still : forall p e, (remaining (Next p e).2 <= remaining e)%nat
}.

Context (remaining : E -> nat) (Hans : answers remaining).

(** [owns], with no more left to read. *)
Definition holds (P : gset nat) (H : list Z) (s s1 : sys E) : Prop :=
  owns P H s s1 /\ (remaining (env s1) <= remaining (env s))%nat.

Lemma holds_refl s : sys_ok s -> holds ∅ [] s s.
Proof. intros Hs. split; [by apply owns_refl|done]. Qed.

Lemma holds_new P H s s1 (Q : nat -> sys E -> Prop) :
  holds P H s s1 -> (forall p s2, p ∉ P -> holds ({[p]} ∪ P) H s s2 -> Q p s2) -> wp new_array s1 Q.
Proof.
  intros [O R] HQ. eapply wp_own_new; [exact O|]. intros p s2 V Hp O2. apply HQ; [done|]. split; [done|by rewrite V].
Qed.
Lemma holds_delete p P H s s1 (Q : unit -> sys E -> Prop) :
  holds P H s s1 -> p ∈ P -> (forall s2, holds (P ∖ {[p]}) H s s2 -> Q tt s2) -> wp (delete_array p) s1 Q.
Proof.
  intros [O R] Hp HQ. eapply wp_own_delete; [exact O|done|]. intros s2 V O2. apply HQ. split; [done|by rewrite V].
Qed.
Lemma holds_opened h P H s s1 (Q : unit -> sys E -> Prop) :
  holds P H s s1 -> (forall s2, holds P (h :: H) s s2 -> Q tt s2) -> wp (opened h) s1 Q.
Proof.
  intros [O R] HQ. eapply wp_own_opened; [exact O|]. intros s2 V O2. apply HQ. split; [done|by rewrite V].
Qed.
Lemma holds_release h P H s s1 (Q : unit -> sys E -> Prop) :
  holds P H s s1 -> h ∈ H -> (forall s2, holds P (close_first h H) s s2 -> Q tt s2) -> wp (Release h) s1 Q.
Proof.
  intros [O R] Hh HQ. eapply wp_own_release; [exact O|done|]. intros s2 V O2. apply HQ. split; [done|by rewrite V].
Qed.
Lemma holds_held h P H s s1 (Q : unit -> sys E -> Prop) :
  holds P H s s1 -> h ∈ H ++ handles s -> Q tt s1 -> wp (held h) s1 Q.
Proof. intros [O R] Hin HQ. eapply wp_own_held; [exact O|done|done]. Qed.
Lemma holds_call {A} (f : E -> A * E) P H s s1 (Q : A -> sys E -> Prop) :
  holds P H s s1 -> (remaining (f (env s1)).2 <= remaining (env s1))%nat ->
  (forall s2, holds P H s s2 -> Q (f (env s1)).1 s2) -> wp (call f) s1 Q.
Proof.
  intros [O R] Hf HQ. eapply wp_own_call; [exact O|]. intros s2 V O2. apply HQ. split; [done|rewrite V; lia].
Qed.

(** The array a [VARIANT] owns. *)
Definition var_set (v : VARIANT) : gset nat :=
  match vt v, bstrVal v with Some (VT_BSTR _), Some (p, _) => {[p]} | _, _ => ∅ end.

Definition date_ok (v : option value) : Prop := forall d, v = Some (VT_DATE d) -> exists z, double_int64 d = Ok z.

Lemma wbem_get_ok obj prop var H s s1 (Q : option value * VARIANT -> sys E -> Prop) :
  holds ∅ H s s1 -> obj ∈ H ++ handles s -> vt var = None ->
  (forall v var' s2, holds (var_set var') H s s2 -> date_ok v -> Q (v, var') s2) -> wp (get obj prop var) s1 Q.
Proof.
  intros Hh Hin Hv HQ. apply wp_bind. eapply holds_held; [exact Hh|done|].
  pose proof (an_date _ Hans obj prop (env s1)) as Hd. pose proof (an_get _ Hans obj prop (env s1)) as Hr.
  apply wp_bind. eapply holds_call; [exact Hh|done|]. intros s2 H2.
  destruct (Get obj prop (env s1)).1 as [res v]. cbn in Hd. destruct (SUCCEEDED res).
  - assert (date_ok (Some v)) as Hdv by (intros d [= ->]; by apply Hd).
    destruct v as [text|n|d|]; try (apply wp_ret, HQ; [exact H2|done]).
    apply wp_bind. eapply holds_new; [exact H2|]. intros p s3 _ H3. apply wp_ret, HQ; [|done].
    unfold var_set. cbn. by rewrite (right_id_L ∅ (∪)) in H3.
  - apply wp_ret, HQ; [|by intros d [=]]. unfold var_set. by rewrite Hv.
Qed.

Lemma variant_clear_ok var H s s1 (Q : VARIANT -> sys E -> Prop) :
  holds (var_set var) H s s1 -> (forall var' s2, vt var' = None -> holds ∅ H s s2 -> Q var' s2) ->
  wp (VariantClear var) s1 Q.
Proof.
  intros Hh HQ. unfold VariantClear, var_set in *.
  destruct (vt var) as [[text|n|d|]|]; try (apply wp_ret; by apply HQ).
  destruct (bstrVal var) as [[p t]|]; [|by apply wp_ret, HQ].
  apply wp_bind. eapply holds_delete; [exact Hh|set_solver|]. intros s2 H2. apply wp_ret, HQ; [done|].
  by rewrite difference_diag_L in H2.
Qed.

Lemma get_bstr_ok obj prop var H s s1 (Q : option (list Z) * VARIANT -> sys E -> Prop) :
  holds ∅ H s s1 -> obj ∈ H ++ handles s -> vt var = None ->
  (forall t var' s2, holds (var_set var') H s s2 -> Q (t, var') s2) -> wp (get_bstr obj prop var) s1 Q.
Proof.
  intros Hh Hin Hv HQ. apply wp_bind. eapply wbem_get_ok; [exact Hh|done|done|].
  intros v var' s2 H2 _. by apply wp_ret, HQ.
Qed.

Lemma log_entry_ok obj H s s1 (Q : LogEntry -> sys E -> Prop) :
  holds ∅ H s s1 -> obj ∈ H ++ handles s -> (forall e s2, holds ∅ H s s2 -> Q e s2) -> wp (log_entry obj) s1 Q.
Proof.
  intros H1 Hin HQ. unfold Wmi.log_entry.
  apply wp_bind. eapply get_bstr_ok; [exact H1|done|done|]. intros src v1 s2 H2.
  apply wp_bind. eapply variant_clear_ok; [exact H2|]. intros v2 s3 E2 H3.
  apply wp_bind. eapply get_bstr_ok; [exact H3|done|done|]. intros msg v3 s4 H4.
  apply wp_bind. eapply variant_clear_ok; [exact H4|]. intros v4 s5 E4 H5.
  apply wp_bind. eapply wbem_get_ok; [exact H5|done|done|]. intros prio v5 s6 H6 _.
  apply wp_bind. eapply variant_clear_ok; [exact H6|]. intros v6 s7 E6 H7.
  apply wp_bind. eapply wbem_get_ok; [exact H7|done|done|]. intros date v7 s8 H8 Hd.
  apply wp_bind. apply (wp_mono _ _ (fun _ s' => s' = s8)).
  { destruct date as [[text|n|d|]|]; try by apply wp_ret.
    destruct (Hd d eq_refl) as [z Ez]. unfold wp. by rewrite Ez. }
  intros t s' ->. apply wp_bind. eapply variant_clear_ok; [exact H8|]. intros v8 s9 E8 H9. by apply wp_ret, HQ.
Qed.

(** [Next] gives an object, whose reference is new, or there is no more. *)
Lemma next_ok enumerator obj H s s1 (Q : Z * Z * Z -> sys E -> Prop) :
  holds ∅ H s s1 -> enumerator ∈ H ++ handles s ->
  (forall res o n s2, (res =? WBEM_S_FALSE) || FAILED res = true -> holds ∅ H s s2 -> Q (res, o, n) s2) ->
  (forall res o s2, (res =? WBEM_S_FALSE) || FAILED res = false -> holds ∅ (o :: H) s s2 ->
     (remaining (env s2) < remaining (env s1))%nat -> Q (res, o, 1) s2) ->
  wp (next Next enumerator obj) s1 Q.
Proof.
  intros Hh Hin Hend Hnext. apply wp_bind. eapply holds_held; [exact Hh|done|].
  pose proof (an_still _ Hans enumerator (env s1)) as Hr. pose proof (an_end _ Hans enumerator (env s1)) as He.
  pose proof (an_next _ Hans enumerator (env s1)) as Hn.
  destruct Hh as [O R]. apply wp_bind. eapply wp_own_call; [exact O|]. intros s2 V2 O2.
  destruct (Next enumerator (env s1)).1 as [res w]. cbn [fst snd] in He, Hn.
  destruct ((res =? WBEM_S_FALSE) || FAILED res) eqn:E0.
  - rewrite He by (apply orb_true_iff in E0 as [E0|E0]; [left; by apply Z.eqb_eq|by right]).
    apply wp_ret, Hend; [done|]. split; [done|rewrite V2; lia].
  - apply orb_false_iff in E0 as E1. destruct E1 as [E1 E2]. apply Z.eqb_neq in E1.
    destruct (Hn E1 E2) as (o & -> & Hlt).
    apply wp_bind. eapply wp_own_opened; [exact O2|]. intros s3 V3 O3. apply wp_ret, Hnext; [done| |].
    + split; [done|rewrite V3, V2; lia].
    + rewrite V3, V2. lia.
Qed.

Lemma holds_then H s s1 s2 : holds ∅ H s s1 -> holds ∅ [] s1 s2 -> holds ∅ H s s2.
Proof. intros [O1 R1] [O2 R2]. split; [|lia]. eapply tidy_owns; [exact O1|by apply owns_tidy]. Qed.

Lemma logs_loop_ok fuel enumerator obj s :
  sys_ok s -> enumerator ∈ handles s -> (remaining (env s) < fuel)%nat ->
  wp (logs_loop fuel enumerator obj) s (fun r s' => holds ∅ [] s s' /\
    (length r.1 <= remaining (env s))%nat /\ r.2 = replicate (length r.1) (number_line 2)).
Proof.
  revert obj s. induction fuel as [|fuel IH]; intros obj s Hs Hin Hf; [lia|]. cbn [Wmi.logs_loop].
  apply wp_bind. eapply next_ok; [by apply holds_refl|done| |].
  { intros res o n s2 -> H2. apply wp_ret. split; [done|]. split; [cbn; lia|done]. }
  intros res o s2 -> H2 Hlt. assert (sys_ok s2) as Hs2 by apply H2.
  assert (o ∈ handles s2) as Ho by (destruct H2 as [[_ _ _ -> _] _]; left).
  apply wp_bind. eapply (log_entry_ok o []); [by apply holds_refl|done|]. intros e s3 H3.
  pose proof (holds_then _ _ _ _ H2 H3) as [O3 R3]. destruct H3 as [_ R23].
  apply wp_bind. eapply wp_own_release; [exact O3|left|]. intros s4 V4 O4. cbn in O4. rewrite Z.eqb_refl in O4.
  assert (holds ∅ [] s s4) as H4 by (split; [done|rewrite V4; lia]).
  apply wp_bind. eapply wp_mono; [apply (IH o s4)|].
  - apply O4.
  - destruct O4 as [_ _ _ -> _]. done.
  - rewrite V4. lia.
  - intros [out more] s5 (H5 & L5 & E5). cbn [fst snd] in L5, E5. subst more. apply wp_ret.
    split; [by eapply holds_then|]. cbn [length fst snd]. rewrite V4 in L5. split; [lia|done].
Qed.

Lemma GetQueryEnumerator_ok m query s :
  sys_ok s -> (cimv2_service m = 0 \/ cimv2_service m ∈ handles s) ->
  wp (GetQueryEnumerator m query) s (fun r s' => r.2 = [] /\
    ((r.1 = 0 /\ holds ∅ [] s s') \/ (r.1 <> 0 /\ holds ∅ [r.1] s s'))).
Proof.
  intros Hs Hm. pose proof (holds_refl s Hs) as H0. unfold Wmi.GetQueryEnumerator.
  destruct (bool_decide _ || _) eqn:E0; [apply wp_ret; split; [done|by left]|].
  apply orb_false_iff in E0 as [_ E0]. apply Z.eqb_neq in E0. destruct Hm as [|Hm]; [done|].
  unfold Wmi.make_bstr. pose proof (an_alloc _ Hans query (env s)) as Ra.
  apply wp_bind, wp_bind. eapply holds_call; [exact H0|done|]. intros s1 H1.
  destruct (SysAllocString query (env s)).1; [|apply wp_ret, wp_ret; split; [done|by left]].
  apply wp_bind. eapply holds_new; [exact H1|]. intros b s2 Hb H2. apply wp_ret.
  apply wp_bind. eapply holds_held; [exact H2|done|].
  destruct (an_query _ Hans (cimv2_service m) query (env s2)) as [Hf Hn].
  apply wp_bind. eapply holds_call; [exact H2|apply Hans|]. intros s3 H3.
  destruct (ExecQuery (cimv2_service m) query (env s2)).1 as [res p]. cbn in Hf, Hn.
  unfold take. cbn [fst snd]. rewrite Hf. apply wp_bind, wp_bind. eapply holds_opened; [exact H3|]. intros s4 H4.
  apply wp_ret. cbv beta iota. rewrite Hf.
  apply wp_bind. cbn [free_bstr]. eapply holds_delete; [exact H4|set_solver|]. intros s5 H5. apply wp_ret. split; [done|]. right.
  split; [done|]. cbn [fst]. assert ((({[b]} ∪ ∅) ∖ {[b]} : gset nat) = ∅) as Ediff by set_solver. by rewrite Ediff in H5.
Qed.

(** What [GetLogs] prints of so many entries: the count that [Next] writes is the program's
    own, so that the number of each entry is 2. *)
Definition log_progress (n : nat) : list line := got_enumerator :: replicate n (number_line 2).

Lemma GetLogs_ok fuel m s :
  sys_ok s -> (cimv2_service m = 0 \/ cimv2_service m ∈ handles s) -> (remaining (env s) < fuel)%nat ->
  wp (GetLogs fuel m) s (fun r s' => tidy s s' /\ (length r.1 <= remaining (env s))%nat /\
    (r = ([], []) \/ r.2 = log_progress (length r.1))).
Proof.
  intros Hs Hm Hf. unfold Wmi.GetLogs. apply wp_bind. eapply wp_mono; [by apply GetQueryEnumerator_ok|].
  intros [p out] s1 [Eo [(Ep & H1)|(Hp & H1)]]; cbn [fst snd] in *; subst out.
  - subst p. apply wp_ret. split; [apply owns_tidy, H1|]. split; [cbn; lia|by left].
  - rewrite (proj2 (Z.eqb_neq _ _) Hp). destruct H1 as [O1 R1].
    apply wp_bind. eapply wp_mono; [apply (logs_loop_ok fuel p 0 s1)|].
    + apply O1.
    + destruct O1 as [_ _ _ -> _]. left.
    + lia.
    + intros [out more] s2 (H2 & L2 & E2). cbn [fst snd] in L2, E2. pose proof (holds_then _ _ _ _ (conj O1 R1) H2) as [O2 _].
      apply wp_bind. eapply wp_own_release; [exact O2|left|]. intros s3 _ O3. cbn in O3. rewrite Z.eqb_refl in O3.
      apply wp_ret. split; [by apply owns_tidy|]. split; [cbn; lia|]. right. cbn. by rewrite E2.
Qed.
End Logs.

(** ** The theorems *)

(** When both services can be reached, or nothing at all, what the constructor of
    [WMIManager] takes its destructor gives back: references and strings, whether or not
    memory is found for the strings. *)
Theorem WMIManager_lifetime {E} init security (create : E -> (Z * Z) * E) connect alloc (s : sys E) :
  reachable connect -> makes_locator create -> sys_ok s ->
  exists s', (do! (m, _) := new_WMIManager init security create connect alloc in delete_WMIManager m) s = Ok (tt, s') /\
    tidy s s'.
Proof.
  intros Hr Hl Hs.
  destruct (wp_elim _ _ _ (new_WMIManager_ok init security create connect alloc s Hr Hl Hs)) as ([m out] & s1 & E1 & B1 & _).
  destruct (wp_elim _ _ _ (delete_WMIManager_ok m s s1 Hs B1)) as ([] & s2 & E2 & T).
  exists s2. split; [by rewrite (io_bind_Ok _ _ _ _ _ E1)|done].
Qed.

(** The constructor releases the locator when a connection fails, and goes on: after
    the first it connects through the pointer released, after the second the destructor
    releases the first service again. *)
Theorem WMIManager_connection_fails {E} init security (create : E -> (Z * Z) * E) connect alloc loc c (s : sys E) :
  sys_ok s -> gets_locator init security create loc -> loc ∉ handles s -> c ∉ handles s -> c <> loc -> c <> 0 ->
  ((forall name e, FAILED (connect loc name e).1.1 = true) ->
     new_WMIManager init security create connect alloc s = UB) /\
  ((forall e, (connect loc (chars "root\CIMV2") e).1 = (0, c)) ->
   (forall e, FAILED (connect loc (chars "root\default") e).1.1 = true) ->
     (do! (m, _) := new_WMIManager init security create connect alloc in delete_WMIManager m) s = UB).
Proof.
  intros Hs Hg Hl Hc Hcl Hc0. split.
  - intros Hf. by apply (first_connect_fails init security create connect alloc s loc).
  - intros H1 H2. by apply (second_connect_fails init security create connect alloc s loc c).
Qed.

(** [GetLogs] returns when the events are all read, with at most one entry for each,
    and has released every object and freed every string by then; it has printed that it
    got the enumerator, unless it has not, and a number for each entry, which is 2. *)
Theorem GetLogs_gives_back {E} query alloc error next get narrow (remaining : E -> nat) fuel m (s : sys E) :
  answers query alloc next get remaining -> sys_ok s ->
  (cimv2_service m = 0 \/ cimv2_service m ∈ handles s) -> (remaining (env s) < fuel)%nat ->
  exists entries out s', GetLogs query alloc error next get narrow fuel m s = Ok ((entries, out), s') /\ tidy s s' /\
    (length entries <= remaining (env s))%nat /\ (entries = [] /\ out = [] \/ out = log_progress (length entries)).
Proof.
  intros Ha Hs Hm Hf.
  destruct (wp_elim _ _ _ (GetLogs_ok query alloc error next get narrow remaining Ha fuel m s Hs Hm Hf))
    as ([entries out] & s' & E1 & T & L & P). exists entries, out, s'. split_and!; try done.
  destruct P as [[= -> ->]|P]; [by left|by right].
Qed.

(** ** A system with two objects *)

(** The state is the number of objects not yet given; the services are 20 and 21. *)
Definition demo_ok (e : nat) : Z * nat := (0, e).
Definition demo_locator (e : nat) : (Z * Z) * nat := ((0, 10), e).
Definition is_cimv2 (name : list Z) : bool := bool_decide (name = chars "root\CIMV2").
Definition demo_connect (loc : Z) (name : list Z) (e : nat) : (Z * Z) * nat :=
  ((0, if is_cimv2 name then 20 else 21), e).
(** An error is a negative [HRESULT]. *)
Definition E_FAIL : Z := 0x80004005.
Definition failing_connect (loc : Z) (name : list Z) (e : nat) : (Z * Z) * nat := ((E_FAIL, 0), e).
Definition half_connect (loc : Z) (name : list Z) (e : nat) : (Z * Z) * nat :=
  (if is_cimv2 name then (0, 20) else (E_FAIL, 0), e).
Definition demo_alloc (str : list Z) (e : nat) : bool * nat := (true, e).
Definition demo_query (svc : Z) (q : list Z) (e : nat) : (Z * Z) * nat := ((0, 30), e).
Definition demo_error (e : nat) : option (Z * list Z) * nat := (None, e).
Definition demo_next (p : Z) (e : nat) : (Z * option Z) * nat :=
  match e with O => ((WBEM_S_FALSE, None), O) | S n => ((0, Some (40 + Z.of_nat n)), n) end.
Definition demo_get (o : Z) (prop : list Z) (e : nat) : (Z * value) * nat :=
  ((if bool_decide (prop = chars "SID") && (o =? 41) then (E_FAIL, VT_OTHER)
    else if bool_decide (prop = chars "EventType") then (0, VT_UI8 3)
    else if bool_decide (prop = chars "TimeGenerated") then (0, VT_DATE (S754_finite false 3 (-1)))
    else (0, VT_BSTR prop)), e).
Definition demo_com (n : nat) (refs : list Z) : sys nat := mkSys n ∅ 0 refs.
Definition demo_wmi : WMIManager := mkWMI 10 20 21 None None (Some 7%nat) None.

Lemma demo_com_ok n refs : sys_ok (demo_com n refs).
Proof. intros p Hp. by apply not_elem_of_empty in Hp. Qed.

Lemma WMIManager_lifetime_witness :
  exists s', (do! (m, _) := new_WMIManager demo_ok demo_ok demo_locator demo_connect demo_alloc in delete_WMIManager m)
    (demo_com 0 []) = Ok (tt, s') /\ tidy (demo_com 0 []) s'.
Proof.
  apply (WMIManager_lifetime demo_ok demo_ok demo_locator demo_connect demo_alloc (demo_com 0 [])).
  - intros loc name e. unfold demo_connect. split; [done|]. cbn. by destruct (is_cimv2 name).
  - done.
  - apply demo_com_ok.
Defined.

Lemma WMIManager_connection_fails_witness :
  new_WMIManager demo_ok demo_ok demo_locator failing_connect demo_alloc (demo_com 0 []) = UB /\
  (do! (m, _) := new_WMIManager demo_ok demo_ok demo_locator half_connect demo_alloc in delete_WMIManager m)
    (demo_com 0 []) = UB.
Proof.
  assert (gets_locator demo_ok demo_ok demo_locator 10) as Hg by done.
  assert (10 ∉ handles (demo_com 0 [])) as H10 by apply not_elem_of_nil.
  assert (20 ∉ handles (demo_com 0 [])) as H20 by apply not_elem_of_nil.
  split.
  - apply (proj1 (WMIManager_connection_fails demo_ok demo_ok demo_locator failing_connect demo_alloc 10 20
      (demo_com 0 []) (demo_com_ok _ _) Hg H10 H20 ltac:(done) ltac:(done))). done.
  - apply (proj2 (WMIManager_connection_fails demo_ok demo_ok demo_locator half_connect demo_alloc 10 20
      (demo_com 0 []) (demo_com_ok _ _) Hg H10 H20 ltac:(done) ltac:(done))); done.
Defined.

Lemma demo_answers : answers demo_query demo_alloc demo_next demo_get (fun e => e).
Proof.
  split.
  - done.
  - intros p [|e]; cbn; [done|]. by intros [?|?].
  - intros p [|e]; cbn; [done|]. intros _ _. eexists. split; [done|lia].
  - intros o prop e d. unfold demo_get. cbn. repeat (destruct (bool_decide _); cbn); try destruct (o =? 41); cbn;
      try done; intros [= <-]; by exists 1.
  - intros o prop e. cbn. lia.
  - intros svc q e. cbn. lia.
  - intros str e. cbn. lia.
  - intros p [|e]; cbn; lia.
Qed.

Lemma GetLogs_gives_back_witness :
  exists entries out s',
    GetLogs demo_query demo_alloc demo_error demo_next demo_get id 3 demo_wmi (demo_com 2 [20]) = Ok ((entries, out), s') /\
    tidy (demo_com 2 [20]) s' /\ out = log_progress 2 /\
    entries = replicate 2 (mkLogEntry 1 3 (chars "SourceName") (chars "Message")).
Proof.
  destruct (GetLogs_gives_back demo_query demo_alloc demo_error demo_next demo_get id (fun e => e) 3 demo_wmi
    (demo_com 2 [20])) as (entries & out & s' & E & T & _).
  - exact demo_answers.
  - apply demo_com_ok.
  - right. left.
  - cbn. lia.
  - exists entries, out, s'. split; [exact E|]. split; [exact T|]. vm_compute in E. by injection E as <- <- _.
Defined.

(** [GetUserData] of one user, whose home is asked for with the one object that is left:
    the strings it has read stay allocated. *)
Lemma GetUserData_leaks :
  exists users out s', GetUserData demo_query demo_alloc demo_error demo_next demo_get id 3 demo_wmi
      (mkSys 1%nat ∅ 0 [20]) = Ok ((users, out), s') /\
    length users = 1%nat /\ handles s' = [20] /\ elements (arrays s') <> [].
Proof. eexists _, _, _. split; [vm_compute; reflexivity|]. split; [done|]. split; [done|]. vm_compute. discriminate. Qed.

(** Object 41 has no SID: the query for its home names the full name, which the
    [VARIANT] still points at. *)
Lemma user_without_sid :
  exists s1 var, (do! (full, var) := get_bstr demo_get 41 (chars "FullName") (VariantInit fresh_variant) in
    get_bstr demo_get 41 (chars "SID") (VariantInit var)) (demo_com 0 [41]) = Ok ((None, var), s1) /\
    snd <$> bstrVal var = Some (chars "FullName").
Proof. eexists _, _. split; vm_compute; reflexivity. Qed.

(** A query that fails without an error object: a null pointer is used. *)
Lemma failed_query_ub :
  GetQueryEnumerator (fun _ _ e => ((E_FAIL, 0), e)) demo_alloc demo_error demo_wmi (chars "SELECT") (demo_com 0 [20]) = UB.
Proof. vm_compute. reflexivity. Qed.

(** A nested [Next] that fails is taken for one that gave an object. *)
Lemma failed_next_ub :
  home_of demo_query demo_alloc demo_error (fun _ e => ((E_FAIL, None), e)) demo_get id demo_wmi (chars "S-1-5")
    fresh_variant (demo_com 0 [20]) = UB.
Proof. vm_compute. reflexivity. Qed.

(** The version of the operating system: one caption and one number. *)
Example GetOSVersion_text :
  exists s', GetOSVersion demo_query demo_alloc demo_error demo_next demo_get id 2 demo_wmi (demo_com 1 [20])
    = Ok ((chars "Caption Version", []), s').
Proof. eexists. vm_compute. reflexivity. Qed.
