(* ===== verification/Ttl.v ===== *)
(** * [c-ares/cares_ttl.c]: the TTL of a DNS answer

    [get_ttl] steps over the question and the name of the first answer.
    [ares_expand_name] is a parameter: the status and the encoded length of the name at
    an offset of the message.  Offsets stand for pointers into [abuf]. *)

From S2P Require Import Prelude.
Local Open Scope Z_scope.

Definition ARES_SUCCESS : Z := 0.
Definition ARES_EBADRESP : Z := 10.
Definition HFIXEDSZ : nat := 12.
Definition QFIXEDSZ : nat := 4.
Definition RRFIXEDSZ : nat := 10.

(** [DNS_RR_TTL(p)]: four bytes at [p + 4], the first the highest. *)
Definition DNS_RR_TTL (abuf : list Z) (p : nat) : res Z :=
  match drop (p + 4) abuf with
  | a :: b :: c :: d :: _ => Ok (i32 (Z.lor (Z.lor (Z.shiftl a 24) (Z.shiftl b 16)) (Z.lor (Z.shiftl c 8) d)))
  | _ => UB
  end.

Section Ttl.
Context (ares_expand_name : nat -> list Z -> Z * nat).

(** The status, and [*ttl] when it is set. *)
Definition get_ttl (abuf : list Z) : res (Z * option Z) :=
  let alen := length abuf in
  let aptr := HFIXEDSZ in
  let '(status, len) := ares_expand_name aptr abuf in
  if negb (status =? ARES_SUCCESS) then Ok (status, None)
  else if (alen <? aptr + len + QFIXEDSZ)%nat then Ok (ARES_EBADRESP, None)
  else
    let aptr := (aptr + (len + QFIXEDSZ))%nat in
    let '(status, len) := ares_expand_name aptr abuf in
    if negb (status =? ARES_SUCCESS) then Ok (status, None)
    else if (alen <? aptr + RRFIXEDSZ)%nat then Ok (ARES_EBADRESP, None)
    else
      let aptr := (aptr + len)%nat in
      let! ttl := DNS_RR_TTL abuf aptr in
      Ok (status, Some ttl).

(** A message with a question and an answer record that is all there. *)
Definition answer_at (abuf : list Z) (q n : nat) : Prop :=
  ares_expand_name HFIXEDSZ abuf = (ARES_SUCCESS, q) /\
  ares_expand_name (HFIXEDSZ + (q + QFIXEDSZ)) abuf = (ARES_SUCCESS, n).

(** The TTL of a whole record. *)
Lemma get_ttl_whole abuf q n a b c d rest :
  bytes_ok abuf -> answer_at abuf q n -> a < 2 ^ 7 ->
  drop (HFIXEDSZ + (q + QFIXEDSZ) + n + 4) abuf = a :: b :: c :: d :: rest ->
  (RRFIXEDSZ <= n + 8 + length rest)%nat ->
  get_ttl abuf = Ok (ARES_SUCCESS, Some (a * 2 ^ 24 + b * 2 ^ 16 + c * 2 ^ 8 + d)).
Proof.
  intros Hok [Eq En] Ha Hd Hr. unfold get_ttl. rewrite Eq. cbn [negb Z.eqb].
  assert (length abuf = HFIXEDSZ + (q + QFIXEDSZ) + n + 8 + length rest)%nat as Hl.
  { pose proof (f_equal length Hd) as E. rewrite length_drop in E. cbn [length] in E. lia. }
  destruct (Nat.ltb_spec (length abuf) (HFIXEDSZ + q + QFIXEDSZ)); [lia|].
  rewrite En. cbn [negb Z.eqb].
  destruct (Nat.ltb_spec (length abuf) (HFIXEDSZ + (q + QFIXEDSZ) + RRFIXEDSZ)); [lia|].
  unfold DNS_RR_TTL. rewrite Hd. cbn [res_bind]. do 3 f_equal.
  assert (byte_ok a /\ byte_ok b /\ byte_ok c /\ byte_ok d) as (Ba & Bb & Bc & Bd).
  { assert (bytes_ok (a :: b :: c :: d :: rest)) as Hb by (rewrite <- Hd; by apply Forall_drop).
    unfold bytes_ok in Hb. rewrite !Forall_cons in Hb. tauto. }
  unfold byte_ok in *. rewrite !Z.shiftl_mul_pow2 by lia.
  rewrite (lor_low (a * 2 ^ 24) _ 24) by (lia || (by apply Z.mod_mul)).
  rewrite (lor_low (c * 2 ^ 8) d 8) by (lia || (by apply Z.mod_mul)).
  rewrite (lor_low _ _ 16); [|lia|dlia|lia].
  unfold i32, swrap. rewrite Z.mod_small by lia.
  destruct (Z.ltb_spec (a * 2 ^ 24 + b * 2 ^ 16 + (c * 2 ^ 8 + d)) (2 ^ (32 - 1))); lia.
Qed.

(** The check before the TTL is read leaves out the length of the record's name:
    when the fixed part of the record would fit where the name begins, but the message
    ends before the TTL behind the name does, [get_ttl] reads past the message. *)
Theorem get_ttl_overreads abuf q n :
  answer_at abuf q n ->
  (HFIXEDSZ + (q + QFIXEDSZ) + RRFIXEDSZ <= length abuf < HFIXEDSZ + (q + QFIXEDSZ) + n + 8)%nat ->
  get_ttl abuf = UB.
Proof.
  intros [Eq En] Hl. unfold get_ttl. rewrite Eq. cbn [negb Z.eqb].
  destruct (Nat.ltb_spec (length abuf) (HFIXEDSZ + q + QFIXEDSZ)); [lia|]. rewrite En. cbn [negb Z.eqb].
  destruct (Nat.ltb_spec (length abuf) (HFIXEDSZ + (q + QFIXEDSZ) + RRFIXEDSZ)); [lia|].
  unfold DNS_RR_TTL. destruct (drop _ abuf) as [|a [|b [|c [|d r]]]] eqn:E; [done..|].
  pose proof (f_equal length E) as El. rewrite length_drop in El. cbn [length] in El. lia.
Qed.
End Ttl.

(** ** A concrete message *)

(** Names of labels with their length in front, ended by 0. *)
Fixpoint name_length (fuel : nat) (bs : list Z) : nat :=
  match fuel, bs with
  | S fuel, l :: bs => if l =? 0 then 1 else 1 + Z.to_nat l + name_length fuel (drop (Z.to_nat l) bs)
  | _, _ => 0
  end.
Definition expand_labels (aptr : nat) (abuf : list Z) : Z * nat :=
  (ARES_SUCCESS, name_length (length abuf) (drop aptr abuf)).

(** The question [a.], and an answer [abcdefgh.] of which the first bytes are there. *)
Definition short_answer : list Z :=
  replicate 12 0 ++ [1; 97; 0; 0; 1; 0; 1] ++ [8; 97; 98; 99; 100; 101; 102; 103; 104; 0] ++ [0; 1; 0; 1; 0].

Lemma get_ttl_overreads_witness : get_ttl expand_labels short_answer = UB.
Proof.
  apply (get_ttl_overreads expand_labels short_answer 3 10).
  - split; reflexivity.
  - split; apply Nat.leb_le; reflexivity.
Defined.
