(* ===== verification/ConnID.v ===== *)
(** * [ordered_map.cpp]: a key of a [std::map]

    [ConnIDKey] holds two addresses of 16 bytes and two ports; its [operator<] joins the
    comparisons of the members with [||]. *)

From S2P Require Import Prelude.
Local Open Scope Z_scope.

Record ConnIDKey := mkConnID { ip1 : list Z; ip2 : list Z; port1 : Z; port2 : Z }.

Definition zero_ip : list Z := replicate 16 0.
Definition new_ConnIDKey : ConnIDKey := mkConnID zero_ip zero_ip 0 0.

(** [memcmp(l, r, sizeof(in6_addr))]. *)
Fixpoint memcmp (l r : list Z) : Z :=
  match l, r with
  | x :: l, y :: r => if x =? y then memcmp l r else x - y
  | _, _ => 0
  end.

Definition less (lhs rhs : ConnIDKey) : bool :=
  (port1 lhs <? port1 rhs) || (port2 lhs <? port2 rhs) ||
  (memcmp (ip1 lhs) (ip1 rhs) <? 0) || (memcmp (ip2 lhs) (ip2 rhs) <? 0).

Definition assign (this rhs : ConnIDKey) : ConnIDKey := mkConnID (ip1 rhs) (ip2 rhs) (port1 rhs) (port2 rhs).

Lemma memcmp_refl l : memcmp l l = 0.
Proof. induction l as [|x l IH]; [done|]. cbn. by rewrite Z.eqb_refl. Qed.

(** No key is before itself, *)
Lemma less_irrefl k : less k k = false.
Proof. unfold less. by rewrite !Z.ltb_irrefl, !memcmp_refl. Qed.

(** but two keys are before each other as soon as their ports are in opposite orders:
    [operator<] is not the strict weak ordering [std::map] asks for. *)
Lemma less_both_ways a b : port1 a < port1 b -> port2 b < port2 a -> less a b = true /\ less b a = true.
Proof.
  intros H1 H2. unfold less. rewrite (proj2 (Z.ltb_lt _ _) H1), (proj2 (Z.ltb_lt _ _) H2).
  by rewrite !orb_true_r.
Qed.
