(* ===== verification/Containers.v ===== *)
(** * The maps of [dict/test.cc] as one interface

    What the programs use of [std::map], [std::unordered_map] and [fifo_map]: [emplace],
    [operator[]], [size] and the loop over all elements.  The class [Container] has them
    and what they do to the finite map that is held; [dict/fifo_map.hpp] is an instance by
    the theorems of [FifoProps], the two of the standard library are written out. *)

From stdpp Require Import gmap.
From S2P Require Import Prelude FifoMap FifoProps ConnID.
Local Open Scope Z_scope.

(** [c_holds n m g]: [m] holds [g] and can take [n] more calls that may add a key. *)
Class Container (M K V : Type) `{Countable K} := {
  c_new : M;
  c_emplace : M -> K -> V -> res M;
  c_assign : M -> K -> V -> res M;
  c_index : M -> K -> res (V * M);
  c_size : M -> Z;
  c_elems : M -> list (K * V);
  c_valid : K -> Prop;
  c_holds : nat -> M -> gmap K V -> Prop;
  c_new_ok : forall n, Z.of_nat n < 2 ^ 63 -> c_holds n c_new ∅;
  c_emplace_ok : forall n m g k v, c_holds (S n) m g -> c_valid k ->
    exists m', c_emplace m k v = Ok m' /\
      c_holds n m' (match g !! k with Some _ => g | None => <[k := v]> g end);
  c_assign_ok : forall n m g k v, c_holds (S n) m g -> c_valid k ->
    exists m', c_assign m k v = Ok m' /\ c_holds n m' (<[k := v]> g);
  c_index_ok : forall n m g k v, c_holds (S n) m g -> c_valid k -> g !! k = Some v ->
    exists m', c_index m k = Ok (v, m') /\ c_holds n m' g;
  c_size_ok : forall n m g, c_holds n m g -> c_size m = Z.of_nat (base.size g);
  c_elems_ok : forall n m g, c_holds n m g -> c_elems m ≡ₚ map_to_list g
}.

(** ** Lists of elements *)

Section Elements.
Context {K V : Type} `{Countable K}.
Implicit Types (l : list (K * V)) (g : gmap K V).

Definition elements_of g l : Prop := NoDup l.*1 /\ list_to_map l = g.

Lemma elements_of_perm g l l' : l ≡ₚ l' -> elements_of g l -> elements_of g l'.
Proof.
  intros Hp [Hnd <-]. split; [by rewrite <- Hp|]. symmetry. by apply list_to_map_proper.
Qed.

Lemma elements_of_lookup g l k v : elements_of g l -> (k, v) ∈ l <-> g !! k = Some v.
Proof. intros [Hnd <-]. by apply elem_of_list_to_map. Qed.

Lemma elements_of_key g l k : elements_of g l -> k ∈ l.*1 <-> is_Some (g !! k).
Proof.
  intros He. rewrite list_elem_of_fmap. split.
  - intros ([k' v] & -> & Hin). exists v. by apply (elements_of_lookup g l).
  - intros [v Hv]. exists (k, v). split; [done|]. by apply (elements_of_lookup g l).
Qed.

Lemma elements_of_map_to_list g l : elements_of g l -> l ≡ₚ map_to_list g.
Proof. intros [Hnd <-]. by rewrite map_to_list_to_map. Qed.

Lemma elements_of_length g l : elements_of g l -> length l = base.size g.
Proof. intros He. rewrite (elements_of_map_to_list g l He). apply length_map_to_list. Qed.

Lemma elements_of_cons g l k v : elements_of g l -> g !! k = None -> elements_of (<[k := v]> g) ((k, v) :: l).
Proof.
  intros He Hk. destruct (He) as [Hnd Hm]. split; [|cbn; by rewrite Hm]. cbn. apply NoDup_cons. split; [|done].
  rewrite (elements_of_key g l) by done. rewrite Hk. by intros [].
Qed.

Lemma insert_elements g l k v :
  elements_of g l -> elements_of (match g !! k with Some _ => g | None => <[k := v]> g end) (spec_insert l k v).
Proof.
  intros He. unfold spec_insert. case_decide as Hk; rewrite (elements_of_key g l) in Hk by done.
  - by destruct Hk as [w ->].
  - apply eq_None_not_Some in Hk. rewrite Hk. apply elements_of_perm with ((k, v) :: l).
    + apply Permutation_cons_append.
    + by apply elements_of_cons.
Qed.

Lemma assign_elements g l k v : elements_of g l -> elements_of (<[k := v]> g) (spec_assign l k v).
Proof.
  intros He. destruct (decide (k ∈ l.*1)) as [Hk|Hk].
  - pose proof Hk as ([k' w] & -> & Hin)%list_elem_of_fmap. apply list_elem_of_split in Hin as (l1 & l2 & ->).
    apply (elements_of_perm _ _ ((k', w) :: l1 ++ l2)) in He; [|by rewrite Permutation_middle].
    destruct He as [Hnd <-]. cbn in Hnd. apply NoDup_cons in Hnd as [Hk' Hnd]. cbn [list_to_map fst] in *.
    assert (k' ∉ l1.*1 /\ k' ∉ l2.*1) as [K1 K2] by (by rewrite <- not_elem_of_app, <- fmap_app).
    rewrite spec_assign_split by (apply Forall_forall; intros e He <-; first [by apply K1, list_elem_of_fmap_2|by apply K2, list_elem_of_fmap_2]).
    change (list_to_map ((k', w) :: l1 ++ l2)) with (<[k' := w]> (list_to_map (l1 ++ l2) : gmap K V)).
    rewrite insert_insert_eq. apply elements_of_perm with ((k', v) :: l1 ++ l2); [by rewrite Permutation_middle|].
    apply elements_of_cons; [done|]. by apply not_elem_of_list_to_map_1.
  - unfold spec_assign. rewrite decide_False by done. apply elements_of_perm with ((k, v) :: l).
    + apply Permutation_cons_append.
    + apply elements_of_cons; [done|]. apply eq_None_not_Some. by rewrite <- (elements_of_key g l).
Qed.
End Elements.

(** ** [std::map] *)

(** A comparison that tells apart all valid keys. *)
Class KeyOrder {K : Type} (lt : K -> K -> bool) (valid : K -> Prop) := {
  ko_irrefl : forall k, lt k k = false;
  ko_trans : forall a b c, lt a b = true -> lt b c = true -> lt a c = true;
  ko_total : forall a b, valid a -> valid b -> lt a b = false -> lt b a = false -> a = b
}.

Section StdMap.
Context {K V : Type} `{Countable K} (lt : K -> K -> bool) (valid : K -> Prop) `{!KeyOrder lt valid} (null : V).
Implicit Types (l : list (K * V)).

(** [emplace]: nothing when there is an equivalent key. *)
Fixpoint map_emplace l (k : K) (v : V) : list (K * V) :=
  match l with
  | [] => [(k, v)]
  | e :: l' =>
      if lt e.1 k then e :: map_emplace l' k v
      else if lt k e.1 then (k, v) :: l else l
  end.
(** [m[k] = v]. *)
Fixpoint map_assign l (k : K) (v : V) : list (K * V) :=
  match l with
  | [] => [(k, v)]
  | e :: l' =>
      if lt e.1 k then e :: map_assign l' k v
      else if lt k e.1 then (k, v) :: l else (e.1, v) :: l'
  end.
Fixpoint map_at l (k : K) : option V :=
  match l with
  | [] => None
  | e :: l => if lt e.1 k then map_at l k else if lt k e.1 then None else Some e.2
  end.
(** [m[k]] makes a null value for a key that is not there. *)
Definition map_index l (k : K) : res (V * list (K * V)) :=
  let l := map_emplace l k null in
  match map_at l k with Some v => Ok (v, l) | None => UB end.

Definition in_order l : Prop := StronglySorted (fun a b => lt a.1 b.1 = true) l /\ Forall (fun e => valid e.1) l.

(** What is left of the place of [k] and what is right of it. *)
Definition around l1 l2 (k : K) : Prop :=
  in_order l1 /\ in_order l2 /\ Forall (fun e => lt e.1 k = true) l1 /\ Forall (fun e => lt k e.1 = true) l2.

Lemma in_order_nil : in_order [].
Proof using. split; constructor. Qed.
Lemma in_order_cons e l : valid e.1 -> Forall (fun b => lt e.1 b.1 = true) l -> in_order l -> in_order (e :: l).
Proof using. intros Hv He [S1 V1]. split; by constructor. Qed.

Lemma in_order_split l k :
  in_order l -> valid k ->
  exists l1 l2, around l1 l2 k /\ (l = l1 ++ l2 \/ exists w, l = l1 ++ (k, w) :: l2).
Proof using Type*.
  intros [Hs Hv] Hk. induction Hs as [|e l Hs IH He].
  { exists [], []. split; [|by left]. split; [apply in_order_nil|]. split; [apply in_order_nil|done]. }
  apply Forall_cons in Hv as [Hve Hv]. assert (in_order l) as Ho by by split. destruct (lt e.1 k) eqn:E.
  - destruct (IH Hv) as (l1 & l2 & (O1 & O2 & H1 & H2) & Hl). exists (e :: l1), l2.
    assert (Forall (fun b => lt e.1 b.1 = true) l1) as He1.
    { apply Forall_forall. intros x Hx. rewrite Forall_forall in He. apply He.
      destruct Hl as [->|[w ->]]; apply elem_of_app; by left. }
    split; [split; [by apply in_order_cons|split; [done|split; [by constructor|done]]]|].
    destruct Hl as [->|[w ->]]; [by left|right]. by exists w.
  - exists []. destruct (lt k e.1) eqn:E'.
    + exists (e :: l). split; [|by left]. split; [apply in_order_nil|].
      split; [by apply in_order_cons|]. split; [done|]. constructor; [done|]. eapply Forall_impl; [exact He|]. intros x Hx. by apply (ko_trans k e.1).
    + exists l. rewrite (ko_total e.1 k Hve Hk E E') in *. split; [|right].
      { split; [apply in_order_nil|]. split; [done|]. by split. }
     
      exists e.2. by rewrite <- (ko_total e.1 k Hve Hk E E'), <- surjective_pairing.
Qed.

Lemma around_insert l1 l2 k v : around l1 l2 k -> valid k -> in_order (l1 ++ (k, v) :: l2).
Proof using Type*.
  intros ([S1 V1] & [S2 V2] & H1 & H2) Hk. split; [|apply Forall_app; split; [done|by constructor]].
  apply StronglySorted_app_2; [|done|by constructor]. rewrite !Forall_forall in *.
  intros a b Ha [->|Hb]%elem_of_cons; [by apply H1|]. apply (ko_trans _ k); [by apply H1|by apply H2].
Qed.

Lemma before_ne l k : Forall (fun e => lt e.1 k = true) l -> Forall (fun e => e.1 <> k) l.
Proof using Type*. intros H1. eapply Forall_impl; [exact H1|]. intros e He <-. by rewrite ko_irrefl in He. Qed.
Lemma after_ne l k : Forall (fun e => lt k e.1 = true) l -> Forall (fun e => e.1 <> k) l.
Proof using Type*. intros H1. eapply Forall_impl; [exact H1|]. intros e He <-. by rewrite ko_irrefl in He. Qed.
Lemma ne_not_in l k : Forall (fun e => e.1 <> k) l -> k ∉ l.*1.
Proof using. intros Hl (e & -> & He)%list_elem_of_fmap. rewrite Forall_forall in Hl. by apply (Hl e). Qed.

Lemma lt_after k e : lt k e = true -> lt e k = false.
Proof using Type*.
  intros E. destruct (lt e k) eqn:E'; [|done]. pose proof (ko_trans k e k E E') as Hkk. by rewrite ko_irrefl in Hkk.
Qed.

(** The operations go to the key's place. *)
Lemma place_new l1 l2 k v :
  around l1 l2 k ->
  map_emplace (l1 ++ l2) k v = l1 ++ (k, v) :: l2 /\ map_assign (l1 ++ l2) k v = l1 ++ (k, v) :: l2.
Proof using Type*.
  intros (_ & _ & H1 & H2). induction H1 as [|e l1 He _ IH]; cbn.
  - destruct H2 as [|e l2 He H2]; [done|]. cbn. by rewrite (lt_after _ _ He), He.
  - rewrite He. by destruct IH as [-> ->].
Qed.

Lemma place_there l1 l2 k w v :
  around l1 l2 k ->
  map_emplace (l1 ++ (k, w) :: l2) k v = l1 ++ (k, w) :: l2 /\
  map_assign (l1 ++ (k, w) :: l2) k v = l1 ++ (k, v) :: l2 /\ map_at (l1 ++ (k, w) :: l2) k = Some w.
Proof using Type*.
  intros (_ & _ & H1 & H2). induction H1 as [|e l1 He _ IH]; cbn.
  - by rewrite ko_irrefl.
  - rewrite He. by destruct IH as (-> & -> & ->).
Qed.

(** Up to the order of the elements they are those of a map without an order. *)
Lemma map_place l k v :
  in_order l -> valid k ->
  in_order (map_emplace l k v) /\ map_emplace l k v ≡ₚ spec_insert l k v /\
  in_order (map_assign l k v) /\ map_assign l k v ≡ₚ spec_assign l k v /\
  forall w, (k, w) ∈ l -> map_index l k = Ok (w, l).
Proof using Type*.
  intros Ho Hk. destruct (in_order_split l k Ho Hk) as (l1 & l2 & A & Hl).
  destruct (A) as (_ & _ & H1%before_ne & H2%after_ne). destruct Hl as [->|[u ->]].
  - destruct (place_new l1 l2 k v A) as [-> ->].
    assert (k ∉ (l1 ++ l2).*1) as Hno by (apply ne_not_in, Forall_app; by split).
    unfold spec_insert, spec_assign. rewrite !decide_False by done.
    assert (l1 ++ (k, v) :: l2 ≡ₚ (l1 ++ l2) ++ [(k, v)]) as Hp by (rewrite <- Permutation_middle; apply Permutation_cons_append).
    split_and!; try done; [by apply around_insert..|]. intros w Hw. destruct Hno. by apply (list_elem_of_fmap_2' fst _ (k, w)).
  - destruct (place_there l1 l2 k u v A) as (-> & -> & _).
    rewrite spec_assign_split by done. unfold spec_insert.
    rewrite decide_True by (rewrite fmap_app, elem_of_app; right; by left).
    split_and!; try done; [by apply around_insert|]. intros w Hw.
    assert (w = u) as ->.
    { rewrite Forall_forall in H1, H2. apply elem_of_app in Hw as [Hw|[Hw|Hw]%elem_of_cons].
      - by apply H1 in Hw.
      - by injection Hw.
      - by apply H2 in Hw. }
    unfold map_index. destruct (place_there l1 l2 k u null A) as (-> & _ & ->). done.
Qed.

#[refine] Instance std_map : Container (list (K * V)) K V := {|
  c_new := []; c_emplace l k v := Ok (map_emplace l k v); c_assign l k v := Ok (map_assign l k v);
  c_index := map_index; c_size l := Z.of_nat (length l); c_elems := id;
  c_valid := valid; c_holds n l g := in_order l /\ elements_of g l
|}.
Proof using Type*.
  - intros n _. split; [by repeat constructor|]. by repeat constructor.
  - intros n l g k v [Ho He] Hk. eexists. split; [done|]. destruct (map_place l k v Ho Hk) as (O' & P & _).
    split; [done|]. apply elements_of_perm with (spec_insert l k v); [done|]. by apply insert_elements.
  - intros n l g k v [Ho He] Hk. eexists. split; [done|]. destruct (map_place l k v Ho Hk) as (_ & _ & O' & P & _).
    split; [done|]. apply elements_of_perm with (spec_assign l k v); [done|]. by apply assign_elements.
  - intros n l g k v [Ho He] Hk Hv. exists l. split; [|done].
    apply (map_place l k v Ho Hk). by apply (elements_of_lookup g l).
  - intros n l g [_ He]. by rewrite (elements_of_length g l).
  - intros n l g [_ He]. by apply elements_of_map_to_list.
Defined.
End StdMap.

(** [int]s, addresses, and the members of a [ConnIDKey] compared by [memcmp]. *)
#[export] Instance int_order : KeyOrder Z.ltb (fun _ => True).
Proof. split; intros; rewrite ?Z.ltb_lt, ?Z.ltb_ge in *; lia || apply Z.ltb_irrefl. Qed.

#[export] Instance address_order : KeyOrder Nat.ltb (fun _ => True).
Proof. split; intros; rewrite ?Nat.ltb_lt, ?Nat.ltb_ge in *; lia || apply Nat.ltb_irrefl. Qed.

Definition memcmp_less (l r : list Z) : bool := memcmp l r <? 0.

Lemma memcmp_trans a b c : memcmp a b < 0 -> memcmp b c < 0 -> memcmp a c < 0.
Proof.
  revert b c. induction a as [|x a IH]; intros [|y b] [|z c]; cbn; try lia.
  destruct (Z.eqb_spec x y), (Z.eqb_spec y z), (Z.eqb_spec x z); try lia. apply IH.
Qed.

Lemma memcmp_antisym a b : memcmp a b = - memcmp b a.
Proof.
  revert b. induction a as [|x a IH]; intros [|y b]; cbn; try done. rewrite (Z.eqb_sym y x).
  destruct (Z.eqb_spec x y); [apply IH|lia].
Qed.

Lemma memcmp_zero a b : length a = length b -> memcmp a b = 0 -> a = b.
Proof.
  revert b. induction a as [|x a IH]; intros [|y b] Hl E; try done. cbn in *.
  destruct (Z.eqb_spec x y) as [->|]; [|lia]. f_equal. apply IH; [lia|done].
Qed.

#[export] Instance memcmp_order n : KeyOrder memcmp_less (fun k => length k = n).
Proof.
  split; unfold memcmp_less.
  - intros k. by rewrite memcmp_refl.
  - intros a b c. rewrite !Z.ltb_lt. apply memcmp_trans.
  - intros a b <- Hb H1%Z.ltb_ge H2%Z.ltb_ge. apply memcmp_zero; [done|].
    pose proof (memcmp_antisym a b). lia.
Qed.

(** ** [std::unordered_map] *)

(** The order of its elements is anyone's. *)
Section UnorderedMap.
Context {K V : Type} `{Countable K} (null : V) (order : list (K * V) -> list (K * V)).
Context (order_perm : forall l, order l ≡ₚ l).

Definition unordered_index (l : list (K * V)) (k : K) : res (V * list (K * V)) :=
  let l := spec_insert l k null in
  match spec_at l k with Some v => Ok (v, l) | None => UB end.

Lemma spec_at_elements (g : gmap K V) l k : elements_of g l -> spec_at l k = g !! k.
Proof using.
  intros [Hnd <-]. unfold spec_at. induction l as [|[k' v'] l IH]; [done|]. cbn in Hnd.
  apply NoDup_cons in Hnd as [Hk Hnd]. cbn [list_to_map foldr]. destruct (decide (k' = k)) as [->|Hne].
  - rewrite filter_cons_True by done. cbn. by rewrite lookup_insert_eq.
  - rewrite filter_cons_False by done. cbn. rewrite lookup_insert_ne by done. by apply IH.
Qed.

#[refine] Instance std_unordered_map : Container (list (K * V)) K V := {|
  c_new := []; c_emplace l k v := Ok (spec_insert l k v); c_assign l k v := Ok (spec_assign l k v);
  c_index := unordered_index; c_size l := Z.of_nat (length l); c_elems := order;
  c_valid _ := True; c_holds n l g := elements_of g l
|}.
Proof using null order_perm.
  - intros n _. by repeat constructor.
  - intros n l g k v He _. eexists. split; [done|]. by apply insert_elements.
  - intros n l g k v He _. eexists. split; [done|]. by apply assign_elements.
  - intros n l g k v He _ Hv. exists l. split; [|done]. unfold unordered_index, spec_insert.
    rewrite decide_True by (by apply (elements_of_key g l); [|exists v]). by rewrite (spec_at_elements g l), Hv.
  - intros n l g He. by rewrite (elements_of_length g l).
  - intros n l g He. rewrite order_perm. by apply elements_of_map_to_list.
Defined.
End UnorderedMap.

(** ** [fifo_map] *)

Section Fifo.
Context {K V : Type} `{Countable K} (null : V).
Notation store := (gmap nat (@fifo_map K _ _ V)).

(** The map is the object at address 0. *)
Definition fifo_read (s : store) (k : K) : res (V * store) :=
  let! (s, i) := index_op null s 0 k in
  let! f := get s 0 in
  match m_map f !! i with Some e => Ok (e.2, s) | None => UB end.

Definition fifo_holds (n : nat) (s : store) (g : gmap K V) : Prop :=
  exists f, s !! 0%nat = Some f /\ fifo_ok 0 f /\ m_timestamp (m_compare f) + Z.of_nat n < 2 ^ 64 /\
    elements_of g (m_map f).

Lemma fifo_read_ok n s g k v :
  fifo_holds (S n) s g -> g !! k = Some v -> exists s', fifo_read s k = Ok (v, s') /\ fifo_holds n s' g.
Proof using.
  intros (f & Hs & Ho & Ht & He) Hv. unfold fifo_read, index_op.
  rewrite (add_key_ok s 0 f k) by (done || lia). cbn [res_bind].
  rewrite (map_insert_ok s 0 f k null) by done. cbn [res_bind]. unfold get. rewrite lookup_insert_eq. cbn [res_bind].
  assert (k ∈ (m_map f).*1) as Hk by (apply (elements_of_key g); [done|by exists v]).
  assert (m_map (inserted f k null) = m_map f) as Em by (unfold inserted, spec_insert; cbn; by rewrite decide_True).
  rewrite Em. pose proof (spec_at_position (m_map f) k) as Hp. rewrite (spec_at_elements g), Hv in Hp by done.
  destruct (m_map f !! position (m_map f) k) as [e|]; [|done]. injection Hp as <-.
  eexists. split; [done|]. exists (inserted f k null). rewrite lookup_insert_eq. split; [done|].
  split; [by apply inserted_ok|]. split; [cbn; lia|by rewrite Em].
Qed.

#[refine] Instance fifo_container : Container store K V := {|
  c_new := new_fifo_map ∅ 0;
  c_emplace s k v := let! (s, _) := emplace s 0 k v in Ok s;
  c_assign s k v := index_assign null s 0 k v;
  c_index := fifo_read;
  c_size s := match s !! 0%nat with Some f => Z.of_nat (size f) | None => 0 end;
  c_elems s := match s !! 0%nat with Some f => m_map f | None => [] end;
  c_valid _ := True; c_holds := fifo_holds
|}.
Proof using null.
  - intros n Hn. eexists. split; [apply lookup_insert_eq|]. split; [|cbn; split; [lia|by repeat constructor]].
    split; cbn; try done; [|constructor]. intros k. rewrite lookup_empty, elem_of_nil. split; [by intros []|done].
  - intros n s g k v (f & Hs & Ho & Ht & He) _. exists (<[0%nat := inserted f k v]> s). split.
    + change (emplace s 0 k v) with (insert s 0 (k, v)). by rewrite (fifo_insert_ok s 0 f) by (done || lia).
    + exists (inserted f k v). rewrite lookup_insert_eq. split; [done|]. split; [by apply inserted_ok|].
      split; [cbn; lia|by apply insert_elements].
  - intros n s g k v (f & Hs & Ho & Ht & He) _. exists (<[0%nat := assigned f k v]> s).
    split; [apply index_assign_ok; [done|done|lia]|]. exists (assigned f k v). rewrite lookup_insert_eq.
    split; [done|]. split; [by apply assigned_ok|]. split; [cbn; lia|by apply assign_elements].
  - intros n s g k v Hh _. by apply fifo_read_ok.
  - intros n s g (f & -> & _ & _ & He). unfold size. by rewrite (elements_of_length g).
  - intros n s g (f & -> & _ & _ & He). by apply elements_of_map_to_list.
Defined.
End Fifo.
