(* ===== verification/DictMain.v ===== *)
(** * The programs of [dict/test.cc]

    [main] times insertions into, searches of and loops over [std::map],
    [std::unordered_map], [fifo_map] and [PDict].  The readings of the clock are an
    argument; the programs with the same text but for the type of their map are one
    definition over the class [Container].  An [int] on the heap is its place in a list,
    the string [keys[i]] is at address [i]. *)

From Stdlib Require Import Ascii.
From stdpp Require Import gmap strings pretty.
From S2P Require Import Prelude SipHash HashKey DictTable Dictionary DictIter DictKeys PDict FifoMap ConnID Containers.
Local Open Scope Z_scope.

(** ** What is printed, and when *)

Inductive line : Type :=
| Title (s : string)
| Step (i nanoseconds : Z)
| Final_size (n : Z)
| Time_for (n : Z) (what : string) (nanoseconds : Z).

Record timespec := mkTimespec { tv_sec : Z; tv_nsec : Z }.
Definition nanoseconds (ts : timespec) : Z := u64 (tv_sec ts * 1000000000 + tv_nsec ts).

Section Clock.
(** The readings, one after the other. *)
Context (clock : nat -> timespec).

(** The loop of [n] steps from [i] on, its [k]th reading next; [print] says whether the
    [printf] is there or commented out. *)
Fixpoint timed_loop {S : Type} (print : bool) (body : Z -> S -> res S) (n : nat) (i : Z) (k : nat) (last : Z) (s : S)
    : res (list line * S) :=
  match n with
  | O => Ok ([], s)
  | S n =>
      let! s := body i s in
      let now := nanoseconds (clock k) in
      let! (out, s) := timed_loop print body n (i + 1) (k + 1) now s in
      Ok ((if print then [Step i (u64 (now - last))] else []) ++ out, s)
  end.

Definition ITERATIONS : nat := Z.to_nat 1000000.

Definition from_start {S : Type} (print : bool) (body : Z -> S -> res S) (n : nat) (s : S) : res (list line * S) :=
  timed_loop print body n 0 1 (nanoseconds (clock 0)) s.

(** ** [regular], [unordered] and [fifo] *)

Definition emplace_ints {M} (C : Container M Z Z) (title : string) (print : bool) (n : nat) : res (list line * M) :=
  let! (out, m) := from_start print (fun i m => c_emplace m i i) n c_new in
  Ok (Title title :: out ++ [Final_size (c_size m)], m).

(** ** The [int]s *)

Notation ints := (list Z).
(** [new int(v)]: addresses are not null. *)
Definition new_int (v : Z) (h : ints) : Z * ints := (Z.of_nat (length h) + 1, h ++ [v]).
Definition int_at (h : ints) (p : Z) : option Z := h !! Z.to_nat (p - 1).

(** ** [create_regular] *)

Definition create_map {M} (C : Container M Z Z) (_ : Z) (h : ints) : res ints :=
  let '(p, h) := new_int 0 h in
  let! m := c_emplace (c_new : M) 0 p in
  let '(p, h) := new_int 1 h in
  let! m := c_emplace m 1 p in
  let '(p, h) := new_int 2 h in
  let! m := c_emplace m 1 p in Ok h.
Definition create_regular {M} (C : Container M Z Z) (n : nat) (h : ints) : res (list line * ints) :=
  let! (out, h) := from_start true (create_map C) n h in Ok (Title "Create std::map" :: out, h).

(** ** [lookup_map], [lookup_unordered], [lookup_fifo] *)

Definition LOOKUP_LENGTH : nat := 50.

Definition between (what : string) : line :=
  Time_for (Z.of_nat LOOKUP_LENGTH) what (u64 (nanoseconds (clock 1) - nanoseconds (clock 0))).

Section Pointers.
Context {M : Type} (C : Container M nat Z).

(** [m[keys[i].c_str()] = new int(i)]. *)
Fixpoint fill_pointers (n : nat) (i : nat) (m : M) (h : ints) : res (M * ints) :=
  match n with
  | O => Ok (m, h)
  | S n =>
      let '(p, h) := new_int (Z.of_nat i) h in
      let! m := c_assign m i p in fill_pointers n (S i) m h
  end.

(** The searches, from the last key to the first: what each one gives. *)
Fixpoint search_pointers (n : nat) (m : M) : res (list Z * M) :=
  match n with
  | O => Ok ([], m)
  | S i =>
      let! (result, m) := c_index m i in
      let! (results, m) := search_pointers i m in Ok (result :: results, m)
  end.

Definition lookup_in (title : string) (h : ints) : res (list line * list Z * ints) :=
  let! (m, h) := fill_pointers LOOKUP_LENGTH 0 c_new h in
  let! (results, _) := search_pointers LOOKUP_LENGTH m in
  Ok ([Title title; between "lookups (us)"], results, h).

(** [for (const auto& entry : m) int* result = entry.second;] *)
Definition iterate_in (title : string) (h : ints) : res (list line * list Z * ints) :=
  let! (m, h) := fill_pointers LOOKUP_LENGTH 0 c_new h in
  Ok ([Title title; between "iterations (us)"], (c_elems (m : M)).*2, h).
End Pointers.

(** ** [complex_regular] and [complex_unordered] *)

(** [memcpy(dst + off, src, length src)]. *)
Definition memcpy (off : nat) (src dst : list Z) : list Z :=
  take off dst ++ src ++ drop (off + length src) dst.

(** [ip1] and [ip2] get the 8 bytes of [i]; the ports stay 0. *)
Definition conn_id (i : Z) : list Z :=
  let key := replicate 36 0 in
  memcpy 16 (U64TO8_LE (u64 i)) (memcpy 0 (U64TO8_LE (u64 i)) key).

Definition complex_in {M} (C : Container M (list Z) Z) (n : nat) : res (list line * M) :=
  from_start true (fun i m => c_emplace m (conn_id i) i) n c_new.

(** ** [PDict]

    The programs run on an implementation whose [delete] releases arrays: the first
    insertion deletes a key of 8 bytes that [TakeKey] made with [new char[]]. *)

#[local] Existing Instance releasing.

Section Dict.
Context (K5 K6 : list Z) (md5 : list Z -> list Z).

(** The dictionary, the memory of keys and the [int]s. *)
Definition dict_state : Type := memory * keyed * ints.

(** [d.Insert(h, new int(v))]; the [HashKey] is never deleted. *)
Definition insert_int (h : HashKey) (v : Z) (s : dict_state) : res dict_state :=
  let '(m, o, hp) := s in
  let '(p, hp) := new_int v hp in
  let! (_, o, _, m) := Insert_key m o h p in Ok (m, o, hp).

Definition dict_body (i : Z) (s : dict_state) : res dict_state :=
  insert_int (HashKey_int K5 K6 md5 i) i s.

(** The end of the block: the destructor. *)
Definition end_of_dict {A} (a : A) (s : dict_state) : res (A * memory * ints) :=
  let '(m, o, hp) := s in let! (_, m) := delete_Dictionary m o in Ok (a, m, hp).

Definition dict (n : nat) (m : memory) (hp : ints) : res (list line * memory * ints) :=
  let! o := new_keyed UNORDERED 0 in
  let! (out, s) := from_start true dict_body n (m, o, hp) in
  end_of_dict (Title "Dictionary" :: out ++ [Final_size (num_entries (DictKeys.dict s.1.2))]) s.

(** The dictionary of each step is destroyed at its end. *)
Definition create_dict_body (_ : Z) (s : memory * ints) : res (memory * ints) :=
  let! o := new_keyed UNORDERED 0 in
  let! s := insert_int (HashKey_int K5 K6 md5 0) 0 (s.1, o, s.2) in
  let! s := insert_int (HashKey_int K5 K6 md5 1) 1 s in
  let! s := insert_int (HashKey_int K5 K6 md5 2) 2 s in
  let! (_, m, hp) := end_of_dict tt s in Ok (m, hp).
Definition create_dict (n : nat) (s : memory * ints) : res (list line * (memory * ints)) :=
  let! (out, s) := from_start true create_dict_body n s in Ok (Title "Create Dictionary" :: out, s).

(** [keys[i]], with the terminating 0. *)
Definition c_str (i : nat) : list Z :=
  ((fun c => Z.of_nat (Ascii.nat_of_ascii c)) <$> String.list_ascii_of_string (pretty (N.of_nat i))) ++ [0].
Definition string_keys : memory := list_to_map ((fun i => (i, c_str i)) <$> seq 0 LOOKUP_LENGTH).

Fixpoint fill_dict (n : nat) (i : nat) (s : dict_state) : res dict_state :=
  match n with
  | O => Ok s
  | S n =>
      let! h := HashKey_string K5 K6 md5 s.1.1 i in
      let! s := insert_int h (Z.of_nat i) s in fill_dict n (S i) s
  end.

Fixpoint search_dict (n : nat) (m : memory) (o : keyed) : res (list Z * keyed) :=
  match n with
  | O => Ok ([], o)
  | S i =>
      let! (result, o) := PDict_Lookup K5 K6 md5 m o i in
      let! (results, o) := search_dict i m o in Ok (result :: results, o)
  end.

Definition filled_dict (hp : ints) : res dict_state :=
  let! o := new_keyed UNORDERED 0 in fill_dict LOOKUP_LENGTH 0 (string_keys, o, hp).

Definition lookup_dict (hp : ints) : res (list line * list Z * memory * ints) :=
  let! (m, o, hp) := filled_dict hp in
  let! (results, o) := search_dict LOOKUP_LENGTH m o in
  end_of_dict ([Title "Dictionary lookup"; between "lookups (us)"], results) (m, o, hp).

(** [while ((entry = d.NextEntry(c)))]: until a value is null. *)
Fixpoint next_entries (fuel : nat) (d : Dictionary) (c : nat) : res (list Z * Dictionary) :=
  match fuel with
  | O => NoFuel
  | S fuel =>
      let! (v, _, _, d) := NextEntry d c false in
      if v =? 0 then Ok ([], d)
      else let! (vs, d) := next_entries fuel d c in Ok (v :: vs, d)
  end.

Definition iterate_dict (hp : ints) : res (list line * list Z * memory * ints) :=
  let! (m, o, hp) := filled_dict hp in
  let '(c, d) := InitForIteration (DictKeys.dict o) in
  let! (results, d) := next_entries (S (S (Z.to_nat (Capacity d false)))) d c in
  end_of_dict ([Title "Dictionary iterate"; between "iterations (us)"], results) (m, mkKeyed d (key_block o), hp).

(** The key is a local of the step; the [HashKey] copies it. *)
Definition complex_dict_body (i : Z) (s : dict_state) : res dict_state :=
  let '(m, o, hp) := s in
  let '(key, m) := alloc m (conn_id i) in
  let! (h, m) := HashKey_bytes K5 K6 md5 m key 36 in
  let! (m, o, hp) := insert_int h i (m, o, hp) in
  let! m := free m key in Ok (m, o, hp).
Definition complex_dict (n : nat) (m : memory) (hp : ints) : res (list line * memory * ints) :=
  let! o := new_keyed UNORDERED 0 in
  let! (out, s) := from_start true complex_dict_body n (m, o, hp) in end_of_dict out s.
End Dict.

(** ** [main] *)

(** The orders in which the three kinds of [std::unordered_map] keep their elements, and
    the keys of the hash, which no one has set. *)
Section Main.
Context (int_order : list (Z * Z) -> list (Z * Z)) (int_order_perm : forall l, int_order l ≡ₚ l).
Context (ptr_order : list (nat * Z) -> list (nat * Z)) (ptr_order_perm : forall l, ptr_order l ≡ₚ l).
Context (conn_order : list (list Z * Z) -> list (list Z * Z)) (conn_order_perm : forall l, conn_order l ≡ₚ l).
Context (md5 : list Z -> list Z).

#[local] Instance map_int : Container (list (Z * Z)) Z Z := std_map Z.ltb (fun _ => True) 0.
#[local] Instance map_ptr : Container (list (nat * Z)) nat Z := std_map Nat.ltb (fun _ => True) 0.
#[local] Instance map_conn : Container (list (list Z * Z)) (list Z) Z := std_map memcmp_less (fun k => length k = 36%nat) 0.
Definition unordered_int : Container (list (Z * Z)) Z Z := std_unordered_map 0 int_order int_order_perm.
Definition unordered_ptr : Container (list (nat * Z)) nat Z := std_unordered_map 0 ptr_order ptr_order_perm.
Definition unordered_conn : Container (list (list Z * Z)) (list Z) Z := std_unordered_map 0 conn_order conn_order_perm.
Definition fifo_int : Container _ Z Z := fifo_container 0.
Definition fifo_ptr : Container _ nat Z := fifo_container 0.

Definition lines {A} (p : res (list line * A)) : res (Z * list line) := let! (out, _) := p in Ok (0, out).
Definition lines_of {A B} (p : res (list line * A * B)) : res (Z * list line) := let! (out, _, _) := p in Ok (0, out).
Definition lines_dict {A B C} (p : res (list line * A * B * C)) : res (Z * list line) :=
  let! (out, _, _, _) := p in Ok (0, out).

Definition zero_key : list Z := replicate 16 0.

(** [argv[1][0]]. *)
Definition starts (c : Ascii.ascii) (arg : string) : bool :=
  match arg with String c' _ => bool_decide (c = c') | EmptyString => false end.
Definition strcmp_eq (a b : string) : bool := bool_decide (a = b).

Inductive program : Set :=
| Unordered | Regular | Dict | Fifo | Create_regular | Create_dict
| Lookup_map | Lookup_unordered | Lookup_fifo | Lookup_dict
| Iterate_map | Iterate_unordered | Iterate_fifo | Iterate_dict
| Complex_regular | Complex_unordered | Complex_dict.

Definition program_of (arg : string) : option program :=
  if starts "u"%char arg then Some Unordered
  else if starts "r"%char arg then Some Regular
  else if starts "d"%char arg then Some Dict
  else if starts "f"%char arg then Some Fifo
  else if strcmp_eq arg "cr" then Some Create_regular
  else if strcmp_eq arg "cd" then Some Create_dict
  else if strcmp_eq arg "lr" then Some Lookup_map
  else if strcmp_eq arg "lu" then Some Lookup_unordered
  else if strcmp_eq arg "lf" then Some Lookup_fifo
  else if strcmp_eq arg "ld" then Some Lookup_dict
  else if strcmp_eq arg "ir" then Some Iterate_map
  else if strcmp_eq arg "iu" then Some Iterate_unordered
  else if strcmp_eq arg "if" then Some Iterate_fifo
  else if strcmp_eq arg "id" then Some Iterate_dict
  else if strcmp_eq arg "cpr" then Some Complex_regular
  else if strcmp_eq arg "cpu" then Some Complex_unordered
  else if strcmp_eq arg "cpd" then Some Complex_dict
  else None.

Definition run_program (p : program) : res (Z * list line) :=
  match p with
  | Unordered => lines (emplace_ints unordered_int "std::unordered_map" true ITERATIONS)
  | Regular => lines (emplace_ints map_int "std::map" false ITERATIONS)
  | Dict => lines_of (dict zero_key zero_key md5 ITERATIONS ∅ [])
  | Fifo => lines (emplace_ints fifo_int "nlohmann::fifo_map" false ITERATIONS)
  | Create_regular => lines (create_regular map_int ITERATIONS [])
  | Create_dict => lines (create_dict zero_key zero_key md5 ITERATIONS (∅, []))
  | Lookup_map => lines_of (lookup_in map_ptr "std::map lookup" [])
  | Lookup_unordered => lines_of (lookup_in unordered_ptr "std::unordered_map lookup" [])
  | Lookup_fifo => lines_of (lookup_in fifo_ptr "nlohmann::fifo_map lookup" [])
  | Lookup_dict => lines_dict (lookup_dict zero_key zero_key md5 [])
  | Iterate_map => lines_of (iterate_in map_ptr "std::map iterate" [])
  | Iterate_unordered => lines_of (iterate_in unordered_ptr "std::unordered_map iterate" [])
  | Iterate_fifo => lines_of (iterate_in fifo_ptr "nlohmann::fifo_map iterate" [])
  | Iterate_dict => lines_dict (iterate_dict zero_key zero_key md5 [])
  | Complex_regular => lines (complex_in map_conn ITERATIONS)
  | Complex_unordered => lines (complex_in unordered_conn ITERATIONS)
  | Complex_dict => lines_of (complex_dict zero_key zero_key md5 ITERATIONS ∅ [])
  end.

Definition main (argv : list string) : res (Z * list line) :=
  match argv with
  | [_; arg] => match program_of arg with Some p => run_program p | None => Ok (0, []) end
  | _ => Ok (-1, [])
  end.
End Main.
End Clock.
