(* ===== verification/DictMainProps.v ===== *)
(** * What the programs of [dict/test.cc] do

    The loops over the class [Container], the runs of the dictionary, and [main]. *)

From stdpp Require Import gmap strings.
From S2P Require Import Prelude SipHash HashKey DictTable Dictionary DictInv DictReloc DictWf DictCheck DictSpec DictKeys PDict FifoMap ConnID Containers DictMain.
Local Open Scope Z_scope.

(** ** Loops that add keys *)

(** The lines of [n] steps. *)
Fixpoint steps (clock : nat -> timespec) (n : nat) (i : Z) (k : nat) (last : Z) : list line :=
  match n with
  | O => []
  | S n => Step i (u64 (nanoseconds (clock k) - last)) :: steps clock n (i + 1) (k + 1)%nat (nanoseconds (clock k))
  end.
Definition steps_from_start (clock : nat -> timespec) (n : nat) : list line :=
  steps clock n 0 1 (nanoseconds (clock 0%nat)).

Lemma timed_loop_inv {A} clock print (body : Z -> A -> res A) (I : Z -> A -> Prop) n : forall i k last s,
  I i s -> (forall j s, i <= j < i + Z.of_nat n -> I j s -> exists s', body j s = Ok s' /\ I (j + 1) s') ->
  exists s', timed_loop clock print body n i k last s = Ok (if print then steps clock n i k last else [], s') /\
    I (i + Z.of_nat n) s'.
Proof.
  induction n as [|n IH]; intros i k last s Hi Hb.
  { exists s. rewrite Z.add_0_r. by destruct print. }
  cbn [timed_loop steps]. destruct (Hb i s) as (s1 & E & H1); [lia|done|]. rewrite E. cbn [res_bind].
  destruct (IH (i + 1) (k + 1)%nat (nanoseconds (clock k)) s1 H1) as (s' & E' & H').
  { intros j s0 Hj. apply Hb. lia. }
  rewrite E'. cbn [res_bind]. exists s'. split; [by destruct print|].
  by replace (i + Z.of_nat (S n)) with (i + 1 + Z.of_nat n) by lia.
Qed.

Section Emplace.
Context {M K : Type} `{Countable K} (C : Container M K Z) (f : Z -> K) (n : nat).
Context (f_valid : forall i, 0 <= i < Z.of_nat n -> c_valid (f i)).
Context (f_inj : forall i j, 0 <= i < Z.of_nat n -> 0 <= j < Z.of_nat n -> f i = f j -> i = j).

(** After [i] steps the keys are those of the numbers below [i]. *)
Definition added (i : Z) (m : M) : Prop :=
  exists g, c_holds (Z.to_nat (Z.of_nat n - i)) m g /\ base.size g = Z.to_nat i /\
    forall j, 0 <= j < Z.of_nat n -> g !! f j = if j <? i then Some j else None.

Lemma emplace_step i m :
  0 <= i < Z.of_nat n -> added i m -> exists m', c_emplace m (f i) i = Ok m' /\ added (i + 1) m'.
Proof using f_valid f_inj.
  intros Hi (g & Hh & Hs & Hg). assert (g !! f i = None) as Hno by (by rewrite Hg, Z.ltb_irrefl).
  replace (Z.to_nat (Z.of_nat n - i)) with (S (Z.to_nat (Z.of_nat n - (i + 1)))) in Hh by lia.
  destruct (c_emplace_ok _ m g (f i) i Hh (f_valid i Hi)) as (m' & E & Hh'). rewrite Hno in Hh'.
  exists m'. split; [done|]. exists (<[f i := i]> g). split; [done|]. split.
  - rewrite map_size_insert_None by done. lia.
  - intros j Hj. destruct (decide (j = i)) as [->|Hne].
    + rewrite lookup_insert_eq. by destruct (Z.ltb_spec i (i + 1)); [|lia].
    + rewrite lookup_insert_ne by (intros Ef; by apply Hne, f_inj). rewrite Hg by done.
      by destruct (Z.ltb_spec j i), (Z.ltb_spec j (i + 1)); [|lia|lia|].
Qed.

Lemma emplace_loop_ok clock print :
  Z.of_nat n < 2 ^ 63 ->
  exists m g, from_start clock print (fun i m => c_emplace m (f i) i) n c_new =
      Ok (if print then steps_from_start clock n else [], m) /\
    c_holds 0 m g /\ base.size g = n /\ c_size m = Z.of_nat n /\
    forall j, 0 <= j < Z.of_nat n -> g !! f j = Some j.
Proof using f_valid f_inj.
  intros Hn. unfold from_start.
  destruct (timed_loop_inv clock print (fun i m => c_emplace m (f i) i) added n 0 1 (nanoseconds (clock 0%nat)) c_new)
    as (m & E & g & Hh & Hs & Hg).
  - exists ∅. split; [apply c_new_ok; lia|]. split; [done|]. intros j Hj. rewrite lookup_empty.
    by destruct (Z.ltb_spec j 0); [lia|].
  - intros j m Hj. apply emplace_step. lia.
  - exists m, g. rewrite Z.add_0_l, Nat2Z.id in Hs. replace (Z.to_nat (Z.of_nat n - (0 + Z.of_nat n))) with 0%nat in Hh by lia.
    split; [done|]. split; [done|]. split; [done|]. split; [by rewrite (c_size_ok _ m g Hh), Hs|].
    intros j Hj. rewrite Hg by done. by destruct (Z.ltb_spec j (0 + Z.of_nat n)); [|lia].
Qed.
End Emplace.

Lemma emplace_ints_ok {M} (C : Container M Z Z) clock title print n :
  (forall k, c_valid k) -> Z.of_nat n < 2 ^ 63 ->
  exists m, emplace_ints clock C title print n =
    Ok (Title title :: (if print then steps_from_start clock n else []) ++ [Final_size (Z.of_nat n)], m).
Proof.
  intros Hv Hn. unfold emplace_ints.
  destruct (emplace_loop_ok C id n) with (clock := clock) (print := print) as (m & g & E & _ & _ & Hs & _); try done.
  unfold id in E. rewrite E. cbn [res_bind]. rewrite Hs. by exists m.
Qed.

(** The bytes of [i] are in the key. *)
Lemma conn_id_eq i :
  conn_id i = U64TO8_LE (u64 i) ++ replicate 8 0 ++ U64TO8_LE (u64 i) ++ replicate 12 0.
Proof. reflexivity. Qed.

Lemma conn_id_inj n i j :
  n <= 2 ^ 64 -> 0 <= i < n -> 0 <= j < n -> conn_id i = conn_id j -> i = j.
Proof.
  intros Hn Hi Hj E. rewrite !conn_id_eq in E. apply app_inj_1 in E as [E _]; [|done].
  rewrite <- (u64_small i), <- (u64_small j) by lia.
  rewrite <- (U8TO64_LE_U64TO8_LE (u64 i)), <- (U8TO64_LE_U64TO8_LE (u64 j)) by (apply u64_range). by rewrite E.
Qed.

Lemma complex_in_ok {M} (C : Container M (list Z) Z) clock n :
  (forall k, length k = 36%nat -> c_valid k) -> Z.of_nat n < 2 ^ 63 ->
  exists m, complex_in clock C n = Ok (steps_from_start clock n, m) /\ c_size m = Z.of_nat n.
Proof.
  intros Hv Hn. unfold complex_in.
  destruct (emplace_loop_ok C conn_id n) with (clock := clock) (print := true) as (m & g & E & _ & _ & Hs & _);
    [by intros i _; apply Hv|intros i j; by apply conn_id_inj; lia|done|].
  by exists m.
Qed.

(** ** Maps of pointers *)

Lemma create_map_ok {M} (C : Container M Z Z) i h :
  (forall k, c_valid k) -> exists h', create_map C i h = Ok h' /\ h' = h ++ [0; 1; 2].
Proof.
  intros Hv. unfold create_map, new_int.
  destruct (c_emplace_ok 2 c_new ∅ 0 (Z.of_nat (length h) + 1)) as (m1 & E1 & H1); [by apply c_new_ok|done|].
  rewrite E1. cbn [res_bind].
  edestruct (c_emplace_ok 1 m1) with (k := 1) as (m2 & E2 & H2); [exact H1|done|]. rewrite E2. cbn [res_bind].
  edestruct (c_emplace_ok 0 m2) with (k := 1) as (m3 & E3 & H3); [exact H2|done|]. rewrite E3. cbn [res_bind].
  eexists. split; [done|]. by rewrite <- !app_assoc.
Qed.

(** The third [int] of each round is in no map: nothing of it is deleted. *)
Lemma create_regular_ok {M} (C : Container M Z Z) clock n h :
  (forall k, c_valid k) ->
  exists h', create_regular clock C n h = Ok (Title "Create std::map" :: steps_from_start clock n, h') /\
    length h' = (length h + 3 * n)%nat.
Proof.
  intros Hv. unfold create_regular, from_start.
  destruct (timed_loop_inv clock true (create_map C) (fun i h' => Z.of_nat (length h') = Z.of_nat (length h) + 3 * i)
    n 0 1 (nanoseconds (clock 0%nat)) h) as (h' & E & Hl); [lia| |].
  - intros j s Hj Hs. destruct (create_map_ok C j s Hv) as (s' & E & ->). eexists. split; [done|].
    rewrite length_app. cbn. lia.
  - rewrite E. exists h'. split; [done|lia].
Qed.

Section Pointers.
Context {M : Type} (C : Container M nat Z) (all_valid : forall k, c_valid k).

(** The pointer that [m[keys[j].c_str()]] gets when [h] was there before. *)
Definition pointer (h : list Z) (j : nat) : Z := Z.of_nat (length h + j) + 1.
Definition pointers (h : list Z) (n : nat) : list (nat * Z) := (fun j => (j, pointer h j)) <$> seq 0 n.
Definition numbers (n : nat) : list Z := Z.of_nat <$> seq 0 n.

Lemma numbers_S i : numbers (S i) = numbers i ++ [Z.of_nat i].
Proof using. unfold numbers. by rewrite seq_S, fmap_app. Qed.

Lemma pointers_keys h n k : k ∈ (pointers h n).*1 <-> (k < n)%nat.
Proof using.
  unfold pointers. rewrite <- list_fmap_compose, (list_fmap_ext _ id), list_fmap_id; [|done].
  rewrite elem_of_seq. lia.
Qed.

Lemma int_at_pointer h n j : (j < n)%nat -> int_at (h ++ numbers n) (pointer h j) = Some (Z.of_nat j).
Proof using.
  intros Hj. unfold int_at, pointer. replace (Z.to_nat _) with (length h + j)%nat by lia.
  rewrite lookup_app_r, Nat.add_comm, Nat.add_sub by lia. unfold numbers.
  by rewrite list_lookup_fmap, lookup_seq_lt.
Qed.

Lemma fill_pointers_ok r h n : forall i m g,
  c_holds (n + r) m g -> elements_of g (pointers h i) ->
  exists m' g', fill_pointers C n i m (h ++ numbers i) = Ok (m', h ++ numbers (i + n)) /\
    c_holds r m' g' /\ elements_of g' (pointers h (i + n)).
Proof using all_valid.
  induction n as [|n IH]; intros i m g Hh He.
  { exists m, g. by rewrite Nat.add_0_r. }
  cbn [fill_pointers]. unfold new_int.
  replace (Z.of_nat (length (h ++ numbers i)) + 1) with (pointer h i)
    by (unfold pointer, numbers; rewrite length_app, length_fmap, length_seq; lia).
  destruct (c_assign_ok _ m g i (pointer h i) Hh (all_valid i)) as (m1 & E & H1). rewrite E. cbn [res_bind].
  rewrite <- app_assoc, <- numbers_S, Nat.add_succ_r. apply (IH (S i) m1 _ H1).
  unfold pointers. rewrite seq_S, fmap_app. apply elements_of_perm with ((i, pointer h i) :: pointers h i).
  - apply Permutation_cons_append.
  - apply elements_of_cons; [done|]. apply eq_None_not_Some. rewrite <- (elements_of_key g _ i He), pointers_keys. lia.
Qed.

Lemma search_pointers_ok r n : forall m g h k,
  c_holds (n + r) m g -> elements_of g (pointers h k) -> (n <= k)%nat ->
  exists m', search_pointers C n m = Ok (reverse (pointer h <$> seq 0 n), m').
Proof using all_valid.
  induction n as [|n IH]; intros m g h k Hh He Hk; [by exists m|]. cbn [search_pointers].
  destruct (c_index_ok _ m g n (pointer h n) Hh (all_valid n)) as (m1 & E & H1).
  { apply (elements_of_lookup g _ n _ He). unfold pointers. apply list_elem_of_fmap. exists n.
    split; [done|]. apply elem_of_seq. lia. }
  rewrite E. cbn [res_bind]. destruct (IH m1 g h k H1 He) as (m' & E'); [lia|]. rewrite E'. cbn [res_bind].
  exists m'. by rewrite seq_S, fmap_app, reverse_app.
Qed.

(** What was searched for is found, and the loop sees every [int] once. *)
Lemma pointer_programs_ok clock title h :
  exists results its,
    lookup_in clock C title h =
      Ok ([Title title; between clock "lookups (us)"], results, h ++ numbers LOOKUP_LENGTH) /\
    iterate_in clock C title h =
      Ok ([Title title; between clock "iterations (us)"], its, h ++ numbers LOOKUP_LENGTH) /\
    int_at (h ++ numbers LOOKUP_LENGTH) <$> results = Some <$> reverse (numbers LOOKUP_LENGTH) /\
    int_at (h ++ numbers LOOKUP_LENGTH) <$> its ≡ₚ Some <$> numbers LOOKUP_LENGTH.
Proof using all_valid.
  destruct (fill_pointers_ok LOOKUP_LENGTH h LOOKUP_LENGTH 0 c_new ∅) as (m & g & E & Hh & He).
  { by apply c_new_ok. }
  { by repeat constructor. }
  change (numbers 0) with (@nil Z) in E. rewrite app_nil_r, Nat.add_0_l in E.
  rewrite Nat.add_0_l in He.
  destruct (search_pointers_ok 0 LOOKUP_LENGTH m g h LOOKUP_LENGTH Hh He) as (m' & E'); [lia|].
  assert (int_at (h ++ numbers LOOKUP_LENGTH) <$> (pointer h <$> seq 0 LOOKUP_LENGTH) = Some <$> numbers LOOKUP_LENGTH) as Hp.
  { unfold numbers at 2. rewrite <- !list_fmap_compose. apply list_fmap_ext. intros i j Hj%lookup_seq.
    apply int_at_pointer. lia. }
  unfold lookup_in, iterate_in. rewrite E. cbn [res_bind]. rewrite E'. cbn [res_bind].
  eexists _, _. split; [done|]. split; [done|]. split.
  - by rewrite !fmap_reverse, Hp.
  - rewrite (c_elems_ok _ m g Hh), <- (elements_of_map_to_list g _ He), <- Hp.
    unfold pointers. by rewrite <- list_fmap_compose.
Qed.
End Pointers.

(** ** The dictionary *)

(** A short key leaves no memory behind. *)
#[local] Existing Instance releasing.

Lemma insert_short m d bl h bytes v there old d' :
  is_our_dynamic h = false -> Key m h = Ok bytes -> HashKey.size h = 8 -> length bytes = 8%nat ->
  found d bytes 8 (HashKey.hash h) = Ok there -> Insert d bytes 8 (HashKey.hash h) v = Ok (old, d') ->
  Insert_key m (mkKeyed d bl) h v = Ok (old, mkKeyed d' bl, h, m).
Proof.
  intros Hdyn Hk Hs Hl Hf Hi. unfold Insert_key, TakeKey. rewrite Hdyn. unfold CopyKey. unfold Key in Hk.
  rewrite Hk. cbn [res_bind]. destruct (alloc m bytes) as [a m1] eqn:Ea. apply alloc_fresh in Ea as [Ha ->].
  cbn [res_bind]. unfold Insert_keyed. rewrite Hs. cbn [DictKeys.dict].
  replace 8 with (Z.of_nat (length bytes)) by lia.
  rewrite (read_all _ [] a bytes) by apply lookup_insert_eq. cbn [res_bind]. rewrite Hl. change (Z.of_nat 8) with 8.
  rewrite Hf. cbn [res_bind]. rewrite Hi. cbn [res_bind].
  assert (delete_scalar (<[a := bytes]> m) a = Ok m) as Hfree.
  { rewrite (delete_scalar_free (Impl := releasing) eq_refl). unfold free. rewrite lookup_insert_eq. by rewrite delete_insert_id. }
  destruct there; [by rewrite Hfree|]. unfold own_key. cbn [Z.leb Z.compare Pos.compare Pos.compare_cont].
  by rewrite Hfree.
Qed.

Lemma insert_int_short K5 K6 md5 m d bl hp i v there old d' :
  let k := U64TO8_LE (u64 i) in
  let hash := HashBytes K5 K6 md5 k 8 in
  let p := Z.of_nat (length hp) + 1 in
  found d k 8 hash = Ok there -> Insert d k 8 hash p = Ok (old, d') ->
  insert_int (HashKey_int K5 K6 md5 i) v (m, mkKeyed d bl, hp) = Ok (m, mkKeyed d' bl, hp ++ [v]).
Proof.
  intros k hash p Hf Hi. unfold insert_int, new_int.
  by rewrite (insert_short m d bl _ k p there old d').
Qed.

(** The dictionary with the keys 0, 1, ... and the pointers [ps]. *)
Definition int_hash (md5 : list Z -> list Z) (i : Z) : Z := HashBytes zero_key zero_key md5 (U64TO8_LE (u64 i)) 8.
Definition put_int (d : res Dictionary) (i p : Z) : res Dictionary :=
  let! d := d in let! (_, d) := Insert d (U64TO8_LE (u64 i)) 8 (int_hash id i) p in Ok d.
Definition with_ints (ps : list Z) : Dictionary :=
  DictCheck.get (foldl (fun d ip => put_int d ip.1 ip.2) (new_Dictionary UNORDERED 0) (zip (seqZ 0 3) ps)).

Lemma three_keys md5 p0 p1 p2 :
  let hash i := HashBytes zero_key zero_key md5 (U64TO8_LE (u64 i)) 8 in
  let goes d i p d' := found d (U64TO8_LE (u64 i)) 8 (hash i) = Ok false /\
                       Insert d (U64TO8_LE (u64 i)) 8 (hash i) p = Ok (0, d') in
  exists d0 d1 d2 d3, new_Dictionary UNORDERED 0 = Ok d0 /\
    goes d0 0 p0 d1 /\ goes d1 1 p1 d2 /\ goes d2 2 p2 d3 /\
    forall m, delete_Dictionary m (mkKeyed d3 ∅) = Ok ([], m).
Proof.
  intros hash goes. exists (with_ints []), (with_ints [p0]), (with_ints [p0; p1]), (with_ints [p0; p1; p2]).
  split; [vm_compute; reflexivity|]. do 3 (split; [split; vm_compute; reflexivity|]).
  intros m. vm_compute. reflexivity.
Qed.

Lemma create_dict_body_ok md5 i m hp :
  create_dict_body zero_key zero_key md5 i (m, hp) = Ok (m, hp ++ [0; 1; 2]).
Proof.
  unfold create_dict_body, new_keyed.
  destruct (three_keys md5 (Z.of_nat (length hp) + 1) (Z.of_nat (length (hp ++ [0])) + 1)
    (Z.of_nat (length ((hp ++ [0]) ++ [1])) + 1)) as (d0 & d1 & d2 & d3 & -> & [F0 I0] & [F1 I1] & [F2 I2] & Hdel).
  cbn [res_bind fst snd].
  rewrite (insert_int_short _ _ _ _ _ _ _ _ _ _ _ _ F0 I0). cbn [res_bind].
  rewrite (insert_int_short _ _ _ _ _ _ _ _ _ _ _ _ F1 I1). cbn [res_bind].
  rewrite (insert_int_short _ _ _ _ _ _ _ _ _ _ _ _ F2 I2). cbn [res_bind].
  unfold end_of_dict. rewrite Hdel. cbn [res_bind]. by rewrite <- !app_assoc.
Qed.

Lemma create_dict_ok clock md5 n m hp :
  exists hp', create_dict clock zero_key zero_key md5 n (m, hp) =
      Ok (Title "Create Dictionary" :: steps_from_start clock n, (m, hp')) /\
    length hp' = (length hp + 3 * n)%nat.
Proof.
  unfold create_dict, from_start.
  destruct (timed_loop_inv clock true (create_dict_body zero_key zero_key md5)
    (fun i s => s.1 = m /\ Z.of_nat (length s.2) = Z.of_nat (length hp) + 3 * i)
    n 0 1 (nanoseconds (clock 0%nat)) (m, hp)) as ([m' hp'] & E & Em & Hl); [split; [done|cbn; lia]| |].
  - intros j [m1 h1] Hj [Hm Hs]. cbn [fst snd] in *. subst m1. rewrite create_dict_body_ok.
    eexists. split; [done|]. split; [done|]. cbn [snd]. rewrite length_app. cbn. lia.
  - rewrite E. cbn [fst snd] in *. subst m'. exists hp'. split; [done|lia].
Qed.

(** The searches of the fifty strings. *)
Lemma filled_search md5 :
  (let! (m, o, hp) := filled_dict zero_key zero_key md5 [] in
   let! (results, o) := search_dict zero_key zero_key md5 LOOKUP_LENGTH m o in
   let! (_, m, hp) := end_of_dict tt (m, o, hp) in Ok (results, m, hp)) =
  Ok (reverse (seqZ 1 50), string_keys, seqZ 0 50).
Proof. vm_compute. reflexivity. Qed.

(** ** The loops that fill a dictionary *)

Lemma wf_size d : wf d -> num_entries d = Z.of_nat (base.size (abs d)).
Proof.
  intros Hwf. destruct (table d) as [t|] eqn:Et.
  - destruct (wf_table d t Hwf Et) as (C & -> & -> & _). f_equal. unfold tmap.
    rewrite <- length_map_to_list, map_to_list_to_map, length_fmap; [done|]. rewrite fst_kv. apply C.
  - rewrite abs_no_table by done. unfold wf in Hwf. rewrite Et in Hwf. by destruct Hwf as (_ & _ & _ & ->).
Qed.

Section Inserts.
Context (K5 K6 : list Z) (md5 : list Z -> list Z) (key : Z -> list Z) (body : Z -> dict_state -> res dict_state) (n : nat).

Definition hashed (i : Z) : list Z * Z := (key i, u32 (HashBytes K5 K6 md5 (key i) (Z.of_nat (length (key i))))).

Context (key_inj : forall i j, 0 <= i < Z.of_nat n -> 0 <= j < Z.of_nat n -> key i = key j -> i = j).

(** A step makes an [int] and inserts the pointer under its key. *)
Definition inserts : Prop := forall i m o hp,
  0 <= i < Z.of_nat n -> ready (DictKeys.dict o) -> quiet (DictKeys.dict o) -> owns m o ->
  exists m' o', body i (m, o, hp) = Ok (m', o', hp ++ [i]) /\
    abs (DictKeys.dict o') = <[hashed i := Z.of_nat (length hp) + 1]> (abs (DictKeys.dict o)) /\
    keeps m' o' (foreign m o).
Context (body_ok : inserts).

(** The state after [k] steps. *)
Fixpoint after (k : nat) (s : dict_state) : res dict_state :=
  match k with O => Ok s | S k => let! s := after k s in body (Z.of_nat k) s end.

(** The dictionary is fit for the next insertion in each state before the last. *)
Definition stays_ready (s : dict_state) : Prop :=
  forall k s', (k < n)%nat -> after k s = Ok s' -> ready (DictKeys.dict s'.1.2).

Definition filled (m0 : memory) (hp0 : list Z) (i : Z) (s : dict_state) : Prop :=
  let '(m, o, hp) := s in
  keeps m o m0 /\ hp = hp0 ++ numbers (Z.to_nat i) /\ base.size (abs (DictKeys.dict o)) = Z.to_nat i /\
  forall j, 0 <= j < Z.of_nat n ->
    abs (DictKeys.dict o) !! hashed j = if j <? i then Some (pointer hp0 (Z.to_nat j)) else None.

Lemma dict_step_ok s0 m0 hp0 i s :
  0 <= i < Z.of_nat n -> stays_ready s0 -> after (Z.to_nat i) s0 = Ok s -> filled m0 hp0 i s ->
  exists s', body i s = Ok s' /\ after (Z.to_nat (i + 1)) s0 = Ok s' /\ filled m0 hp0 (i + 1) s'.
Proof using key_inj body_ok.
  intros Hi Hready Ha Hf. destruct s as [[m o] hp]. destruct Hf as ((Hwf & Hq & O & F) & -> & Hs & Hg).
  pose proof (Hready (Z.to_nat i) _ ltac:(lia) Ha) as R. cbn [fst snd] in R.
  destruct (body_ok i m o (hp0 ++ numbers (Z.to_nat i)) Hi R Hq O) as (m' & o' & E & Hm & K).
  exists (m', o', (hp0 ++ numbers (Z.to_nat i)) ++ [i]). split; [done|].
  replace (Z.to_nat (i + 1)) with (S (Z.to_nat i)) by lia. split.
  { cbn [after]. rewrite Ha. cbn [res_bind]. by rewrite Z2Nat.id by lia. }
  unfold filled. rewrite F in K. split; [done|]. split; [|split].
  - replace (Z.to_nat (i + 1)) with (S (Z.to_nat i)) by lia. rewrite numbers_S, app_assoc. by rewrite Z2Nat.id by lia.
  - rewrite Hm, map_size_insert_None; [lia|]. rewrite Hg by done. by rewrite Z.ltb_irrefl.
  - intros j Hj. rewrite Hm. destruct (decide (j = i)) as [->|Hne].
    + rewrite lookup_insert_eq. destruct (Z.ltb_spec i (i + 1)); [|lia]. unfold pointer, numbers.
      by rewrite length_app, length_fmap, length_seq.
    + rewrite lookup_insert_ne by (intros [= Ek _]; by apply Hne, key_inj). rewrite Hg by done.
      by destruct (Z.ltb_spec j i), (Z.ltb_spec j (i + 1)); [|lia|lia|].
Qed.

Lemma inserts_ok clock m o hp :
  new_keyed UNORDERED 0 = Ok o -> stays_ready (m, o, hp) ->
  exists m' o', from_start clock true body n (m, o, hp) =
      Ok (steps_from_start clock n, (m', o', hp ++ numbers n)) /\
    num_entries (DictKeys.dict o') = Z.of_nat n /\
    delete_Dictionary m' o' = Ok ((Clear (DictKeys.dict o')).1, m) /\
    forall j, 0 <= j < Z.of_nat n -> abs (DictKeys.dict o') !! hashed j = Some (pointer hp (Z.to_nat j)).
Proof using key_inj body_ok.
  intros Eo Hready. destruct (timed_loop_inv clock true body
    (fun i s => after (Z.to_nat i) (m, o, hp) = Ok s /\ filled m hp i s) n 0 1 (nanoseconds (clock 0%nat)) (m, o, hp))
    as ([[m' o'] hp'] & E & _ & (Hwf & Hq & O & F) & -> & Hs & Hg).
  - split; [done|]. split; [by apply (new_keyed_ok m 0)|]. split; [by rewrite app_nil_r|].
    assert (abs (DictKeys.dict o) = ∅) as -> by (vm_compute in Eo; by injection Eo as <-). split; [done|].
    intros j Hj. rewrite lookup_empty. by destruct (Z.ltb_spec j 0); [lia|].
  - intros j s Hj [Ha Hf]. destruct (dict_step_ok (m, o, hp) m hp j s) as (s' & ?); [lia|done..|by exists s'].
  - exists m', o'. rewrite Z.add_0_l, Nat2Z.id in *. split; [exact E|]. split; [by rewrite wf_size, Hs|].
    split; [by rewrite (delete_Dictionary_ok (Impl := releasing) eq_refl), F|]. intros j Hj. rewrite Hg by done.
    by destruct (Z.ltb_spec j (Z.of_nat n)); [|lia].
Qed.
End Inserts.

Definition int_key (i : Z) : list Z := U64TO8_LE (u64 i).

Lemma int_key_inj i j : 0 <= i < 2 ^ 64 -> 0 <= j < 2 ^ 64 -> int_key i = int_key j -> i = j.
Proof.
  unfold int_key. intros Hi Hj E. rewrite <- (u64_small i), <- (u64_small j) by lia.
  rewrite <- (U8TO64_LE_U64TO8_LE (u64 i)), <- (U8TO64_LE_U64TO8_LE (u64 j)) by (apply u64_range). by rewrite E.
Qed.

#[local] Opaque HashBytes.

Lemma dict_body_ok K5 K6 md5 n : inserts K5 K6 md5 int_key (dict_body K5 K6 md5) n.
Proof.
  intros i m o hp Hi R Hq O. unfold dict_body, insert_int, new_int.
  destruct (Insert_key_ok (Impl := releasing) m o (HashKey_int K5 K6 md5 i) (int_key i) (Z.of_nat (length hp) + 1) eq_refl R Hq O)
    as (o' & m' & E & Hm & K); [done|done|done|done|].
  rewrite E. cbn [res_bind]. exists m', o'. split; [reflexivity|]. split; [|exact K].
  unfold HashKey_int, HashKey_value in Hm. cbn [HashKey.hash] in Hm. exact Hm.
Qed.

(** The [HashKey] of [complex_dict] has a copy of the key, which becomes the dictionary's. *)
Lemma complex_dict_body_ok K5 K6 md5 n : inserts K5 K6 md5 conn_id (complex_dict_body K5 K6 md5) n.
Proof.
  intros i m o hp Hi R Hq O. unfold complex_dict_body.
  destruct (alloc m (conn_id i)) as [a m1] eqn:E1. destruct (alloc_foreign _ _ _ _ _ E1 O) as (Ha & O1 & F1 & L1 & N1).
  unfold HashKey_bytes, CopyKey. change 36 with (Z.of_nat (length (conn_id i))).
  rewrite (read_all m1 [] a) by done. cbn [res_bind].
  destruct (alloc m1 (conn_id i)) as [k m2] eqn:E2. destruct (alloc_foreign _ _ _ _ _ E2 O1) as (Hk & O2 & F2 & L2 & N2).
  cbn [res_bind]. rewrite (read_all m2 [] k) by done. cbn [res_bind]. unfold insert_int, new_int, Insert_key, TakeKey.
  cbn [is_our_dynamic HashKey.key res_bind HashKey.size HashKey.hash].
  destruct (Insert_keyed_ok (Impl := releasing) eq_refl m2 o k (conn_id i) (HashBytes K5 K6 md5 (conn_id i) (Z.of_nat (length (conn_id i))))
    (Z.of_nat (length hp) + 1) false R Hq O2 L2) as (o' & m' & E & Hm & Hwf & Hq' & O' & F'); [done|done|].
  rewrite E. cbn [res_bind]. rewrite F2, delete_insert_id, F1 in F' by done.
  assert (foreign m' o' !! a = Some (conn_id i)) as [L' B']%foreign_some by (rewrite F'; apply lookup_insert_eq).
  unfold free. rewrite L'. cbn [res_bind]. exists (delete a m'), o'. split; [done|]. split; [done|].
  destruct o' as [d' bl']. destruct (owns_free m' (mkKeyed d' bl') d' a O' B') as [O3 F3]; [done|]. cbn [key_block] in O3, F3.
  split; [done|]. split; [done|]. split; [done|]. rewrite F3, F'. by rewrite delete_insert_id.
Qed.
#[local] Transparent HashBytes.

(** The loop over the fifty entries. *)
Lemma filled_iterate md5 :
  (let! (m, o, hp) := filled_dict zero_key zero_key md5 [] in
   let '(c, d) := InitForIteration (DictKeys.dict o) in
   let! (results, d) := next_entries (S (S (Z.to_nat (Capacity d false)))) d c in
   let! (_, m, hp) := end_of_dict tt (m, mkKeyed d (key_block o), hp) in
   Ok (merge_sort Z.le results, m, hp)) = Ok (seqZ 1 50, string_keys, seqZ 0 50).
Proof. vm_compute. reflexivity. Qed.

(** [end_of_dict] only passes its first argument on. *)
Lemma end_of_dict_pass {A} (a : A) s :
  end_of_dict a s = let! (_, m, hp) := end_of_dict tt s in Ok (a, m, hp).
Proof. destruct s as [[m o] hp]. unfold end_of_dict. by destruct (delete_Dictionary m o) as [[]| | |]. Qed.

(** ** The properties *)

Lemma dict_searches_ok clock md5 :
  exists results its,
    lookup_dict clock zero_key zero_key md5 [] =
      Ok ([Title "Dictionary lookup"; between clock "lookups (us)"], results, string_keys, numbers LOOKUP_LENGTH) /\
    iterate_dict clock zero_key zero_key md5 [] =
      Ok ([Title "Dictionary iterate"; between clock "iterations (us)"], its, string_keys, numbers LOOKUP_LENGTH) /\
    int_at (numbers LOOKUP_LENGTH) <$> results = Some <$> reverse (numbers LOOKUP_LENGTH) /\
    int_at (numbers LOOKUP_LENGTH) <$> its ≡ₚ Some <$> numbers LOOKUP_LENGTH.
Proof.
  pose proof (filled_search md5) as Hs. pose proof (filled_iterate md5) as Hi.
  assert (seqZ 0 50 = numbers LOOKUP_LENGTH) as En by (vm_compute; reflexivity). rewrite En in Hs, Hi.
  unfold lookup_dict, iterate_dict. destruct (filled_dict zero_key zero_key md5 []) as [[[m o] hp]| | |]; try done.
  cbn [res_bind] in *.
  destruct (search_dict zero_key zero_key md5 LOOKUP_LENGTH m o) as [[rs o1]| | |]; try done. cbn [res_bind] in *.
  destruct (InitForIteration (DictKeys.dict o)) as [c d]. cbn zeta iota in Hi |- *.
  destruct (next_entries _ d c) as [[its d1]| | |]; try done. cbn [res_bind] in *.
  rewrite !(end_of_dict_pass (_, _)).
  destruct (end_of_dict tt (m, o1, hp)) as [[[[] m1] h1]| | |]; try done.
  destruct (end_of_dict tt (m, mkKeyed d1 (key_block o), hp)) as [[[[] m2] h2]| | |]; try done.
  cbn [res_bind] in *. injection Hs as -> -> ->. injection Hi as Hits -> ->.
  exists (reverse (seqZ 1 50)), its. split; [reflexivity|]. split; [reflexivity|]. split; [vm_compute; reflexivity|].
  assert (its ≡ₚ seqZ 1 50) as -> by (rewrite <- Hits; symmetry; apply merge_sort_Permutation).
  apply reflexive_eq. vm_compute. reflexivity.
Qed.

(** C34: Every search of the programs finds its [int] and every loop sees each [int] once,
    whichever map of the standard library, [fifo_map] or dictionary is used and wherever
    the [int]s are; the dictionary, on an implementation whose [delete] releases arrays,
    gives its key memory back. *)
Theorem programs_find_their_ints {M} (C : Container M nat Z) clock title md5 :
  (forall k, c_valid k) ->
  exists results its dict_results dict_its,
    let h := numbers LOOKUP_LENGTH in
    lookup_in clock C title [] = Ok ([Title title; between clock "lookups (us)"], results, h) /\
    iterate_in clock C title [] = Ok ([Title title; between clock "iterations (us)"], its, h) /\
    lookup_dict clock zero_key zero_key md5 [] =
      Ok ([Title "Dictionary lookup"; between clock "lookups (us)"], dict_results, string_keys, h) /\
    iterate_dict clock zero_key zero_key md5 [] =
      Ok ([Title "Dictionary iterate"; between clock "iterations (us)"], dict_its, string_keys, h) /\
    int_at h <$> results = Some <$> reverse h /\ int_at h <$> dict_results = Some <$> reverse h /\
    int_at h <$> its ≡ₚ Some <$> h /\ int_at h <$> dict_its ≡ₚ Some <$> h.
Proof.
  intros Hv. destruct (pointer_programs_ok C Hv clock title []) as (rs & its & E1 & E2 & R & I).
  destruct (dict_searches_ok clock md5) as (drs & dits & E3 & E4 & DR & DI).
  rewrite app_nil_l in E1, E2, R, I. exists rs, its, drs, dits. cbn zeta.
  exact (conj E1 (conj E2 (conj E3 (conj E4 (conj R (conj DR (conj I DI))))))).
Qed.

Lemma ITERATIONS_eq : Z.of_nat ITERATIONS = 1000000.
Proof. apply Z2Nat.id. lia. Qed.

#[local] Opaque ITERATIONS.

Lemma programs_find_their_ints_witness :
  let clock := fun n => mkTimespec 5 (Z.of_nat n * 7) in
  exists results, lookup_in clock map_ptr "std::map lookup" [] =
      Ok ([Title "std::map lookup"; Time_for 50 "lookups (us)" 7], results, numbers 50) /\
    int_at (numbers 50) <$> results = Some <$> reverse (numbers 50).
Proof.
  intros clock. destruct (programs_find_their_ints map_ptr clock "std::map lookup" id (fun _ => I))
    as (rs & _ & _ & _ & E & _ & _ & _ & R & _). exists rs. split; [rewrite E; vm_compute; reflexivity|exact R].
Defined.

(** As long as the dictionary is fit for the next insertion, [dict] and [complex_dict] make
    as many entries as they have steps, and their destructors give back the memory of all
    keys, the short and the long. *)
Theorem dict_fills clock K5 K6 md5 n m hp o :
  Z.of_nat n < 2 ^ 63 -> new_keyed UNORDERED 0 = Ok o ->
  (stays_ready (dict_body K5 K6 md5) n (m, o, hp) ->
   dict clock K5 K6 md5 n m hp =
     Ok (Title "Dictionary" :: steps_from_start clock n ++ [Final_size (Z.of_nat n)], m, hp ++ numbers n)) /\
  (stays_ready (complex_dict_body K5 K6 md5) n (m, o, hp) ->
   complex_dict clock K5 K6 md5 n m hp = Ok (steps_from_start clock n, m, hp ++ numbers n)).
Proof.
  intros Hn Eo. unfold dict, complex_dict. rewrite Eo. cbn [res_bind]. split; intros R.
  - destruct (inserts_ok K5 K6 md5 int_key (dict_body K5 K6 md5) n) with (clock := clock) (m := m) (o := o) (hp := hp)
      as (m' & o' & E & Hs & Hd & _); [intros; apply int_key_inj; lia || done|apply dict_body_ok|done|done|].
    rewrite E. cbn [res_bind fst snd]. unfold end_of_dict. by rewrite Hs, Hd.
  - destruct (inserts_ok K5 K6 md5 conn_id (complex_dict_body K5 K6 md5) n) with (clock := clock) (m := m) (o := o) (hp := hp)
      as (m' & o' & E & Hs & Hd & _); [intros i j; apply conn_id_inj; lia|apply complex_dict_body_ok|done|done|].
    rewrite E. cbn [res_bind]. unfold end_of_dict. by rewrite Hd.
Qed.

Lemma lines_ints {M} (clock : nat -> timespec) (C : Container M Z Z) title print :
  (forall k, c_valid k) ->
  lines (emplace_ints clock C title print ITERATIONS) =
    Ok (0, Title title :: (if print then steps_from_start clock ITERATIONS else []) ++ [Final_size 1000000]).
Proof.
  intros Hv. destruct (emplace_ints_ok C clock title print ITERATIONS Hv) as (m & E); [by rewrite ITERATIONS_eq|].
  rewrite E, ITERATIONS_eq. reflexivity.
Qed.

Lemma lines_pointers {M} (clock : nat -> timespec) (C : Container M nat Z) title :
  (forall k, c_valid k) ->
  lines_of (lookup_in clock C title []) = Ok (0, [Title title; between clock "lookups (us)"]) /\
  lines_of (iterate_in clock C title []) = Ok (0, [Title title; between clock "iterations (us)"]).
Proof.
  intros Hv. destruct (pointer_programs_ok C Hv clock title []) as (rs & its & E1 & E2 & _).
  rewrite E1, E2. split; reflexivity.
Qed.

Lemma lines_conn {M} (clock : nat -> timespec) (C : Container M (list Z) Z) :
  (forall k, length k = 36%nat -> c_valid k) ->
  lines (complex_in clock C ITERATIONS) = Ok (0, steps_from_start clock ITERATIONS).
Proof.
  intros Hv. destruct (complex_in_ok C clock ITERATIONS Hv) as (m & E & _); [by rewrite ITERATIONS_eq|].
  by rewrite E.
Qed.

(** What the program prints; the two that fill a dictionary a million times are apart. *)
Definition output (clock : nat -> timespec) (p : program) : option (list line) :=
  match p with
  | Unordered => Some (Title "std::unordered_map" :: steps_from_start clock ITERATIONS ++ [Final_size 1000000])
  | Regular => Some ([Title "std::map"; Final_size 1000000])
  | Fifo => Some ([Title "nlohmann::fifo_map"; Final_size 1000000])
  | Create_regular => Some (Title "Create std::map" :: steps_from_start clock ITERATIONS)
  | Create_dict => Some (Title "Create Dictionary" :: steps_from_start clock ITERATIONS)
  | Lookup_map => Some ([Title "std::map lookup"; between clock "lookups (us)"])
  | Lookup_unordered => Some ([Title "std::unordered_map lookup"; between clock "lookups (us)"])
  | Lookup_fifo => Some ([Title "nlohmann::fifo_map lookup"; between clock "lookups (us)"])
  | Lookup_dict => Some ([Title "Dictionary lookup"; between clock "lookups (us)"])
  | Iterate_map => Some ([Title "std::map iterate"; between clock "iterations (us)"])
  | Iterate_unordered => Some ([Title "std::unordered_map iterate"; between clock "iterations (us)"])
  | Iterate_fifo => Some ([Title "nlohmann::fifo_map iterate"; between clock "iterations (us)"])
  | Iterate_dict => Some ([Title "Dictionary iterate"; between clock "iterations (us)"])
  | Complex_regular => Some (steps_from_start clock ITERATIONS)
  | Complex_unordered => Some (steps_from_start clock ITERATIONS)
  | Dict | Complex_dict => None
  end.

Lemma run_program_prints clock int_order Hi ptr_order Hp conn_order Hc md5 p :
  match output clock p with
  | Some out => run_program clock int_order Hi ptr_order Hp conn_order Hc md5 p = Ok (0, out)
  | None => True
  end.
Proof.
  destruct (dict_searches_ok clock md5) as (rs & its & Ed1 & Ed2 & _).
  destruct p; cbn [output run_program].
  - exact (lines_ints clock (unordered_int int_order Hi) _ true (fun _ => I)).
  - exact (lines_ints clock map_int _ false (fun _ => I)).
  - exact I.
  - exact (lines_ints clock fifo_int _ false (fun _ => I)).
  - destruct (create_regular_ok map_int clock ITERATIONS [] (fun _ => I)) as (h & E & _). rewrite E. reflexivity.
  - destruct (create_dict_ok clock md5 ITERATIONS ∅ []) as (h & E & _). rewrite E. reflexivity.
  - exact (proj1 (lines_pointers clock map_ptr _ (fun _ => I))).
  - exact (proj1 (lines_pointers clock (unordered_ptr ptr_order Hp) _ (fun _ => I))).
  - exact (proj1 (lines_pointers clock fifo_ptr _ (fun _ => I))).
  - rewrite Ed1. reflexivity.
  - exact (proj2 (lines_pointers clock map_ptr _ (fun _ => I))).
  - exact (proj2 (lines_pointers clock (unordered_ptr ptr_order Hp) _ (fun _ => I))).
  - exact (proj2 (lines_pointers clock fifo_ptr _ (fun _ => I))).
  - rewrite Ed2. reflexivity.
  - exact (lines_conn clock map_conn (fun _ Hl => Hl)).
  - exact (lines_conn clock (unordered_conn conn_order Hc) (fun _ _ => I)).
  - exact I.
Qed.

(** C35: [main] ends with status 0 after the lines of the program it was asked for, unless
    that is one of [dict] and [complex_dict], the two that fill a dictionary a million
    times, of which nothing is said here: a million insertions into each map of the
    standard library and into [fifo_map] give the size a million, every insertion that is
    printed has its line, and each search and loop prints its time; an argument that names
    no program prints nothing, and without exactly one argument it returns -1. *)
Theorem main_prints clock int_order Hi ptr_order Hp conn_order Hc md5 prog :
  let main := main clock int_order Hi ptr_order Hp conn_order Hc md5 in
  (forall arg p out, program_of arg = Some p -> output clock p = Some out -> main [prog; arg] = Ok (0, out)) /\
  (forall arg, program_of arg = None -> main [prog; arg] = Ok (0, [])) /\
  (forall argv, length argv <> 2%nat -> main argv = Ok (-1, [])).
Proof.
  intros main0. subst main0. split; [|split].
  - intros arg p out Ep Eout. unfold main. rewrite Ep.
    pose proof (run_program_prints clock int_order Hi ptr_order Hp conn_order Hc md5 p) as H. by rewrite Eout in H.
  - intros arg Ep. unfold main. by rewrite Ep.
  - intros argv Hl. by destruct argv as [|? [|? []]].
Qed.

Lemma main_prints_witness :
  let clock := fun n => mkTimespec 5 (Z.of_nat n * 7) in
  main clock id (fun _ => reflexivity _) id (fun _ => reflexivity _) id (fun _ => reflexivity _) id ["dict"; "lf"] =
    Ok (0, [Title "nlohmann::fifo_map lookup"; Time_for 50 "lookups (us)" 7]).
Proof.
  intros clock.
  apply (proj1 (main_prints clock id (fun _ => reflexivity _) id (fun _ => reflexivity _) id (fun _ => reflexivity _) id
    "dict") "lf" Lookup_fifo); vm_compute; reflexivity.
Defined.
