(* ===== verification/Ares.v ===== *)
(** * The programs of [c-ares/]

    Nine programs that ask the resolver library c-ares for names, addresses and records,
    wait for the answers and print them in callbacks.  The library is a parameter: what
    its calls answer, and in [ares_process] and in the requests themselves which callbacks
    it runs with what; [select] and [ares_timeout] only wait.  The programs are as they
    are: their callbacks, [wait_ares] and [main], on the memory they get from the library
    and give back, as in [Windows]. *)

From stdpp Require Import strings gmap.
From S2P Require Import Prelude Windows Ttl.

(** ** What the programs see of the library *)

Definition AF_UNSPEC : Z := 0.
Definition AF_INET : Z := 2.
Definition AF_INET6 : Z := 10.
Definition INET_ADDRSTRLEN : Z := 16.
Definition INET6_ADDRSTRLEN : Z := 46.
Definition ARES_LIB_INIT_ALL : Z := 1.
Definition ARES_FLAG_USEVC : Z := 1.
Definition ARES_FLAG_STAYOPEN : Z := 16.
Definition ARES_AI_CANONNAME : Z := 1.
Definition C_IN : Z := 1.
Definition T_A : Z := 1.
Definition T_PTR : Z := 12.

Record hostent := mkHostent { h_name : list Z; h_addrtype : Z; h_addr_list : list (list Z) }.
Record addrinfo_node := mkNode { ai_family : Z; ai_addr : list Z }.
Record ares_addrinfo := mkAddrinfo { name : list Z; nodes : list addrinfo_node }.

(** The options that a program sets. *)
Record ares_options := mkOptions {
  flags : option Z; timeout : option Z; tries : option Z; lookups : option (list Z)
}.

(** The callbacks of requests, by the kind of function. *)
Inductive callback := HostbynameCb | HostbyaddrCb | AddrinfoCb | QueryACb | QueryPtrCb.

Inductive request :=
| GetHostByName (host : list Z) (family : Z)
| GetHostByAddr (addr : list Z) (family : Z)
| GetAddrInfo (host : list Z) (ai_flags family : Z)
| Query (host : list Z) (class type : Z)
| Send (query : list Z).

(** What a callback gets: status, timeouts, and a host, addresses or a message. *)
Inductive answer :=
| Host (status timeouts : Z) (host : option hostent)
| Addr (status timeouts : Z) (result : option ares_addrinfo)
| Data (status timeouts : Z) (abuf : list Z).

(** What the library does in a call, in order: a socket is created or changes state, a
    request is over. *)
Inductive event :=
| SockCreated (fd type : Z)
| SockState (fd read write : Z)
| Done (c : callback) (a : answer).

(** The library as functions of [L], the state of the library and of the network, and the
    conversions of [arpa/inet.h]. *)
Record resolver (L : Type) := mkResolver {
  r_library_init : Z -> L -> Z * L;
  r_init_options : ares_options -> L -> Z * L;
  r_set_servers : list Z -> L -> unit * L;
  (** A request with its callback: what happens at once. *)
  r_ask : request -> callback -> L -> list event * L;
  (** [ares_create_query(name, class, type, id, rd, ...)]: status and message. *)
  r_create_query : list Z -> Z -> Z -> Z -> Z -> L -> (Z * list Z) * L;
  r_fds : L -> Z;
  r_process : L -> list event * L;
  r_destroy : L -> list event * L;
  r_strerror : Z -> list Z;
  r_parse_a_reply : list Z -> Z * hostent;
  r_parse_ptr_reply : list Z -> Z * hostent;
  r_parse_txt_reply : list Z -> Z * list Z;
  r_expand_name : nat -> list Z -> Z * nat;
  (** [inet_ntop(family, addr, buf, size)]: [None] is a null pointer, [buf] stays as it was. *)
  r_inet_ntop : Z -> list Z -> Z -> option (list Z);
  r_inet_pton : Z -> list Z -> list Z
}.
Arguments r_library_init {L} _.
Arguments r_init_options {L} _.
Arguments r_set_servers {L} _.
Arguments r_ask {L} _.
Arguments r_create_query {L} _.
Arguments r_fds {L} _.
Arguments r_process {L} _.
Arguments r_destroy {L} _.
Arguments r_strerror {L} _.
Arguments r_parse_a_reply {L} _.
Arguments r_parse_ptr_reply {L} _.
Arguments r_parse_txt_reply {L} _.
Arguments r_expand_name {L} _.
Arguments r_inet_ntop {L} _.
Arguments r_inet_pton {L} _.

Section Ares.
Context {L : Type} (R : resolver L).
#[local] Notation library_init := (r_library_init R).
#[local] Notation init_options := (r_init_options R).
#[local] Notation set_servers := (r_set_servers R).
#[local] Notation ask := (r_ask R).
#[local] Notation create_query := (r_create_query R).
#[local] Notation fds := (r_fds R).
#[local] Notation process := (r_process R).
#[local] Notation destroy := (r_destroy R).
#[local] Notation strerror := (r_strerror R).
#[local] Notation parse_a_reply := (r_parse_a_reply R).
#[local] Notation parse_ptr_reply := (r_parse_ptr_reply R).
#[local] Notation parse_txt_reply := (r_parse_txt_reply R).
#[local] Notation expand_name := (r_expand_name R).
#[local] Notation inet_ntop := (r_inet_ntop R).
#[local] Notation inet_pton := (r_inet_pton R).

(** The library and what was printed. *)
Record world := mkWorld { lib : L; out : list line }.
Notation io A := (io world A).

Definition on_lib {A} (f : L -> A * L) : io A :=
  call (fun w => let '(a, l) := f (lib w) in (a, mkWorld l (out w))).
Definition printf (fmt : string) (args : list arg) : io unit :=
  call (fun w => (tt, mkWorld (lib w) (out w ++ [(fmt, args)]))).

(** What the library itself holds for the program: its initialisation and a channel. *)
Definition LIBRARY : Z := 1.
Definition CHANNEL : Z := 2.

Definition ares_library_init (n : Z) : io Z :=
  do! status := on_lib (library_init n) in
  if status =? ARES_SUCCESS then do! _ := opened LIBRARY in io_ret status else io_ret status.
Definition ares_library_cleanup : io unit := CloseHandle LIBRARY.
Definition ares_init_options (o : ares_options) : io Z :=
  do! status := on_lib (init_options o) in
  if status =? ARES_SUCCESS then do! _ := opened CHANNEL in io_ret status else io_ret status.

(** ** Printing addresses *)

(** [inet_ntop] into a buffer and [printf] of it: a buffer that was never written is
    printed as it is. *)
Definition ntop_into (family : Z) (addr : list Z) (size : Z) (buf : option (list Z)) : option (list Z) :=
  match inet_ntop family addr size with Some t => Some t | None => buf end.
Definition print_buf (fmt : string) (buf : option (list Z)) : io unit :=
  match buf with Some t => printf fmt [Str t] | None => io_ub end.

(** [for (i = 0; host->h_addr_list[i]; ++i)]: one buffer for all rounds. *)
Fixpoint print_addrs (fmt : string) (family : Z) (addrs : list (list Z)) (ip : option (list Z)) : io unit :=
  match addrs with
  | [] => io_ret tt
  | a :: addrs =>
      let ip := ntop_into family a INET6_ADDRSTRLEN ip in
      do! _ := print_buf fmt ip in print_addrs fmt family addrs ip
  end.

(** The loop over [result->nodes]: a buffer in each round. *)
Fixpoint print_nodes (fmt4 fmt6 : string) (entries : list addrinfo_node) : io unit :=
  match entries with
  | [] => io_ret tt
  | e :: entries =>
      do! _ :=
        (if ai_family e =? AF_INET then print_buf fmt4 (ntop_into AF_INET (ai_addr e) INET_ADDRSTRLEN None)
         else if ai_family e =? AF_INET6 then print_buf fmt6 (ntop_into AF_INET6 (ai_addr e) INET6_ADDRSTRLEN None)
         else io_ret tt) in
      print_nodes fmt4 fmt6 entries
  end.

(** [ares_freeaddrinfo(result)]; [result] is a block of the library, or null. *)
Definition ares_freeaddrinfo (p : option nat) : io unit :=
  match p with Some p => delete_array p | None => io_ret tt end.

Definition failed (status : Z) : io unit := printf "Failed to lookup %s\n" [Str (strerror status)].
Definition print_state (s read write : Z) : io unit :=
  printf "Change state fd %d read:%d write:%d\n" [Int s; Int read; Int write].

(** ** [cares_gethostbyname.c], [cares_timeouts.c], [cares_gethostbyaddr.c] *)

Definition gethostbyname_callback (status timeouts : Z) (host : option hostent) : io unit :=
  match host with
  | Some host =>
      if negb (status =? ARES_SUCCESS) then failed status
      else
        do! _ := printf "Found address name %s\n" [Str (h_name host)] in
        print_addrs "%s\n" (h_addrtype host) (h_addr_list host) None
  | None => failed status
  end.

Definition timeouts_callback (status timeouts : Z) (host : option hostent) : io unit :=
  let failure := do! _ := failed status in printf "timeouts: %d\n" [Int timeouts] in
  match host with
  | Some host =>
      if negb (status =? ARES_SUCCESS) then failure
      else
        do! _ := printf "Found address name %s\n" [Str (h_name host)] in
        print_addrs "%s\n" (h_addrtype host) (h_addr_list host) None
  | None => failure
  end.

Definition gethostbyaddr_callback (status timeouts : Z) (host : option hostent) : io unit :=
  match host with
  | Some host =>
      if negb (status =? ARES_SUCCESS) then failed status
      else printf "Found address name %s\n" [Str (h_name host)]
  | None => failed status
  end.

(** ** [cares_getaddrinfo.c] *)

Definition getaddrinfo_callback (status timeouts : Z) (result : option ares_addrinfo) (p : option nat) : io unit :=
  if negb (status =? ARES_SUCCESS) then
    do! _ := printf "Failed addrinfo request: %s\n" [Str (strerror status)] in ares_freeaddrinfo p
  else
    match result with
    | Some result =>
        do! _ := print_nodes "found new ipv4 address %s\n" "found new ipv6 address %s\n" (nodes result) in
        ares_freeaddrinfo p
    | None => io_ub
    end.

(** ** [cares_hostfile.c] *)

Definition hostbyname_cb (status timeouts : Z) (host : option hostent) : io unit :=
  let failure := do! _ := failed status in printf "timeouts: %d\n" [Int timeouts] in
  match host with
  | Some host =>
      if negb (status =? ARES_SUCCESS) then failure
      else
        do! _ := printf "hostbyname: %s = " [Str (h_name host)] in
        do! _ := print_addrs "%s " (h_addrtype host) (h_addr_list host) None in
        printf "\n" []
  | None => failure
  end.

Definition addrinfo_cb (status timeouts : Z) (result : option ares_addrinfo) (p : option nat) : io unit :=
  if negb (status =? ARES_SUCCESS) then
    do! _ := printf "Failed addrinfo request: %s\n" [Str (strerror status)] in ares_freeaddrinfo p
  else
    match result with
    | Some result =>
        do! _ := printf "addrinfo: %s = " [Str (name result)] in
        do! _ := print_nodes "%s " "%s " (nodes result) in
        do! _ := printf "\n" [] in ares_freeaddrinfo p
    | None => io_ub
    end.

(** [host->h_addr] is the first address; both buffers are of [INET_ADDRSTRLEN]. *)
Definition hostbyaddr_cb (status timeouts : Z) (host : option hostent) : io unit :=
  match host with
  | Some host =>
      if negb (status =? ARES_SUCCESS) then failed status
      else
        do! _ :=
          (if (h_addrtype host =? AF_INET) || (h_addrtype host =? AF_INET6) then
             match h_addr_list host with
             | a :: _ => print_buf "hostbyaddr: %s = " (ntop_into (h_addrtype host) a INET_ADDRSTRLEN None)
             | [] => io_ub
             end
           else io_ret tt) in
        printf "%s\n" [Str (h_name host)]
  | None => failed status
  end.

(** A reply that is parsed into a [hostent], printed and freed; [parse] allocates the
    [hostent] when it succeeds. *)
Definition parse_and_print (parse : list Z -> Z * hostent) (buf : list Z) (bad good : string) (more : list arg)
    : io unit :=
  let '(r, host) := parse buf in
  if negb (r =? ARES_SUCCESS) then printf bad [Str (strerror r)]
  else
    do! p := new_array in
    do! _ := printf good (Str (h_name host) :: more) in
    delete_array p.

Definition hostfile_query_a (status timeouts : Z) (buf : list Z) : io unit :=
  if negb (status =? ARES_SUCCESS) then failed status
  else parse_and_print parse_a_reply buf "Failed to parse A record %s\n" "query_a_callback parsed host: %s\n" [].

(** ** [cares_mkquery.c], [cares_query.c], [cares_apple_tcpbug.c] *)

Definition mkquery_query_a (status timeouts : Z) (buf : list Z) : io unit :=
  if negb (status =? ARES_SUCCESS) then failed status
  else parse_and_print parse_a_reply buf "Failed to parse A record %s\n" "query_a_callback parsed host: %s\n" [].
Definition mkquery_query_ptr (status timeouts : Z) (buf : list Z) : io unit :=
  if negb (status =? ARES_SUCCESS) then failed status
  else parse_and_print parse_ptr_reply buf "Failed to parse NS record %s\n" "query_ptr_callback parsed host: %s\n" [].
Definition mkquery_query_txt (status timeouts : Z) (buf : list Z) : io unit :=
  if negb (status =? ARES_SUCCESS) then failed status
  else
    let '(r, txt) := parse_txt_reply buf in
    if negb (r =? ARES_SUCCESS) then printf "Failed to parse TXT record %s\n" [Str (strerror r)]
    else
      do! reply := new_array in
      do! _ := printf "parsed txt reply %s\n" [Str txt] in
      delete_array reply.

Definition query_query_a (status timeouts : Z) (buf : list Z) : io unit :=
  if negb (status =? ARES_SUCCESS) then failed status
  else parse_and_print parse_a_reply buf "Failed to parse A record %s\n" "query_a_callback parsed host: %s\n" [].
Definition query_ptr (status timeouts : Z) (buf : list Z) : io unit :=
  if negb (status =? ARES_SUCCESS) then failed status
  else parse_and_print parse_ptr_reply buf "Failed to parse NS record %s\n" "ptr_callback parsed host: %s\n" [].

Definition tcpbug_query_ptr (status timeouts : Z) (buf : list Z) : io unit :=
  if negb (status =? ARES_SUCCESS) then failed status
  else parse_and_print parse_ptr_reply buf "Failed to parse PTR record %s\n" "query_ptr_callback parsed host: %s\n" [].

(** ** [cares_ttl.c] *)

(** [get_ttl] of [Ttl] with the memory of [hostname], which each successful
    [ares_expand_name] allocates. *)
Definition get_ttl (abuf : list Z) : io (Z * option Z) :=
  let alen := length abuf in
  let aptr := HFIXEDSZ in
  let '(status, len) := expand_name aptr abuf in
  if negb (status =? ARES_SUCCESS) then io_ret (status, None)
  else
    do! hostname := new_array in
    if (alen <? aptr + len + QFIXEDSZ)%nat then io_ret (ARES_EBADRESP, None)
    else
      let aptr := (aptr + (len + QFIXEDSZ))%nat in
      do! _ := delete_array hostname in
      let '(status, len) := expand_name aptr abuf in
      if negb (status =? ARES_SUCCESS) then io_ret (status, None)
      else
        do! hostname := new_array in
        if (alen <? aptr + RRFIXEDSZ)%nat then io_ret (ARES_EBADRESP, None)
        else
          let aptr := (aptr + len)%nat in
          do! _ := delete_array hostname in
          match DNS_RR_TTL abuf aptr with
          | Ok ttl => io_ret (status, Some ttl)
          | _ => io_ub
          end.

Definition ttl_query_a (status timeouts : Z) (buf : list Z) : io unit :=
  if negb (status =? ARES_SUCCESS) then failed status
  else
    do! (r, ttl) := get_ttl buf in
    if negb (r =? ARES_SUCCESS) then printf "Failed to get TTL from A record %s\n" [Str (strerror r)]
    else
      match ttl with
      | Some ttl =>
          parse_and_print parse_a_reply buf "Failed to parse A record %s\n"
               "query_a_callback parsed host: %s (ttl %d)\n" [Int ttl]
      | None => io_ub
      end.

Definition ttl_query_ptr (status timeouts : Z) (buf : list Z) : io unit :=
  if negb (status =? ARES_SUCCESS) then failed status
  else
    do! (r, ttl) := get_ttl buf in
    if negb (r =? ARES_SUCCESS) then printf "Failed to get TTL from PTR record %s\n" [Str (strerror r)]
    else
      match ttl with
      | Some ttl =>
          parse_and_print parse_ptr_reply buf "Failed to parse PTR record %s\n"
               "query_ptr_callback parsed host: %s (ttl %d)\n" [Int ttl]
      | None => io_ub
      end.

Definition ttl_query_txt (status timeouts : Z) (buf : list Z) : io unit :=
  if negb (status =? ARES_SUCCESS) then failed status
  else
    let '(r, txt) := parse_txt_reply buf in
    if negb (r =? ARES_SUCCESS) then printf "Failed to parse TXT record %s\n" [Str (strerror r)]
    else
      do! reply := new_array in
      do! _ := printf "parsed txt reply %s\n" [Str txt] in
      delete_array reply.

(** ** Running callbacks *)

(** What a program gives the library to call. *)
Record handlers := mkHandlers {
  on_state : Z -> Z -> Z -> io unit;
  on_socket : Z -> Z -> io Z;
  on_host : callback -> Z -> Z -> option hostent -> io unit;
  on_addrinfo : callback -> Z -> Z -> option ares_addrinfo -> option nat -> io unit;
  on_data : callback -> Z -> Z -> list Z -> io unit
}.

(** An [ares_addrinfo] is the callback's to free. *)
Definition dispatch (h : handlers) (e : event) : io unit :=
  match e with
  | SockCreated fd type => do! _ := on_socket h fd type in io_ret tt
  | SockState fd read write => on_state h fd read write
  | Done c (Host status timeouts host) => on_host h c status timeouts host
  | Done c (Addr status timeouts None) => on_addrinfo h c status timeouts None None
  | Done c (Addr status timeouts (Some result)) =>
      do! p := new_array in on_addrinfo h c status timeouts (Some result) (Some p)
  | Done c (Data status timeouts abuf) => on_data h c status timeouts abuf
  end.
Fixpoint dispatch_all (h : handlers) (es : list event) : io unit :=
  match es with
  | [] => io_ret tt
  | e :: es => do! _ := dispatch h e in dispatch_all h es
  end.

Definition ares_ask (h : handlers) (r : request) (c : callback) : io unit :=
  do! es := on_lib (ask r c) in dispatch_all h es.
Definition ares_process (h : handlers) : io unit := do! es := on_lib process in dispatch_all h es.
Definition ares_destroy (h : handlers) : io unit :=
  do! es := on_lib destroy in do! _ := dispatch_all h es in CloseHandle CHANNEL.

(** [wait_ares]: [ares_fds] has no descriptors any more when no request is active;
    [chatty] are the two programs that print what they do. *)
Fixpoint wait_loop (h : handlers) (chatty : bool) (fuel : nat) : io unit :=
  match fuel with
  | O => io_nofuel
  | S fuel =>
      do! nfds := on_lib (fun l => (fds l, l)) in
      if nfds =? 0 then io_ret tt
      else
        do! _ := (if chatty then printf "selecting\n" [] else io_ret tt) in
        do! _ := (if chatty then printf "processing\n" [] else io_ret tt) in
        do! _ := ares_process h in
        do! _ := (if chatty then printf "processed\n" [] else io_ret tt) in
        wait_loop h chatty fuel
  end.

(** [ares_create_query] allocates the query when it succeeds. *)
Definition ares_create_query (host : list Z) (class type id rd : Z) : io (Z * list Z * option nat) :=
  do! (status, query) := on_lib (create_query host class type id rd) in
  if status =? ARES_SUCCESS then do! p := new_array in io_ret (status, query, Some p)
  else io_ret (status, query, None).
Definition ares_free_string (p : option nat) : io unit :=
  match p with Some p => delete_array p | None => io_ret tt end.

(** The callbacks of each file; the other kinds are not used in it. *)
Definition no_host (c : callback) (status timeouts : Z) (host : option hostent) : io unit := io_ub.
Definition no_addrinfo (c : callback) (status timeouts : Z) (r : option ares_addrinfo) (p : option nat) : io unit := io_ub.
Definition no_data (c : callback) (status timeouts : Z) (buf : list Z) : io unit := io_ub.
Definition silent_socket (fd type : Z) : io Z := io_ret ARES_SUCCESS.
Definition print_socket (fd type : Z) : io Z := do! _ := printf "%d %d\n" [Int fd; Int type] in io_ret ARES_SUCCESS.

Definition hostfile_handlers : handlers :=
  mkHandlers print_state silent_socket
    (fun c => match c with HostbynameCb => hostbyname_cb | HostbyaddrCb => hostbyaddr_cb | _ => no_host c end)
    (fun c => match c with AddrinfoCb => addrinfo_cb | _ => no_addrinfo c end)
    (fun c => match c with QueryACb => hostfile_query_a | _ => no_data c end).
Definition mkquery_handlers : handlers :=
  mkHandlers print_state silent_socket no_host no_addrinfo
    (fun c => match c with QueryACb => mkquery_query_a | QueryPtrCb => mkquery_query_ptr | _ => no_data c end).
Definition query_handlers : handlers :=
  mkHandlers print_state silent_socket no_host no_addrinfo
    (fun c => match c with QueryACb => query_query_a | QueryPtrCb => query_ptr | _ => no_data c end).
Definition ttl_handlers : handlers :=
  mkHandlers print_state silent_socket no_host no_addrinfo
    (fun c => match c with QueryACb => ttl_query_a | QueryPtrCb => ttl_query_ptr | _ => no_data c end).
Definition timeouts_handlers : handlers :=
  mkHandlers print_state print_socket
    (fun c => match c with HostbynameCb => timeouts_callback | _ => no_host c end) no_addrinfo no_data.
Definition gethostbyname_handlers : handlers :=
  mkHandlers print_state print_socket
    (fun c => match c with HostbynameCb => gethostbyname_callback | _ => no_host c end) no_addrinfo no_data.
Definition gethostbyaddr_handlers : handlers :=
  mkHandlers print_state print_socket
    (fun c => match c with HostbyaddrCb => gethostbyaddr_callback | _ => no_host c end) no_addrinfo no_data.
Definition getaddrinfo_handlers : handlers :=
  mkHandlers print_state print_socket no_host
    (fun c => match c with AddrinfoCb => getaddrinfo_callback | _ => no_addrinfo c end) no_data.
(** Without a [sock_state_cb] and a socket callback nothing runs. *)
Definition tcpbug_handlers : handlers :=
  mkHandlers (fun _ _ _ => io_ret tt) silent_socket no_host no_addrinfo
    (fun c => match c with QueryPtrCb => tcpbug_query_ptr | _ => no_data c end).

(** ** The programs *)

(** [wait_ares] of each file. *)
Definition hostfile_wait_ares (fuel : nat) : io unit := wait_loop hostfile_handlers false fuel.
Definition mkquery_wait_ares (fuel : nat) : io unit := wait_loop mkquery_handlers false fuel.
Definition query_wait_ares (fuel : nat) : io unit := wait_loop query_handlers false fuel.
Definition ttl_wait_ares (fuel : nat) : io unit := wait_loop ttl_handlers false fuel.
Definition timeouts_wait_ares (fuel : nat) : io unit := wait_loop timeouts_handlers true fuel.
Definition gethostbyname_wait_ares (fuel : nat) : io unit := wait_loop gethostbyname_handlers true fuel.
Definition gethostbyaddr_wait_ares (fuel : nat) : io unit := wait_loop gethostbyaddr_handlers false fuel.
Definition getaddrinfo_wait_ares (fuel : nat) : io unit := wait_loop getaddrinfo_handlers false fuel.
Definition tcpbug_wait_ares (fuel : nat) : io unit := wait_loop tcpbug_handlers false fuel.

(** What every [main] begins with: [notes] are printed after the two steps. *)
Definition start (o : ares_options) (notes : bool) (rest : io Z) : io Z :=
  do! status := ares_library_init ARES_LIB_INIT_ALL in
  if negb (status =? ARES_SUCCESS) then
    do! _ := printf "ares_library_init: %s\n" [Str (strerror status)] in io_ret 1
  else
    do! _ := (if notes then printf "init done\n" [] else io_ret tt) in
    do! status := ares_init_options o in
    if negb (status =? ARES_SUCCESS) then
      do! _ := printf "ares_init_options: %s\n" [Str (strerror status)] in io_ret 1
    else
      do! _ := (if notes then printf "options done\n" [] else io_ret tt) in rest.

(** A query is made, sent and waited for; [rest] comes after it. *)
Definition send_query (h : handlers) (host : list Z) (type id : Z) (c : callback) (wait_ares : io unit) (rest : io Z) : io Z :=
  do! (status, query, p) := ares_create_query host C_IN type id 1 in
  if negb (status =? ARES_SUCCESS) then
    do! _ := printf "ares_create_query: %s\n" [Str (strerror status)] in io_ret 1
  else
    do! _ := ares_ask h (Send query) c in
    do! _ := wait_ares in
    do! _ := ares_free_string p in rest.

(** What every [main] ends with. *)
Definition finish (h : handlers) : io Z :=
  do! _ := ares_destroy h in do! _ := ares_library_cleanup in io_ret 0.

Definition stayopen : ares_options := mkOptions (Some ARES_FLAG_STAYOPEN) None None None.

Definition hostfile_main (fuel : nat) : io Z :=
  let h := hostfile_handlers in
  start (mkOptions (Some ARES_FLAG_STAYOPEN) None None (Some (chars "fb"))) false (
    do! _ := ares_ask h (GetHostByName (chars "google.com") AF_INET) HostbynameCb in
    do! _ := ares_ask h (GetHostByName (chars "zeektest") AF_INET) HostbynameCb in
    do! _ := ares_ask h (GetAddrInfo (chars "zeektest") ARES_AI_CANONNAME AF_UNSPEC) AddrinfoCb in
    do! _ := ares_ask h (GetHostByAddr (inet_pton AF_INET (chars "10.0.0.10")) AF_INET) HostbyaddrCb in
    do! _ := hostfile_wait_ares fuel in
    send_query h (chars "zeektest") T_A 0 QueryACb (hostfile_wait_ares fuel) (finish h)).

Definition mkquery_main (fuel : nat) : io Z :=
  let h := mkquery_handlers in
  start stayopen false (send_query h (chars "google.com") T_A 0 QueryACb (mkquery_wait_ares fuel) (finish h)).

Definition query_main (fuel : nat) : io Z :=
  let h := query_handlers in
  start stayopen false (
    do! _ := ares_ask h (Query (chars "1.1.1.1.in-addr.arpa") C_IN T_PTR) QueryPtrCb in
    do! _ := query_wait_ares fuel in finish h).

Definition ttl_main (fuel : nat) : io Z :=
  let h := ttl_handlers in
  start stayopen false (
    send_query h (chars "google.com") T_A 0 QueryACb (ttl_wait_ares fuel) (
    send_query h (chars "1.1.1.1.in-addr.arpa") T_PTR 3 QueryPtrCb (ttl_wait_ares fuel) (finish h))).

Definition timeouts_main (fuel : nat) : io Z :=
  let h := timeouts_handlers in
  start (mkOptions (Some ARES_FLAG_STAYOPEN) (Some 5) (Some 1) None) false (
    do! _ := on_lib (set_servers (inet_pton AF_INET (chars "3.219.212.117"))) in
    do! _ := ares_ask h (GetHostByName (chars "google.com") AF_INET) HostbynameCb in
    do! _ := timeouts_wait_ares fuel in finish h).

Definition gethostbyname_main (fuel : nat) : io Z :=
  let h := gethostbyname_handlers in
  start stayopen true (
    do! _ := ares_ask h (GetHostByName (chars "google.com") AF_INET) HostbynameCb in
    do! _ := ares_ask h (GetHostByName (chars "apple.com") AF_INET) HostbynameCb in
    do! _ := printf "ares_gethostbyname called\n" [] in
    do! _ := gethostbyname_wait_ares fuel in
    do! _ := ares_ask h (GetHostByName (chars "microsoft.com") AF_INET) HostbynameCb in
    do! _ := gethostbyname_wait_ares fuel in
    do! _ := printf "done waiting\n" [] in
    do! _ := ares_destroy h in
    do! _ := printf "destroyed\n" [] in
    do! _ := ares_library_cleanup in
    do! _ := printf "fin\n" [] in io_ret 0).

Definition getaddrinfo_main (fuel : nat) : io Z :=
  let h := getaddrinfo_handlers in
  start stayopen true (
    do! _ := ares_ask h (GetAddrInfo (chars "one.one.one.one") ARES_AI_CANONNAME AF_UNSPEC) AddrinfoCb in
    do! _ := getaddrinfo_wait_ares fuel in finish h).

Definition gethostbyaddr_main (fuel : nat) : io Z :=
  let h := gethostbyaddr_handlers in
  start stayopen true (
    do! _ := ares_ask h (GetHostByAddr (inet_pton AF_INET (chars "1.1.1.1")) AF_INET) HostbyaddrCb in
    do! _ := gethostbyaddr_wait_ares fuel in finish h).

Definition tcpbug_main (fuel : nat) : io Z :=
  let h := tcpbug_handlers in
  start (mkOptions (Some ARES_FLAG_USEVC) None None None) false (
    do! _ := on_lib (set_servers (inet_pton AF_INET (chars "1.1.1.1"))) in
    send_query h (chars "10.144.253.17.in-addr.arpa") T_PTR 0 QueryPtrCb (tcpbug_wait_ares fuel) (finish h)).
End Ares.
Arguments world : clear implicits.
Arguments handlers : clear implicits.
