(* ===== verification/AresProps.v ===== *)
(** * What the programs of [c-ares/] print and give back

    What c-ares documents of each of its calls is a hypothesis ([documented]): which requests
    are left after it and which callbacks it has run, and that a request is given up in
    time.  From it follows that every program ends, runs its requests'
    callbacks once each, prints what they say of their answers, gives back all memory, the
    channel and the library, and returns 0.  The early returns leave the library open. *)

From stdpp Require Import strings gmap.
From S2P Require Import Prelude Windows Ttl Ares.

(** ** Computations that print *)

Section Prints.
Context {L : Type} (R : resolver L).
Notation sysL := (sys (world L)).
Implicit Types s : sysL.

Definition printed (ls : list line) (w : world L) : world L := mkWorld (lib w) (out w ++ ls).

(** [m] prints [ls] and leaves everything else as it is. *)
Definition prints (m : io (world L) unit) (ls : list line) : Prop :=
  forall s, sys_ok s -> wp m s (fun _ s' => env s' = printed ls (env s) /\ tidy s s').

Lemma printed_nil (w : world L) : printed [] w = w.
Proof using. destruct w. unfold printed. cbn. by rewrite app_nil_r. Qed.

Lemma printed_app l1 l2 (w : world L) : printed l2 (printed l1 w) = printed (l1 ++ l2) w.
Proof using. unfold printed. cbn. by rewrite app_assoc. Qed.

Lemma prints_printf fmt args : prints (printf fmt args) [(fmt, args)].
Proof using. intros s Hs. apply wp_call. intros s' E T. by split. Qed.

Lemma prints_ret : prints (io_ret tt) [].
Proof using. intros s Hs. apply wp_ret. split; [by rewrite printed_nil|apply tidy_refl]. Qed.

Lemma prints_bind m k l1 l2 : prints m l1 -> prints k l2 -> prints (io_bind m (fun _ => k)) (l1 ++ l2).
Proof using.
  intros H1 H2 s Hs. apply wp_bind. eapply wp_mono; [by apply H1|]. intros [] s1 [E1 T1].
  eapply wp_mono; [apply H2; by eapply tidy_ok|]. intros [] s2 [E2 T2].
  split; [by rewrite E2, E1, printed_app|by eapply tidy_trans].
Qed.

Lemma prints_eq m l l' : prints m l -> l = l' -> prints m l'.
Proof using. by intros H <-. Qed.

(** A block that is freed at the end. *)
Lemma prints_block (k : nat -> io (world L) unit) (body : io (world L) unit) ls :
  (forall p s, k p s = io_bind body (fun _ => delete_array p) s) -> prints body ls ->
  prints (io_bind new_array k) ls.
Proof using.
  intros Hk Hb s Hs. apply wp_bind. apply wp_new; [done|]. intros p s1 E1 W.
  unfold wp. rewrite Hk. change (wp (io_bind body (fun _ => delete_array p)) s1
    (fun _ s' => env s' = printed ls (env s) /\ tidy s s')).
  apply wp_bind. eapply wp_mono; [apply Hb; apply W|]. intros [] s2 [E2 T2].
  eapply wp_delete; [by eapply with_array_tidy|]. intros s3 E3 T3.
  split; [by rewrite E3, E2, E1|done].
Qed.

(** ** The lines of the callbacks *)

(** [inet_ntop] knows the two families and writes into a buffer of their size. *)
Definition ntop_known : Prop :=
  (forall a size, INET_ADDRSTRLEN <= size -> is_Some (r_inet_ntop R AF_INET a size)) /\
  (forall a size, INET6_ADDRSTRLEN <= size -> is_Some (r_inet_ntop R AF_INET6 a size)).
Definition text (family : Z) (a : list Z) (size : Z) : arg := Str (default [] (r_inet_ntop R family a size)).

Definition failed_lines (status : Z) : list line := [("Failed to lookup %s\n"%string, [Str (r_strerror R status)])].

(** [ok host] when there is one and the status is success, [bad] otherwise. *)
Definition host_lines (status : Z) (host : option hostent) (bad : list line) (ok : hostent -> list line) : list line :=
  match host with
  | Some host => if status =? ARES_SUCCESS then ok host else bad
  | None => bad
  end.
Definition addr_lines (fmt : string) (host : hostent) : list line :=
  (fun a => (fmt, [text (h_addrtype host) a INET6_ADDRSTRLEN])) <$> h_addr_list host.
Definition node_lines (fmt4 fmt6 : string) (e : addrinfo_node) : list line :=
  if ai_family e =? AF_INET then [(fmt4, [text AF_INET (ai_addr e) INET_ADDRSTRLEN])]
  else if ai_family e =? AF_INET6 then [(fmt6, [text AF_INET6 (ai_addr e) INET6_ADDRSTRLEN])]
  else [].
Definition reply_lines (status : Z) (reply : Z * hostent) (bad good : string) (more : list arg) : list line :=
  if status =? ARES_SUCCESS then
    if reply.1 =? ARES_SUCCESS then [(good, Str (h_name reply.2) :: more)] else [(bad, [Str (r_strerror R reply.1)])]
  else failed_lines status.

Definition known_family (family : Z) : Prop := family = AF_INET \/ family = AF_INET6.

Lemma ntop_into_known family a buf :
  ntop_known -> known_family family ->
  exists t, ntop_into R family a INET6_ADDRSTRLEN buf = Some t /\ Str t = text family a INET6_ADDRSTRLEN.
Proof using.
  intros [H4 H6] [-> | ->]; unfold ntop_into, text.
  - destruct (H4 a INET6_ADDRSTRLEN) as [t ->]; [done|]. by exists t.
  - destruct (H6 a INET6_ADDRSTRLEN) as [t ->]; [done|]. by exists t.
Qed.

Lemma prints_addrs fmt family addrs ip :
  ntop_known -> known_family family ->
  prints (print_addrs R fmt family addrs ip) ((fun a => (fmt, [text family a INET6_ADDRSTRLEN])) <$> addrs).
Proof using.
  intros Hn Hf. revert ip. induction addrs as [|a addrs IH]; intros ip; cbn [print_addrs fmap list_fmap]; [apply prints_ret|].
  destruct (ntop_into_known family a ip Hn Hf) as (t & -> & <-). cbn [print_buf].
  apply (prints_bind _ _ [_]); [apply prints_printf|apply IH].
Qed.

Lemma prints_nodes fmt4 fmt6 entries :
  ntop_known -> prints (print_nodes R fmt4 fmt6 entries) (concat (node_lines fmt4 fmt6 <$> entries)).
Proof using.
  intros Hn. induction entries as [|e entries IH]; cbn [print_nodes fmap list_fmap concat]; [apply prints_ret|].
  apply prints_bind; [|apply IH]. unfold node_lines, ntop_into, text. destruct Hn as [H4 H6].
  destruct (ai_family e =? AF_INET).
  { destruct (H4 (ai_addr e) INET_ADDRSTRLEN) as [t ->]; [done|]. apply prints_printf. }
  destruct (ai_family e =? AF_INET6); [|apply prints_ret].
  destruct (H6 (ai_addr e) INET6_ADDRSTRLEN) as [t ->]; [done|]. apply prints_printf.
Qed.

Lemma prints_parse parse buf bad good more :
  prints (parse_and_print R parse buf bad good more)
    (if (parse buf).1 =? ARES_SUCCESS then [(good, Str (h_name (parse buf).2) :: more)]
     else [(bad, [Str (r_strerror R (parse buf).1)])]).
Proof using.
  unfold parse_and_print. destruct (parse buf) as [r host]. cbn [fst snd].
  destruct (r =? ARES_SUCCESS); cbn [negb]; [|apply prints_printf].
  eapply prints_block; [done|apply prints_printf].
Qed.
End Prints.

(** ** The TTL of an answer, and the memory of the names *)

Section TtlMemory.
Context {L : Type} (R : resolver L).
Notation sysL := (sys (world L)).
Implicit Types s : sysL.

(** With its memory, [get_ttl] answers what [Ttl.get_ttl] answers, and what it leaves
    behind is the name it does not free when the message is too short. *)
Lemma get_ttl_memory abuf r ttl s :
  sys_ok s -> Ttl.get_ttl (r_expand_name R) abuf = Ok (r, ttl) ->
  wp (get_ttl R abuf) s (fun a s' => a = (r, ttl) /\ env s' = env s /\
    (tidy s s' \/ (r = ARES_EBADRESP /\ exists p, with_array p s s'))).
Proof using.
  intros Hs H. unfold Ttl.get_ttl in H. unfold get_ttl.
  destruct (r_expand_name R HFIXEDSZ abuf) as [st n].
  destruct (st =? ARES_SUCCESS); cbn [negb] in *.
  2:{ injection H as <- <-. apply wp_ret. split; [done|]. split; [done|]. left. apply tidy_refl. }
  apply wp_bind, wp_new; [done|]. intros p s1 E1 W1.
  destruct (length abuf <? HFIXEDSZ + n + QFIXEDSZ)%nat.
  { injection H as <- <-. apply wp_ret. split; [done|]. split; [done|]. right. split; [done|]. by exists p. }
  apply wp_bind. eapply wp_delete; [exact W1|]. intros s2 E2 T2.
  destruct (r_expand_name R _ abuf) as [st' n'].
  destruct (st' =? ARES_SUCCESS); cbn [negb] in *.
  2:{ injection H as <- <-. apply wp_ret. split; [done|]. split; [by rewrite E2, E1|]. by left. }
  apply wp_bind, wp_new; [by eapply tidy_ok|]. intros p' s3 E3 W3.
  assert (env s3 = env s) as Es by (by rewrite E3, E2, E1).
  destruct (length abuf <? _)%nat.
  { injection H as <- <-. apply wp_ret. split; [done|]. split; [done|]. right. split; [done|]. exists p'.
    destruct W3 as [F A N Hh O], T2 as [A2 N2 H2]. split; [by rewrite <- A2|by rewrite A, A2|lia|by rewrite Hh, H2|done]. }
  apply wp_bind. eapply wp_delete; [exact W3|]. intros s4 E4 T4.
  destruct (DNS_RR_TTL abuf _) as [v| | |]; [|done..]. cbn [res_bind] in H. injection H as <- <-.
  apply wp_ret. split; [done|]. split; [by rewrite E4|]. left. by eapply tidy_trans.
Qed.

(** A message that ends before the first record: the name of its question stays
    allocated. *)
Theorem get_ttl_leaks abuf n s :
  sys_ok s -> r_expand_name R HFIXEDSZ abuf = (ARES_SUCCESS, n) -> (length abuf < HFIXEDSZ + n + QFIXEDSZ)%nat ->
  exists s' p, get_ttl R abuf s = Ok ((ARES_EBADRESP, None), s') /\ with_array p s s'.
Proof using.
  intros Hs En Hl. unfold get_ttl. rewrite En, Z.eqb_refl. cbn [negb].
  destruct (new_array_ok s Hs) as (s1 & E1 & V1 & Hs1 & N1 & A1 & H1). step_io E1.
  destruct (Nat.ltb_spec (length abuf) (HFIXEDSZ + n + QFIXEDSZ)); [|lia].
  exists s1, (next_array s). split; [done|]. split; [|done|lia|done|done].
  intros Hp. specialize (Hs _ Hp). lia.
Qed.

(** A whole message: not one of those. *)
Definition whole (abuf : list Z) : Prop :=
  exists r ttl, Ttl.get_ttl (r_expand_name R) abuf = Ok (r, ttl) /\ r <> ARES_EBADRESP /\
    (r = ARES_SUCCESS -> ttl <> None).

Definition ttl_lines (status : Z) (abuf : list Z) (bad bad_reply good : string) (reply : Z * hostent) : list line :=
  if status =? ARES_SUCCESS then
    match Ttl.get_ttl (r_expand_name R) abuf with
    | Ok (r, Some ttl) =>
        if r =? ARES_SUCCESS then reply_lines R status reply bad_reply good [Int ttl]
        else [(bad, [Str (r_strerror R r)])]
    | Ok (r, None) => [(bad, [Str (r_strerror R r)])]
    | _ => []
    end
  else failed_lines R status.

Lemma prints_ttl status abuf bad bad_reply good (parse : list Z -> Z * hostent) :
  whole abuf ->
  prints (if negb (status =? ARES_SUCCESS) then failed R status
          else do! (r, ttl) := get_ttl R abuf in
               if negb (r =? ARES_SUCCESS) then printf bad [Str (r_strerror R r)]
               else match ttl with
                    | Some ttl => parse_and_print R parse abuf bad_reply good [Int ttl]
                    | None => io_ub
                    end)
    (ttl_lines status abuf bad bad_reply good (parse abuf)).
Proof using.
  intros (r & ttl & E & Hr & Httl). unfold ttl_lines. rewrite E.
  destruct (status =? ARES_SUCCESS) eqn:Es; cbn [negb]; [|apply prints_printf].
  intros s Hs. apply wp_bind. eapply wp_mono; [by apply get_ttl_memory|].
  intros a s1 (-> & E1 & [T1|[? _]]); [|done].
  assert (sys_ok s1) as Hs1 by by eapply tidy_ok.
  assert (forall m ls, prints m ls -> wp m s1 (fun _ s' => env s' = printed ls (env s) /\ tidy s s')) as Hgo.
  { intros m ls Hm. eapply wp_mono; [by apply Hm|]. intros [] s2 [E2 T2].
    split; [by rewrite E2, E1|by eapply tidy_trans]. }
  destruct (Z.eqb_spec r ARES_SUCCESS) as [->|]; cbn [negb].
  - destruct ttl as [ttl|]; [|by destruct (Httl eq_refl)]. apply Hgo. unfold reply_lines. rewrite Es.
    apply prints_parse.
  - apply Hgo. destruct ttl; apply prints_printf.
Qed.
End TtlMemory.

(** ** What each program shows of an event *)

Section Shows.
Context {L : Type} (R : resolver L).

Definition state_lines (fd read write : Z) : list line :=
  [("Change state fd %d read:%d write:%d\n"%string, [Int fd; Int read; Int write])].
Definition socket_lines (fd type : Z) : list line := [("%d %d\n"%string, [Int fd; Int type])].

Definition addrinfo_lines (head tail : ares_addrinfo -> list line) (fmt4 fmt6 : string) (status : Z)
    (result : option ares_addrinfo) : list line :=
  if status =? ARES_SUCCESS then
    match result with
    | Some r => head r ++ concat (node_lines R fmt4 fmt6 <$> nodes r) ++ tail r
    | None => []
    end
  else [("Failed addrinfo request: %s\n"%string, [Str (r_strerror R status)])].

Definition found_lines (host : hostent) : list line :=
  ("Found address name %s\n"%string, [Str (h_name host)]) :: addr_lines R "%s\n" host.

(** The lines of an answer, program by program. *)
Definition hostfile_shows (c : callback) (a : answer) : list line :=
  match c, a with
  | HostbynameCb, Host status timeouts host =>
      host_lines status host (failed_lines R status ++ [("timeouts: %d\n"%string, [Int timeouts])])
        (fun h => ("hostbyname: %s = "%string, [Str (h_name h)]) :: addr_lines R "%s " h ++ [("\n"%string, [])])
  | HostbyaddrCb, Host status _ host =>
      host_lines status host (failed_lines R status)
        (fun h => (match h_addr_list h with
                   | a :: _ => [("hostbyaddr: %s = "%string, [text R AF_INET a INET_ADDRSTRLEN])]
                   | [] => []
                   end) ++ [("%s\n"%string, [Str (h_name h)])])
  | AddrinfoCb, Addr status _ result =>
      addrinfo_lines (fun r => [("addrinfo: %s = "%string, [Str (name r)])]) (fun _ => [("\n"%string, [])])
        "%s " "%s " status result
  | QueryACb, Data status _ buf =>
      reply_lines R status (r_parse_a_reply R buf) "Failed to parse A record %s\n" "query_a_callback parsed host: %s\n" []
  | _, _ => []
  end.
Definition query_shows (ptr_bad ptr_good : string) (c : callback) (a : answer) : list line :=
  match c, a with
  | QueryACb, Data status _ buf =>
      reply_lines R status (r_parse_a_reply R buf) "Failed to parse A record %s\n" "query_a_callback parsed host: %s\n" []
  | QueryPtrCb, Data status _ buf => reply_lines R status (r_parse_ptr_reply R buf) ptr_bad ptr_good []
  | _, _ => []
  end.
Definition ttl_shows (c : callback) (a : answer) : list line :=
  match c, a with
  | QueryACb, Data status _ buf =>
      ttl_lines R status buf "Failed to get TTL from A record %s\n" "Failed to parse A record %s\n"
        "query_a_callback parsed host: %s (ttl %d)\n" (r_parse_a_reply R buf)
  | QueryPtrCb, Data status _ buf =>
      ttl_lines R status buf "Failed to get TTL from PTR record %s\n" "Failed to parse PTR record %s\n"
        "query_ptr_callback parsed host: %s (ttl %d)\n" (r_parse_ptr_reply R buf)
  | _, _ => []
  end.
Definition host_shows (timeout_line : bool) (with_addrs : bool) (c : callback) (a : answer) : list line :=
  match a with
  | Host status timeouts host =>
      host_lines status host
        (failed_lines R status ++ if timeout_line then [("timeouts: %d\n"%string, [Int timeouts])] else [])
        (fun h => if with_addrs then found_lines h else [("Found address name %s\n"%string, [Str (h_name h)])])
  | _ => []
  end.
Definition getaddrinfo_shows (c : callback) (a : answer) : list line :=
  match a with
  | Addr status _ result =>
      addrinfo_lines (fun _ => []) (fun _ => []) "found new ipv4 address %s\n" "found new ipv6 address %s\n" status result
  | _ => []
  end.

(** The lines of an event, from those of a program's answers, of its states and sockets. *)
Definition lines (state socket : bool) (shows : callback -> answer -> list line) (e : event) : list line :=
  match e with
  | SockCreated fd type => if socket then socket_lines fd type else []
  | SockState fd read write => if state then state_lines fd read write else []
  | Done c a => shows c a
  end.

(** An answer of the kind that the request's callback takes: the hosts have a known family,
    a reverse lookup of an IPv4 address gives that address back, a success comes with its
    result; [fine] is said of messages. *)
Definition answer_ok (fine : list Z -> Prop) (c : callback) (a : answer) : Prop :=
  match c, a with
  | HostbynameCb, Host _ _ host => forall h, host = Some h -> known_family (h_addrtype h)
  | HostbyaddrCb, Host _ _ host => forall h, host = Some h -> h_addrtype h = AF_INET /\ h_addr_list h <> []
  | AddrinfoCb, Addr status _ result => status = ARES_SUCCESS -> result <> None
  | QueryACb, Data status _ buf | QueryPtrCb, Data status _ buf => fine buf
  | _, _ => False
  end.
Definition event_ok (fine : list Z -> Prop) (asked : callback -> Prop) (e : event) : Prop :=
  match e with Done c a => asked c /\ answer_ok fine c a | _ => True end.

(** A program's callbacks print its lines. *)
Definition well_handled (h : handlers L) (fine : list Z -> Prop) (asked : callback -> Prop) (ls : event -> list line) : Prop :=
  forall e, event_ok fine asked e -> prints (dispatch h e) (ls e).
End Shows.

Section Handled.
Context {L : Type} (R : resolver L) (Hn : ntop_known R).

Lemma prints_failed (m : io (world L) unit) ls (status : Z) :
  (status = ARES_SUCCESS -> prints m ls) ->
  prints (if negb (status =? ARES_SUCCESS) then failed R status else m)
    (if status =? ARES_SUCCESS then ls else failed_lines R status).
Proof using.
  intros Hm. destruct (Z.eqb_spec status ARES_SUCCESS) as [E|]; cbn [negb]; [by apply Hm|apply prints_printf].
Qed.

Lemma prints_host status host (bad : io (world L) unit) ok lbad (lok : hostent -> list line) :
  prints bad lbad -> (forall h, host = Some h -> prints (ok h) (lok h)) ->
  prints (match host with
          | Some h => if negb (status =? ARES_SUCCESS) then bad else ok h
          | None => bad
          end) (host_lines status host lbad lok).
Proof using.
  intros Hb Hok. unfold host_lines. destruct host as [h|]; [|done].
  destruct (status =? ARES_SUCCESS); cbn [negb]; [by apply Hok|done].
Qed.

Lemma prints_found h : known_family (h_addrtype h) ->
  prints (do! _ := printf "Found address name %s\n" [Str (h_name h)] in
          print_addrs R "%s\n" (h_addrtype h) (h_addr_list h) None) (found_lines R h).
Proof using Hn.
  intros Hf. apply (prints_bind _ _ [_] (addr_lines R "%s\n" h)); [apply prints_printf|by apply prints_addrs].
Qed.

Lemma prints_timeout status timeouts :
  prints (do! _ := failed R status in printf "timeouts: %d\n" [Int timeouts])
    (failed_lines R status ++ [("timeouts: %d\n"%string, [Int timeouts])]).
Proof using. apply prints_bind; apply prints_printf. Qed.

(** An [ares_addrinfo] is printed and freed. *)
Lemma prints_addrinfo (cb : Z -> Z -> option ares_addrinfo -> option nat -> io (world L) unit) status timeouts result
    (body : ares_addrinfo -> io (world L) unit) head tail fmt4 fmt6 :
  (status = ARES_SUCCESS -> result <> None) ->
  (forall r, prints (body r) (head r ++ concat (node_lines R fmt4 fmt6 <$> nodes r) ++ tail r)) ->
  (forall p s, cb status timeouts result p s =
     (if negb (status =? ARES_SUCCESS)
      then do! _ := printf "Failed addrinfo request: %s\n" [Str (r_strerror R status)] in ares_freeaddrinfo p
      else match result with
           | Some r => do! _ := body r in ares_freeaddrinfo p
           | None => io_ub
           end) s) ->
  prints (match result with
          | Some r => do! p := new_array in cb status timeouts (Some r) (Some p)
          | None => cb status timeouts None None
          end) (addrinfo_lines R head tail fmt4 fmt6 status result).
Proof using.
  intros Hr Hb Hcb. unfold addrinfo_lines.
  destruct (Z.eqb_spec status ARES_SUCCESS) as [E|E]; cbn [negb] in *.
  - destruct result as [r|]; [|by destruct (Hr E)]. eapply prints_block; [|apply Hb].
    intros p s. rewrite Hcb. done.
  - destruct result as [r|].
    + eapply prints_block; [|apply prints_printf]. intros p s. rewrite Hcb. done.
    + intros s Hs. unfold wp. rewrite Hcb.
      apply (prints_bind _ (io_ret tt) [_] []); [apply prints_printf|apply prints_ret|done].
Qed.

Lemma prints_socket fd type :
  prints (do! _ := print_socket (L:=L) fd type in io_ret tt) (socket_lines fd type).
Proof using.
  intros s Hs. exact (prints_printf "%d %d\n" [Int fd; Int type] s Hs).
Qed.

(** The lines of a parsed reply, also when the lookup failed. *)
Lemma prints_reply parse buf bad good status :
  prints (if negb (status =? ARES_SUCCESS) then failed R status else parse_and_print R parse buf bad good [])
    (reply_lines R status (parse buf) bad good []).
Proof using. unfold reply_lines. apply prints_failed. intros _. apply prints_parse. Qed.

(** The cases of an event: the kind of answer that does not fit the callback is gone. *)
Ltac handled :=
  intros [fd type|fd rd wr|[] a] He; cbn [dispatch lines event_ok answer_ok] in *;
  [first [apply prints_ret | apply prints_socket]|first [apply prints_ret | apply prints_printf]|..];
  destruct He as [Hasked He]; try (by destruct Hasked); destruct a as [st tm host|st tm result|st tm buf]; try done.

Lemma hostfile_handled :
  well_handled (hostfile_handlers R) (fun _ => True) (fun c => c <> QueryPtrCb) (lines true false (hostfile_shows R)).
Proof using Hn.
  handled.
  - cbn. apply prints_host; [apply prints_timeout|]. intros h ->.
    apply (prints_bind _ _ [_]); [apply prints_printf|]. apply prints_bind; [apply prints_addrs; auto|apply prints_printf].
  - cbn. apply prints_host; [apply prints_printf|]. intros h ->. destruct (He h eq_refl) as [Ef Ha].
    rewrite Ef. cbn [Z.eqb AF_INET orb]. destruct (h_addr_list h) as [|a l]; [done|].
    apply prints_bind; [|apply prints_printf]. unfold ntop_into, text. destruct Hn as [H4 _].
    destruct (H4 a INET_ADDRSTRLEN) as [t ->]; [done|]. apply prints_printf.
  - refine (prints_addrinfo (addrinfo_cb R) st tm result
      (fun r => do! _ := printf "addrinfo: %s = " [Str (name r)] in
                do! _ := print_nodes R "%s " "%s " (nodes r) in printf "\n" [])
      (fun r => [("addrinfo: %s = "%string, [Str (name r)])]) (fun _ => [("\n"%string, [])]) "%s " "%s " He _ _).
    2:{ intros p s. unfold addrinfo_cb. destruct (negb _); [done|]. destruct result as [r|]; [|done].
        unfold io_bind, printf, call. cbn [res_bind]. by destruct (print_nodes R _ _ _ _) as [[]| | |]. }
    intros r. apply prints_bind; [apply prints_printf|]. apply prints_bind; [by apply prints_nodes|apply prints_printf].
  - apply prints_reply.
Qed.

Lemma mkquery_handled :
  well_handled (mkquery_handlers R) (fun _ => True) (fun c => c = QueryACb \/ c = QueryPtrCb)
    (lines true false (query_shows R "Failed to parse NS record %s\n" "query_ptr_callback parsed host: %s\n")).
Proof using. handled; apply prints_reply. Qed.

Lemma query_handled :
  well_handled (query_handlers R) (fun _ => True) (fun c => c = QueryACb \/ c = QueryPtrCb)
    (lines true false (query_shows R "Failed to parse NS record %s\n" "ptr_callback parsed host: %s\n")).
Proof using. handled; apply prints_reply. Qed.

Lemma tcpbug_handled :
  well_handled (tcpbug_handlers R) (fun _ => True) (fun c => c = QueryPtrCb)
    (lines false false (query_shows R "Failed to parse PTR record %s\n" "query_ptr_callback parsed host: %s\n")).
Proof using. handled; apply prints_reply. Qed.

Lemma ttl_handled :
  well_handled (ttl_handlers R) (whole R) (fun c => c = QueryACb \/ c = QueryPtrCb) (lines true false (ttl_shows R)).
Proof using. handled; by apply prints_ttl. Qed.

Lemma timeouts_handled :
  well_handled (timeouts_handlers R) (fun _ => True) (fun c => c = HostbynameCb) (lines true true (host_shows R true true)).
Proof using Hn. handled. apply prints_host; [apply prints_timeout|]. intros h ->. apply prints_found; auto. Qed.

Lemma gethostbyname_handled :
  well_handled (gethostbyname_handlers R) (fun _ => True) (fun c => c = HostbynameCb) (lines true true (host_shows R false true)).
Proof using Hn. handled. apply prints_host; [apply prints_printf|]. intros h ->. apply prints_found; auto. Qed.

Lemma gethostbyaddr_handled :
  well_handled (gethostbyaddr_handlers R) (fun _ => True) (fun c => c = HostbyaddrCb) (lines true true (host_shows R false false)).
Proof using. handled. apply prints_host; [apply prints_printf|]. intros h ->. apply prints_printf. Qed.

Lemma getaddrinfo_handled :
  well_handled (getaddrinfo_handlers R) (fun _ => True) (fun c => c = AddrinfoCb) (lines true true (getaddrinfo_shows R)).
Proof using Hn.
  handled. refine (prints_addrinfo (getaddrinfo_callback R) st tm result
    (fun r => print_nodes R "found new ipv4 address %s\n" "found new ipv6 address %s\n" (nodes r)) (fun _ => []) (fun _ => []) "found new ipv4 address %s\n" "found new ipv6 address %s\n" He _ _); [|done].
  intros r. rewrite app_nil_r. by apply prints_nodes.
Qed.
End Handled.

(** ** What c-ares documents *)

(** The callbacks that an event list runs. *)
Definition completed (es : list event) : list callback :=
  omap (fun e => match e with Done c _ => Some c | _ => None end) es.

Definition answers_fit (fine : list Z -> Prop) (es : list event) : Prop :=
  Forall (fun e => match e with Done c a => answer_ok fine c a | _ => True end) es.

(** A request that is not over: its callback, and the time when it is given up. *)
Notation pending_request := (callback * nat)%type.

(** A call of the library, event by event: the callback of a request that is not over runs
    with an answer of its kind, and from then on the request is over. *)
Inductive answering (fine : list Z -> Prop) : list pending_request -> list event -> list pending_request -> Prop :=
| ans_end p : answering fine p [] p
| ans_socket p fd type es p' : answering fine p es p' -> answering fine p (SockCreated fd type :: es) p'
| ans_state p fd read write es p' : answering fine p es p' -> answering fine p (SockState fd read write :: es) p'
| ans_done p1 c due p2 a es p' : answer_ok fine c a -> answering fine (p1 ++ p2) es p' ->
    answering fine (p1 ++ (c, due) :: p2) (Done c a :: es) p'.

(** What c-ares says of its calls, one by one, in terms of the requests that are not over
    and of a clock.  A request is one of them, unless its callback runs at once, and it is
    given up at most [H] later (its timeout, as often as it is tried); a round of waiting
    and processing takes time, runs callbacks of such requests, and leaves none that is
    due; [ares_fds] is 0 when there is none; [ares_destroy] runs the callbacks of those
    that are left. *)
Record documented {L} (R : resolver L) (fine : list Z -> Prop) (pending : L -> list pending_request) (now : L -> nat)
    (H : nat) : Prop := mkDocumented {
  doc_init : forall n l, let l' := (r_library_init R n l).2 in pending l' = pending l /\ (now l <= now l')%nat;
  doc_options : forall o l, let l' := (r_init_options R o l).2 in pending l' = pending l /\ (now l <= now l')%nat;
  doc_servers : forall a l, let l' := (r_set_servers R a l).2 in pending l' = pending l /\ (now l <= now l')%nat;
  doc_create : forall host class type id rd l,
    let l' := (r_create_query R host class type id rd l).2 in pending l' = pending l /\ (now l <= now l')%nat;
  doc_ask : forall r c l, let '(es, l') := r_ask R r c l in
    exists due, (due <= now l + H)%nat /\ answering fine ((c, due) :: pending l) es (pending l') /\ (now l <= now l')%nat;
  doc_process : forall l, pending l <> [] -> let '(es, l') := r_process R l in
    answering fine (pending l) es (pending l') /\ (now l < now l')%nat /\
    Forall (fun p => (now l' < p.2)%nat) (pending l');
  doc_fds : forall l, r_fds R l = 0 <-> pending l = [];
  doc_destroy : forall l, let '(es, l') := r_destroy R l in
    answering fine (pending l) es [] /\ pending l' = [] /\ (now l <= now l')%nat
}.

Lemma answering_ok fine p es p' : answering fine p es p' ->
  completed es ++ p'.*1 ≡ₚ p.*1 /\ answers_fit fine es /\ (forall P, Forall P p -> Forall P p').
Proof.
  induction 1 as [p|p fd type es p' _ (H1 & H2 & H3)|p fd rd wr es p' _ (H1 & H2 & H3)|p1 c due p2 a es p' Ha _ (H1 & H2 & H3)].
  - split; [done|]. split; [constructor|done].
  - split; [done|]. split; [by constructor|done].
  - split; [done|]. split; [by constructor|done].
  - split; [|split].
    + change (c :: completed es ++ p'.*1 ≡ₚ (p1 ++ (c, due) :: p2).*1). rewrite H1, !fmap_app. cbn.
      by rewrite <- Permutation_middle.
    + by constructor.
    + intros P HP. apply H3. apply Forall_app in HP as [HP1 HP2]. apply Forall_cons in HP2 as [_ HP2].
      by apply Forall_app.
Qed.

(** What a run shows: the program's own lines, and events. *)
Inductive item := Note (l : line) | Happened (e : event).
Definition shown (ls : event -> list line) (i : item) : list line :=
  match i with Note l => [l] | Happened e => ls e end.
Definition happened (items : list item) : list event :=
  omap (fun i => match i with Happened e => Some e | Note _ => None end) items.

Section Runs.
Context {L : Type} (R : resolver L) (h : handlers L).
Context (fine : list Z -> Prop) (asked : callback -> Prop) (ls : event -> list line).
Context (waiting : L -> list pending_request) (now : L -> nat) (H : nat).
Context (Hh : well_handled h fine asked ls) (D : documented R fine waiting now H).
Notation sysL := (sys (world L)).
Implicit Types s : sysL.
Notation active l := ((waiting l).*1).
Notation pending s := (active (lib (env s))).

(** No request is given up later than [H] from now. *)
Definition in_time (l : L) : Prop := Forall (fun p => (p.2 <= now l + H)%nat) (waiting l).

(** A call that only takes time. *)
Definition only_time (l l' : L) : Prop := waiting l' = waiting l /\ (now l <= now l')%nat.

Lemma in_time_later l l' : in_time l -> only_time l l' -> in_time l'.
Proof using.
  unfold in_time. intros Hl [-> Ht]. eapply Forall_impl; [exact Hl|]. cbn. intros. lia.
Qed.

(** From [s0] to [s] the requests [reqs] were made, and nothing but lines and events came
    of it. *)
Record since s0 (reqs : list callback) s : Prop := mkSince {
  since_ok : sys_ok s;
  since_asked : Forall asked (pending s);
  since_tidy : tidy s0 s;
  since_due : in_time (lib (env s));
  since_items : exists items, out (env s) = out (env s0) ++ concat (shown ls <$> items) /\
    completed (happened items) ++ pending s ≡ₚ reqs ++ pending s0
}.

Lemma happened_app l1 l2 : happened (l1 ++ l2) = happened l1 ++ happened l2.
Proof using. apply omap_app. Qed.
Lemma completed_app l1 l2 : completed (l1 ++ l2) = completed l1 ++ completed l2.
Proof using. apply omap_app. Qed.

Lemma since_refl s : sys_ok s -> Forall asked (pending s) -> in_time (lib (env s)) -> since s [] s.
Proof using. intros Hs Ha Ht. split; [done|done|apply tidy_refl|done|]. exists []. cbn. by rewrite app_nil_r. Qed.

(** Items are added, the rest of the program's state is as before. *)
Lemma since_more s0 reqs s items more s' :
  since s0 reqs s -> tidy s s' -> Forall asked (pending s') -> in_time (lib (env s')) ->
  out (env s') = out (env s) ++ concat (shown ls <$> items) ->
  completed (happened items) ++ pending s' ≡ₚ more ++ pending s ->
  since s0 (reqs ++ more) s'.
Proof using.
  intros [Hs Ha T Ht (items0 & Ho & Hp)] T' Ha' Ht' Ho' Hp'.
  split; [by eapply tidy_ok|done|by eapply tidy_trans|done|]. exists (items0 ++ items). split.
  - by rewrite Ho', Ho, fmap_app, concat_app, app_assoc.
  - rewrite happened_app, completed_app, <- app_assoc, Hp'.
    rewrite (Permutation_app_swap_app _ more), Hp, (Permutation_app_swap_app more reqs). by rewrite app_assoc.
Qed.

Lemma since_print s0 reqs s fmt args (Q : unit -> sysL -> Prop) :
  since s0 reqs s -> (forall s', since s0 reqs s' -> lib (env s') = lib (env s) -> Q tt s') -> wp (printf fmt args) s Q.
Proof using.
  intros S HQ. apply wp_call. intros s' E T. assert (lib (env s') = lib (env s)) as Ep by by rewrite E.
  apply HQ; [|done]. rewrite <- (app_nil_r reqs).
  apply (since_more s0 reqs s [Note (fmt, args)] [] s' S T); [rewrite Ep; apply S..|by rewrite E|by rewrite Ep].
Qed.

(** A call of the library that runs no callback. *)
Lemma since_lib {A} (f : L -> A * L) s0 reqs s (Q : A -> sysL -> Prop) :
  since s0 reqs s -> (forall l, only_time l (f l).2) ->
  (forall s', since s0 reqs s' -> lib (env s') = (f (lib (env s))).2 -> Q (f (lib (env s))).1 s') ->
  wp (on_lib f) s Q.
Proof using.
  intros S Hf HQ. apply wp_call. intros s' E T. destruct (f (lib (env s))) as [a l] eqn:Ef. cbn [fst snd] in *.
  assert (only_time (lib (env s)) (lib (env s'))) as Ht by (rewrite E; cbn; specialize (Hf (lib (env s))); by rewrite Ef in Hf).
  pose proof (proj1 Ht) as Ep. apply HQ; [|by rewrite E]. rewrite <- (app_nil_r reqs).
  apply (since_more s0 reqs s [] [] s' S T); [rewrite Ep; apply S|by eapply in_time_later; [apply S|]|
    by rewrite E; cbn; rewrite app_nil_r|by rewrite Ep].
Qed.

(** The callbacks of a list of events. *)
Lemma wp_dispatch_all es s (Q : unit -> sysL -> Prop) :
  Forall (event_ok fine asked) es -> sys_ok s ->
  (forall s', env s' = printed (concat (ls <$> es)) (env s) -> tidy s s' -> Q tt s') ->
  wp (dispatch_all h es) s Q.
Proof using Hh.
  intros He. revert s Q. induction He as [|e es He Hes IH]; intros s Q Hs HQ; cbn [dispatch_all].
  - apply wp_ret, HQ; [by rewrite printed_nil|apply tidy_refl].
  - apply wp_bind. eapply wp_mono; [by apply (Hh e He)|]. intros [] s1 [E1 T1].
    apply IH; [by eapply tidy_ok|]. intros s2 E2 T2. apply HQ; [|by eapply tidy_trans].
    by rewrite E2, E1, printed_app.
Qed.

Lemma events_asked es l l0 :
  answers_fit fine es -> completed es ++ l ≡ₚ l0 -> Forall asked l0 -> Forall (event_ok fine asked) es /\ Forall asked l.
Proof using.
  intros Hf Hp Ha. rewrite <- Hp in Ha. apply Forall_app in Ha as [Hc Hl]. split; [|done]. clear Hp Hl.
  induction Hf as [|e es He Hes IH]; [constructor|]. destruct e as [| |c a]; cbn in *.
  - constructor; [done|by apply IH].
  - constructor; [done|by apply IH].
  - apply Forall_cons in Hc as [Hc Hcs]. constructor; [done|by apply IH].
Qed.

Lemma concat_happened es : concat (shown ls <$> (Happened <$> es)) = concat (ls <$> es).
Proof using. by rewrite <- list_fmap_compose. Qed.
Lemma happened_events es : happened (Happened <$> es) = es.
Proof using. induction es as [|e es IH]; [done|]. cbn. f_equal. exact IH. Qed.

(** A library call whose events are dispatched. *)
Lemma since_events (f : L -> list event * L) more s0 reqs s (Q : unit -> sysL -> Prop) :
  since s0 reqs s ->
  (let '(es, l') := f (lib (env s)) in
    completed es ++ active l' ≡ₚ more ++ pending s /\ answers_fit fine es /\ in_time l') ->
  Forall asked more ->
  (forall s', since s0 (reqs ++ more) s' -> lib (env s') = (f (lib (env s))).2 -> Q tt s') ->
  wp (do! es := on_lib f in dispatch_all h es) s Q.
Proof using Hh.
  intros S Hf Hm HQ. destruct (f (lib (env s))) as [es l'] eqn:Ef. destruct Hf as (Hp & Hfit & Ht).
  destruct (events_asked es (active l') (more ++ pending s) Hfit Hp) as [He Ha].
  { apply Forall_app. split; [done|apply S]. }
  apply wp_bind, wp_call. rewrite Ef. cbn [fst snd]. intros s1 E1 T1.
  apply wp_dispatch_all; [done|eapply tidy_ok; [apply S|done]|]. intros s2 E2 T2.
  assert (lib (env s2) = l') as El by (rewrite E2, E1; done).
  apply HQ; [|done].
  apply (since_more s0 reqs s (Happened <$> es) more s2 S); [by eapply tidy_trans|by rewrite El|by rewrite El|..].
  - by rewrite concat_happened, E2, E1.
  - by rewrite happened_events, El.
Qed.

(** What is left of the requests in time is in time later. *)
Lemma in_time_fewer l l' more es :
  in_time l -> answering fine (more ++ waiting l) es (waiting l') -> (now l <= now l')%nat ->
  Forall (fun p => (p.2 <= now l + H)%nat) more -> in_time l'.
Proof using.
  intros Hl A Ht Hm. apply answering_ok in A as (_ & _ & A).
  assert (Forall (fun p => (p.2 <= now l + H)%nat) (waiting l')) as Hf by (apply A, Forall_app; by split).
  eapply Forall_impl; [exact Hf|]. cbn. intros. lia.
Qed.

Lemma since_ask r c s0 reqs s (Q : unit -> sysL -> Prop) :
  since s0 reqs s -> asked c -> (forall s', since s0 (reqs ++ [c]) s' -> Q tt s') -> wp (ares_ask R h r c) s Q.
Proof using Hh D.
  intros S Hc HQ. apply (since_events _ [c] s0 reqs s Q S); [|by constructor|].
  - pose proof (doc_ask _ _ _ _ _ D r c (lib (env s))) as Ha. destruct (r_ask R r c _) as [es l'].
    destruct Ha as (due & Hd & A & Ht). pose proof (answering_ok _ _ _ _ A) as (H1 & H2 & _).
    split; [done|]. split; [done|]. eapply (in_time_fewer _ _ [(c, due)]); [apply S|exact A|done|by constructor].
  - intros s' S' _. by apply HQ.
Qed.

(** Waiting ends: while a request is left time passes, and at [T] all are given up. *)
Lemma since_wait_until T chatty fuel s0 reqs s (Q : unit -> sysL -> Prop) :
  since s0 reqs s -> Forall (fun p => (p.2 <= T)%nat) (waiting (lib (env s))) ->
  (S (T - now (lib (env s))) < fuel)%nat ->
  (forall s', since s0 reqs s' -> Q tt s') -> wp (wait_loop R h chatty fuel) s Q.
Proof using Hh D.
  revert s. induction fuel as [|fuel IH]; intros s S HT Hf HQ; [lia|]. cbn [wait_loop].
  apply wp_bind. apply (since_lib _ s0 reqs); [done|by split|]. intros s1 S1 E1. cbn [fst snd] in *.
  destruct (Z.eqb_spec (r_fds R (lib (env s))) 0) as [|Hne]; [apply wp_ret; by apply HQ|].
  assert (forall fmt s Q, since s0 reqs s -> (forall s', since s0 reqs s' -> lib (env s') = lib (env s) -> Q tt s') ->
    wp (if chatty then printf fmt [] else io_ret tt) s Q) as Hchat.
  { intros fmt s2 Q2 S2 HQ2. destruct chatty; [by apply (since_print s0 reqs)|apply wp_ret; by apply HQ2]. }
  apply wp_bind, Hchat; [done|]. intros s2 S2 E2. apply wp_bind, Hchat; [done|]. intros s3 S3 E3.
  assert (lib (env s3) = lib (env s)) as El by (by rewrite E3, E2).
  pose proof (doc_process _ _ _ _ _ D (lib (env s)) ltac:(by rewrite <- (doc_fds _ _ _ _ _ D))) as Hp.
  destruct (r_process R (lib (env s))) as [es l'] eqn:Ep. destruct Hp as (A & Hnow & Hdue).
  pose proof (answering_ok _ _ _ _ A) as (H1 & H2 & H3).
  apply wp_bind. apply (since_events _ [] s0 reqs); [done| |constructor|].
  { rewrite El, Ep. split; [done|]. split; [done|].
    apply (in_time_fewer (lib (env s)) l' [] es); [apply S|done|lia|constructor]. }
  intros s4 S4 E4. rewrite app_nil_r in S4. rewrite El, Ep in E4. cbn in E4.
  apply wp_bind, Hchat; [done|]. intros s5 S5 E5. rewrite E4 in E5.
  assert (Forall (fun p => (p.2 <= T)%nat) (waiting l')) as HT' by by apply H3.
  destruct (waiting l') as [|p rest] eqn:Ew.
  - (* nothing is left: the next round is the last *)
    destruct fuel as [|fuel]; [lia|]. cbn [wait_loop].
    apply wp_bind. apply (since_lib _ s0 reqs); [done|by split|]. intros s6 S6 E6. cbn [fst].
    rewrite E5, (proj2 (doc_fds _ _ _ _ _ D l') Ew). by apply wp_ret, HQ.
  - apply IH; [done|by rewrite E5, Ew| |done]. rewrite E5.
    apply Forall_cons in Hdue as [Hd _]. apply Forall_cons in HT' as [HTp _]. lia.
Qed.

Lemma since_wait chatty fuel s0 reqs s (Q : unit -> sysL -> Prop) :
  since s0 reqs s -> (S H < fuel)%nat ->
  (forall s', since s0 reqs s' -> Q tt s') -> wp (wait_loop R h chatty fuel) s Q.
Proof using Hh D.
  intros S Hf. apply (since_wait_until (now (lib (env s)) + H) chatty fuel s0 reqs s); [done|apply S|lia].
Qed.

(** ** The frame of a program *)

(** [s] with [hs] open. *)
Definition based (hs : list Z) s : sysL := mkSys (env s) (arrays s) (next_array s) (hs ++ Windows.handles s).

Lemma since_rebase hs hs' s0 reqs s s' :
  since (based hs s0) reqs s -> env s' = env s -> arrays s' = arrays s -> next_array s' = next_array s ->
  Windows.handles s' = hs' ++ Windows.handles s0 -> since (based hs' s0) reqs s'.
Proof using.
  intros [Hs Ha [A Nx Hb] Ht Hi] Ee Ea En Eh. split.
  - intros p Hp. rewrite Ea in Hp. rewrite En. by apply Hs.
  - by rewrite Ee.
  - split; cbn in *; [by rewrite Ea|lia|done].
  - by rewrite Ee.
  - by rewrite Ee.
Qed.

Lemma since_open x hs s0 reqs s (Q : unit -> sysL -> Prop) :
  since (based hs s0) reqs s -> (forall s', since (based (x :: hs) s0) reqs s' -> Q tt s') -> wp (opened x) s Q.
Proof using.
  intros S HQ. unfold wp, opened. apply HQ. eapply (since_rebase hs); try done. cbn.
  destruct S as [_ _ [_ _ Eh] _ _]. cbn in Eh. by rewrite Eh.
Qed.

Lemma since_close x hs s0 reqs s (Q : unit -> sysL -> Prop) :
  since (based (x :: hs) s0) reqs s -> (forall s', since (based hs s0) reqs s' -> env s' = env s -> Q tt s') -> wp (CloseHandle x) s Q.
Proof using.
  intros S HQ. unfold wp, CloseHandle. apply HQ; [|done]. eapply (since_rebase (x :: hs)); try done. cbn.
  destruct S as [_ _ [_ _ Eh] _ _]. cbn in Eh. rewrite Eh. cbn. by rewrite Z.eqb_refl.
Qed.

(** [start], when both steps succeed. *)
Lemma since_start o notes rest s (Q : Z -> sysL -> Prop) :
  sys_ok s -> pending s = [] ->
  (forall l, (r_library_init R ARES_LIB_INIT_ALL l).1 = ARES_SUCCESS) -> (forall l, (r_init_options R o l).1 = ARES_SUCCESS) ->
  (forall s', since (based [CHANNEL; LIBRARY] s) [] s' -> wp rest s' Q) -> wp (start R o notes rest) s Q.
Proof using D.
  intros Hs E0 Hi Ho HQ. unfold start, ares_library_init, ares_init_options.
  assert (since (based [] s) [] s) as S0.
  { apply fmap_nil_inv in E0. unfold based. split; cbn; [done|by rewrite E0|by split|unfold in_time; by rewrite E0|].
    exists []. split; [by rewrite app_nil_r|done]. }
  assert (forall fmt base s1 (Q : unit -> sysL -> Prop), since base [] s1 -> (forall s', since base [] s' -> Q tt s') ->
    wp (if notes then printf fmt [] else io_ret tt) s1 Q) as Hnote.
  { intros fmt base s1 Q1 S1 HQ1. destruct notes; [|by apply wp_ret, HQ1]. apply (since_print base [] s1); [done|auto]. }
  apply wp_bind, wp_bind. apply (since_lib _ _ _ _ _ S0); [apply (doc_init _ _ _ _ _ D)|]. intros s1 S1 E1. rewrite Hi.
  cbn [Z.eqb ARES_SUCCESS]. apply wp_bind. apply (since_open _ _ _ _ _ _ S1). intros s2 S2. apply wp_ret. cbn [negb].
  apply wp_bind. apply (Hnote _ _ _ _ S2). intros s3 S3.
  apply wp_bind, wp_bind. apply (since_lib _ _ _ _ _ S3); [apply (doc_options _ _ _ _ _ D)|]. intros s4 S4 E4. rewrite Ho.
  cbn [Z.eqb ARES_SUCCESS]. apply wp_bind. apply (since_open _ _ _ _ _ _ S4). intros s5 S5. apply wp_ret. cbn [negb].
  apply wp_bind. apply (Hnote _ _ _ _ S5). done.
Qed.

(** [send_query], when the query is made. *)
Lemma since_query host type id c fuel rest s0 reqs s (Q : Z -> sysL -> Prop) :
  since s0 reqs s -> asked c -> (S H < fuel)%nat ->
  (forall l, (r_create_query R host C_IN type id 1 l).1.1 = ARES_SUCCESS) ->
  (forall s', since s0 (reqs ++ [c]) s' -> wp rest s' Q) -> wp (send_query R h host type id c (wait_loop R h false fuel) rest) s Q.
Proof using Hh D.
  intros S Hc Hf Hq HQ. unfold send_query, ares_create_query.
  apply wp_bind, wp_bind. apply (since_lib _ _ _ _ _ S); [apply (doc_create _ _ _ _ _ D)|]. intros s1 S1 _.
  specialize (Hq (lib (env s))). destruct (r_create_query R host C_IN type id 1 (lib (env s))) as [[st q] l].
  cbn [fst snd] in *. subst st. cbn [Z.eqb ARES_SUCCESS]. apply wp_bind, wp_new; [apply S1|]. intros p s2 E2 W2.
  apply wp_ret. cbn [negb]. assert (since s2 [] s2) as S2.
  { apply since_refl; [apply W2|rewrite E2; apply S1..]. }
  apply wp_bind. apply (since_ask (Send q) c s2 [] s2); [done|done|]. intros s3 S3.
  apply wp_bind. apply (since_wait false fuel s2 ([] ++ [c])); [done|done|].
  intros s4 S4. apply wp_bind. cbn [ares_free_string].
  eapply wp_delete; [eapply with_array_tidy; [exact W2|apply S4]|]. intros s5 E5 T5. apply HQ.
  destruct S4 as [_ Ha4 _ Ht4 (items & Ho & Hp)].
  apply (since_more s0 reqs s1 items [c] s5 S1 T5); [by rewrite E5|by rewrite E5|by rewrite E5, Ho, E2|by rewrite E5, Hp, E2].
Qed.

Lemma since_destroy hs s0 reqs s (Q : unit -> sysL -> Prop) :
  since (based (CHANNEL :: hs) s0) reqs s ->
  (forall s', since (based hs s0) reqs s' -> pending s' = [] -> Q tt s') -> wp (ares_destroy R h) s Q.
Proof using Hh D.
  intros S HQ. unfold ares_destroy. pose proof (doc_destroy _ _ _ _ _ D (lib (env s))) as Hd.
  assert (wp (do! es := on_lib (r_destroy R) in dispatch_all h es) s
    (fun _ s' => since (based (CHANNEL :: hs) s0) reqs s' /\ pending s' = [])) as Hgo.
  { apply (since_events _ [] (based (CHANNEL :: hs) s0) reqs s _ S); [|constructor|].
    - destruct (r_destroy R (lib (env s))) as [es l']. destruct Hd as (A & Ew & Ht).
      pose proof (answering_ok _ _ _ _ A) as (H1 & H2 & _). rewrite Ew. split; [done|]. split; [done|].
      unfold in_time. rewrite Ew. constructor.
    - intros s' S' E'. rewrite app_nil_r in S'. split; [done|]. rewrite E'.
      destruct (r_destroy R (lib (env s))) as [es l']. cbn. destruct Hd as (_ & Ew & _). by rewrite Ew. }
  unfold wp in *. unfold io_bind in *. destruct (on_lib (r_destroy R) s) as [[es s1]| | |]; cbn [res_bind] in *; [|done..].
  destruct (dispatch_all h es s1) as [[[] s2]| | |]; cbn [res_bind] in *; [|done..]. destruct Hgo as [S2 E2].
  change (wp (CloseHandle CHANNEL) s2 Q). apply (since_close _ _ _ _ _ _ S2). intros s3 S3 E3.
  apply HQ; [done|]. by rewrite E3.
Qed.

(** What a whole run comes to: 0, nothing kept, the items shown and each request's
    callback once. *)
Definition answered s0 (reqs : list callback) (a : Z) s : Prop :=
  a = 0 /\ tidy s0 s /\ exists items, out (env s) = out (env s0) ++ concat (shown ls <$> items) /\
    completed (happened items) ≡ₚ reqs.

Lemma since_answered s0 reqs s : pending s0 = [] -> since (based [] s0) reqs s -> pending s = [] -> answered s0 reqs 0 s.
Proof using.
  intros E0 [_ _ [A Nx Hb] _ (items & Ho & Hp)] E. split; [done|]. split; [by split|]. exists items. split; [done|].
  cbn in Hp. by rewrite E, E0, !app_nil_r in Hp.
Qed.

Lemma since_finish s0 reqs s :
  pending s0 = [] -> since (based [CHANNEL; LIBRARY] s0) reqs s -> wp (finish R h) s (answered s0 reqs).
Proof using Hh D.
  intros E0 S. unfold finish. apply wp_bind, (since_destroy _ _ _ _ _ S). intros s1 S1 E1.
  apply wp_bind, (since_close _ _ _ _ _ _ S1). intros s2 S2 E2. apply wp_ret, since_answered; [done|done|by rewrite E2].
Qed.
End Runs.

(** ** The nine programs *)

Lemma answering_weaken (fine fine' : list Z -> Prop) p es p' :
  (forall buf, fine buf -> fine' buf) -> answering fine p es p' -> answering fine' p es p'.
Proof.
  intros Hf. induction 1 as [| | |p1 c due p2 a es p' Ha _ IH]; constructor; [done..| |done].
  destruct c, a; cbn in *; auto.
Qed.

Lemma documented_weaken {L} (R : resolver L) (fine fine' : list Z -> Prop) waiting now H :
  (forall buf, fine buf -> fine' buf) -> documented R fine waiting now H -> documented R fine' waiting now H.
Proof.
  intros Hf. pose proof (answering_weaken fine fine') as Hw. intros [H1 H2 H3 H4 H5 H6 H7 H8]. split; try done.
  - intros r c l. specialize (H5 r c l). destruct (r_ask R r c l). destruct H5 as (due & ? & ? & ?). exists due. auto.
  - intros l Hl. specialize (H6 l Hl). destruct (r_process R l). destruct H6 as (? & ? & ?). auto.
  - intros l. specialize (H8 l). destruct (r_destroy R l). destruct H8 as (? & ? & ?). auto.
Qed.

(** Initialisation and the making of queries succeed. *)
Record succeeds {L} (R : resolver L) : Prop := mkSucceeds {
  suc_init : forall l, (r_library_init R ARES_LIB_INIT_ALL l).1 = ARES_SUCCESS;
  suc_options : forall o l, (r_init_options R o l).1 = ARES_SUCCESS;
  suc_query : forall host type id l, (r_create_query R host C_IN type id 1 l).1.1 = ARES_SUCCESS
}.

(** Whatever the state, [main] returns 0 with everything given back, having run the
    callback of each of [reqs] once and printed what [ls] shows. *)
Definition answers_once {L} (waiting : L -> list pending_request) (H : nat) (main : nat -> io (world L) Z)
    (reqs : list callback) (ls : event -> list line) : Prop :=
  forall fuel s, (S H < fuel)%nat -> sys_ok s -> waiting (lib (env s)) = [] ->
    exists s', main fuel s = Ok (0, s') /\ answered ls s reqs 0 s'.

Lemma answers_once_wp {L} waiting H (main : nat -> io (world L) Z) reqs ls :
  (forall fuel s, (S H < fuel)%nat -> sys_ok s -> waiting (lib (env s)) = [] -> wp (main fuel) s (answered ls s reqs)) ->
  answers_once waiting H main reqs ls.
Proof.
  intros Hm fuel s Hf Hs E. destruct (wp_elim _ _ _ (Hm fuel s Hf Hs E)) as (a & s' & E1 & A).
  destruct A as (-> & A). exists s'. by split.
Qed.

(** One step of a program whose callbacks are handled by [Hh]. *)
Ltac program_step Hh D :=
  lazymatch goal with
  | S : since _ _ _ _ _ _ _ ?s |- wp (finish _ _) ?s _ => eapply since_finish; [exact Hh|exact D|by eassumption|exact S]
  | S : since _ _ _ _ _ _ _ ?s |- wp (send_query _ _ _ _ _ _ _ _) ?s _ =>
      eapply since_query; [exact Hh|exact D|exact S|cbv beta; by auto|assumption|intros l; apply suc_query; assumption|clear S; intros ?s ?S]
  | S : since _ _ _ _ _ _ _ ?s |- wp (io_bind (ares_ask _ _ _ _) _) ?s _ =>
      apply wp_bind; eapply since_ask; [exact Hh|exact D|exact S|cbv beta; by auto|clear S; intros ?s ?S]
  | S : since _ _ _ _ _ _ _ ?s |- wp (io_bind (wait_loop _ _ _ _) _) ?s _ =>
      apply wp_bind; eapply since_wait; [exact Hh|exact D|exact S|assumption|clear S; intros ?s ?S]
  | S : since _ _ _ _ _ _ _ ?s |- wp (io_bind (printf _ _) _) ?s _ =>
      apply wp_bind; eapply since_print; [exact S|clear S; intros ?s ?S ?E]
  | S : since _ _ _ _ _ _ _ ?s |- wp (io_bind (on_lib _) _) ?s _ =>
      apply wp_bind; eapply since_lib; [exact S|intros l; apply (doc_servers _ _ _ _ _ D)|clear S; intros ?s ?S ?E]
  end.
Ltac program Hh D Hsuc :=
  let Hf := fresh "Hf" in
  apply answers_once_wp; intros fuel s Hf Hs E0; apply (f_equal (fmap fst)) in E0;
  lazymatch type of Hh with
  | well_handled _ _ ?P ?f => eapply since_start with (asked := P) (ls := f)
  end; [exact D|exact Hs|exact E0|apply Hsuc|intros; apply Hsuc|intros ?s ?S];
  cbv zeta;
  unfold hostfile_wait_ares, mkquery_wait_ares, query_wait_ares, ttl_wait_ares, timeouts_wait_ares, gethostbyname_wait_ares,
    gethostbyaddr_wait_ares, getaddrinfo_wait_ares, tcpbug_wait_ares;
  repeat program_step Hh D.

Section Programs.
Context {L : Type} (R : resolver L) (Hn : ntop_known R) (waiting : L -> list pending_request) (now : L -> nat) (H : nat).
Context (D : documented R (fun _ => True) waiting now H) (Hsuc : succeeds R).

Lemma hostfile_answers :
  answers_once waiting H (hostfile_main R) [HostbynameCb; HostbynameCb; AddrinfoCb; HostbyaddrCb; QueryACb]
    (lines true false (hostfile_shows R)).
Proof using Hn D Hsuc. program (hostfile_handled R Hn) D Hsuc. Qed.

Lemma mkquery_answers :
  answers_once waiting H (mkquery_main R) [QueryACb]
    (lines true false (query_shows R "Failed to parse NS record %s\n" "query_ptr_callback parsed host: %s\n")).
Proof using D Hsuc. program (mkquery_handled R) D Hsuc. Qed.

Lemma query_answers :
  answers_once waiting H (query_main R) [QueryPtrCb]
    (lines true false (query_shows R "Failed to parse NS record %s\n" "ptr_callback parsed host: %s\n")).
Proof using D Hsuc. program (query_handled R) D Hsuc. Qed.

(** [ttl_main] reads the TTL out of the message, which must be whole. *)
Lemma ttl_answers : documented R (whole R) waiting now H ->
  answers_once waiting H (ttl_main R) [QueryACb; QueryPtrCb] (lines true false (ttl_shows R)).
Proof using Hsuc. intros Dw. program (ttl_handled R) Dw Hsuc. Qed.

Lemma timeouts_answers : answers_once waiting H (timeouts_main R) [HostbynameCb] (lines true true (host_shows R true true)).
Proof using Hn D Hsuc. program (timeouts_handled R Hn) D Hsuc. Qed.

Lemma gethostbyname_answers :
  answers_once waiting H (gethostbyname_main R) [HostbynameCb; HostbynameCb; HostbynameCb]
    (lines true true (host_shows R false true)).
Proof using Hn D Hsuc.
  program (gethostbyname_handled R Hn) D Hsuc.
  apply wp_bind. eapply since_destroy; [exact (gethostbyname_handled R Hn)|exact D|eassumption|].
  intros z1 Z1 W1. apply wp_bind. eapply since_print; [exact Z1|]. intros z2 Z2 W2.
  apply wp_bind. eapply since_close; [exact Z2|]. intros z3 Z3 W3.
  apply wp_bind. eapply since_print; [exact Z3|]. intros z4 Z4 W4.
  apply wp_ret. eapply since_answered; [eassumption|exact Z4|]. by rewrite W4, W3, W2.
Qed.

Lemma getaddrinfo_answers : answers_once waiting H (getaddrinfo_main R) [AddrinfoCb] (lines true true (getaddrinfo_shows R)).
Proof using Hn D Hsuc. program (getaddrinfo_handled R Hn) D Hsuc. Qed.

Lemma gethostbyaddr_answers :
  answers_once waiting H (gethostbyaddr_main R) [HostbyaddrCb] (lines true true (host_shows R false false)).
Proof using D Hsuc. program (gethostbyaddr_handled R) D Hsuc. Qed.

Lemma tcpbug_answers :
  answers_once waiting H (tcpbug_main R) [QueryPtrCb]
    (lines false false (query_shows R "Failed to parse PTR record %s\n" "query_ptr_callback parsed host: %s\n")).
Proof using D Hsuc. program (tcpbug_handled R) D Hsuc. Qed.
End Programs.


(** ** The early returns, and an address that does not fit *)

Section Errors.
Context {L : Type} (R : resolver L).

(** Every [main] is a [start]: when the library cannot be initialised it returns 1 with
    nothing open; when the options are refused it returns 1 and the library stays
    initialised. *)
Lemma start_fails o notes rest (s : sys (world L)) :
  ((r_library_init R ARES_LIB_INIT_ALL (lib (env s))).1 <> ARES_SUCCESS ->
   exists s', start R o notes rest s = Ok (1, s') /\ Windows.handles s' = Windows.handles s) /\
  ((r_library_init R ARES_LIB_INIT_ALL (lib (env s))).1 = ARES_SUCCESS ->
   (forall l, (r_init_options R o l).1 <> ARES_SUCCESS) ->
   exists s', start R o notes rest s = Ok (1, s') /\ Windows.handles s' = LIBRARY :: Windows.handles s).
Proof using.
  unfold start, ares_library_init, ares_init_options, on_lib, call, io_bind, printf, opened. cbn [res_bind].
  destruct (r_library_init R ARES_LIB_INIT_ALL (lib (env s))) as [st l] eqn:E1. cbn [fst]. split.
  - intros Hst. cbn. destruct (Z.eqb_spec st ARES_SUCCESS) as [|Hne]; [done|]. cbn.
    destruct (Z.eqb_spec st ARES_SUCCESS); [done|]. cbn. eexists. split; [reflexivity|]. done.
  - intros -> Ho. cbn. specialize (Ho l).
    destruct notes; cbn; destruct (r_init_options R o l) as [st2 l2]; cbn in *;
      (destruct (Z.eqb_spec st2 ARES_SUCCESS); [done|]); cbn;
      (destruct (Z.eqb_spec st2 ARES_SUCCESS); [done|]); cbn; by eexists.
Qed.

(** A query that cannot be made: 1 is returned at once, nothing is destroyed. *)
Lemma send_query_fails h host type id c wait rest (s : sys (world L)) :
  (r_create_query R host C_IN type id 1 (lib (env s))).1.1 <> ARES_SUCCESS ->
  exists s', send_query R h host type id c wait rest s = Ok (1, s') /\ Windows.handles s' = Windows.handles s.
Proof using.
  unfold send_query, ares_create_query, on_lib, call, io_bind, printf.
  destruct (r_create_query R host C_IN type id 1 (lib (env s))) as [[st q] l]. cbn. intros Hst.
  destruct (Z.eqb_spec st ARES_SUCCESS); [done|]. cbn.
  destruct (Z.eqb_spec st ARES_SUCCESS); [done|]. cbn. eexists. split; [reflexivity|]. done.
Qed.

(** [hostbyaddr_cb] has room for an IPv4 address: an IPv6 address that is longer than that
    is not converted and the buffer is printed as it is. *)
Theorem hostbyaddr_ipv6_undefined timeouts host a rest (s : sys (world L)) :
  h_addrtype host = AF_INET6 -> h_addr_list host = a :: rest -> r_inet_ntop R AF_INET6 a INET_ADDRSTRLEN = None ->
  hostbyaddr_cb R ARES_SUCCESS timeouts (Some host) s = UB.
Proof using.
  intros Ef Ea En. unfold hostbyaddr_cb. rewrite Ef, Ea. cbn [Z.eqb ARES_SUCCESS negb AF_INET AF_INET6 orb].
  unfold ntop_into. change 10 with AF_INET6. by rewrite En.
Qed.
End Errors.

(** ** A small library *)

Definition toy_host : hostent := mkHostent (chars "host") AF_INET [[1; 2; 3; 4]].
Definition toy_answer (c : callback) : answer :=
  match c with
  | HostbynameCb | HostbyaddrCb => Host 0 0 (Some toy_host)
  | AddrinfoCb => Addr 0 0 (Some (mkAddrinfo (chars "host") [mkNode AF_INET6 (replicate 16 0)]))
  | QueryACb | QueryPtrCb => Data 0 0 []
  end.
(** The requests that are not over, and a clock; a round answers them all. *)
Notation toy_state := (list pending_request * nat)%type.
Definition toy_process (l : toy_state) : list event * toy_state :=
  (SockState 3 1 0 :: ((fun p => Done p.1 (toy_answer p.1)) <$> l.1), ([], S l.2)).
Definition toy : resolver toy_state :=
  mkResolver _ (fun _ l => (0, l)) (fun _ l => (0, l)) (fun _ l => (tt, l))
    (fun _ c l => ([SockCreated 3 2], ((c, S l.2) :: l.1, l.2))) (fun _ _ _ _ _ l => ((0, [1; 2]), l))
    (fun l => Z.of_nat (length l.1)) toy_process toy_process (fun _ => chars "error")
    (fun _ => (0, toy_host)) (fun _ => (0, toy_host)) (fun _ => (0, [])) (fun _ _ => (8, O))
    (fun family a size => if (INET6_ADDRSTRLEN <=? size) || ((family =? AF_INET) && (INET_ADDRSTRLEN <=? size)) then Some a else None)
    (fun _ s => s).

Lemma toy_known : ntop_known toy.
Proof.
  split; intros a size Hs; cbn -[INET6_ADDRSTRLEN INET_ADDRSTRLEN].
  - rewrite (proj2 (Z.leb_le _ _) Hs), orb_true_r. by eexists.
  - rewrite (proj2 (Z.leb_le _ _) Hs). by eexists.
Qed.

Lemma toy_round l : answering (whole toy) l.1 (toy_process l).1 [].
Proof.
  destruct l as [l now]. unfold toy_process. cbn [fst]. constructor.
  induction l as [|[c due] l IH]; [constructor|]. cbn [fmap list_fmap fst].
  apply (ans_done _ [] c due l); [|exact IH]. destruct c; cbn.
  - intros h [= <-]. by left.
  - by intros h [= <-].
  - done.
  - exists 8, None. by vm_compute.
  - exists 8, None. by vm_compute.
Qed.

Lemma toy_documented : documented toy (whole toy) fst snd 1.
Proof.
  split; try (cbn; intros; split; [done|lia]).
  - intros r c l. cbn. exists (S l.2). split; [lia|]. split; [|lia]. repeat constructor.
  - intros l Hl. pose proof (toy_round l) as A. cbn [r_process toy]. split; [exact A|]. cbn. split; [lia|constructor].
  - intros [[|p l] now]; cbn; [done|]. split; [lia|done].
  - intros l. pose proof (toy_round l) as A. cbn [r_destroy toy]. split; [exact A|]. cbn. split; [done|lia].
Qed.

