(* ===== verification/AresKqueue.v ===== *)
(** * [c-ares/cares_kqueue.cc]: waiting with kqueue

    The tenth program keeps the descriptors that c-ares is interested in in two sets and
    registers them with a kernel queue.  The kernel's registrations are modelled as
    [kevent] documents them; which events it reports and when is a parameter. *)

From stdpp Require Import strings gmap fin_sets.
From S2P Require Import Prelude Windows Ttl Ares AresProps.

Inductive filter := EVFILT_READ | EVFILT_WRITE.
#[export] Instance filter_eq_dec : EqDecision filter.
Proof. solve_decision. Defined.
#[export] Instance filter_countable : Countable filter.
Proof.
  refine (inj_countable' (fun f => match f with EVFILT_READ => true | EVFILT_WRITE => false end)
    (fun b => if b : bool then EVFILT_READ else EVFILT_WRITE) _). by intros [].
Qed.

Inductive flag := EV_ADD | EV_DELETE.
Record change := mkChange { ident : Z; ev_filter : filter; ev_flag : flag }.

(** The two sets, and what the kernel has registered for the queue. *)
Record queue := mkQueue {
  active_read_fds : gset Z;
  active_write_fds : gset Z;
  registered : gset (Z * filter)
}.

(** [kevent(queue, events, index, NULL, 0, NULL)]: the changes in order; without room for
    reports the first that fails, the deletion of something not registered, ends it. *)
Fixpoint kevent_change (cs : list change) (r : gset (Z * filter)) : Z * gset (Z * filter) :=
  match cs with
  | [] => (0, r)
  | c :: cs =>
      match ev_flag c with
      | EV_ADD => kevent_change cs ({[(ident c, ev_filter c)]} ∪ r)
      | EV_DELETE =>
          if decide ((ident c, ev_filter c) ∈ r) then kevent_change cs (r ∖ {[(ident c, ev_filter c)]})
          else (-1, r)
      end
  end.

(** One half of [sock_cb]: the set of the descriptors of a filter, and the change. *)
Definition sock_half (f : filter) (s on : Z) (fds : gset Z) : list change * gset Z :=
  if (on =? 1) && negb (bool_decide (s ∈ fds)) then ([mkChange s f EV_ADD], {[s]} ∪ fds)
  else if (on =? 0) && bool_decide (s ∈ fds) then ([mkChange s f EV_DELETE], fds ∖ {[s]})
  else ([], fds).

Definition sock_changes (s read write : Z) (q : queue) : Z * queue :=
  let '(c1, r) := sock_half EVFILT_READ s read (active_read_fds q) in
  let '(c2, w) := sock_half EVFILT_WRITE s write (active_write_fds q) in
  let '(ret, reg) := kevent_change (c1 ++ c2) (registered q) in
  (ret, mkQueue r w reg).

Section Kqueue.
(** The library, next to the queue. *)
Context {L : Type} (R : resolver (queue * L)).
(** [ares_timeout]: [None] when it returns [NULL] and leaves [tv] as it was. *)
Context (ares_timeout : queue * L -> option Z).
(** [kevent(queue, NULL, 0, events, n, &ts)]: [None] is -1. *)
Context (kevent_wait : nat -> Z -> queue * L -> option (list (Z * filter)) * (queue * L)).
(** [ares_process_fd(channel, read, write)]. *)
Context (process_fd : Z -> Z -> queue * L -> list event * (queue * L)).
(** What is on the stack in [tv]. *)
Context (tv0 : Z).
Notation io A := (io (world (queue * L)) A).

Definition ARES_SOCKET_BAD : Z := -1.

(** [sock_cb]. *)
Definition sock_cb (s read write : Z) : io unit :=
  do! ret := on_lib (fun '(q, l) => let '(ret, q) := sock_changes s read write q in (ret, (q, l))) in
  if ret =? -1 then printf "failed to initialize new events" [] else io_ret tt.

Definition kq_query_ptr (status timeouts : Z) (buf : list Z) : io unit :=
  if negb (status =? ARES_SUCCESS) then failed R status
  else parse_and_print R (r_parse_ptr_reply R) buf "Failed to parse PTR record %s\n" "query_ptr_callback parsed host: %s\n" [].

Definition kq_handlers : handlers (queue * L) :=
  mkHandlers sock_cb silent_socket no_host no_addrinfo
    (fun c => match c with QueryPtrCb => kq_query_ptr | _ => no_data c end).

(** The loop over the events of one call. *)
Fixpoint process_events (events : list (Z * filter)) : io unit :=
  match events with
  | [] => io_ret tt
  | (fd, f) :: events =>
      let read := match f with EVFILT_READ => fd | EVFILT_WRITE => ARES_SOCKET_BAD end in
      let write := match f with EVFILT_WRITE => fd | EVFILT_READ => ARES_SOCKET_BAD end in
      do! es := on_lib (process_fd read write) in
      do! _ := dispatch_all kq_handlers es in
      process_events events
  end.

(** [wait_ares]: it ends when [kevent] fails or reports nothing in time. *)
Fixpoint kq_wait (fuel : nat) : io unit :=
  match fuel with
  | O => io_nofuel
  | S fuel =>
      do! ts := on_lib (fun l => (default tv0 (ares_timeout l), l)) in
      do! num_events := on_lib (fun '(q, l) => ((size (active_read_fds q) + size (active_write_fds q))%nat, (q, l))) in
      do! ret := on_lib (kevent_wait num_events ts) in
      match ret with
      | None => printf "kevent failed" []
      | Some [] => io_ret tt
      | Some events => do! _ := process_events events in kq_wait fuel
      end
  end.

(** [main]; [kq] is what [kqueue()] returns. *)
Definition kqueue_main (kq : Z) (fuel : nat) : io Z :=
  if kq =? -1 then do! _ := printf "Failed to open queue" [] in io_ret 1
  else
    start R (mkOptions None (Some 5000) (Some 2) None) false (
      do! _ := on_lib (r_set_servers R (r_inet_pton R AF_INET (chars "1.1.1.1"))) in
      do! (status, query, p) := ares_create_query R (chars "10.144.253.17.in-addr.arpa") C_IN T_PTR 0 1 in
      if negb (status =? ARES_SUCCESS) then
        do! _ := printf "ares_create_query: %s\n" [Str (r_strerror R status)] in io_ret 1
      else
        do! _ := ares_ask R kq_handlers (Send query) QueryPtrCb in
        do! _ := kq_wait fuel in
        do! _ := ares_free_string p in
        finish R kq_handlers).
End Kqueue.

(** ** The sets and the registrations *)

(** The kernel has registered what the sets say, and nothing else. *)
Definition mirrors (q : queue) : Prop :=
  forall s f, (s, f) ∈ registered q <->
    s ∈ match f with EVFILT_READ => active_read_fds q | EVFILT_WRITE => active_write_fds q end.

(** A change of one half, with what it does to the registrations. *)
Lemma sock_half_ok f s on fds cs fds' reg more :
  sock_half f s on fds = (cs, fds') -> (forall x, (x, f) ∈ reg <-> x ∈ fds) ->
  exists reg', kevent_change (cs ++ more) reg = kevent_change more reg' /\
    (forall x, (x, f) ∈ reg' <-> x ∈ fds') /\ (forall x g, g <> f -> (x, g) ∈ reg' <-> (x, g) ∈ reg) /\
    (on = 1 -> s ∈ fds') /\ (on = 0 -> s ∉ fds') /\ (forall x, x <> s -> x ∈ fds' <-> x ∈ fds).
Proof.
  unfold sock_half. intros H Hreg.
  destruct (Z.eqb_spec on 1) as [E1|E1], (decide (s ∈ fds)) as [Hs|Hs];
    rewrite ?bool_decide_eq_true_2, ?bool_decide_eq_false_2 in H by done; cbn [negb andb] in H.
  - rewrite (proj2 (Z.eqb_neq on 0)) in H by lia. injection H as <- <-. exists reg.
    split; [done|]. split; [done|]. split; [done|]. split; [done|]. split; [lia|done].
  - injection H as <- <-. cbn. eexists. split; [reflexivity|].
    split; [intros x; rewrite elem_of_union, elem_of_singleton, elem_of_union, elem_of_singleton, Hreg; naive_solver|].
    split; [set_solver|]. split; [set_solver|]. split; [lia|set_solver].
  - destruct (Z.eqb_spec on 0) as [E0|E0]; cbn [andb] in H; injection H as <- <-.
    + cbn. rewrite decide_True by by apply Hreg. eexists. split; [reflexivity|].
      split; [intros x; rewrite elem_of_difference, elem_of_singleton, elem_of_difference, elem_of_singleton, Hreg; naive_solver|].
      split; [set_solver|]. split; [lia|]. split; [set_solver|set_solver].
    + exists reg. split; [done|]. split; [done|]. split; [done|]. split; [lia|]. split; [lia|done].
  - rewrite andb_false_r in H. injection H as <- <-. exists reg.
    split; [done|]. split; [done|]. split; [done|]. split; [lia|]. split; [done|done].
Qed.


