(* ===== verification/Demos.v ===== *)
(** * Programs of one page

    [bytestring_to_doublefloat.cc] turns numbers into network byte order and prints their
    bytes; [dirname.cc] prints what [dirname] of the C library gives for some paths;
    [ordered_map.cpp] and [unordered_map_std_hash.cpp] make maps keyed by [ConnIDKey].
    A number is the list of its bytes, the lowest first. *)

From stdpp Require Import strings.
From S2P Require Import Prelude Windows ConnID.

(** ** [bytestring_to_doublefloat.cc] *)

(** [dst[0] = src[3]], ..., after [assert(sizeof(f) == 4)]. *)
Definition ntohf (src : list Z) : res (list Z) :=
  assert! (Z.of_nat (length src) =? 4) in
  Ok [src !!! 3%nat; src !!! 2%nat; src !!! 1%nat; src !!! 0%nat].
Definition ntohd (src : list Z) : res (list Z) :=
  assert! (Z.of_nat (length src) =? 8) in
  Ok [src !!! 7%nat; src !!! 6%nat; src !!! 5%nat; src !!! 4%nat; src !!! 3%nat; src !!! 2%nat; src !!! 1%nat; src !!! 0%nat].

(** The bytes of an IEEE number of [n] bytes, the lowest first. *)
Fixpoint bytes_of (n : nat) (bits : Z) : list Z :=
  match n with O => [] | S n => bits mod 256 :: bytes_of n (bits / 256) end.

(** 3.14e15, its negative, 4e-38, 0, -0, infinity, its negative, the quiet NaN and the
    smallest denormal. *)
Definition fs : list Z :=
  [0x59327d04; 0xd9327d04; 0x159c7dd; 0; 0x80000000; 0x7f800000; 0xff800000; 0x7fc00000; 1].
Definition ds : list Z :=
  [0x43264fa071308000; 0xc3264fa071308000; 0x1cc359e067a349; 0; 0x8000000000000000; 0x7ff0000000000000; 0xfff0000000000000; 0x7ff8000000000000; 1].

(** One number of the loops: the bytes printed, in order. *)
Fixpoint swap_all (swap : list Z -> res (list Z)) (l : list (list Z)) : res (list (list Z)) :=
  match l with
  | [] => Ok []
  | x :: l => let! y := swap x in let! ys := swap_all swap l in Ok (y :: ys)
  end.

(** The lines of both loops. *)
Definition bytes_main : res (list (list Z) * list (list Z)) :=
  let! f := swap_all ntohf (bytes_of 4 <$> fs) in
  let! d := swap_all ntohd (bytes_of 8 <$> ds) in Ok (f, d).

(** Swapping twice gives the number back. *)
Lemma ntohf_twice src : length src = 4%nat -> res_bind (ntohf src) ntohf = Ok src.
Proof. destruct src as [|a [|b [|c [|d [|? ?]]]]]; try done. Qed.
Lemma ntohd_twice src : length src = 8%nat -> res_bind (ntohd src) ntohd = Ok src.
Proof. destruct src as [|a [|b [|c [|d [|e [|f [|g [|h [|? ?]]]]]]]]]; try done. Qed.

(** A number from its bytes, the highest first. *)
Definition network_value (bs : list Z) : Z := foldl (fun v b => v * 256 + b) 0 bs.

(** What is printed of each number is its network byte order. *)
Lemma bytes_main_prints :
  exists f d, bytes_main = Ok (f, d) /\ network_value <$> f = fs /\ network_value <$> d = ds.
Proof. do 2 eexists. split; [vm_compute; reflexivity|]. by vm_compute. Qed.

(** ** [dirname.cc] *)

Section Dirname.
(** [dirname] of the C library, [None] for a null pointer. *)
Context (dirname : list Z -> option (list Z)).

(** The copy of the string with a NUL behind: a C string ends at the first NUL. *)
Fixpoint c_copy (s : list Z) : list Z :=
  match s with [] => [] | c :: s => if c =? 0 then [] else c :: c_copy s end.

Definition do_dirname (s : list Z) : list Z :=
  match dirname (c_copy s) with Some dn => dn | None => [] end.

Definition dirname_main : list (list Z) :=
  do_dirname <$> [chars "/"; chars "///////"; chars "abcd"; chars "/a/b/c"; chars ""; chars "/a////////b///////c"].

Lemma c_copy_plain s : Forall (fun c => c <> 0) s -> c_copy s = s.
Proof using.
  intros H. induction H as [|c s Hc Hs IH]; [done|]. cbn. destruct (Z.eqb_spec c 0); [done|]. by rewrite IH.
Qed.
End Dirname.

(** ** [ordered_map.cpp] *)

Section OrderedMap.
Context (inet_pton : list Z -> list Z) (inet_ntop : list Z -> list Z).

(** The line that [log()] prints: addresses and ports. *)
Definition log (k : ConnIDKey) : list Z * Z * list Z * Z := (inet_ntop (ip1 k), port1 k, inet_ntop (ip2 k), port2 k).

(** [h[key1] = 12345] of an empty map: no comparison is made, nothing is printed. *)
Definition ordered_map_main : list (ConnIDKey * Z) :=
  let key1 := new_ConnIDKey in
  let key1 := mkConnID (ip1 key1) (ip2 key1) 13568 22420 in
  let key1 := mkConnID (inet_pton (chars "::ffff:172.16.238.1")) (ip2 key1) (port1 key1) (port2 key1) in
  let key1 := mkConnID (ip1 key1) (inet_pton (chars "::ffff:224.0.0.251")) (port1 key1) (port2 key1) in
  [(key1, 12345)].
End OrderedMap.

(** ** [unordered_map_std_hash.cpp] *)

(** The key with its [valid] flag; its comparison looks at the same members. *)
Record ValidKey := mkValidKey { conn : ConnIDKey; valid : bool }.
Definition valid_less (lhs rhs : ValidKey) : bool := less (conn lhs) (conn rhs).
(** [std::hash<ConnIDKey>]: every key is in bucket 0. *)
Definition hash_ConnIDKey (s : ValidKey) : Z := 0.
