(* ===== verification/Ioloop.v ===== *)
(** * [ioloop/]: reading captures and files from event loops

    Programs that try event loops: libuv ([main.cc], [uv-pcap.cc]), libevent, asio, [poll]
    and kqueue.  What the loops and the kernel report is a parameter, a list of wakeups;
    a capture file is the lengths of its packets and whether it is damaged after them.
    Each program is its callbacks, with what they print and whether they stop the loop. *)

From stdpp Require Import strings.
From S2P Require Import Prelude Windows Ttl Ares.

Definition note (s : string) : line := (s, []).

(** ** Captures *)

Record capture := mkCapture { packets : list Z; damaged : bool }.

(** [pcap_dispatch(pd, 1, pcap_hdlr, NULL)] on a file: one packet is given to the handler;
    0 at the end, -1 for an error. *)
Definition pcap_dispatch (pcap_hdlr : Z -> line) (pd : capture) : Z * list line * capture :=
  match packets pd with
  | len :: rest => (1, [pcap_hdlr len], mkCapture rest (damaged pd))
  | [] => (if damaged pd then -1 else 0, [], pd)
  end.
(** [pcap_next(pd, &hdr)]: the length of the packet, [None] when there is none. *)
Definition pcap_next (pd : capture) : option Z * capture :=
  match packets pd with
  | len :: rest => (Some len, mkCapture rest (damaged pd))
  | [] => (None, pd)
  end.

(** How a loop comes to its end: it is left, or it waits for a wakeup that does not come. *)
Inductive ending := Left_ | Waiting.

(** [uv_run], [event_base_dispatch], [io.run()]: the callback runs at each wakeup while its
    handle is active; it says whether the handle stays so. *)
Fixpoint run_loop {W S} (callback : W -> S -> bool * list line * S) (wakes : list W) (s : S)
    : ending * list line * S :=
  match wakes with
  | [] => (Waiting, [], s)
  | w :: wakes =>
      let '(active, ls, s) := callback w s in
      if active then let '(e, ls', s) := run_loop callback wakes s in (e, ls ++ ls', s)
      else (Left_, ls, s)
  end.

(** ** [main.cc] *)

Definition got_packet (len : Z) : line := ("got packet of length %d\n"%string, [Int len]).

Definition pcap_poll_callback (w : Z * Z) (pd : capture) : bool * list line * capture :=
  let '(loop, ls, pd) := pcap_dispatch got_packet pd in
  let ls := ls ++ [("(status = %d, events = %d) loop returned %d\n"%string, [Int w.1; Int w.2; Int loop])] in
  if loop =? 0 then (false, ls ++ [note "out of data?\n"], pd) else (true, ls, pd).

Definition pcap_idle_callback (w : unit) (pd : capture) : bool * list line * capture :=
  let '(dispatch, ls, pd) := pcap_dispatch got_packet pd in
  let ls := ls ++ [("dispatch returned %d\n"%string, [Int dispatch])] in
  if dispatch =? 0 then (false, ls ++ [note "out of data?\n"], pd) else (true, ls, pd).

(** [file_callback]; a wakeup comes with what [read] returns then, and the text of an
    error. *)
Definition file_callback (strerror : list Z) (w : Z * Z * Z) (s : unit) : bool * list line * unit :=
  let '(status, events, bytes) := w in
  let first := ("%d %d\n"%string, [Int status; Int events]) in
  if bytes =? 1 then (false, [first; ("error %s\n"%string, [Str strerror])], s)
  else if bytes =? 0 then (false, [first; note "eof\n"], s)
  else (true, [first; ("read %d bytes\n"%string, [Int bytes])], s).

Section MainCc.
(** What opening gives: a capture or the text of an error, a descriptor; the return values
    of the initialisations. *)
Context (open_offline open_live : capture + list Z) (fd : Z) (strerror : list Z) (poll_init idle_init : Z).
Context (uv_strerror : Z -> list Z).
Context (wakes : list (Z * Z)) (idles : list unit) (file_wakes : list (Z * Z * Z)).

(** The lines, whether the callback was started, and what there is to run on. *)
Definition init_pcap : list line * bool * option capture :=
  match open_offline with
  | inr err => ([("%s\n"%string, [Str err])], false, None)
  | inl pd => if poll_init =? 0 then ([note "calling uv_poll_start for pcap\n"], true, Some pd) else ([], false, Some pd)
  end.
Definition init_file : list line * bool * bool :=
  let first := ("%d\n"%string, [Int fd]) in
  if fd =? -1 then ([first; ("%s"%string, [Str strerror])], false, false)
  else if poll_init =? 0 then ([first; note "calling uv_poll_start for file\n"], true, true)
  else ([first], false, true).
Definition init_idle : list line * bool * option capture :=
  match open_offline with
  | inr err => ([("%s\n"%string, [Str err])], false, None)
  | inl pd => if idle_init =? 0 then ([note "calling uv_idle_start for pcap\n"], true, Some pd) else ([], false, Some pd)
  end.
(** On a live interface a failed [uv_poll_init] makes it return false. *)
Definition init_interface : list line * bool * option capture :=
  match open_live with
  | inr err => ([("failed to open interface: %s\n"%string, [Str err])], false, None)
  | inl pd =>
      if poll_init =? 0 then ([note "calling uv_poll_start for pcap\n"], true, Some pd)
      else ([("Failed to create uv_poll: %s\n"%string, [Str (uv_strerror poll_init)])], false, None)
  end.

(** [uv_run] of what was started, or of nothing. *)
Definition run_started {W S} (started : bool) (callback : W -> S -> bool * list line * S) (ws : list W) (s : S)
    : ending * list line :=
  if started then let '(e, ls, _) := run_loop callback ws s in (e, ls) else (Left_, []).
(** A note behind the loop, if the loop is left. *)
Definition after (r : ending * list line) (ls : list line) : ending * list line :=
  match r.1 with Left_ => (Left_, r.2 ++ ls) | Waiting => r end.
Definition before (ls : list line) (r : ending * list line) : ending * list line := (r.1, ls ++ r.2).

(** [main] with the mode [argv[1]]: how it ends and what it prints. *)
Definition main (mode : list Z) : ending * list line :=
  if bool_decide (mode = chars "p") then
    let '(ls, started, pd) := init_pcap in
    match pd with
    | Some pd =>
        before (ls ++ [note "calling uv_run for pcap\n"])
          (after (run_started started pcap_poll_callback wakes pd) [note "uv_run exited\n"])
    | None => (Left_, ls)
    end
  else if bool_decide (mode = chars "f") then
    let '(ls, started, ok) := init_file in
    if ok : bool then
      before (ls ++ [note "calling uv_run for file\n"])
        (after (run_started started (file_callback strerror) file_wakes tt) [note "uv_run exited\n"])
    else (Left_, ls)
  else if bool_decide (mode = chars "i") then
    let '(ls, started, pd) := init_idle in
    match pd with
    | Some pd => before (ls ++ [note "calling uv_run for idle loop\n"]) (run_started started pcap_idle_callback idles pd)
    | None => (Left_, ls)
    end
  else if bool_decide (mode = chars "if") then
    let '(ls, started, pd) := init_interface in
    match pd with
    | Some pd =>
        before (ls ++ [note "calling uv_run for interface poll loop\n"]) (run_started started pcap_poll_callback wakes pd)
    | None => (Left_, ls)
    end
  else (Left_, []).
End MainCc.

(** ** [uv-pcap.cc], [libevent.cc], [asio.cc] *)

Definition uv_pcap_callback (w : Z * Z) (pd : capture) : bool * list line * capture :=
  let '(res, ls, pd) := pcap_dispatch got_packet pd in
  let ls := ls ++ [("(status = %d, events = %d) dispatch returned %d\n"%string, [Int w.1; Int w.2; Int res])] in
  if res =? 0 then (false, ls ++ [note "out of data\n"], pd) else (true, ls, pd).

Definition uv_pcap_main (open_offline : capture + list Z) (poll_init : Z) (wakes : list (Z * Z)) : ending * list line :=
  match open_offline with
  | inr err => (Left_, [("failed to open pcap: %s\n"%string, [Str err])])
  | inl pd =>
      let ls := if poll_init =? 0 then [note "calling uv_poll_start for pcap\n"] else [] in
      before (ls ++ [note "calling uv_run for pcap\n"])
        (after (run_started (poll_init =? 0) uv_pcap_callback wakes pd) [note "uv_run exited\n"])
  end.

Definition packet_of_length (len : Z) : line := ("packet of length %d\n"%string, [Int len]).

(** [cb] of [libevent.cc]: [event_del] of itself ends the loop. *)
Definition libevent_cb (w : unit) (pc : capture) : bool * list line * capture :=
  let '(n, ls, pc) := pcap_dispatch packet_of_length pc in
  let ls := note "callback\n" :: ls in
  if n =? 0 then (false, ls ++ [note "ran out of data\n"], pc) else (true, ls, pc).

(** [pcap_file] of a null pointer when the capture does not open. *)
Definition libevent_main (open_offline : option capture) (method : list Z) (wakes : list unit) : res (ending * list line) :=
  match open_offline with
  | None => UB
  | Some pc =>
      Ok (before [note "App Started\n"; ("Using Libevent with backend method %s.\n"%string, [Str method])]
            (after (run_started true libevent_cb wakes pc) [note "App Ended\n"]))
  end.

(** [read_handler] asks for the next wakeup itself; an error ends it.  A wakeup is the
    error, if any, and its message. *)
Definition read_handler (w : bool * list Z) (pd : capture) : bool * list line * capture :=
  let first := ("wait handler: ec = %s\n"%string, [Str w.2]) in
  if w.1 then (false, [first], pd)
  else
    let '(dispatch, ls, pd) := pcap_dispatch got_packet pd in
    let ls := first :: ls ++ [("dispatch returned %d\n"%string, [Int dispatch])] in
    if dispatch =? 0 then (false, ls ++ [note "out of data?\n"], pd) else (true, ls, pd).
Definition wait_handler (w : bool * list Z) (pd : capture) : bool * list line * capture :=
  let first := ("wait handler: ec = %s\n"%string, [Str w.2]) in
  if negb w.1 then
    let '(dispatch, ls, pd) := pcap_dispatch got_packet pd in
    let ls := first :: ls ++ [("dispatch returned %d\n"%string, [Int dispatch])] in
    if dispatch =? 0 then (false, ls ++ [note "out of data?\n"], pd) else (true, ls, pd)
  else (false, [first], pd).

(** The exit status, and how the loop ends. *)
Definition asio_main (open_offline : capture + list Z) (wakes : list (bool * list Z)) : Z * (ending * list line) :=
  match open_offline with
  | inr err => (1, (Left_, [("%s\n"%string, [Str err])]))
  | inl pd => (0, run_started true read_handler wakes pd)
  end.

(** ** [poll-pcap.cc] and [poll.cc] *)

(** The loops of the two programs: [polls] are the return values of [poll]; -1 exits. *)
Definition poll_pcap_round (poll : Z) (pc : capture) : bool * list line * capture :=
  if poll =? -1 then (false, [note "calling poll\n"; note "poll"], pc)
  else
    let '(loop, ls, pc) := pcap_dispatch packet_of_length pc in
    let ls := [note "calling poll\n"; note "poll returned!\n"] ++ ls in
    if loop =? 0 then (false, ls ++ [note "out of data\n"; note "App Ended\n"], pc) else (true, ls, pc).
Definition poll_pcap_main (open_offline : option capture) (polls : list Z) : res (ending * list line) :=
  match open_offline with
  | None => UB
  | Some pc => let '(e, ls, _) := run_loop poll_pcap_round polls pc in Ok (e, note "App Started\n" :: ls)
  end.

(** A round of [poll.cc]: what [poll] and [read] return. *)
Definition poll_round (w : Z * Z) (s : unit) : bool * list line * unit :=
  let '(poll, buff_sz) := w in
  if poll =? -1 then (false, [note "calling poll\n"; note "poll"], s)
  else
    let ls := [note "calling poll\n"; note "poll returned!\n"] in
    if buff_sz =? 1 then (false, ls ++ [note "read error"; note "App Ended\n"], s)
    else if buff_sz =? 0 then (false, ls ++ [note "eof\n"; note "App Ended\n"], s)
    else (true, ls ++ [("read %d bytes\n"%string, [Int buff_sz])], s).
Definition poll_main (rounds : list (Z * Z)) : ending * list line :=
  let '(e, ls, _) := run_loop poll_round rounds tt in (e, note "App Started\n" :: ls).

(** ** [kqueue.cc] *)

(** What [kevent] returns, and the flags and the identity in [ke]. *)
Record kwake := mkKwake { kw_ret : Z; kw_error : bool; kw_eof : bool; kw_ident : Z; kw_filter : Z }.
(** [count], [packet_count], the capture, and the length in [current_hdr]. *)
Record kstate := mkKstate { count : Z; packet_count : Z; kpc : capture; hdr_len : Z }.

Definition kqueue_round (w : kwake) (s : kstate) : bool * list line * kstate :=
  if kw_ret w =? -1 then (false, [note "kevent failed"], s)
  else if kw_ret w =? 0 then
    let s := mkKstate (count s + 1) (packet_count s) (kpc s) (hdr_len s) in
    if count s =? 50 then (false, [note "timeout\n"], s)
    else (true, [note "timeout\n"; ("%lu %d\n"%string, [Int (kw_ident w); Int (kw_filter w)])], s)
  else if kw_error w then (false, [note "flags had error\n"], s)
  else if kw_eof w then (false, [note "premature end of file!\n"], s)
  else
    let '(data, pc) := pcap_next (kpc s) in
    let len := default (hdr_len s) data in
    let s := mkKstate (count s) (packet_count s + 1) pc len in
    (match data with Some _ => true | None => false end,
     [("packet %d of length %d\n"%string, [Int (packet_count s); Int len])], s).

(** A capture that does not open is a null pointer for [pcap_setnonblock]. *)
Definition kqueue_main (open_offline : option capture) (nonblock : Z) (errbuf : list Z) (wakes : list kwake)
    : res (ending * list line) :=
  match open_offline with
  | None => UB
  | Some pc =>
      let '(e, ls, _) := run_loop kqueue_round wakes (mkKstate 0 0 pc 0) in
      Ok (e, (if negb (nonblock =? 0) then [("%s\n"%string, [Str errbuf])] else []) ++ ls)
  end.

(** ** [OpenIntf] of [epoll-live.cc] and [kqueue-live.cc] *)

(** What the calls of libpcap return; [geterr] the text of the last error. *)
Record pcap_calls := mkCalls {
  created : bool; set_snaplen : Z; set_promisc : Z; set_timeout : Z; set_buffer_size : Z; activate : Z;
  setnonblock : Z; selectable_fd : Z; geterr : list Z
}.
Definition PCAP_ERROR : Z := -1.

(** The steps up to the activation, with the message of each. *)
Definition steps (c : pcap_calls) (have_linux : bool) : list (bool * string) :=
  [(negb (set_snaplen c =? 0), "pcap_set_snaplen: %s\n"%string); (negb (set_promisc c =? 0), "pcap_set_promisc: %s\n"%string);
   (negb (set_timeout c =? 0), "pcap_set_timeout: %s\n"%string); (negb (set_buffer_size c =? 0), "pcap_set_buffer_size: %s\n"%string);
   (negb (activate c =? 0), "pcap_activate: %s\n"%string)] ++
  (if have_linux then [(setnonblock c <? 0, "pcap_setnonblock: %s\n"%string)] else []).
Fixpoint first_failure (l : list (bool * string)) : option string :=
  match l with [] => None | (failed, msg) :: l => if failed : bool then Some msg else first_failure l end.

(** [pcap_geterr(pd)] of the null pointer that [pcap_create] returned is undefined. *)
Definition epoll_OpenIntf (c : pcap_calls) (have_linux : bool) : res (Z * list line) :=
  if negb (created c) then UB
  else match first_failure (steps c have_linux) with
       | Some msg => Ok (-1, [(msg, [Str (geterr c)])])
       | None => if selectable_fd c =? PCAP_ERROR then Ok (-1, [("pcap_get_selectable_fd: %s\n"%string, [Str (geterr c)])])
                 else Ok (selectable_fd c, [])
       end.
Definition kqueue_OpenIntf (c : pcap_calls) (have_linux : bool) : res (Z * list line) :=
  if negb (created c) then UB
  else match first_failure (steps c have_linux) with
       | Some msg => Ok (-1, [(msg, [Str (geterr c)])])
       | None => Ok (selectable_fd c, [])
       end.

(** ** The live loops: they are never left but for the two breaks of [kqueue-live.cc] *)

Definition EPOLLIN : Z := 1.
Definition EPOLLERR : Z := 8.
Definition EPOLLHUP : Z := 16.

(** A round: what [epoll_wait] returns (-1, or the events of the one descriptor), and the
    length of the packet that [pcap_next] finds, if any. *)
Definition epoll_event (ev : Z) (packet : option Z) (len : Z) : list line * Z :=
  if (ev =? EPOLLERR) || (ev =? EPOLLHUP) then ([note "epoll had an error\n"], len)
  else if ev =? EPOLLIN then
    let len := default len packet in ([packet_of_length len], len)
  else ([], len).
Definition epoll_round (w : option (list Z) * option Z) (len : Z) : bool * list line * Z :=
  let ls := [note "Waiting for data from queue\n"] in
  match w.1 with
  | None => (true, ls ++ [note "epoll failed"], len)
  | Some [] => (true, ls ++ [note "timeout\n"], len)
  | Some events =>
      let '(ls', len) := foldl (fun '(acc, len) ev => let '(l, len) := epoll_event ev w.2 len in (acc ++ l, len)) ([], len) events in
      (true, ls ++ ls', len)
  end.
Definition epoll_main (c : pcap_calls) (have_linux : bool) (version : list Z)
    (rounds : list (option (list Z) * option Z)) : res (Z * (ending * list line)) :=
  let first := ("Using pcap library %s\n"%string, [Str version]) in
  let! (fd, ls) := epoll_OpenIntf c have_linux in
  if fd =? -1 then Ok (1, (Left_, first :: ls ++ [note "Got bad fd, giving up\n"]))
  else
    let '(e, ls', _) := run_loop epoll_round rounds 0 in
    Ok (0, (e, first :: ls ++ ("Using fd %d\n"%string, [Int fd]) :: ls')).

(** [ke] is still what was registered: its flags are [EV_ADD] in every round, so neither
    break is taken. *)
Definition kqueue_live_round (ke_flags : bool * bool) (w : Z * option Z) (len : Z) : bool * list line * Z :=
  if w.1 =? -1 then (true, [note "kevent failed"], len)
  else if w.1 =? 0 then (true, [note "timeout\n"], len)
  else
    let ls := [("%d interfaces ready\n"%string, [Int w.1])] in
    if ke_flags.1 then (false, ls ++ [note "flags had error\n"], len)
    else if ke_flags.2 then (false, ls ++ [note "premature end of file!\n"], len)
    else let len := default len w.2 in (true, ls ++ [packet_of_length len], len).
Definition kqueue_live_main (c : pcap_calls) (have_linux : bool) (version : list Z) (rounds : list (Z * option Z))
    : res (ending * list line) :=
  let! (fd, ls) := kqueue_OpenIntf c have_linux in
  let ke_flags := (false, false) in
  let '(e, ls', _) := run_loop (kqueue_live_round ke_flags) rounds 0 in
  Ok (e, ("Using pcap library %s\n"%string, [Str version]) :: ls ++ ("Using fd %d\n"%string, [Int fd]) :: ls').

(** ** What the capture programs print *)

(** The lengths of the packets among the lines. *)
Definition lengths (ls : list line) : list Z :=
  omap (fun l => match l with
                 | (fmt, [Int n]) => if bool_decide (fmt = "got packet of length %d\n"%string \/ fmt = "packet of length %d\n"%string)
                                     then Some n else None
                 | _ => None
                 end) ls.

Lemma lengths_app l1 l2 : lengths (l1 ++ l2) = lengths l1 ++ lengths l2.
Proof. apply omap_app. Qed.

(** A callback that dispatches one packet when it is called without an error. *)
Definition reads {W} (fine : W -> Prop) (callback : W -> capture -> bool * list line * capture) : Prop :=
  forall w pd, fine w ->
    match packets pd with
    | len :: rest => exists ls, callback w pd = (true, ls, mkCapture rest (damaged pd)) /\ lengths ls = [len]
    | [] => exists ls, callback w pd = (damaged pd, ls, pd) /\ lengths ls = []
    end.

Lemma reads_all {W} fine (callback : W -> capture -> bool * list line * capture) wakes pd :
  reads fine callback -> Forall fine wakes -> damaged pd = false -> (length (packets pd) < length wakes)%nat ->
  exists ls pd', run_loop callback wakes pd = (Left_, ls, pd') /\ lengths ls = packets pd.
Proof.
  intros Hr. revert pd. induction wakes as [|w wakes IH]; intros pd Hf Hd Hl; [cbn in Hl; lia|].
  apply Forall_cons in Hf as [Hw Hf]. cbn [run_loop]. specialize (Hr w pd Hw).
  destruct (packets pd) as [|len rest] eqn:Ep.
  - destruct Hr as (ls & -> & E). rewrite Hd. by exists ls, pd.
  - destruct Hr as (ls & -> & E). destruct (IH (mkCapture rest (damaged pd))) as (ls' & pd' & E' & El); [done|done|cbn in *; lia|].
    rewrite E'. exists (ls ++ ls'), pd'. split; [done|]. by rewrite lengths_app, E, El.
Qed.

(** After a damaged packet [pcap_dispatch] returns -1 for ever, and the loop is never left. *)
Lemma reads_damaged {W} fine (callback : W -> capture -> bool * list line * capture) wakes pd :
  reads fine callback -> Forall fine wakes -> damaged pd = true ->
  exists ls pd', run_loop callback wakes pd = (Waiting, ls, pd').
Proof.
  intros Hr. revert pd. induction wakes as [|w wakes IH]; intros pd Hf Hd; [by exists [], pd|].
  apply Forall_cons in Hf as [Hw Hf]. cbn [run_loop]. specialize (Hr w pd Hw).
  destruct (packets pd) as [|len rest].
  - destruct Hr as (ls & -> & E). rewrite Hd. destruct (IH pd Hf Hd) as (ls' & pd' & E'). rewrite E'. by eexists _, _.
  - destruct Hr as (ls & -> & E). destruct (IH (mkCapture rest (damaged pd)) Hf Hd) as (ls' & pd' & E'). rewrite E'. by eexists _, _.
Qed.

Ltac reader :=
  intros w [[|len rest] []] Hw; cbn; eexists; (split; [reflexivity|reflexivity]).

Lemma poll_callback_reads : reads (fun _ => True) pcap_poll_callback.
Proof. reader. Qed.
Lemma idle_callback_reads : reads (fun _ => True) pcap_idle_callback.
Proof. reader. Qed.
Lemma uv_pcap_reads : reads (fun _ => True) uv_pcap_callback.
Proof. reader. Qed.
Lemma libevent_reads : reads (fun _ => True) libevent_cb.
Proof. reader. Qed.
Lemma asio_reads : reads (fun w => w.1 = false) read_handler.
Proof. intros [err msg] [[|len rest] []] Hw; cbn in *; subst err; cbn; eexists; (split; [reflexivity|reflexivity]). Qed.
Lemma poll_pcap_reads : reads (fun p => p <> -1) poll_pcap_round.
Proof.
  intros w [[|len rest] []] Hw; unfold poll_pcap_round; rewrite (proj2 (Z.eqb_neq _ _)) by done; cbn;
    eexists; (split; [reflexivity|reflexivity]).
Qed.

(** [r] left the loop and printed the packets of [pd]. *)
Definition prints_packets (r : ending * list line) (pd : capture) : Prop := r.1 = Left_ /\ lengths r.2 = packets pd.

Lemma prints_run {W} fine (callback : W -> capture -> bool * list line * capture) wakes pd pre post :
  reads fine callback -> Forall fine wakes -> damaged pd = false -> (length (packets pd) < length wakes)%nat ->
  lengths pre = [] -> lengths post = [] ->
  prints_packets (before pre (after (run_started true callback wakes pd) post)) pd.
Proof.
  intros Hr Hf Hd Hl Hpre Hpost. destruct (reads_all fine callback wakes pd Hr Hf Hd Hl) as (ls & pd' & E & El).
  unfold run_started, before, after, prints_packets. rewrite E. cbn. by rewrite !lengths_app, Hpre, Hpost, El, app_nil_r.
Qed.

(** C37: All the capture programs read a sound capture the same way: given enough wakeups,
    libuv's poll and idle handles, [uv-pcap.cc], libevent, asio and [poll] print the
    length of every packet once, in the order of the file, and leave their loop. *)
Theorem captures_printed pd uvs strerror wakes idles ticks asios polls fd live method :
  damaged pd = false ->
  (length (packets pd) < length wakes)%nat -> (length (packets pd) < length idles)%nat ->
  (length (packets pd) < length ticks)%nat -> (length (packets pd) < length asios)%nat ->
  (length (packets pd) < length polls)%nat ->
  Forall (fun w => w.1 = false) asios -> Forall (fun p => p <> -1) polls ->
  prints_packets (main (inl pd) live fd strerror 0 0 uvs wakes idles [] (chars "p")) pd /\
  prints_packets (main (inl pd) live fd strerror 0 0 uvs wakes idles [] (chars "i")) pd /\
  prints_packets (uv_pcap_main (inl pd) 0 wakes) pd /\
  (exists r, libevent_main (Some pd) method ticks = Ok r /\ prints_packets r pd) /\
  prints_packets (asio_main (inl pd) asios).2 pd /\
  (exists r, poll_pcap_main (Some pd) polls = Ok r /\ prints_packets r pd).
Proof.
  intros Hd H1 H2 H3 H4 H5 Ha Hp. assert (forall A (l : list A), Forall (fun _ => True) l) as HT by (intros; by apply Forall_true).
  split; [by apply (prints_run (fun _ => True) pcap_poll_callback); [apply poll_callback_reads|..]|]. split.
  { destruct (reads_all _ _ idles pd idle_callback_reads (HT _ _) Hd H2) as (ls & pd' & E & El).
    assert (main (inl pd) live fd strerror 0 0 uvs wakes idles [] (chars "i") =
      before [note "calling uv_idle_start for pcap\n"; note "calling uv_run for idle loop\n"]
        (run_started true pcap_idle_callback idles pd)) as -> by reflexivity.
    unfold run_started, before. rewrite E. by split. }
  split; [by apply (prints_run (fun _ => True) uv_pcap_callback); [apply uv_pcap_reads|..]|].
  split; [eexists; split; [reflexivity|by apply (prints_run (fun _ => True) libevent_cb); [apply libevent_reads|..]]|]. split.
  - destruct (reads_all _ _ asios pd asio_reads Ha Hd H4) as (ls & pd' & E & El).
    unfold asio_main, run_started. rewrite E. by split.
  - destruct (reads_all _ _ polls pd poll_pcap_reads Hp Hd H5) as (ls & pd' & E & El).
    unfold poll_pcap_main. rewrite E. eexists. split; [reflexivity|]. by split.
Qed.

Lemma captures_printed_witness :
  prints_packets (uv_pcap_main (inl (mkCapture [60; 1514] false)) 0 (replicate 3 (0, 1))) (mkCapture [60; 1514] false).
Proof.
  apply (captures_printed (mkCapture [60; 1514] false) (fun _ => []) [] (replicate 3 (0, 1)) (replicate 3 tt) (replicate 3 tt)
    (replicate 3 (false, [])) (replicate 3 1) 0 (inr []) []); try (cbn; lia); try reflexivity; by repeat constructor.
Defined.

(** On a damaged capture none of them comes to an end. *)
Theorem damaged_capture_loops pd wakes ticks polls :
  damaged pd = true -> Forall (fun p => p <> -1) polls ->
  (uv_pcap_main (inl pd) 0 wakes).1 = Waiting /\ (run_started true libevent_cb ticks pd).1 = Waiting /\
  (exists r, poll_pcap_main (Some pd) polls = Ok r /\ r.1 = Waiting).
Proof.
  intros Hd Hp. assert (forall A (l : list A), Forall (fun _ => True) l) as HT by (intros; by apply Forall_true).
  destruct (reads_damaged _ _ wakes pd uv_pcap_reads (HT _ _) Hd) as (l1 & p1 & E1).
  destruct (reads_damaged _ _ ticks pd libevent_reads (HT _ _) Hd) as (l2 & p2 & E2).
  destruct (reads_damaged _ _ polls pd poll_pcap_reads Hp Hd) as (l3 & p3 & E3).
  unfold uv_pcap_main, poll_pcap_main, run_started, before, after. cbn [Z.eqb]. rewrite E1, E2, E3. cbn.
  split; [done|]. split; [done|]. by eexists.
Qed.

(** ** Reading a file by blocks of 500 *)

(** What [read(fd, buff, 500)] returns for a file of [n] bytes, round by round. *)
Fixpoint file_reads (rounds : nat) (n : Z) : list Z :=
  match rounds with
  | O => []
  | S k => Z.min 500 n :: file_reads k (n - Z.min 500 n)
  end.

(** The bytes that the lines report. *)
Definition bytes_read (ls : list line) : Z :=
  foldr Z.add 0 (omap (fun l => match l with
                                | (fmt, [Int n]) => if bool_decide (fmt = "read %d bytes\n"%string) then Some n else None
                                | _ => None
                                end) ls).

Lemma bytes_read_app l1 l2 : bytes_read (l1 ++ l2) = bytes_read l1 + bytes_read l2.
Proof.
  unfold bytes_read. rewrite omap_app.
  match goal with |- foldr _ _ (?x ++ ?y) = _ => generalize x, y end.
  intros x y. induction x as [|z x IH]; cbn in *; lia.
Qed.

(** One block that is neither empty nor a single byte. *)
Lemma poll_round_block r : r <> 0 -> r <> 1 ->
  poll_round (1, r) tt = (true, [note "calling poll\n"; note "poll returned!\n"; ("read %d bytes\n"%string, [Int r])], tt).
Proof. intros H0 H1. unfold poll_round. cbn. by rewrite (proj2 (Z.eqb_neq r 1) H1), (proj2 (Z.eqb_neq r 0) H0). Qed.

(** [poll.cc] reads a file to its end, but for one whose last block has a single byte:
    that is taken for an error (the test for -1 has lost its sign). *)
Theorem poll_reads_file n rounds :
  0 <= n -> n < 500 * (Z.of_nat rounds - 1) ->
  exists ls, run_loop poll_round ((fun r => (1, r)) <$> file_reads rounds n) tt = (Left_, ls, tt) /\
    bytes_read ls = (if n mod 500 =? 1 then n - 1 else n) /\
    (n mod 500 = 1 <-> note "read error" ∈ ls).
Proof.
  revert n. induction rounds as [|k IH]; intros n H0 Hn; [lia|]. cbn [file_reads fmap list_fmap run_loop].
  destruct (decide (500 <= n)) as [Hbig|Hsmall].
  - rewrite Z.min_l, poll_round_block by lia. destruct (IH (n - 500)) as (ls & E & Eb & Ee); [lia|lia|].
    assert ((n - 500) mod 500 = n mod 500) as Em by dlia.
    change (map (fun r => (1, r)) (file_reads k (n - 500))) with ((fun r => (1, r)) <$> file_reads k (n - 500)).
    rewrite E. eexists. split; [reflexivity|]. rewrite Em in *. split.
    + change (500 + bytes_read ls = if n mod 500 =? 1 then n - 1 else n). rewrite Eb.
      destruct (n mod 500 =? 1); lia.
    + rewrite Ee. set_unfold. unfold note. naive_solver congruence.
  - rewrite Z.min_r by lia. rewrite Z.mod_small by lia.
    destruct (Z.eqb_spec n 1) as [->|H1].
    { eexists. split; [reflexivity|]. split; [done|]. split; [intros _; set_solver|done]. }
    destruct (decide (n = 0)) as [->|Hne].
    { eexists. split; [reflexivity|]. split; [done|]. split; [done|]. unfold note. set_unfold. naive_solver congruence. }
    rewrite poll_round_block by done. rewrite Z.sub_diag. destruct k as [|k]; [lia|].
    eexists. split; [reflexivity|]. split; [change (n + 0 = n); lia|]. split; [done|]. unfold note. set_unfold. naive_solver congruence.
Qed.

(** A read that fails returns -1, which is neither 1 nor 0: the loop goes on for ever. *)
Theorem poll_read_error_loops rounds :
  exists ls, run_loop poll_round (replicate rounds (1, -1)) tt = (Waiting, ls, tt).
Proof. induction rounds as [|n [ls IH]]; [by exists []|]. cbn in *. rewrite IH. by eexists. Qed.

(** The two [OpenIntf] agree: a descriptor, or -1; [kqueue-live.cc] passes the -1 of
    [pcap_get_selectable_fd] on without a message. *)
Lemma OpenIntf_agree c have_linux fd ls :
  kqueue_OpenIntf c have_linux = Ok (fd, ls) ->
  exists ls', epoll_OpenIntf c have_linux = Ok (fd, ls') /\ (fd <> -1 -> ls = [] /\ ls' = []).
Proof.
  unfold kqueue_OpenIntf, epoll_OpenIntf. destruct (created c); cbn [negb]; [|done].
  destruct (first_failure (steps c have_linux)); [intros [= <- <-]; by eexists|].
  intros [= <- <-]. destruct (Z.eqb_spec (selectable_fd c) PCAP_ERROR) as [->|]; eexists; (split; [reflexivity|done]).
Qed.

(** Fifty timeouts end [kqueue.cc]. *)
Lemma kqueue_gives_up pc n s :
  count s = 50 - Z.of_nat n -> (0 < n)%nat -> kpc s = pc ->
  (run_loop kqueue_round (replicate n (mkKwake 0 false false 0 0)) s).1.1 = Left_.
Proof.
  revert s. induction n as [|n IH]; intros s Hc Hn Hp; [lia|]. cbn [replicate run_loop]. unfold kqueue_round at 1. cbn.
  destruct (Z.eqb_spec (count s + 1) 50) as [E|E]; [done|].
  specialize (IH (mkKstate (count s + 1) (packet_count s) (kpc s) (hdr_len s))).
  destruct (run_loop _ _ _) as [[e l] z]. cbn in *. apply IH; lia || done.
Qed.
