(* ===== verification/ConsoleApp.v ===== *)
(** * [ConsoleApplication1.cpp]: the programs over the managers

    Each function makes a manager, asks it once, prints what it got and destroys the
    manager.  What is printed is the list of lines, those of the manager's own included;
    [std::cout] of several texts with [std::endl] is one line. *)

From stdpp Require Import strings gmap sorting.
From S2P Require Import Prelude Ttl Ares Time Windows Sockets SocketsProps EventLog EventLogProps Processes Wmi WmiProps.

Definition cout (parts : list (list Z)) : line := ("%s\n"%string, [Str (mjoin parts)]).

(** ** The lines *)

Definition account_lines (user : AccountInfo) : list line :=
  [cout []; cout [chars "name:      "; Wmi.name user]; cout [chars "full_name: "; full_name user];
   cout [chars "sid:       "; sid user]; cout [chars "home:      "; home_directory user]].

Definition entry_line (res : LogEntry) : line :=
  ("%lld (%lld): %s: %s\n"%string, [Int (ts res); Int (priority res); Str (source res); Str (message res)]).

Definition log_lines (result : list LogEntry) : list line :=
  ("got %llu results from event log\n\n"%string, [Int (Z.of_nat (length result))]) :: (entry_line <$> result).

Definition socket_text (l : socket_line) : line :=
  match l with
  | Tcp_line process pid family protocol loc local_port remote remote_port status =>
      ("%s (%5lld)  %lld %lld\t%s:%lld\t%s:%lld\t%s\n"%string,
       [Str process; Int pid; Int family; Int protocol; Str loc; Int local_port; Str remote; Int remote_port; Str status])
  | Udp_line process pid family protocol loc local_port =>
      ("%s (%5lld)  %lld %lld\t%s:%lld\t*:*\n"%string,
       [Str process; Int pid; Int family; Int protocol; Str loc; Int local_port])
  end.

(** ** The programs of [WMIManager] *)

Section WmiPrograms.
Context {E : Type}.
Context (CoInitializeEx CoInitializeSecurity : E -> Z * E).
Context (CoCreateInstance : E -> (Z * Z) * E).
Context (ConnectServer : Z -> list Z -> E -> (Z * Z) * E).
Context (ExecQuery : Z -> list Z -> E -> (Z * Z) * E).
Context (SysAllocString : list Z -> E -> bool * E).
Context (GetErrorInfo : E -> option (Z * list Z) * E).
Context (Next : Z -> E -> (Z * option Z) * E).
Context (Get : Z -> list Z -> E -> (Z * value) * E).
Context (narrow_char : Z -> Z).
Notation io := (io E).

(** [WMIManager mgr;] and the end of its scope. *)
Definition with_manager (f : WMIManager -> io (list line)) : io (list line) :=
  do! (mgr, out) := new_WMIManager CoInitializeEx CoInitializeSecurity CoCreateInstance ConnectServer SysAllocString in
  do! more := f mgr in
  do! _ := delete_WMIManager mgr in
  io_ret (out ++ more).

Definition users (fuel : nat) : io (list line) :=
  with_manager (fun mgr =>
    do! (users, out) := GetUserData ExecQuery SysAllocString GetErrorInfo Next Get narrow_char fuel mgr in
    io_ret (out ++ ("got %llu users\n\n"%string, [Int (Z.of_nat (length users))]) :: mjoin (account_lines <$> users))).

Definition os_version (fuel : nat) : io (list line) :=
  with_manager (fun mgr =>
    do! (version, out) := GetOSVersion ExecQuery SysAllocString GetErrorInfo Next Get narrow_char fuel mgr in
    io_ret (out ++ [cout [version]])).

Definition wmi_logs (fuel : nat) : io (list line) :=
  with_manager (fun mgr =>
    do! (result, out) := GetLogs ExecQuery SysAllocString GetErrorInfo Next Get narrow_char fuel mgr in
    io_ret (out ++ log_lines result)).

(** The manager around a computation that leaves as it found what it was given. *)
Lemma with_manager_ok (f : WMIManager -> io (list line)) s (Q : list line -> Prop) :
  reachable ConnectServer -> makes_locator CoCreateInstance -> sys_ok s ->
  (forall m s1, sys_ok s1 -> cimv2_service m = 0 \/ cimv2_service m ∈ handles s1 ->
    wp (f m) s1 (fun r s2 => tidy s1 s2 /\ Q r)) ->
  wp (with_manager f) s (fun r s' => tidy s s' /\ exists setup more, setup ∈ setup_lines /\ r = setup ++ more /\ Q more).
Proof.
  intros Hr Hl Hs Hf. apply wp_bind. eapply wp_mono; [by apply (new_WMIManager_ok CoInitializeEx CoInitializeSecurity CoCreateInstance ConnectServer SysAllocString s Hr Hl Hs)|].
  intros [m out] s1 [B1 Hout]. cbn [fst snd] in B1, Hout.
  assert (sys_ok s1) as Hs1 by (destruct B1 as [[_ O]|(?&?&?&?&?&?&?&_&_&_&_&_&_&_&O)]; apply O).
  apply wp_bind. eapply wp_mono; [apply Hf; [done|]|].
  { destruct B1 as [[-> _]|(loc & c & d & ? & ? & ? & ? & -> & _ & _ & _ & _ & _ & _ & O)]; [by left|].
    right. rewrite (ow_handles _ _ _ _ O). cbn. right. left. }
  intros r s2 [T HQ]. assert (built s m s2) as B2.
  { destruct B1 as [[-> O]|(loc & c & d & r1 & r2 & r3 & r4 & -> & Hl0 & Hc & Hd & D2 & D3 & D4 & O)].
    - left. split; [done|]. by eapply tidy_owns.
    - right. exists loc, c, d, r1, r2, r3, r4. split_and!; try done. by eapply tidy_owns. }
  apply wp_bind. eapply wp_mono; [exact (delete_WMIManager_ok m s s2 Hs B2)|]. intros [] s3 T3.
  apply wp_ret. split; [done|]. by exists out, r.
Qed.
End WmiPrograms.

(** ** The event log, the sockets and the processes *)

Section LogPrograms.
Context {L W : Type}.
Context (OpenEventLog : L -> Z * L) (CloseEventLog : Z -> L -> unit * L).
Context (ReadEventLog : Z -> Z -> Z -> Z -> L -> (list Z + Z * Z) * L).
Context (alloc : Z -> W -> bool * W).
Context (RegOpenKeyEx : list Z -> W -> (Z * option Z) * W).
Context (RegQueryValueEx : Z -> list Z -> Z -> W -> (Z * option (list Z)) * W).
Context (ExpandEnvironmentStrings : list Z -> Z -> W -> (Z * list Z) * W).
Context (LoadLibraryEx : list Z -> W -> Z * W) (FreeLibrary : Z -> W -> unit * W).
Context (FormatMessage : Z -> Z -> list Z -> list Z -> W -> (list Z + Z) * W).
Context (narrow_char : Z -> Z).

Definition logs (fuel : nat) : io (L * W) (list line) :=
  do! elm := new_EventLogManager OpenEventLog in
  do! (elm, result, out) := GetLogEntries ReadEventLog alloc RegOpenKeyEx RegQueryValueEx ExpandEnvironmentStrings
                         LoadLibraryEx FormatMessage narrow_char fuel elm in
  do! more := delete_EventLogManager CloseEventLog FreeLibrary elm in
  io_ret (out ++ log_lines result ++ more).
End LogPrograms.

Section OtherPrograms.
Context {E : Type}.
Context (snapshot : io E (list Socket)) (GetFromEnum : io E (list process_line)).
Context (GetFromSnapshot : io E (option (list process_line * Z))).

(** [sockets()] around the sorting and the lines of [Sockets]. *)
Definition sockets_program : io E (list line) :=
  do! result := snapshot in
  io_ret (("got %llu sockets\n\n"%string, [Int (Z.of_nat (length result))]) :: (socket_text <$> sockets result)).

Definition processes_enum : io E (list process_line) := GetFromEnum.
Definition processes_snapshot : io E (option (list process_line * Z)) := GetFromSnapshot.
Definition main : io E Z := do! _ := processes_snapshot in io_ret 0.
End OtherPrograms.

(** ** What they do *)

(** C32: [wmi_logs] as a whole, where the services can be reached or COM fails before
    ([reachable], [makes_locator]), queries succeed and dates are in range ([answers]), and
    never more than [N] events are left.  The program ends; it prints why it has no
    manager, if it has none; that it got the enumerator, if it did, and the number 2 for
    each event; then the number of entries and a line for each.  The manager, its
    services, its strings, the query and every event are given back.  A connection or a
    query that fails is [WMIManager_connection_fails] and [failed_query_ub]. *)
Theorem wmi_logs_balanced {E} init security (create : E -> (Z * Z) * E) connect query alloc error next get narrow
    (remaining : E -> nat) N (s : sys E) :
  reachable connect -> makes_locator create -> answers query alloc next get remaining ->
  (forall e, (remaining e <= N)%nat) -> sys_ok s ->
  exists setup progress result s',
    wmi_logs init security create connect query alloc error next get narrow (S N) s
      = Ok (setup ++ progress ++ log_lines result, s') /\ tidy s s' /\ (length result <= N)%nat /\
    setup ∈ setup_lines /\ (result = [] /\ progress = [] \/ progress = log_progress (length result)).
Proof.
  intros Hr Hl Ha HN Hs.
  destruct (wp_elim _ _ _ (with_manager_ok init security create connect alloc
    (fun mgr => do! (result, out) := GetLogs query alloc error next get narrow (S N) mgr in
                io_ret (out ++ log_lines result)) s
    (fun r => exists result progress, r = progress ++ log_lines result /\ (length result <= N)%nat /\
       (result = [] /\ progress = [] \/ progress = log_progress (length result))) Hr Hl Hs ltac:(
      intros m s1 Hs1 Hm; apply wp_bind; eapply wp_mono;
      [apply (GetLogs_ok query alloc error next get narrow remaining Ha (S N) m s1 Hs1 Hm); specialize (HN (env s1)); lia|];
      intros [result out] s2 (T2 & L2 & P2); cbn [fst snd] in L2, P2; apply wp_ret; split; [done|];
      exists result, out; split; [done|]; specialize (HN (env s1)); split; [lia|];
      destruct P2 as [[= -> ->]|P2]; [by left|by right])))
    as (r & s' & E1 & T & setup & more & Hset & -> & result & progress & -> & HL & HP).
  by exists setup, progress, result, s'.
Qed.

(** A log of two events at most. *)
Definition two_left (p : Z) (e : nat) : (Z * option Z) * nat :=
  match e with O => ((WBEM_S_FALSE, None), O) | S O => ((0, Some 40), O) | _ => ((0, Some 41), 1%nat) end.

Lemma two_left_answers : answers demo_query demo_alloc two_left demo_get (fun e => Nat.min e 2).
Proof.
  pose proof demo_answers as D. split; try apply D.
  - intros p [|[|e]]; cbn; [done|by intros [?|?]..].
  - intros p [|[|e]]; cbn; [done|..]; intros _ _; (eexists; split; [done|lia]).
  - intros o prop e. cbn. lia.
  - intros svc q e. cbn. lia.
  - intros str e. cbn. lia.
  - intros p [|[|e]]; cbn; lia.
Qed.

Lemma wmi_logs_balanced_witness :
  exists r s', wmi_logs demo_ok demo_ok demo_locator demo_connect demo_query demo_alloc demo_error two_left demo_get id 3
      (demo_com 2 []) = Ok (r, s') /\ tidy (demo_com 2 []) s' /\
    r = log_progress 2 ++ log_lines (replicate 2 (mkLogEntry 1 3 (chars "SourceName") (chars "Message"))).
Proof.
  destruct (wmi_logs_balanced demo_ok demo_ok demo_locator demo_connect demo_query demo_alloc demo_error two_left demo_get id
    (fun e => Nat.min e 2) 2 (demo_com 2 [])) as (setup & progress & result & s' & E & T & _).
  - intros loc name e. unfold demo_connect. split; [done|]. cbn. by destruct (is_cimv2 name).
  - done.
  - exact two_left_answers.
  - intros e. lia.
  - apply demo_com_ok.
  - eexists _, s'. split; [exact E|]. split; [exact T|]. revert E. generalize (setup ++ progress ++ log_lines result).
    intros r E. vm_compute in E. by injection E as <- _.
Defined.

(** [os_version] on the same system: the two strings of each system are never freed. *)
Example os_version_leaks :
  exists s', os_version demo_ok demo_ok demo_locator demo_connect demo_query demo_alloc demo_error two_left demo_get id 3
      (demo_com 1 []) = Ok ([("%s\n"%string, [Str (chars "Caption Version")])], s') /\
    handles s' = [] /\ length (elements (arrays s')) = 2%nat.
Proof. eexists. split; [vm_compute; reflexivity|]. by vm_compute. Qed.

(** ** The event log *)

Lemma FreeLibraries_tidy {L W} (FreeLibrary : Z -> W -> unit * W) (l : list (list Z * Z)) (s : sys (L * W)) :
  wp (io_map (fun kv => on_windows (FreeLibrary kv.2)) l) s (fun _ s' => tidy s s').
Proof.
  revert s. induction l as [|kv l IH]; intros s; cbn [io_map]; [by apply wp_ret, tidy_refl|].
  apply wp_bind, wp_call. intros s1 _ T1. apply wp_bind. eapply wp_mono; [apply IH|]. intros r s2 T2.
  apply wp_ret. by eapply tidy_trans.
Qed.

Lemma logs_ok {L W} openlog closelog (read : Z -> Z -> Z -> Z -> L -> (list Z + Z * Z) * L) alloc openkey query
    expand library free (format : Z -> Z -> list Z -> list Z -> W -> (list Z + Z) * W) narrow (remaining : L -> nat)
    N (s : sys (L * W)) :
  registry_ok openkey query -> log_ok read remaining -> (forall l, (remaining l <= N)%nat) -> sys_ok s ->
  wp (logs openlog closelog read alloc openkey query expand library free format narrow (S N)) s (fun r s' =>
    tidy s s' /\ exists failure result dlls, r = failure ++ log_lines result ++ [shutdown_line dlls] /\
      (length result <= 1)%nat /\ Forall (entry_ok narrow) result /\ printed_ok failure /\ (result = [] -> failure = [])).
Proof.
  intros Hreg Hlog HN Hs. unfold logs, new_EventLogManager. apply wp_bind, wp_bind, wp_call. intros s1 _ T1. apply wp_ret.
  apply wp_bind. eapply wp_mono.
  { apply (GetLogEntries_ok read alloc openkey query expand library format narrow remaining (S N) _ s1 Hreg Hlog);
      [by eapply tidy_ok|done|]. specialize (HN (env s1).1). lia. }
  intros [[m es] out] s2 (T2 & H2). apply wp_bind. unfold delete_EventLogManager.
  apply wp_bind, wp_call. intros s3 _ T3. apply wp_bind. eapply wp_mono; [apply FreeLibraries_tidy|]. intros u s4 T4.
  apply wp_ret, wp_ret. split; [|by exists out, es, (size (dll_cache m))].
  eapply tidy_trans; [exact T1|]. eapply tidy_trans; [exact T2|]. by eapply tidy_trans.
Qed.



(** The same log without a key for the source: undefined, as [logs_ends] says. *)
Lemma logs_without_key :
  logs (fun l => (1, l)) (fun _ l => (tt, l)) demo_read EventLogProps.demo_alloc (fun _ w => ((2, None), w)) demo_value
    demo_expand demo_library (fun _ w => (tt, w)) demo_format id 4 demo_state = UB.
Proof. vm_compute. reflexivity. Qed.

(** ** The sockets *)

(** [sockets()] with the tables of Windows: it returns whatever Windows answers, with the
    lines of all sockets of [snapshot], each once, in a sorted order. *)
Theorem sockets_program_lines {E} (TcpTable : bool -> Z -> Z -> E -> (Z * Z * list tcp_row) * E) UdpTable n4
    OpenProcess FileName (Ipv4 : list Z -> list Z) (s : sys E) :
  (forall a, (length (Ipv4 a) < 16)%nat) -> sys_ok s ->
  exists result l s' hs, snapshot TcpTable UdpTable n4 OpenProcess FileName Ipv4 s = Ok (result, s') /\
    sockets_program (snapshot TcpTable UdpTable n4 OpenProcess FileName Ipv4) s =
      Ok (("got %llu sockets\n\n"%string, [Int (Z.of_nat (length l))]) :: (socket_text ∘ print_socket <$> l), s') /\
    clean_but s s' hs /\ Forall (socket_ok Sockets.AF_INET) l /\ l ≡ₚ result /\ StronglySorted socket_le l.
Proof.
  intros H4 Hs.
  destruct (snapshot_ok TcpTable UdpTable n4 OpenProcess FileName Ipv4 H4 s Hs) as (socks & s' & hs & E1 & C & F & _).
  exists socks, (merge_sort socket_le socks), s', hs. unfold sockets_program. rewrite (io_bind_Ok _ _ _ _ _ E1).
  pose proof (merge_sort_Permutation socket_le socks) as P. split; [exact E1|]. split.
  - unfold sockets, io_ret. cbn [app]. by rewrite (Permutation_length P), list_fmap_compose.
  - split; [done|]. split; [by rewrite P|]. split; [done|]. apply StronglySorted_merge_sort; apply _.
Qed.
