(* ===== verification/KqueueFifos.v ===== *)
(** * [kqueue-fifos.cc]: a kernel queue, a fifo and a thread

    [main] waits with kqueue for a fifo, which other processes write to, and for a pipe,
    which a thread of its own writes to.  A run is a sequence of steps of the thread, of
    the other processes and of [main]; what [kevent] may report in a state is what its
    manual says, in any order. *)

From stdpp Require Import strings.
From S2P Require Import Prelude Windows Ttl Ares Ioloop.

(** ** The setup *)

(** [mkfifo], the descriptor of [open], [pipe]: the lines, and the status of [exit] or the
    descriptor of the fifo. *)
Definition setup (mkfifo fifo_fd pipe : Z) : list line * (Z + Z) :=
  let l1 := [note "Making fifo file\n"] in
  if negb (mkfifo =? 0) then (l1 ++ [note "Failed to create fifo file"], inl (-1))
  else
    let l2 := l1 ++ [note "Opening fifo file\n"] in
    if fifo_fd <? 0 then (l2 ++ [note "Failed to open fifo file"], inl (-1))
    else
      let l3 := l2 ++ [("Fifo FD: %d\n"%string, [Int fifo_fd]); note "Opening pipe\n"] in
      if negb (pipe =? 0) then (l3 ++ [note "Failed to open pipe"], inl (-1))
      else (l3 ++ [note "Making kqueue\n"; note "Setting up kevents\n"; note "Adding kevents to kqueue\n";
                   note "Starting thread\n"], inr fifo_fd).

(** ** The state *)

(** How the program ends: [main] returns, or [std::terminate] aborts it. *)
Inductive ending := Returned | Terminated.

(** Whether [pt] can be joined; the thread sleeps or is in [write]; the bytes in the pipe
    and in the fifo; whether the last writer of the fifo has closed it; what [main] has
    read from the pipe; [count]. *)
Record state := mkState {
  joinable : bool; writing : bool; pipe_bytes : list Z; fifo_bytes : list Z; fifo_eof : bool;
  received : list Z; timeouts : Z; out : list line; ended : option ending
}.

Record kev := mkKev { ident : Z; ev_error : bool; ev_eof : bool }.
Inductive wake := Failed | Timeout | Events (evs : list kev).

Inductive label := Thread | FifoWrite (bs : list Z) | FifoClose | Wake (w : wake).

Section Run.
(** The descriptors, and what the pipe holds. *)
Context (pipefd fifo_fd cap : Z).

Definition say (s : state) (l : line) : state :=
  mkState (joinable s) (writing s) (pipe_bytes s) (fifo_bytes s) (fifo_eof s) (received s) (timeouts s) (out s ++ [l]) (ended s).

Definition size (bs : list Z) : Z := Z.of_nat (length bs).

(** The thread: it prints and enters [write], which returns when there is room. *)
Definition data : list Z := chars "test".
Definition pipe_thread (s : state) : option state :=
  if writing s then
    if size (pipe_bytes s) + 4 <=? cap then
      Some (mkState (joinable s) false (pipe_bytes s ++ data) (fifo_bytes s) (fifo_eof s) (received s) (timeouts s) (out s) (ended s))
    else None
  else
    let s := say s (note "thread: Writing data to pipe\n") in
    Some (mkState (joinable s) true (pipe_bytes s) (fifo_bytes s) (fifo_eof s) (received s) (timeouts s) (out s) (ended s)).

(** [read(fd, buf, 10)]; the pipe blocks when it is empty, the fifo does not. *)
Definition read_pipe (s : state) : option state :=
  if size (pipe_bytes s) =? 0 then None
  else
    Some (mkState (joinable s) (writing s) (drop 10 (pipe_bytes s)) (fifo_bytes s) (fifo_eof s)
            (received s ++ take 10 (pipe_bytes s)) (timeouts s) (out s) (ended s)).
Definition read_fifo (s : state) : state :=
  mkState (joinable s) (writing s) (pipe_bytes s) (drop 10 (fifo_bytes s)) (fifo_eof s) (received s) (timeouts s)
    (out s) (ended s).

(** The loop over the events. *)
Fixpoint events_loop (evs : list kev) (s : state) : option state :=
  match evs with
  | [] => Some s
  | ke :: evs =>
      if ev_error ke then Some (say s (note "flags had error\n"))
      else if ev_eof ke then Some (say s (note "premature end of file!\n"))
      else if ident ke =? pipefd then
        match read_pipe (say s (note "Got data from pipe\n")) with
        | Some s => events_loop evs s
        | None => None
        end
      else if ident ke =? fifo_fd then events_loop evs (read_fifo (say s (note "Got data from fifo\n")))
      else events_loop evs s
  end.

(** [return 0]: the destructor of [pt] calls [std::terminate] when it can be joined. *)
Definition return_0 (s : state) : state :=
  mkState (joinable s) (writing s) (pipe_bytes s) (fifo_bytes s) (fifo_eof s) (received s) (timeouts s) (out s)
    (Some (if joinable s then Terminated else Returned)).

Definition main_round (w : wake) (s : state) : option state :=
  let s := say s (note "main: Waiting for kevent\n") in
  match w with
  | Failed => Some (return_0 (say s (note "kevent failed")))
  | Timeout =>
      let s := say s (note "timeout\n") in
      let s := mkState (joinable s) (writing s) (pipe_bytes s) (fifo_bytes s) (fifo_eof s) (received s) (timeouts s + 1) (out s) (ended s) in
      Some (if timeouts s =? 50 then return_0 s else s)
  | Events evs => events_loop evs s
  end.

(** What [kevent] may report, at most two events: a descriptor that is registered and can
    be read, once, with the end of the file when the last writer has gone; a timeout when
    there is none. *)
Definition ready (s : state) (fd : Z) : bool :=
  if fd =? pipefd then 0 <? size (pipe_bytes s) else (fd =? fifo_fd) && ((0 <? size (fifo_bytes s)) || fifo_eof s).
Definition eof_of (s : state) (fd : Z) : bool := negb (fd =? pipefd) && fifo_eof s.
Definition documented (w : wake) (s : state) : bool :=
  match w with
  | Failed => true
  | Timeout => negb (ready s pipefd) && negb (ready s fifo_fd)
  | Events evs =>
      negb (bool_decide (evs = [])) && bool_decide (NoDup (ident <$> evs)) &&
      forallb (fun ke => ready s (ident ke) && negb (ev_error ke) && Bool.eqb (ev_eof ke) (eof_of s (ident ke))) evs
  end.

(** A step; [None] when it cannot be taken. *)
Definition step (l : label) (s : state) : option state :=
  match ended s with
  | Some _ => None
  | None =>
      match l with
      | Thread => pipe_thread s
      | FifoWrite bs =>
          if 0 <? size bs then
            Some (mkState (joinable s) (writing s) (pipe_bytes s) (fifo_bytes s ++ bs) false (received s) (timeouts s) (out s) (ended s))
          else None
      | FifoClose => Some (mkState (joinable s) (writing s) (pipe_bytes s) (fifo_bytes s) true (received s) (timeouts s) (out s) (ended s))
      | Wake w => if documented w s then main_round w s else None
      end
  end.

Fixpoint run (ls : list label) (s : state) : option state :=
  match ls with [] => Some s | l :: ls => match step l s with Some s => run ls s | None => None end end.

(** [pt] has been started, and is neither joined nor detached later. *)
Definition initial (printed : list line) : state := mkState true false [] [] false [] 0 printed None.

(** ** Every run *)

Definition thread_line : string := "thread: Writing data to pipe\n".
Definition pipe_line : string := "Got data from pipe\n".

(** How often a text was printed. *)
Definition times (text : string) (ls : list line) : nat := length (filter (fun l => l.1 = text) ls).

Lemma times_snoc text ls t : times text (ls ++ [note t]) = (times text ls + (if decide (t = text) then 1 else 0))%nat.
Proof using.
  unfold times. rewrite filter_app, length_app, filter_cons. cbn [fst note].
  rewrite filter_nil. match goal with |- (?x + _ = ?y + _)%nat => change y with x end.
  repeat case_decide; cbn [length]; lia || congruence.
Qed.

(** The bytes of so many writes of the thread, and of those that are finished. *)
Definition writes (n : nat) : list Z := mjoin (replicate n data).
Definition written (s : state) : list Z := writes (times thread_line (out s) - (if writing s then 1 else 0)).

Lemma writes_snoc n : writes n ++ data = writes (S n).
Proof using. unfold writes. rewrite replicate_S_end, join_app. cbn [mjoin list_join]. by rewrite app_nil_r. Qed.

(** No byte of the pipe is lost, changed or made up, each read brings 10 at most; the pipe
    and the count keep their bounds while [main] runs. *)
Record good (s : state) : Prop := mkGood {
  g_thread : joinable s = true /\ (writing s = true -> (1 <= times thread_line (out s))%nat) /\ ended s <> Some Returned;
  g_bytes : received s ++ pipe_bytes s = written s;
  g_pipe : size (pipe_bytes s) <= cap;
  g_reads : (times pipe_line (out s) <= length (received s) <= 10 * times pipe_line (out s))%nat;
  g_timeouts : 0 <= timeouts s <= 50 /\ (ended s = None -> timeouts s < 50)
}.

(** A line of [main] that is neither of the two. *)
Lemma good_say s t : good s -> t <> thread_line -> t <> pipe_line -> good (say s (note t)).
Proof using.
  intros [J B P R T] H1 H2. unfold written in *.
  split; cbn [say joinable received pipe_bytes fifo_bytes timeouts ended out writing]; try done; unfold written;
    cbn [say out writing]; rewrite times_snoc, decide_False by done; rewrite Nat.add_0_r; done.
Qed.

Lemma good_pipe s s' : good s -> read_pipe (say s (note pipe_line)) = Some s' -> good s'.
Proof using.
  intros [J B P R T] E. unfold read_pipe in E. cbn [say pipe_bytes] in E.
  destruct (Z.eqb_spec (size (pipe_bytes s)) 0) as [|Hp]; [done|]. injection E as <-. unfold written, size in *.
  split; cbn [say joinable received pipe_bytes fifo_bytes timeouts ended out writing]; try done; unfold written;
    cbn [say out writing]; rewrite ?times_snoc.
  - by rewrite decide_False, Nat.add_0_r by done.
  - by rewrite decide_False, Nat.add_0_r, <- app_assoc, take_drop by done.
  - unfold size. rewrite length_drop. lia.
  - rewrite decide_True, length_app, length_take by done. lia.
Qed.

Lemma good_events evs s s' : good s -> events_loop evs s = Some s' -> good s' /\ ended s' = ended s.
Proof using.
  revert s. induction evs as [|ke evs IH]; intros s G E; cbn [events_loop] in E; [by injection E as <-|].
  destruct (ev_error ke); [injection E as <-; split; [by apply good_say|done]|].
  destruct (ev_eof ke); [injection E as <-; split; [by apply good_say|done]|].
  destruct (ident ke =? pipefd).
  - destruct (read_pipe _) as [s1|] eqn:E1; [|done]. pose proof (good_pipe _ _ G E1) as G1.
    destruct (IH _ G1 E) as [G2 E2]. split; [done|]. rewrite E2. unfold read_pipe in E1.
    destruct (_ =? 0); [done|]. by injection E1 as <-.
  - destruct (ident ke =? fifo_fd); [|by apply IH].
    apply IH in E as [G2 E2]; [by split|].
    pose proof (good_say s "Got data from fifo\n" G ltac:(done) ltac:(done)) as [J B P R T]. by split.
Qed.

(** The end of [main], with the thread running. *)
Lemma good_return s : good s -> good (return_0 s).
Proof using.
  intros [(J & W & _) B P R T]. split; try done; cbn.
  - by rewrite J.
  - destruct T. split; [lia|done].
Qed.

Lemma good_thread s s' : good s -> ended s = None -> pipe_thread s = Some s' -> good s'.
Proof using.
  intros [(J & W & En) B P R T] Ee E. unfold pipe_thread in E. unfold written in B. destruct (writing s) eqn:Ew.
  - destruct (Z.leb_spec (size (pipe_bytes s) + 4) cap) as [Hc|]; [|done]. injection E as <-. specialize (W eq_refl).
    split; try done; unfold written; cbn [joinable received pipe_bytes writing out].
    + by rewrite app_assoc, B, writes_snoc, Nat.sub_0_r, <- Nat.sub_succ_l, Nat.sub_succ, Nat.sub_0_r.
    + unfold size in *. rewrite length_app. cbn. lia.
  - injection E as <-. split; try done; unfold written;
      cbn [say joinable received pipe_bytes fifo_bytes timeouts ended out writing]; rewrite times_snoc.
    + rewrite decide_True by done. split_and!; [done|lia|done].
    + by rewrite decide_True, B, Nat.add_sub, Nat.sub_0_r by done.
    + by rewrite decide_False, Nat.add_0_r by done.
Qed.

(** Nothing is said of the fifo. *)
Lemma good_fifo s bs eof : good s ->
  good (mkState (joinable s) (writing s) (pipe_bytes s) bs eof (received s) (timeouts s) (out s) (ended s)).
Proof using. intros []. by split. Qed.

Lemma good_step l s s' : good s -> step l s = Some s' -> good s'.
Proof using.
  intros G E. unfold step in E. destruct (ended s) eqn:Ee; [done|].
  destruct l as [|bs| |w]; [by eapply good_thread|..].
  - destruct (0 <? size bs); [|done]. injection E as <-. rewrite <- Ee. by apply good_fifo.
  - injection E as <-. rewrite <- Ee. by apply good_fifo.
  - destruct (documented w s); [|done]. unfold main_round in E.
    pose proof (good_say s "main: Waiting for kevent\n" G ltac:(done) ltac:(done)) as G1.
    destruct w as [| |evs].
    + injection E as <-. by apply good_return, good_say.
    + pose proof (good_say _ "timeout\n" G1 ltac:(done) ltac:(done)) as G2. cbn [say timeouts out] in E.
      injection E as <-. pose proof (g_timeouts _ G) as [T1 T2]. specialize (T2 Ee).
      destruct (Z.eqb_spec (timeouts s + 1) 50).
      * destruct G2 as [(J & W & En) B P R T]. split; cbn in *; try done; [by rewrite J|by split; [lia|]].
      * destruct G2 as [J B P R T]. split; cbn in *; try done. split; [lia|intros; lia].
    + by apply good_events in E as [? _].
Qed.

(** The states after the setup. *)
Definition started : state := initial (setup 0 fifo_fd 0).1.

Lemma good_started : 0 <= cap -> 0 <= fifo_fd -> good started.
Proof using.
  intros Hc Hf. unfold started, setup. cbn [Z.eqb negb]. rewrite (proj2 (Z.ltb_ge _ _)) by done.
  split; try done; cbn; (split; [lia|done]) || (split_and!; done) || lia.
Qed.

Lemma good_run ls s s' : good s -> run ls s = Some s' -> good s'.
Proof using.
  revert s. induction ls as [|l ls IH]; intros s G E; cbn in E; [by injection E as <-|].
  destruct (step l s) as [s1|] eqn:E1; [|done]. eapply IH; [by eapply good_step|done].
Qed.

(** ** [main] never blocks in [read] *)

Lemma read_pipe_some s : 0 < size (pipe_bytes s) -> exists s', read_pipe s = Some s'.
Proof using. intros H. unfold read_pipe. rewrite (proj2 (Z.eqb_neq _ _)) by lia. by eexists. Qed.

Lemma events_progress evs s :
  (pipefd ∈ (ident <$> evs) -> 0 < size (pipe_bytes s)) -> NoDup (ident <$> evs) -> exists s', events_loop evs s = Some s'.
Proof using.
  revert s. induction evs as [|ke evs IH]; intros s Hp Hn; cbn [events_loop]; [by eexists|].
  cbn in Hp, Hn. apply NoDup_cons in Hn as [Hk Hn].
  destruct (ev_error ke); [by eexists|]. destruct (ev_eof ke); [by eexists|].
  destruct (Z.eqb_spec (ident ke) pipefd) as [Ek|Ek].
  - destruct (read_pipe_some (say s (note "Got data from pipe\n"))) as [s1 ->]; [apply Hp; rewrite Ek; left|].
    apply IH; [|done]. intros Hin. by rewrite <- Ek in Hin.
  - destruct (ident ke =? fifo_fd); (apply IH; [|done]); intros Hin; apply Hp; by right.
Qed.

Lemma wake_progress w s : ended s = None -> documented w s = true -> exists s', step (Wake w) s = Some s'.
Proof using.
  intros He Hd. unfold step. rewrite He, Hd. destruct w as [| |evs]; cbn [main_round]; [by eexists..|].
  cbn in Hd. apply andb_true_iff in Hd as [Hd Hr]. apply andb_true_iff in Hd as [_ Hn].
  apply bool_decide_eq_true in Hn. apply events_progress; [|done]. intros Hin. cbn.
  apply list_elem_of_fmap in Hin as (ke & Ek & Hin). rewrite forallb_forall in Hr.
  specialize (Hr ke (proj1 (list_elem_of_In _ _) Hin)). apply andb_true_iff in Hr as [Hr _]. apply andb_true_iff in Hr as [Hr _].
  rewrite <- Ek in Hr. unfold ready in Hr. rewrite Z.eqb_refl in Hr. by apply Z.ltb_lt.
Qed.

(** ** How it ends *)

Lemma events_ended evs s s' : events_loop evs s = Some s' -> ended s' = ended s /\ timeouts s' = timeouts s.
Proof using.
  revert s. induction evs as [|ke evs IH]; intros s E; cbn [events_loop] in E; [by injection E as <-|].
  destruct (ev_error ke); [by injection E as <-|]. destruct (ev_eof ke); [by injection E as <-|].
  destruct (ident ke =? pipefd).
  - destruct (read_pipe _) as [s1|] eqn:E1; [|done]. apply IH in E as [-> ->]. unfold read_pipe in E1.
    destruct (_ =? 0); [done|]. by injection E1 as <-.
  - destruct (ident ke =? fifo_fd); by apply IH in E as [-> ->].
Qed.

Lemma step_ended l s s' :
  step l s = Some s' -> ended s' <> None -> timeouts s' = 50 \/ l = Wake Failed.
Proof using.
  intros E He. unfold step in E. destruct (ended s) eqn:E0; [done|].
  destruct l as [|bs| |w].
  - unfold pipe_thread in E. destruct (writing s); [destruct (_ <=? _); [|done]|]; injection E as <-; cbn in He; congruence.
  - destruct (0 <? size bs); [|done]. injection E as <-. cbn in He. congruence.
  - injection E as <-. cbn in He. congruence.
  - destruct (documented w s); [|done]. destruct w as [| |evs]; [by right|..]; cbn in E.
    + injection E as <-. destruct (Z.eqb_spec (timeouts s + 1) 50); [by left|]. cbn in He. congruence.
    + apply events_ended in E as [E _]. rewrite E in He. cbn in He. congruence.
Qed.

Lemma run_ended ls s s' :
  run ls s = Some s' -> ended s = None -> ended s' <> None -> timeouts s' = 50 \/ Wake Failed ∈ ls.
Proof using.
  revert s. induction ls as [|l ls IH]; intros s E H0 H1; cbn in E; [injection E as <-; congruence|].
  destruct (step l s) as [s1|] eqn:E1; [|done]. destruct (ended s1) eqn:Ee.
  - destruct ls as [|l2 ls]; cbn in E; [|unfold step in E; by rewrite Ee in E].
    injection E as <-. destruct (step_ended _ _ _ E1 H1) as [?| ->]; [by left|right; left].
  - destruct (IH s1 E Ee H1) as [?|?]; [by left|by right; right].
Qed.

(** C33: Whatever the interleaving of the thread, the writers of the fifo and the kernel's
    reports: the bytes read from the pipe, followed by those still in it, are what the
    thread has written, within the pipe's capacity; [main] never blocks in [read], for any
    report; it ends by a failed call or the fiftieth timeout only, and then never by
    returning: the thread can still be joined, so that [std::terminate] aborts the program,
    and no step follows. *)
Theorem fifos_run ls s :
  0 <= cap -> 0 <= fifo_fd -> run ls started = Some s ->
  good s /\
  (ended s = None -> forall w, documented w s = true -> exists s', step (Wake w) s = Some s') /\
  (forall e, ended s = Some e ->
     e = Terminated /\ (timeouts s = 50 \/ Wake Failed ∈ ls) /\ forall l, step l s = None).
Proof using.
  intros Hc Hf E. assert (good s) as G by (eapply good_run; [by apply good_started|exact E]).
  split; [done|]. split; [intros He w; by apply wake_progress|]. intros e He. split; [|split].
  - destruct e; [|done]. by destruct (g_thread _ G) as (_ & _ & []).
  - eapply run_ended; [exact E|done|congruence].
  - intros l. unfold step. by rewrite He.
Qed.

(** ** The end of the fifo *)

(** Steps while nobody opens the fifo for writing again and [kevent] lists it first. *)
Definition fifo_first (l : label) : Prop :=
  match l with
  | FifoWrite _ => False
  | Wake (Events evs) => exists ke rest, evs = ke :: rest /\ ident ke = fifo_fd
  | _ => True
  end.

(** When the last writer of the fifo has gone, its event comes back in every round, and
    the [break] for it leaves the loop over the events: the pipe is not read any more,
    there are no timeouts, and [main] goes round until a call fails. *)
Theorem fifo_end_starves_pipe ls s s' :
  pipefd <> fifo_fd -> fifo_eof s = true -> Forall fifo_first ls -> run ls s = Some s' ->
  received s' = received s /\ pipe_bytes s `prefix_of` pipe_bytes s' /\ timeouts s' = timeouts s.
Proof using.
  intros Hne. revert s. induction ls as [|l ls IH]; intros s Hf Hl E; cbn in E; [by injection E as <-|].
  apply Forall_cons in Hl as [H1 Hl]. destruct (step l s) as [s1|] eqn:E1; [|done].
  enough (fifo_eof s1 = true /\ received s1 = received s /\ pipe_bytes s `prefix_of` pipe_bytes s1 /\ timeouts s1 = timeouts s)
    as (F1 & R1 & P1 & T1) by (destruct (IH s1 F1 Hl E) as (-> & ? & ->); split_and!; [done|by etrans|done]).
  clear IH E. unfold step in E1. destruct (ended s); [done|]. destruct l as [|bs| |w]; [| done| |].
  - unfold pipe_thread in E1. destruct (writing s); [destruct (_ <=? _); [|done]|]; injection E1 as <-; cbn; split_and!; try done; by apply prefix_app_r.
  - injection E1 as <-. cbn. split_and!; try done; by apply prefix_app_r.
  - destruct (documented w s) eqn:Ed; [|done]. destruct w as [| |evs].
    + injection E1 as <-. cbn. split_and!; try done; by apply prefix_app_r.
    + cbn in Ed. unfold ready in Ed. rewrite Z.eqb_refl, (proj2 (Z.eqb_neq fifo_fd pipefd)), Hf, orb_true_r in Ed by done.
      by rewrite Z.eqb_refl, andb_false_r in Ed.
    + destruct H1 as (ke & rest & -> & Hi). cbn [documented] in Ed. apply andb_true_iff in Ed as [_ Ed].
      cbn [forallb] in Ed. apply andb_true_iff in Ed as [Ed _]. apply andb_true_iff in Ed as [Ed Ee].
      apply andb_true_iff in Ed as [_ Er]. apply negb_true_iff in Er. apply Bool.eqb_prop in Ee.
      unfold eof_of in Ee. rewrite Hi, (proj2 (Z.eqb_neq fifo_fd pipefd)), Hf in Ee by done.
      cbn in E1. rewrite Er, Ee in E1. cbn in E1. injection E1 as <-. cbn. split_and!; try done; by apply prefix_app_r.
Qed.
End Run.

(** Two writes, a round that reads them, and fifty timeouts. *)
Definition demo_run : list label :=
  [Thread; Thread; Thread; Thread; Wake (Events [mkKev 4 false false])] ++ repeat (Wake Timeout) 50.

Lemma fifos_run_witness :
  exists s, run 4 3 65536 demo_run (started 3) = Some s /\ received s = chars "testtest" /\ ended s = Some Terminated /\
    forall l, step 4 3 65536 l s = None.
Proof.
  destruct (run 4 3 65536 demo_run (started 3)) as [s|] eqn:E; [|by vm_compute in E].
  destruct (fifos_run 4 3 65536 demo_run s ltac:(lia) ltac:(lia) E) as (_ & _ & H).
  exists s. assert (received s = chars "testtest" /\ ended s = Some Terminated) as [Hr He] by (vm_compute in E; by injection E as <-).
  split; [done|]. split; [done|]. split; [done|]. by destruct (H Terminated He) as (_ & _ & ?).
Defined.
